(** * Print Worker Core of the sushiamo desktop bridge: a shallow embedding

    The definitions below follow the TypeScript source of the print worker
    ([DesktopPrintWorker] and its helper functions) function by function,
    under the names the source gives them.  The first part of the file holds
    the definitions, the second part the properties proved about them.

    Conventions of the embedding.
    - A JavaScript number is an IEEE-754 binary64 value: [spec_float] of the
      standard library at precision 53 and maximal exponent 1024.
    - A JavaScript string is a [string]; its characters stand for the UTF-16
      code units U+0000 to U+00FF (the Latin-1 range).  A result that may
      leave that range (an upper-case form) is a list of code units.
    - A helper whose source starts with [Number(value)] or
      [String(value ?? "")] takes the coerced number or string: the coercion
      is the runtime's.  A field that may be [null] or [undefined] is an
      [option].
    - Code that talks to the network, the disk or the clock runs in a small
      state-and-exception monad over an explicit world of responses. *)

From Stdlib Require Import ZArith Lia Bool List.
From Stdlib Require Import Strings.String Strings.Ascii.
From Stdlib Require Import Floats.SpecFloat.
From stdpp Require Import base option list strings gmap.

Local Open Scope string_scope.
Local Open Scope Z_scope.

(* ===================================================================== *)
(** ** JavaScript numbers *)
(* ===================================================================== *)

Module JsNumber.

Definition prec : Z := 53.
Definition emax : Z := 1024.

Definition number : Type := spec_float.

Definition NaN : number := S754_nan.
Definition Infinity : number := S754_infinity false.

(** The number denoted by an integer literal. *)
Definition of_Z (z : Z) : number := binary_normalize prec emax z 0 false.

(** The number denoted by the decimal literal [n/d], correctly rounded. *)
Definition of_ratio (n d : Z) : number := SFdiv prec emax (of_Z n) (of_Z d).

(** [Number.isFinite(n)] *)
Definition isFinite (n : number) : bool :=
  match n with
  | S754_zero _ | S754_finite _ _ _ => true
  | S754_infinity _ | S754_nan => false
  end.

(** [Math.trunc(n)] for a finite [n], as the integer it denotes: the
    mantissa shifted by the exponent, toward zero. *)
Definition truncZ (n : number) : Z :=
  match n with
  | S754_finite s m e =>
      let a := if (0 <=? e) then Z.shiftl (Zpos m) e
               else Z.shiftr (Zpos m) (- e) in
      if s then - a else a
  | _ => 0
  end.

(** [Number.isInteger(n)] *)
Definition isInteger (n : number) : bool :=
  match n with
  | S754_zero _ => true
  | S754_finite _ m e =>
      (0 <=? e) || (Z.shiftl (Z.shiftr (Zpos m) (- e)) (- e) =? Zpos m)
  | _ => false
  end.

(** [Math.round(n)] for a finite [n], as an integer: the nearest integer,
    a tie going up. *)
Definition roundZ (n : number) : Z :=
  match n with
  | S754_finite s m e =>
      if (0 <=? e) then (if s then - Z.shiftl (Zpos m) e else Z.shiftl (Zpos m) e)
      else
        let twice := if s then - Zpos m~0 else Zpos m~0 in
        Z.shiftr (twice + Z.shiftl 1 (- e)) (- e + 1)
  | _ => 0
  end.

(** The truthiness of a number: [0], [-0] and [NaN] are falsy. *)
Definition truthy (n : number) : bool :=
  match n with
  | S754_zero _ | S754_nan => false
  | _ => true
  end.

(** A finite number with the trailing zero bits of its mantissa moved to
    the exponent: two finite numbers denote the same value exactly when
    these forms are equal. *)
Fixpoint odd_part (m : positive) (e : Z) : positive * Z :=
  match m with
  | xO m' => odd_part m' (e + 1)
  | _ => (m, e)
  end.

Definition canon (n : number) : number :=
  match n with
  | S754_zero _ => S754_zero false
  | S754_finite s m e => let '(m', e') := odd_part m e in S754_finite s m' e'
  | _ => n
  end.

Definition number_eqb (a b : number) : bool :=
  match a, b with
  | S754_zero x, S754_zero y => Bool.eqb x y
  | S754_infinity x, S754_infinity y => Bool.eqb x y
  | S754_nan, S754_nan => true
  | S754_finite s1 m1 e1, S754_finite s2 m2 e2 =>
      Bool.eqb s1 s2 && (m1 =? m2)%positive && (e1 =? e2)
  | _, _ => false
  end.

(** [a === b] on numbers: equality of values, [NaN] equal to nothing and
    the two zeros equal. *)
Definition strict_equals (a b : number) : bool :=
  match a, b with
  | S754_nan, _ | _, S754_nan => false
  | _, _ => number_eqb (canon a) (canon b)
  end.

End JsNumber.
Import JsNumber.

(* ===================================================================== *)
(** ** JavaScript strings *)
(* ===================================================================== *)

Module JsString.

(** The code unit of a character. *)
Definition code (c : ascii) : N := N_of_ascii c.

Definition in_range (lo hi : N) (c : ascii) : bool :=
  ((lo <=? code c) && (code c <=? hi))%N.

(** White space and line terminators of ECMAScript in the Latin-1 range:
    TAB, LF, VT, FF, CR, SP and NBSP.  [String.prototype.trim] and the
    regular-expression class [\s] agree on this set. *)
Definition isWhiteSpace (c : ascii) : bool :=
  in_range 9 13 c || (code c =? 32)%N || (code c =? 160)%N.

(** Letters with a lower-case form: A-Z, and the Latin-1 capitals
    U+00C0-U+00DE without the multiplication sign U+00D7. *)
Definition isUpperLetter (c : ascii) : bool :=
  in_range 65 90 c || in_range 192 214 c || in_range 216 222 c.

(** Letters whose upper-case form is one code unit of the Latin-1 range:
    a-z, and U+00E0-U+00FE without the division sign U+00F7. *)
Definition isLowerLetter (c : ascii) : bool :=
  in_range 97 122 c || in_range 224 246 c || in_range 248 254 c.

Definition lower_char (c : ascii) : ascii :=
  if isUpperLetter c then ascii_of_N (code c + 32) else c.

(** A text that may leave the Latin-1 range, as its UTF-16 code units. *)
Definition units (s : string) : list N := map code (list_ascii_of_string s).

(** The upper-case form of a character, as code units: the sharp s U+00DF
    becomes "SS", and the micro sign U+00B5 and y with diaeresis U+00FF
    become U+039C and U+0178, which lie outside the Latin-1 range. *)
Definition upper_char (c : ascii) : list N :=
  if isLowerLetter c then [code c - 32]%N
  else if (code c =? 223)%N then [83; 83]%N
  else if (code c =? 181)%N then [924]%N
  else if (code c =? 255)%N then [376]%N
  else [code c].

Fixpoint map_chars (f : ascii -> ascii) (s : string) : string :=
  match s with
  | "" => ""
  | String c r => String (f c) (map_chars f r)
  end.

Fixpoint flat_map_chars (f : ascii -> string) (s : string) : string :=
  match s with
  | "" => ""
  | String c r => f c ++ flat_map_chars f r
  end.

Fixpoint forall_chars (p : ascii -> bool) (s : string) : bool :=
  match s with
  | "" => true
  | String c r => p c && forall_chars p r
  end.

Fixpoint exists_chars (p : ascii -> bool) (s : string) : bool :=
  match s with
  | "" => false
  | String c r => p c || exists_chars p r
  end.

(** [s.toLowerCase()] and [s.toUpperCase()] *)
Definition toLowerCase (s : string) : string := map_chars lower_char s.
Definition toUpperCase (s : string) : list N :=
  List.flat_map upper_char (list_ascii_of_string s).

(** The empty string is the only falsy string. *)
Definition nonEmpty (s : string) : bool :=
  match s with "" => false | _ => true end.

(** [s || d] on strings. *)
Definition orElse (s d : string) : string :=
  if nonEmpty s then s else d.

(** Dropping the characters that satisfy [p] from the start or the end. *)
Fixpoint dropStart (p : ascii -> bool) (s : string) : string :=
  match s with
  | "" => ""
  | String c r => if p c then dropStart p r else s
  end.

Fixpoint dropEnd (p : ascii -> bool) (s : string) : string :=
  match s with
  | "" => ""
  | String c r =>
      match dropEnd p r with
      | "" => if p c then "" else String c ""
      | r' => String c r'
      end
  end.

(** [s.trim()] *)
Definition trim (s : string) : string :=
  dropEnd isWhiteSpace (dropStart isWhiteSpace s).

Definition startsWithChar (p : ascii -> bool) (s : string) : bool :=
  match s with
  | "" => false
  | String c _ => p c
  end.

(** [s.replace(/[p]+/g, r)]: every maximal run of characters that satisfy
    [p] becomes the one character [r]. *)
Fixpoint replaceRuns (p : ascii -> bool) (r : ascii) (s : string) : string :=
  match s with
  | "" => ""
  | String c t =>
      if p c then
        if startsWithChar p t then replaceRuns p r t
        else String r (replaceRuns p r t)
      else String c (replaceRuns p r t)
  end.

(** [s.replaceAll(c, r)] for a one-character pattern. *)
Definition replaceAll (c : ascii) (r : string) (s : string) : string :=
  flat_map_chars (fun x => if Ascii.eqb x c then r else String x "") s.

(** [s.slice(0, n)] *)
Fixpoint slice0 (n : nat) (s : string) : string :=
  match n, s with
  | O, _ => ""
  | _, "" => ""
  | S n', String c r => String c (slice0 n' r)
  end.

(** [s.includes(needle)] *)
Fixpoint includes (s needle : string) : bool :=
  String.prefix needle s ||
  match s with
  | "" => false
  | String _ r => includes r needle
  end.

(** [s.startsWith(p)] *)
Definition startsWith (s p : string) : bool := String.prefix p s.

(** Putting a character in front of the first piece of a split. *)
Definition consHead (c : ascii) (l : list string) : list string :=
  match l with
  | [] => [String c ""]
  | t :: ts => String c t :: ts
  end.

(** [s.split(sep)] for a one-character separator: adjacent separators give
    empty pieces, and the empty string gives one empty piece. *)
Fixpoint splitChar (p : ascii -> bool) (s : string) : list string :=
  match s with
  | "" => [""]
  | String c r => if p c then "" :: splitChar p r else consHead c (splitChar p r)
  end.

(** [s.split(/\s+/)]: the separators are the maximal runs of white space;
    a run at the start or the end leaves an empty piece there. *)
Fixpoint splitWs (s : string) : list string :=
  match s with
  | "" => [""]
  | String c r =>
      if isWhiteSpace c then
        if startsWithChar isWhiteSpace r then splitWs r else "" :: splitWs r
      else consHead c (splitWs r)
  end.

(** [l.join(sep)] *)
Fixpoint join (sep : string) (l : list string) : string :=
  match l with
  | [] => ""
  | [x] => x
  | x :: rest => x ++ sep ++ join sep rest
  end.

(** [l.join(sep)] on code units. *)
Fixpoint joinUnits (sep : list N) (l : list (list N)) : list N :=
  match l with
  | [] => []
  | [x] => x
  | x :: rest => x ++ sep ++ joinUnits sep rest
  end.

(** [sep.repeat(n)] for a one-character string. *)
Fixpoint repeatChar (c : ascii) (n : nat) : string :=
  match n with
  | O => ""
  | S n' => String c (repeatChar c n')
  end.

(** The decimal digits of a natural number, and of an integer. *)
Fixpoint digits_fuel (fuel : nat) (n : N) (acc : string) : string :=
  match fuel with
  | O => acc
  | S f =>
      let acc' := String (ascii_of_N (48 + n mod 10)) acc in
      if (n <? 10)%N then acc' else digits_fuel f (n / 10)%N acc'
  end.

Definition decimal_N (n : N) : string :=
  digits_fuel (S (N.to_nat (N.log2 n))) n "".

Definition decimal (z : Z) : string :=
  match z with
  | Zneg p => String "-" (decimal_N (Npos p))
  | _ => decimal_N (Z.to_N z)
  end.

End JsString.
Import JsString.

(* ===================================================================== *)
(** ** Numeric sanitizers *)
(* ===================================================================== *)

(** [sanitizePollMs(value)], on [n = Number(value)]. *)
Definition sanitizePollMs (n : number) : Z :=
  if negb (isFinite n) then 2500
  else Z.max 1000 (Z.min 10000 (truncZ n)).

(** [sanitizeClaimLimit(value)], on [n = Number(value)]. *)
Definition sanitizeClaimLimit (n : number) : Z :=
  if negb (isFinite n) then 5
  else Z.max 1 (Z.min 20 (truncZ n)).

(** [sanitizePrinterPort(value)], on [n = Number(value)]. *)
Definition sanitizePrinterPort (n : number) : Z :=
  if negb (isFinite n) then 9100
  else
    let port := truncZ n in
    if (1 <=? port) && (port <=? 65535) then port else 9100.

(** [sanitizePhysicalPort(value, brand)], on [parsed = Number(value)]. *)
Definition sanitizePhysicalPort (parsed : number) (brand : string) : Z :=
  if isInteger parsed && (1 <=? truncZ parsed) && (truncZ parsed <=? 65535)
  then truncZ parsed
  else if String.eqb brand "epson" then 8008 else 9100.

(* ===================================================================== *)
(** ** String sanitizers *)
(* ===================================================================== *)

(** What the sanitizers read from the machine: [os.hostname()] and
    [process.platform]. *)
Record Host := { hostname : string; platform : string }.

Definition isDash (c : ascii) : bool := Ascii.eqb c "-".

(** The class [[a-z0-9._:-]] *)
Definition isConsumerIdChar (c : ascii) : bool :=
  in_range 97 122 c || in_range 48 57 c ||
  Ascii.eqb c "." || Ascii.eqb c "_" || Ascii.eqb c ":" || Ascii.eqb c "-".

(** The class [[a-z0-9-]] *)
Definition isHostChar (c : ascii) : bool :=
  in_range 97 122 c || in_range 48 57 c || Ascii.eqb c "-".

(** [.replace(/-+/g, "-").replace(/^-+|-+$/g, "")] *)
Definition squeezeDashes (s : string) : string :=
  dropEnd isDash (dropStart isDash (replaceRuns isDash "-" s)).

Definition sanitizeConsumerId (h : Host) (value : string) : string :=
  let raw :=
    slice0 64
      (squeezeDashes
         (replaceRuns (fun c => negb (isConsumerIdChar c)) "-"
            (toLowerCase (trim value)))) in
  if nonEmpty raw then raw
  else
    let host :=
      slice0 40
        (squeezeDashes
           (map_chars (fun c => if isHostChar c then c else "-"%char)
              (toLowerCase (hostname h)))) in
    let prefix :=
      if String.eqb (platform h) "win32" then "win"
      else if String.eqb (platform h) "darwin" then "mac" else "bridge" in
    slice0 64 (prefix ++ "-bridge-" ++ orElse host "main").

Definition sanitizeDeviceName (h : Host) (value : string) : string :=
  let normalized := slice0 80 (replaceRuns isWhiteSpace " " (trim value)) in
  orElse normalized ("Bridge " ++ hostname h).

(** [normalizePhysicalBrand], [defaultPhysicalPathByBrand],
    [sanitizePhysicalPath], [normalizePaymentMethod], [normalizeDepartment]:
    each on [String(value ?? "")]. *)
Definition normalizePhysicalBrand (value : string) : string :=
  orElse (toLowerCase (trim value)) "epson".

Definition defaultPhysicalPathByBrand (brand : string) : string :=
  if String.eqb brand "epson" then "/cgi-bin/fpmate.cgi" else "/".

Definition sanitizePhysicalPath (value brand : string) : string :=
  let pathValue := trim value in
  if negb (nonEmpty pathValue) then defaultPhysicalPathByBrand brand
  else if startsWith pathValue "/" then pathValue else "/" ++ pathValue.

Inductive PaymentMethod := card | cash.

Definition normalizePaymentMethod (value : string) : PaymentMethod :=
  let method := toLowerCase (trim value) in
  if String.eqb method "card" then card else cash.

Definition normalizeDepartment (value : string) : string :=
  orElse (toLowerCase (trim value)) "cucina".

(** A thrown or returned error value: a string, an [Error] with its
    message, or another object, given by its JSON text. *)
Inductive JsError :=
| ErrString (s : string)
| ErrError (message : string)
| ErrObject (json : string).

Definition normalizeError (error : JsError) : string :=
  match error with
  | ErrString s => orElse s "Errore sconosciuto"
  | ErrError message => orElse message "Errore sconosciuto"
  | ErrObject json => json
  end.

Definition isMissingRpcError (error : JsError) (rpcName : string) : bool :=
  let message := toLowerCase (normalizeError error) in
  let needle := toLowerCase (trim rpcName) in
  if negb (nonEmpty needle) then false
  else
    includes message needle &&
    (includes message "schema cache" || includes message "could not find" ||
     includes message "does not exist" || includes message "not found").

Definition shouldRetryPrintLocally (error : JsError) : bool :=
  let message := toLowerCase (normalizeError error) in
  includes message "timeout" || includes message "econnreset" ||
  includes message "ehostunreach" || includes message "econnrefused" ||
  includes message "epipe".

(* ===================================================================== *)
(** ** Session snapshots *)
(* ===================================================================== *)

Record SessionSnapshot := {
  access_token : string;
  refresh_token : string;
  expires_at : option number;
}.

(** A numeric field as it arrives: missing, [null], or a number. *)
Inductive RawNumber := RawUndefined | RawNull | RawNum (n : number).

(** [Number(value)] on such a field. *)
Definition toNumber (v : RawNumber) : number :=
  match v with
  | RawUndefined => NaN
  | RawNull => S754_zero false
  | RawNum n => n
  end.

(** [Math.trunc(n)] as a number. *)
Definition Math_trunc (n : number) : number :=
  match n with
  | S754_finite s m e =>
      if 0 <=? e then n else binary_normalize prec emax (truncZ n) 0 s
  | _ => n
  end.

(** A session object as it arrives from the shell or the backend. *)
Record RawSession := {
  raw_access_token : option string;
  raw_refresh_token : option string;
  raw_expires_at : RawNumber;
}.

Definition toSessionSnapshot (raw : option RawSession) : option SessionSnapshot :=
  match raw with
  | None => None
  | Some session =>
      let accessToken := trim (default "" (raw_access_token session)) in
      let refreshToken := trim (default "" (raw_refresh_token session)) in
      if negb (nonEmpty accessToken) || negb (nonEmpty refreshToken) then None
      else
        let expiresAt := toNumber (raw_expires_at session) in
        Some {| access_token := accessToken;
                refresh_token := refreshToken;
                expires_at := if isFinite expiresAt
                              then Some (Math_trunc expiresAt) else None |}
  end.

(** [Number(x || 0)] for [x : number | null]. *)
Definition numberOrZero (x : option number) : number :=
  match x with
  | Some n => if truthy n then n else S754_zero false
  | None => S754_zero false
  end.

Definition sameSession (a b : option SessionSnapshot) : bool :=
  match a, b with
  | None, None => true
  | None, Some _ | Some _, None => false
  | Some a, Some b =>
      String.eqb (access_token a) (access_token b) &&
      String.eqb (refresh_token a) (refresh_token b) &&
      strict_equals (numberOrZero (expires_at a)) (numberOrZero (expires_at b))
  end.

(* ===================================================================== *)
(** ** Ticket text *)
(* ===================================================================== *)

(** The class [[a-zàèéìòù]] *)
Definition isDishLower (c : ascii) : bool :=
  in_range 97 122 c ||
  (code c =? 224)%N || (code c =? 232)%N || (code c =? 233)%N ||
  (code c =? 236)%N || (code c =? 242)%N || (code c =? 249)%N.

Definition isSpace (c : ascii) : bool := Ascii.eqb c " ".

(** [part ? `${part[0]?.toUpperCase() || ""}${part.slice(1)}` : part] *)
Definition capitalize (part : string) : list N :=
  match part with
  | "" => []
  | String c rest => upper_char c ++ units rest
  end.

(** [prettifyDishName(value)], on [String(value || "")].  The result is
    given as code units: the upper-case form of a character of the name
    may lie outside the Latin-1 range. *)
Definition prettifyDishName (value : string) : list N :=
  let raw := replaceRuns isWhiteSpace " " (trim value) in
  if negb (nonEmpty raw) then []
  else if exists_chars isDishLower raw then units raw
  else joinUnits (units " ") (map capitalize (splitChar isSpace (toLowerCase raw))).

(** The loop of [wrapText] over the words, with its two variables. *)
Fixpoint wrapLoop (width : nat) (words : list string) (lines : list string)
    (current : string) : list string :=
  match words with
  | [] => if nonEmpty current then (lines ++ [current])%list else lines
  | word :: rest =>
      if negb (nonEmpty current) then wrapLoop width rest lines word
      else if (String.length (current ++ " " ++ word) <=? width)%nat
      then wrapLoop width rest lines (current ++ " " ++ word)
      else wrapLoop width rest (lines ++ [current])%list word
  end.

(** [wrapText(input, width)], on [String(input || "")]. *)
Definition wrapText (input : string) (width : nat) : list string :=
  let text := trim input in
  if negb (nonEmpty text) then [""]
  else if (String.length text <=? width)%nat then [text]
  else wrapLoop width (splitWs text) [] "".

(** The words of a string: its maximal runs of characters that are not
    white space. *)
Definition words (s : string) : list string :=
  filter (fun t => nonEmpty t = true) (splitWs s).

(** A word in title case: its first character in upper case, the rest in
    lower case. *)
Definition titleCase (word : string) : list N :=
  match word with
  | "" => []
  | String c rest => upper_char c ++ units (toLowerCase rest)
  end.

(* ===================================================================== *)
(** ** Fiscal receipt document *)
(* ===================================================================== *)

(** The fields of a fiscal payload that the document reads:
    [total_amount] is [Number(payload.total_amount)]. *)
Record FiscalPayload := {
  table_number : option string;
  payment_method : option string;
  total_amount : number;
}.

(** A number that is an integer or [Infinity]: what [Math.round] gives on
    a positive number. *)
Inductive Integral := IntVal (z : Z) | PlusInfinity.

Definition leZero (n : number) : bool :=
  match n with
  | S754_zero _ => true
  | S754_finite s _ _ => s
  | S754_infinity s => s
  | S754_nan => false
  end.

(** [toCents(value)], on [amount = Number(value)]: the product
    [amount * 100] is the binary64 product, which overflows to [Infinity]. *)
Definition toCents (amount : number) : Integral :=
  if negb (isFinite amount) || leZero amount then IntVal 0
  else
    match SFmul prec emax amount (of_Z 100) with
    | S754_infinity _ => PlusInfinity
    | product => IntVal (Z.max 0 (roundZ product))
    end.

(** [Math.max(1, c)] *)
Definition atLeastOne (c : Integral) : Integral :=
  match c with
  | IntVal z => IntVal (Z.max 1 z)
  | PlusInfinity => PlusInfinity
  end.

(** *** The text of a number

    [Number::toString] of ECMAScript on the numbers that
    [Math.max(1, toCents(..))] gives: an integer or [Infinity].  An integer
    below 2^53 is written with all its digits.  From 2^53 on, the digits
    are the shortest that read back as the same binary64 value, followed by
    zeros; where two digit strings of that length read back, the one
    closest to the value is written, and the one with the even last digit
    in a tie (the choice of V8, which ECMAScript leaves open).  From 10^21
    on the text is in exponent notation. *)

Definition digitCount (z : Z) : nat := String.length (decimal z).

(** The distance from a binary64 integer [z >= 2^53] to the next binary64
    value above and below: the unit of its last mantissa bit, and half of
    it below a power of two. *)
Definition gapAbove (z : Z) : Z := 2 ^ (Z.log2 z - 52).

Definition gapBelow (z : Z) : Z :=
  if z =? 2 ^ Z.log2 z then 2 ^ (Z.log2 z - 53) else 2 ^ (Z.log2 z - 52).

Definition evenMantissa (z : Z) : bool := Z.even (z / 2 ^ (Z.log2 z - 52)).

(** The integer [c] reads back as [z]: it lies within half a gap of [z];
    a bound itself reads back as [z] when the mantissa of [z] is even. *)
Definition readsBackAs (z c : Z) : bool :=
  if evenMantissa z
  then (2 * z - gapBelow z <=? 2 * c) && (2 * c <=? 2 * z + gapAbove z)
  else (2 * z - gapBelow z <? 2 * c) && (2 * c <? 2 * z + gapAbove z).

(** The search for the shortest digits: the multiples of 10^j next to [z],
    for [j] going down. *)
Fixpoint shortestFrom (fuel : nat) (j : Z) (z : Z) : Z :=
  match fuel with
  | O => z
  | S fuel' =>
      let p := 10 ^ j in
      let lo := z / p * p in
      let hi := lo + p in
      match readsBackAs z lo, readsBackAs z hi with
      | true, true =>
          if 2 * (z - lo) <? p then lo
          else if p <? 2 * (z - lo) then hi
          else if Z.even (lo / p) then lo else hi
      | true, false => lo
      | false, true => hi
      | false, false => shortestFrom fuel' (j - 1) z
      end
  end.

Definition shortest (z : Z) : Z :=
  shortestFrom (digitCount z) (Z.of_nat (digitCount z) - 1) z.

Definition isZeroDigit (c : ascii) : bool := Ascii.eqb c "0".

(** Exponent notation: the digits without their trailing zeros, a point
    after the first when there are more, and the exponent. *)
Definition exponential (c : Z) : string :=
  let digits := decimal c in
  let exponent := decimal (Z.of_nat (String.length digits) - 1) in
  match dropEnd isZeroDigit digits with
  | "" => digits
  | String d "" => String d "" ++ "e+" ++ exponent
  | String d rest => String d ("." ++ rest) ++ "e+" ++ exponent
  end.

Definition integerText (z : Z) : string :=
  if z <? 2 ^ 53 then decimal z
  else
    let c := shortest z in
    if c <? 10 ^ 21 then decimal c else exponential c.

Definition numberText (c : Integral) : string :=
  match c with
  | PlusInfinity => "Infinity"
  | IntVal z => if z <? 0 then "-" ++ integerText (- z) else integerText z
  end.

Definition quote : string := String "034" "".
Definition newline : string := String "010" "".

Definition escapeXml (value : string) : string :=
  replaceAll "'" "&apos;"
    (replaceAll "034" "&quot;"
       (replaceAll ">" "&gt;"
          (replaceAll "<" "&lt;"
             (replaceAll "&" "&amp;" value)))).

(** [ name="value"] inside a tag of the template. *)
Definition attr (name value : string) (rest : string) : string :=
  " " ++ name ++ "=" ++ quote ++ value ++ quote ++ rest.

(** [buildEpsonFiscalReceiptXml(payload)]: the template of the source, line
    by line. *)
Definition buildEpsonFiscalReceiptXml (payload : FiscalPayload) : string :=
  let tableNumber := orElse (trim (default "" (table_number payload))) "-" in
  let paymentMethod := normalizePaymentMethod (default "" (payment_method payload)) in
  let paymentLabel := match paymentMethod with card => "ELETTRONICO" | cash => "CONTANTI" end in
  let cents := atLeastOne (toCents (total_amount payload)) in
  let description := "Sushiamo Tavolo " ++ tableNumber in
  let centsText := numberText cents in
  "<?xml" ++ attr "version" "1.0" (attr "encoding" "UTF-8" ("?>" ++ newline ++
  "<FPMessage>" ++ newline ++
  "  <beginFiscalReceipt" ++ attr "operator" "1" ("/>" ++ newline ++
  "  <printRecItem" ++ attr "description" (escapeXml description)
     (attr "price" centsText (attr "quantity" "1" (attr "department" "1"
     (attr "vatCode" "1" ("/>" ++ newline ++
  "  <printRecTotal" ++ attr "description" paymentLabel
     (attr "payment" centsText ("/>" ++ newline ++
  "  <endFiscalReceipt/>" ++ newline ++
  "</FPMessage>")))))))))).

(** *** Reading a document back

    A reader of the tags and attributes of a document, independent of the
    builder: a tag starts at [<], its name ends at a blank, [/] or [>], an
    attribute value lies between two double quotes. *)
Inductive ReaderState :=
| Outside
| TagName (name : string)
| Attrs (tag : string) (attrs : list (string * string))
| AttrName (tag : string) (attrs : list (string * string)) (name : string)
| AttrEq (tag : string) (attrs : list (string * string)) (name : string)
| AttrValue (tag : string) (attrs : list (string * string)) (name value : string).

Definition Element : Type := string * list (string * string).

Definition snoc (s : string) (c : ascii) : string := s ++ String c "".

Definition readerStep (st : ReaderState) (c : ascii)
    : ReaderState * option Element :=
  match st with
  | Outside => if Ascii.eqb c "<" then (TagName "", None) else (Outside, None)
  | TagName name =>
      if Ascii.eqb c " " then (Attrs name [], None)
      else if Ascii.eqb c ">" then (Outside, Some (name, []))
      else if Ascii.eqb c "/" && nonEmpty name then (Attrs name [], None)
      else (TagName (snoc name c), None)
  | Attrs tag attrs =>
      if Ascii.eqb c ">" then (Outside, Some (tag, attrs))
      else if Ascii.eqb c " " || Ascii.eqb c "/" || Ascii.eqb c "?" then (Attrs tag attrs, None)
      else (AttrName tag attrs (String c ""), None)
  | AttrName tag attrs name =>
      if Ascii.eqb c "=" then (AttrEq tag attrs name, None)
      else (AttrName tag attrs (snoc name c), None)
  | AttrEq tag attrs name =>
      if Ascii.eqb c "034" then (AttrValue tag attrs name "", None)
      else (AttrEq tag attrs name, None)
  | AttrValue tag attrs name value =>
      if Ascii.eqb c "034" then (Attrs tag (attrs ++ [(name, value)])%list, None)
      else (AttrValue tag attrs name (snoc value c), None)
  end.

Fixpoint readFrom (st : ReaderState) (doc : string) : list Element :=
  match doc with
  | "" => []
  | String c rest =>
      match readerStep st c with
      | (st', Some e) => e :: readFrom st' rest
      | (st', None) => readFrom st' rest
      end
  end.

Definition readElements (doc : string) : list Element := readFrom Outside doc.

(** The value of attribute [name] of the first element [tag]. *)
Definition attribute (doc tag name : string) : option string :=
  match List.find (fun e => String.eqb (fst e) tag) (readElements doc) with
  | Some (_, attrs) =>
      match List.find (fun a => String.eqb (fst a) name) attrs with
      | Some (_, v) => Some v
      | None => None
      end
  | None => None
  end.

(** The entity of a character in an attribute value. *)
Definition xmlEntity (c : ascii) : string :=
  if Ascii.eqb c "&" then "&amp;"
  else if Ascii.eqb c "<" then "&lt;"
  else if Ascii.eqb c ">" then "&gt;"
  else if Ascii.eqb c "034" then "&quot;"
  else if Ascii.eqb c "'" then "&apos;"
  else String c "".

Definition isXmlSpecial (c : ascii) : bool :=
  Ascii.eqb c "<" || Ascii.eqb c ">" || Ascii.eqb c "034" || Ascii.eqb c "'".

(* ===================================================================== *)
(** ** Live printers and route resolution *)
(* ===================================================================== *)

Record LivePrinter := {
  lp_id : string;
  lp_name : string;
  lp_host : string;
  lp_port : Z;
  lp_enabled : bool;
  lp_departments : list string;
}.

Record LiveRoutes := {
  byId : gmap string LivePrinter;
  byDepartment : gmap string LivePrinter;
  defaultPrinterId : option string;
}.

(** One entry of [settings.printing.printers] as stored by the backend:
    [rp_port] is [Number(printer.port)], [rp_enabled] is [None] when the
    field is not a boolean, [rp_departments] is [None] when it is not an
    array. *)
Record RawPrinter := {
  rp_id : option string;
  rp_name : option string;
  rp_host : option string;
  rp_port : number;
  rp_enabled : option bool;
  rp_departments : option (list string);
}.

(** The body of the loop of [fetchLivePrinterRoutes] for a printer that has
    an id. *)
Definition mapPrinter (id : string) (printer : RawPrinter) : LivePrinter :=
  {| lp_id := id;
     lp_name := orElse (trim (default "" (rp_name printer))) id;
     lp_host := trim (default "" (rp_host printer));
     lp_port := sanitizePrinterPort (rp_port printer);
     lp_enabled := match rp_enabled printer with Some false => false | _ => true end;
     lp_departments :=
       match rp_departments printer with
       | Some deps => filter (fun d => nonEmpty d = true) (map normalizeDepartment deps)
       | None => []
       end |}.

Definition addDepartments (mapped : LivePrinter)
    (byDepartment : gmap string LivePrinter) : gmap string LivePrinter :=
  fold_left
    (fun m dep => match m !! dep with Some _ => m | None => <[dep := mapped]> m end)
    (lp_departments mapped) byDepartment.

Definition addPrinter (acc : gmap string LivePrinter * gmap string LivePrinter)
    (printer : RawPrinter) : gmap string LivePrinter * gmap string LivePrinter :=
  let id := trim (default "" (rp_id printer)) in
  if negb (nonEmpty id) then acc
  else
    let mapped := mapPrinter id printer in
    (<[id := mapped]> (fst acc),
     if lp_enabled mapped && nonEmpty (lp_host mapped)
     then addDepartments mapped (snd acc) else snd acc).

(** The index [fetchLivePrinterRoutes] builds from the printing settings:
    [printersRaw] and [printing.default_printer_id]. *)
Definition buildLiveRoutes (printersRaw : list RawPrinter)
    (default_printer_id : option string) : LiveRoutes :=
  let maps := fold_left addPrinter printersRaw (∅, ∅) in
  {| byId := fst maps;
     byDepartment := snd maps;
     defaultPrinterId :=
       let d := trim (default "" default_printer_id) in
       if nonEmpty d then Some d else None |}.

(** The route snapshot a job carries: [sr_port] is [Number(route.port)]. *)
Record SnapshotRoute := {
  sr_id : option string;
  sr_printer_id : option string;
  sr_host : option string;
  sr_name : option string;
  sr_port : number;
}.

Definition emptySnapshotRoute : SnapshotRoute :=
  {| sr_id := None; sr_printer_id := None; sr_host := None; sr_name := None;
     sr_port := NaN |}.

Record JobRow := {
  job_id : string;
  job_department : option string;
  job_payload : string;
  job_route : option SnapshotRoute;
  job_created_at : string;
}.

Record Route := {
  route_id : option string;
  route_name : string;
  route_host : string;
  route_port : Z;
}.

Definition liveRoute (live : LivePrinter) : Route :=
  {| route_id := Some (lp_id live); route_name := lp_name live;
     route_host := lp_host live; route_port := lp_port live |}.

Definition usable (live : LivePrinter) : bool :=
  lp_enabled live && nonEmpty (lp_host live).

Definition resolveRouteForJob (job : JobRow) (liveRoutes : option LiveRoutes)
    : option Route :=
  let snapshotRoute := default emptySnapshotRoute (job_route job) in
  let snapshotId :=
    let s := trim (orElse (default "" (sr_id snapshotRoute))
                          (default "" (sr_printer_id snapshotRoute))) in
    if nonEmpty s then Some s else None in
  let snapshotHost := trim (default "" (sr_host snapshotRoute)) in
  let snapshotPort := sanitizePrinterPort (sr_port snapshotRoute) in
  let dep := normalizeDepartment (default "" (job_department job)) in
  let byIdHit :=
    match liveRoutes, snapshotId with
    | Some lr, Some sid =>
        match byId lr !! sid with
        | Some live => if usable live then Some (liveRoute live) else None
        | None => None
        end
    | _, _ => None
    end in
  match byIdHit with
  | Some r => Some r
  | None =>
  let byDepHit :=
    match liveRoutes with
    | Some lr =>
        match byDepartment lr !! dep with
        | Some byDep => if usable byDep then Some (liveRoute byDep) else None
        | None => None
        end
    | None => None
    end in
  match byDepHit with
  | Some r => Some r
  | None =>
  let fallbackHit :=
    match liveRoutes with
    | Some lr =>
        match defaultPrinterId lr with
        | Some d =>
            match byId lr !! d with
            | Some fallback => if usable fallback then Some (liveRoute fallback) else None
            | None => None
            end
        | None => None
        end
    | None => None
    end in
  match fallbackHit with
  | Some r => Some r
  | None =>
      if nonEmpty snapshotHost then
        Some {| route_id := snapshotId;
                route_name :=
                  orElse (default "" (sr_name snapshotRoute))
                         (orElse (default "" snapshotId) snapshotHost);
                route_host := snapshotHost;
                route_port := snapshotPort |}
      else None
  end end end.

(* ===================================================================== *)
(** ** The worker: state, world and monad *)
(* ===================================================================== *)

Record WorkerConfig := {
  consumerId : string;
  deviceName : string;
  pollMs : Z;
  claimLimit : Z;
  autoStart : bool;
}.

Inductive Role := owner | admin | manager | staff.

Record RestaurantScope := {
  rs_id : string;
  rs_name : string;
  rs_city : option string;
  rs_role : Role;
}.

Record User := { user_id : string; user_email : option string }.

Inductive Level := INFO | WARN | ERROR.

Record WorkerLogRow := { log_at : string; log_level : Level; log_message : string }.

Record Stats := {
  claimed : Z;
  printed : Z;
  failed : Z;
  lastRunAt : option string;
  lastError : option string;
}.

(** [payload.route] of a fiscal job: [pr_port] is [Number(route.port)]. *)
Record PhysicalRoute := {
  pr_host : option string;
  pr_brand : option string;
  pr_port : number;
  pr_api_path : option string;
}.

Record PhysicalReceiptJobRow := {
  pj_id : string;
  pj_payload : string;
  pj_route : PhysicalRoute;
  pj_created_at : string;
}.

(** A non-fiscal receipt job: [nj_port] is [None] when [route.port] is
    [null] or [undefined], else [Number(route.port)]. *)
Record NonFiscalReceiptJobRow := {
  nj_id : string;
  nj_payload : string;
  nj_host : option string;
  nj_port : option number;
  nj_created_at : string;
}.

(** One row of [printing_list_agents]. *)
Record AgentRow := { agent_id : option string; agent_printer_id : option string }.

Record HttpResponse := {
  resp_ok : bool;
  resp_status : string;   (* the status code in decimal digits *)
  resp_text : string;
}.

(** The fields and methods' state of [DesktopPrintWorker]. *)
Record Worker := {
  VITE_SUPABASE_URL : string;
  VITE_SUPABASE_ANON_KEY : string;
  appVersion : string;
  config : WorkerConfig;
  savedSession : option SessionSnapshot;
  authUser : option User;
  authRestaurant : option RestaurantScope;
  supabase : bool;
  physicalReceiptRpcAvailable : bool;
  nonFiscalReceiptRpcAvailable : bool;
  running : bool;
  processing : bool;
  timer : option Z;
  assignedPrinterId : option string;
  stats : Stats;
  logs : list WorkerLogRow;
}.

Record WorkerPublicState := {
  pub_config : WorkerConfig;
  pub_user : option User;
  pub_restaurant : option RestaurantScope;
  pub_running : bool;
  pub_processing : bool;
  pub_assignedPrinterId : option string;
  pub_stats : Stats;
  pub_logs : list WorkerLogRow;
}.

Inductive Family := Kitchen | Physical | NonFiscal.

(** What the worker does to the outside, in order. *)
Inductive Event :=
| EvGetUser
| EvSetSession (access refresh : string)
| EvResolveRestaurant (userId : string)
| EvListAgents
| EvRegisterAgent (printerId : option string) (isActive : bool)
| EvClaim (f : Family) (consumer : string) (limit : Z)
| EvFetchRoutes (restaurantId : string)
| EvSocket (host : string) (port : Z) (payload : string)
| EvPost (endpoint body : string)
| EvComplete (f : Family) (jobId : string) (success : bool)
             (receiptId error : option string)
| EvSleep (ms : Z)
| EvWriteFile (c : WorkerConfig) (s : option SessionSnapshot)
| EvSetTimeout (ms : Z)
| EvLog (level : Level) (message : string)
| EvBroadcast (state : WorkerPublicState).

(** The outside: what each call answers when it is the [n]-th event of the
    run.  An RPC answers [inl error] for [{ error }] and [inr data] for
    [{ data }]; a socket or a file write answers [Some error] when it
    rejects. *)
Record World := {
  getUser : nat -> option User;
  setSession : nat -> JsError + (option User * option RawSession);
  resolveRestaurant : nat -> JsError + option RestaurantScope;
  listAgents : nat -> JsError + list AgentRow;
  registerAgent : nat -> JsError + option string;
  claimJobs : nat -> JsError + list JobRow;
  claimPhysical : nat -> JsError + list PhysicalReceiptJobRow;
  claimNonFiscal : nat -> JsError + list NonFiscalReceiptJobRow;
  fetchSettings : nat -> JsError + (list RawPrinter * option string);
  openRawSocket : nat -> option JsError;
  fetchPost : nat -> JsError + HttpResponse;
  completeRpc : nat -> option JsError;
  writeFile : nat -> option JsError;
  isoNow : nat -> string;
  dateNow : nat -> string;
}.

Record St := { worker : Worker; trace : list Event }.

Inductive Result (A : Type) :=
| Ok (a : A)
| Throw (e : JsError).
Arguments Ok {A} a.
Arguments Throw {A} e.

(** A computation of the worker: it reads the world, changes the state and
    returns or throws. *)
Definition M (A : Type) : Type := World -> St -> Result A * St.

#[export] Instance M_ret : MRet M := fun A a _ st => (Ok a, st).

#[export] Instance M_bind : MBind M := fun A B f m w st =>
  match m w st with
  | (Ok a, st') => f a w st'
  | (Throw e, st') => (Throw e, st')
  end.

Definition throw {A} (e : JsError) : M A := fun _ st => (Throw e, st).

(** [try { m } catch (error) { h error }] *)
Definition tryCatch {A} (m : M A) (h : JsError -> M A) : M A := fun w st =>
  match m w st with
  | (Ok a, st') => (Ok a, st')
  | (Throw e, st') => h e w st'
  end.

(** [try { m } finally { f }] for a block [f] that does not throw. *)
Definition tryFinally {A} (m : M A) (f : M unit) : M A := fun w st =>
  match m w st with
  | (r, st') =>
      match f w st' with
      | (Ok _, st'') => (r, st'')
      | (Throw e, st'') => (Throw e, st'')
      end
  end.

Definition getWorker : M Worker := fun _ st => (Ok (worker st), st).

Definition modify (f : Worker -> Worker) : M unit := fun _ st =>
  (Ok tt, {| worker := f (worker st); trace := trace st |}).

(** An effect on the outside: the event is recorded and the world gives the
    answer of the call at this point of the run. *)
Definition call {R} (ev : Event) (answer : World -> nat -> R) : M R := fun w st =>
  (Ok (answer w (length (trace st))),
   {| worker := worker st; trace := trace st ++ [ev] |}).

(** Reading a clock leaves no event. *)
Definition clock (read : World -> nat -> string) : M string := fun w st =>
  (Ok (read w (length (trace st))), st).

Fixpoint forEach {A} (l : list A) (body : A -> M unit) : M unit :=
  match l with
  | [] => mret tt
  | x :: rest => body x ;; forEach rest body
  end.

(** Field updates. *)
Definition set_config c (w : Worker) : Worker :=
  {| VITE_SUPABASE_URL := VITE_SUPABASE_URL w; VITE_SUPABASE_ANON_KEY := VITE_SUPABASE_ANON_KEY w;
     appVersion := appVersion w; config := c; savedSession := savedSession w;
     authUser := authUser w; authRestaurant := authRestaurant w; supabase := supabase w;
     physicalReceiptRpcAvailable := physicalReceiptRpcAvailable w;
     nonFiscalReceiptRpcAvailable := nonFiscalReceiptRpcAvailable w;
     running := running w; processing := processing w; timer := timer w;
     assignedPrinterId := assignedPrinterId w; stats := stats w; logs := logs w |}.

Definition set_savedSession s (w : Worker) : Worker :=
  {| VITE_SUPABASE_URL := VITE_SUPABASE_URL w; VITE_SUPABASE_ANON_KEY := VITE_SUPABASE_ANON_KEY w;
     appVersion := appVersion w; config := config w; savedSession := s;
     authUser := authUser w; authRestaurant := authRestaurant w; supabase := supabase w;
     physicalReceiptRpcAvailable := physicalReceiptRpcAvailable w;
     nonFiscalReceiptRpcAvailable := nonFiscalReceiptRpcAvailable w;
     running := running w; processing := processing w; timer := timer w;
     assignedPrinterId := assignedPrinterId w; stats := stats w; logs := logs w |}.

Definition set_authUser u (w : Worker) : Worker :=
  {| VITE_SUPABASE_URL := VITE_SUPABASE_URL w; VITE_SUPABASE_ANON_KEY := VITE_SUPABASE_ANON_KEY w;
     appVersion := appVersion w; config := config w; savedSession := savedSession w;
     authUser := u; authRestaurant := authRestaurant w; supabase := supabase w;
     physicalReceiptRpcAvailable := physicalReceiptRpcAvailable w;
     nonFiscalReceiptRpcAvailable := nonFiscalReceiptRpcAvailable w;
     running := running w; processing := processing w; timer := timer w;
     assignedPrinterId := assignedPrinterId w; stats := stats w; logs := logs w |}.

Definition set_authRestaurant r (w : Worker) : Worker :=
  {| VITE_SUPABASE_URL := VITE_SUPABASE_URL w; VITE_SUPABASE_ANON_KEY := VITE_SUPABASE_ANON_KEY w;
     appVersion := appVersion w; config := config w; savedSession := savedSession w;
     authUser := authUser w; authRestaurant := r; supabase := supabase w;
     physicalReceiptRpcAvailable := physicalReceiptRpcAvailable w;
     nonFiscalReceiptRpcAvailable := nonFiscalReceiptRpcAvailable w;
     running := running w; processing := processing w; timer := timer w;
     assignedPrinterId := assignedPrinterId w; stats := stats w; logs := logs w |}.

Definition set_supabase b (w : Worker) : Worker :=
  {| VITE_SUPABASE_URL := VITE_SUPABASE_URL w; VITE_SUPABASE_ANON_KEY := VITE_SUPABASE_ANON_KEY w;
     appVersion := appVersion w; config := config w; savedSession := savedSession w;
     authUser := authUser w; authRestaurant := authRestaurant w; supabase := b;
     physicalReceiptRpcAvailable := physicalReceiptRpcAvailable w;
     nonFiscalReceiptRpcAvailable := nonFiscalReceiptRpcAvailable w;
     running := running w; processing := processing w; timer := timer w;
     assignedPrinterId := assignedPrinterId w; stats := stats w; logs := logs w |}.

Definition set_physicalReceiptRpcAvailable b (w : Worker) : Worker :=
  {| VITE_SUPABASE_URL := VITE_SUPABASE_URL w; VITE_SUPABASE_ANON_KEY := VITE_SUPABASE_ANON_KEY w;
     appVersion := appVersion w; config := config w; savedSession := savedSession w;
     authUser := authUser w; authRestaurant := authRestaurant w; supabase := supabase w;
     physicalReceiptRpcAvailable := b;
     nonFiscalReceiptRpcAvailable := nonFiscalReceiptRpcAvailable w;
     running := running w; processing := processing w; timer := timer w;
     assignedPrinterId := assignedPrinterId w; stats := stats w; logs := logs w |}.

Definition set_nonFiscalReceiptRpcAvailable b (w : Worker) : Worker :=
  {| VITE_SUPABASE_URL := VITE_SUPABASE_URL w; VITE_SUPABASE_ANON_KEY := VITE_SUPABASE_ANON_KEY w;
     appVersion := appVersion w; config := config w; savedSession := savedSession w;
     authUser := authUser w; authRestaurant := authRestaurant w; supabase := supabase w;
     physicalReceiptRpcAvailable := physicalReceiptRpcAvailable w;
     nonFiscalReceiptRpcAvailable := b;
     running := running w; processing := processing w; timer := timer w;
     assignedPrinterId := assignedPrinterId w; stats := stats w; logs := logs w |}.

Definition set_running b (w : Worker) : Worker :=
  {| VITE_SUPABASE_URL := VITE_SUPABASE_URL w; VITE_SUPABASE_ANON_KEY := VITE_SUPABASE_ANON_KEY w;
     appVersion := appVersion w; config := config w; savedSession := savedSession w;
     authUser := authUser w; authRestaurant := authRestaurant w; supabase := supabase w;
     physicalReceiptRpcAvailable := physicalReceiptRpcAvailable w;
     nonFiscalReceiptRpcAvailable := nonFiscalReceiptRpcAvailable w;
     running := b; processing := processing w; timer := timer w;
     assignedPrinterId := assignedPrinterId w; stats := stats w; logs := logs w |}.

Definition set_processing b (w : Worker) : Worker :=
  {| VITE_SUPABASE_URL := VITE_SUPABASE_URL w; VITE_SUPABASE_ANON_KEY := VITE_SUPABASE_ANON_KEY w;
     appVersion := appVersion w; config := config w; savedSession := savedSession w;
     authUser := authUser w; authRestaurant := authRestaurant w; supabase := supabase w;
     physicalReceiptRpcAvailable := physicalReceiptRpcAvailable w;
     nonFiscalReceiptRpcAvailable := nonFiscalReceiptRpcAvailable w;
     running := running w; processing := b; timer := timer w;
     assignedPrinterId := assignedPrinterId w; stats := stats w; logs := logs w |}.

Definition set_timer t (w : Worker) : Worker :=
  {| VITE_SUPABASE_URL := VITE_SUPABASE_URL w; VITE_SUPABASE_ANON_KEY := VITE_SUPABASE_ANON_KEY w;
     appVersion := appVersion w; config := config w; savedSession := savedSession w;
     authUser := authUser w; authRestaurant := authRestaurant w; supabase := supabase w;
     physicalReceiptRpcAvailable := physicalReceiptRpcAvailable w;
     nonFiscalReceiptRpcAvailable := nonFiscalReceiptRpcAvailable w;
     running := running w; processing := processing w; timer := t;
     assignedPrinterId := assignedPrinterId w; stats := stats w; logs := logs w |}.

Definition set_assignedPrinterId p (w : Worker) : Worker :=
  {| VITE_SUPABASE_URL := VITE_SUPABASE_URL w; VITE_SUPABASE_ANON_KEY := VITE_SUPABASE_ANON_KEY w;
     appVersion := appVersion w; config := config w; savedSession := savedSession w;
     authUser := authUser w; authRestaurant := authRestaurant w; supabase := supabase w;
     physicalReceiptRpcAvailable := physicalReceiptRpcAvailable w;
     nonFiscalReceiptRpcAvailable := nonFiscalReceiptRpcAvailable w;
     running := running w; processing := processing w; timer := timer w;
     assignedPrinterId := p; stats := stats w; logs := logs w |}.

Definition set_stats s (w : Worker) : Worker :=
  {| VITE_SUPABASE_URL := VITE_SUPABASE_URL w; VITE_SUPABASE_ANON_KEY := VITE_SUPABASE_ANON_KEY w;
     appVersion := appVersion w; config := config w; savedSession := savedSession w;
     authUser := authUser w; authRestaurant := authRestaurant w; supabase := supabase w;
     physicalReceiptRpcAvailable := physicalReceiptRpcAvailable w;
     nonFiscalReceiptRpcAvailable := nonFiscalReceiptRpcAvailable w;
     running := running w; processing := processing w; timer := timer w;
     assignedPrinterId := assignedPrinterId w; stats := s; logs := logs w |}.

Definition set_logs l (w : Worker) : Worker :=
  {| VITE_SUPABASE_URL := VITE_SUPABASE_URL w; VITE_SUPABASE_ANON_KEY := VITE_SUPABASE_ANON_KEY w;
     appVersion := appVersion w; config := config w; savedSession := savedSession w;
     authUser := authUser w; authRestaurant := authRestaurant w; supabase := supabase w;
     physicalReceiptRpcAvailable := physicalReceiptRpcAvailable w;
     nonFiscalReceiptRpcAvailable := nonFiscalReceiptRpcAvailable w;
     running := running w; processing := processing w; timer := timer w;
     assignedPrinterId := assignedPrinterId w; stats := stats w; logs := l |}.

Definition addClaimed (n : Z) (s : Stats) : Stats :=
  {| claimed := claimed s + n; printed := printed s; failed := failed s;
     lastRunAt := lastRunAt s; lastError := lastError s |}.

Definition addPrinted (s : Stats) : Stats :=
  {| claimed := claimed s; printed := printed s + 1; failed := failed s;
     lastRunAt := lastRunAt s; lastError := lastError s |}.

Definition addFailed (s : Stats) : Stats :=
  {| claimed := claimed s; printed := printed s; failed := failed s + 1;
     lastRunAt := lastRunAt s; lastError := lastError s |}.

Definition finishedRun (now : string) (s : Stats) : Stats :=
  {| claimed := claimed s; printed := printed s; failed := failed s;
     lastRunAt := Some now; lastError := None |}.

Definition failedRun (message : string) (s : Stats) : Stats :=
  {| claimed := claimed s; printed := printed s; failed := failed s;
     lastRunAt := lastRunAt s; lastError := Some message |}.

Definition freshStats : Stats :=
  {| claimed := 0; printed := 0; failed := 0; lastRunAt := None; lastError := None |}.

(* ===================================================================== *)
(** ** The worker: operations *)
(* ===================================================================== *)

(** The pure builders of the payloads, which the properties below do not
    look into: [buildEscPosPayload(renderTicket(job))],
    [buildEscPosPayload(renderNonFiscalReceiptTicket(job))] and
    [buildEpsonFiscalReceiptXml(payload)], each given with the error it
    throws on a payload it cannot render; the test
    [/\b(error|fault|ko)\b/i] on a response text; and
    [extractReceiptIdFromResponse]. *)
Record Renderers := {
  renderKitchen : JobRow -> JsError + string;
  renderNonFiscal : NonFiscalReceiptJobRow -> JsError + string;
  renderFiscal : PhysicalReceiptJobRow -> JsError + string;
  hasFaultKeyword : string -> bool;
  extractReceiptIdFromResponse : string -> option string;
}.

Section WorkerOps.

Variable rd : Renderers.

Definition LOG_CAP : nat := 500.

Definition publicState (w : Worker) : WorkerPublicState :=
  {| pub_config := config w; pub_user := authUser w;
     pub_restaurant := authRestaurant w; pub_running := running w;
     pub_processing := processing w;
     pub_assignedPrinterId := assignedPrinterId w;
     pub_stats := stats w; pub_logs := logs w |}.

Definition getPublicState : M WorkerPublicState :=
  w ← getWorker; mret (publicState w).

Definition pushLog (level : Level) (message : string) : M unit :=
  now ← clock isoNow;
  modify (fun w =>
    let l := (logs w ++ [{| log_at := now; log_level := level; log_message := message |}])%list in
    set_logs (if (LOG_CAP <? length l)%nat then tail l else l) w);;
  call (EvLog level message) (fun _ _ => tt).

Definition broadcastState : M unit :=
  w ← getWorker; call (EvBroadcast (publicState w)) (fun _ _ => tt).

Definition persistState : M unit :=
  w ← getWorker;
  r ← call (EvWriteFile (config w) (savedSession w)) writeFile;
  match r with
  | Some e => throw e
  | None => mret tt
  end.

Definition sleep (ms : Z) : M unit := call (EvSleep ms) (fun _ _ => tt).

Definition ensureSupabaseClient : M unit :=
  w ← getWorker;
  if negb (nonEmpty (trim (VITE_SUPABASE_URL w))) ||
     negb (nonEmpty (trim (VITE_SUPABASE_ANON_KEY w)))
  then throw (ErrError "Config desktop Supabase non valida.")
  else modify (set_supabase true).

(** [resolveRestaurantForCurrentUser]: its queries are one answer of the
    world, the scope it settles on or the error of a query. *)
Definition resolveRestaurantForCurrentUser (userId : string)
    : M (option RestaurantScope) :=
  ensureSupabaseClient;;
  r ← call (EvResolveRestaurant userId) resolveRestaurant;
  match r with
  | inl e => throw e
  | inr scope => mret scope
  end.

Definition ensureSignedIn : M unit :=
  ensureSupabaseClient;;
  data ← call EvGetUser getUser;
  match data with
  | Some user =>
      modify (set_authUser (Some user));;
      w ← getWorker;
      match authRestaurant w with
      | Some _ => mret tt
      | None =>
          scope ← resolveRestaurantForCurrentUser (user_id user);
          modify (set_authRestaurant scope)
      end
  | None =>
      w ← getWorker;
      match savedSession w with
      | None => throw (ErrError "Sessione desktop assente: effettua login nell'app.")
      | Some saved =>
          restored ← call (EvSetSession (access_token saved) (refresh_token saved)) setSession;
          match restored with
          | inl restoreError => throw restoreError
          | inr (None, _) => throw (ErrError "SESSION_INVALID")
          | inr (Some user, session) =>
              modify (set_authUser (Some user));;
              scope ← resolveRestaurantForCurrentUser (user_id user);
              modify (set_authRestaurant scope);;
              match toSessionSnapshot session with
              | Some refreshedSnapshot =>
                  if negb (sameSession (Some saved) (Some refreshedSnapshot)) then
                    modify (set_savedSession (Some refreshedSnapshot));;
                    persistState
                  else mret tt
              | None => mret tt
              end
          end
      end
  end.

(** [this.authState.restaurant?.id], when it is truthy. *)
Definition restaurantId (w : Worker) : option string :=
  match authRestaurant w with
  | Some r => if nonEmpty (rs_id r) then Some (rs_id r) else None
  | None => None
  end.

Definition nonEmptyOpt (s : string) : option string :=
  if nonEmpty s then Some s else None.

Definition fetchAssignedPrinterId : M (option string) :=
  w ← getWorker;
  match restaurantId w with
  | None => mret None
  | Some _ =>
      ensureSupabaseClient;;
      r ← call EvListAgents listAgents;
      match r with
      | inl e => throw e
      | inr rows =>
          let current :=
            List.find (fun row =>
              String.eqb (trim (default "" (agent_id row))) (consumerId (config w))) rows in
          mret (nonEmptyOpt
                  (trim (default "" (current ≫= agent_printer_id))))
      end
  end.

Definition firstSome (a b : option string) : option string :=
  match a with Some _ => a | None => b end.

Definition optionEqb (a b : option string) : bool :=
  match a, b with
  | Some x, Some y => String.eqb x y
  | None, None => true
  | _, _ => false
  end.

Definition heartbeatAgent (isActive : bool) : M unit :=
  w ← getWorker;
  match restaurantId w with
  | None => mret tt
  | Some _ =>
      tryCatch
        (ensureSupabaseClient;;
         serverAssigned ←
           tryCatch fetchAssignedPrinterId
             (fun error =>
                pushLog WARN ("Lettura assegnazione agente fallita: " ++ normalizeError error);;
                mret None);
         w ← getWorker;
         r ← call (EvRegisterAgent
                     (firstSome (serverAssigned ≫= nonEmptyOpt)
                                (assignedPrinterId w ≫= nonEmptyOpt))
                     isActive) registerAgent;
         match r with
         | inl e => throw e
         | inr printer_id =>
             let nextAssigned :=
               firstSome (nonEmptyOpt (trim (default "" printer_id))) serverAssigned in
             if negb (optionEqb (assignedPrinterId w) nextAssigned) then
               modify (set_assignedPrinterId nextAssigned);;
               broadcastState
             else mret tt
         end)
        (fun error => pushLog WARN ("Heartbeat agente fallito: " ++ normalizeError error))
  end.

Definition fetchLivePrinterRoutes (restaurantId : string) : M LiveRoutes :=
  ensureSupabaseClient;;
  r ← call (EvFetchRoutes restaurantId) fetchSettings;
  match r with
  | inl e => throw e
  | inr (printersRaw, default_printer_id) =>
      mret (buildLiveRoutes printersRaw default_printer_id)
  end.

(** The delivery loop that [sendToPrinter], [sendToPhysicalReceiptDevice]
    and [sendToNonFiscalReceiptPrinter] each spell out:
    [for (attempt = 1; attempt <= 2; attempt += 1)] around one try of the
    transport, leaving with its result, or with [lastError] after the
    [break] or the end of the loop.  [rounds] bounds the iterations. *)
Fixpoint attemptLoop {A} (rounds : nat) (attempt : Z) (lastError : option JsError)
    (transport : M A) : M (A + option JsError) :=
  match rounds with
  | O => mret (inr lastError)
  | S rounds' =>
      if attempt <=? 2 then
        tryCatch (a ← transport; mret (inl a))
          (fun error =>
             if (2 <=? attempt) || negb (shouldRetryPrintLocally error)
             then mret (inr (Some error))
             else sleep 500;; attemptLoop rounds' (attempt + 1) (Some error) transport)
      else mret (inr lastError)
  end.

Definition lastErrorMessage (lastError : option JsError) : string :=
  match lastError with
  | Some e => normalizeError e
  | None => "Errore sconosciuto"
  end.

Definition connectSocket (host : string) (port : Z) (payload : string) : M unit :=
  r ← call (EvSocket host port payload) openRawSocket;
  match r with
  | Some e => throw e
  | None => mret tt
  end.

Definition sendToPrinter (job : JobRow) (routeOverride : option Route) : M unit :=
  let host := trim (match routeOverride with Some r => route_host r | None => "" end) in
  let port := sanitizePrinterPort
                (match routeOverride with Some r => of_Z (route_port r) | None => NaN end) in
  if negb (nonEmpty host) then throw (ErrError "NO_PRINTER_HOST")
  else
    match renderKitchen rd job with
    | inl e => throw e
    | inr payload =>
        r ← attemptLoop 2 1 None (connectSocket host port payload);
        match r with
        | inl _ => mret tt
        | inr lastError =>
            throw (ErrError (lastErrorMessage lastError ++ " (target " ++ host ++ ":"
                             ++ decimal port ++ ")"))
        end
    end.

Definition metaOf (w : Worker) : string := deviceName (config w) ++ "/" ++ appVersion w.

Definition completePrintJob (job : JobRow) (success : bool)
    (errorMessage : option string) : M unit :=
  ensureSupabaseClient;;
  r ← call (EvComplete Kitchen (job_id job) success None
              (if success then None
               else Some (slice0 500 (orElse (default "" errorMessage) "PRINT_FAILED"))))
           completeRpc;
  match r with
  | Some error => throw error
  | None => mret tt
  end.

Definition postPhysicalReceipt (job : PhysicalReceiptJobRow) : M (option string) :=
  let route := pj_route job in
  let host := trim (default "" (pr_host route)) in
  let brand := normalizePhysicalBrand (default "" (pr_brand route)) in
  let port := sanitizePhysicalPort (pr_port route) brand in
  let apiPath := sanitizePhysicalPath (default "" (pr_api_path route)) brand in
  if negb (nonEmpty host) then throw (ErrError "PHYSICAL_RT_HOST_MISSING")
  else
    let endpoint := "http://" ++ host ++ ":" ++ decimal port ++ apiPath in
    match renderFiscal rd job with
    | inl e => throw e
    | inr body =>
        r ← call (EvPost endpoint body) fetchPost;
        match r with
        | inl e => throw e
        | inr response =>
            let responseText := resp_text response in
            if negb (resp_ok response) then
              throw (ErrError ("HTTP " ++ resp_status response ++ ": "
                               ++ orElse responseText "RT response error"))
            else if hasFaultKeyword rd responseText then
              throw (ErrError (orElse (slice0 500 responseText) "RT_ERROR_RESPONSE"))
            else mret (extractReceiptIdFromResponse rd responseText)
        end
    end.

Definition sendToPhysicalReceiptDevice (job : PhysicalReceiptJobRow) : M string :=
  r ← attemptLoop 2 1 None
        (receiptId ← postPhysicalReceipt job;
         now ← clock dateNow;
         mret (orElse (default "" receiptId)
                      ("RT-" ++ slice0 8 (pj_id job) ++ "-" ++ now)));
  match r with
  | inl receiptId => mret receiptId
  | inr lastError =>
      let route := pj_route job in
      let host := orElse (trim (default "" (pr_host route))) "n/a" in
      let brand := normalizePhysicalBrand (default "" (pr_brand route)) in
      let port := sanitizePhysicalPort (pr_port route) brand in
      throw (ErrError (lastErrorMessage lastError ++ " (target " ++ host ++ ":"
                       ++ decimal port ++ ")"))
  end.

Definition completePhysicalReceiptJob (job : PhysicalReceiptJobRow) (success : bool)
    (receiptId error : option string) : M unit :=
  ensureSupabaseClient;;
  r ← call (EvComplete Physical (pj_id job) success
              (if success then nonEmptyOpt (trim (default "" receiptId)) else None)
              (if success then None
               else Some (slice0 500 (orElse (default "" error) "PHYSICAL_RECEIPT_FAILED"))))
           completeRpc;
  match r with
  | Some e => throw e
  | None => mret tt
  end.

Definition sendToNonFiscalReceiptPrinter (job : NonFiscalReceiptJobRow) : M unit :=
  let host := trim (default "" (nj_host job)) in
  let port := sanitizePrinterPort (default (of_Z 9100) (nj_port job)) in
  if negb (nonEmpty host) then throw (ErrError "NO_PRINTER_HOST")
  else
    match renderNonFiscal rd job with
    | inl e => throw e
    | inr escPosPayload =>
        r ← attemptLoop 2 1 None (connectSocket host port escPosPayload);
        match r with
        | inl _ => mret tt
        | inr lastError =>
            throw (ErrError (lastErrorMessage lastError ++ " (target " ++ host ++ ":"
                             ++ decimal port ++ ")"))
        end
    end.

Definition completeNonFiscalReceiptJob (job : NonFiscalReceiptJobRow) (success : bool)
    (errorMessage : option string) : M unit :=
  ensureSupabaseClient;;
  r ← call (EvComplete NonFiscal (nj_id job) success None
              (if success then None
               else Some (slice0 500 (orElse (default "" errorMessage) "PRINT_FAILED"))))
           completeRpc;
  match r with
  | Some error => throw error
  | None => mret tt
  end.

(** The loop of [runTick] over the claimed kitchen jobs: the [try] block of
    its body, the [catch] block, and the body. *)
Definition kitchenJobTry (liveRoutes : option LiveRoutes) (job : JobRow) : M unit :=
  let route := resolveRouteForJob job liveRoutes in
  sendToPrinter job route;;
  completePrintJob job true None;;
  modify (fun w => set_stats (addPrinted (stats w)) w);;
  pushLog INFO ("Stampato job " ++ slice0 8 (job_id job) ++ " -> "
                ++ normalizeDepartment (default "" (job_department job))).

Definition kitchenJobCatch (job : JobRow) (jobError : JsError) : M unit :=
  let message := normalizeError jobError in
  tryCatch (completePrintJob job false (Some message))
    (fun ackError =>
       pushLog ERROR ("Ack failed job " ++ slice0 8 (job_id job) ++ ": "
                      ++ normalizeError ackError));;
  modify (fun w => set_stats (addFailed (stats w)) w);;
  pushLog ERROR ("Errore job " ++ slice0 8 (job_id job) ++ ": " ++ message).

Definition kitchenJobStep (liveRoutes : option LiveRoutes) (job : JobRow) : M unit :=
  tryCatch (kitchenJobTry liveRoutes job) (kitchenJobCatch job).

(** The loop over the claimed fiscal jobs, likewise. *)
Definition physicalJobTry (job : PhysicalReceiptJobRow) : M unit :=
  receiptId ← sendToPhysicalReceiptDevice job;
  completePhysicalReceiptJob job true (Some receiptId) None;;
  modify (fun w => set_stats (addPrinted (stats w)) w);;
  pushLog INFO ("Emesso scontrino RT job " ++ slice0 8 (pj_id job)).

Definition physicalJobCatch (job : PhysicalReceiptJobRow) (jobError : JsError) : M unit :=
  let message := normalizeError jobError in
  tryCatch (completePhysicalReceiptJob job false None (Some message))
    (fun ackError =>
       if isMissingRpcError ackError "physical_receipt_complete_job" then
         modify (set_physicalReceiptRpcAvailable false);;
         pushLog WARN "RPC physical_receipt_complete_job non trovata: applica la migrazione RT fisico."
       else
         pushLog ERROR ("Ack failed RT job " ++ slice0 8 (pj_id job) ++ ": "
                        ++ normalizeError ackError));;
  modify (fun w => set_stats (addFailed (stats w)) w);;
  pushLog ERROR ("Errore RT job " ++ slice0 8 (pj_id job) ++ ": " ++ message).

Definition physicalJobStep (job : PhysicalReceiptJobRow) : M unit :=
  tryCatch (physicalJobTry job) (physicalJobCatch job).

(** The loop over the claimed non-fiscal receipt jobs, likewise. *)
Definition nonFiscalJobTry (job : NonFiscalReceiptJobRow) : M unit :=
  sendToNonFiscalReceiptPrinter job;;
  completeNonFiscalReceiptJob job true None;;
  modify (fun w => set_stats (addPrinted (stats w)) w);;
  pushLog INFO ("Stampato scontrino non fiscale " ++ slice0 8 (nj_id job)).

Definition nonFiscalJobCatch (job : NonFiscalReceiptJobRow) (jobError : JsError) : M unit :=
  let message := normalizeError jobError in
  tryCatch (completeNonFiscalReceiptJob job false (Some message))
    (fun ackError =>
       if isMissingRpcError ackError "non_fiscal_receipt_complete_job" then
         modify (set_nonFiscalReceiptRpcAvailable false)
       else
         pushLog ERROR ("Ack failed NFR job " ++ slice0 8 (nj_id job) ++ ": "
                        ++ normalizeError ackError));;
  modify (fun w => set_stats (addFailed (stats w)) w);;
  pushLog ERROR ("Errore NFR job " ++ slice0 8 (nj_id job) ++ ": " ++ message).

Definition nonFiscalJobStep (job : NonFiscalReceiptJobRow) : M unit :=
  tryCatch (nonFiscalJobTry job) (nonFiscalJobCatch job).

Definition countOf {A} (l : list A) : Z := Z.of_nat (length l).

(** The block of [runTick] for the fiscal receipt family. *)
Definition physicalBlock (restaurant : string) : M unit :=
  w ← getWorker;
  if physicalReceiptRpcAvailable w then
    tryCatch
      (r ← call (EvClaim Physical (consumerId (config w)) (claimLimit (config w)))
                claimPhysical;
       match r with
       | inl physicalError =>
           if isMissingRpcError physicalError "physical_receipt_claim_jobs" then
             modify (set_physicalReceiptRpcAvailable false);;
             pushLog WARN "RPC physical_receipt_claim_jobs non trovata: applica la migrazione RT fisico."
           else throw physicalError
       | inr physicalJobs =>
           modify (fun w => set_stats (addClaimed (countOf physicalJobs) (stats w)) w);;
           (if (0 <? countOf physicalJobs)
            then pushLog INFO ("Claimati " ++ decimal (countOf physicalJobs) ++ " job RT fisico")
            else mret tt);;
           forEach physicalJobs physicalJobStep
       end)
      (fun physicalTickError =>
         pushLog ERROR ("Tick RT fisico: " ++ normalizeError physicalTickError))
  else mret tt.

(** The block of [runTick] for the non-fiscal receipt family. *)
Definition nonFiscalBlock (restaurant : string) : M unit :=
  w ← getWorker;
  if nonFiscalReceiptRpcAvailable w then
    tryCatch
      (r ← call (EvClaim NonFiscal (consumerId (config w)) (claimLimit (config w)))
                claimNonFiscal;
       match r with
       | inl nfrError =>
           if isMissingRpcError nfrError "non_fiscal_receipt_claim_jobs" then
             modify (set_nonFiscalReceiptRpcAvailable false);;
             pushLog WARN "RPC non_fiscal_receipt_claim_jobs non trovata: applica la migrazione."
           else throw nfrError
       | inr nfrJobs =>
           modify (fun w => set_stats (addClaimed (countOf nfrJobs) (stats w)) w);;
           (if (0 <? countOf nfrJobs)
            then pushLog INFO ("Claimati " ++ decimal (countOf nfrJobs)
                               ++ " job scontrino non fiscale")
            else mret tt);;
           forEach nfrJobs nonFiscalJobStep
       end)
      (fun nfrTickError =>
         pushLog ERROR ("Tick scontrino non fiscale: " ++ normalizeError nfrTickError))
  else mret tt.

(** The [try] block of [runTick]. *)
Definition tickBody : M unit :=
  ensureSignedIn;;
  w ← getWorker;
  match restaurantId w with
  | None => throw (ErrError "Ristorante non risolto.")
  | Some restaurant =>
      heartbeatAgent true;;
      ensureSupabaseClient;;
      w ← getWorker;
      r ← call (EvClaim Kitchen (consumerId (config w)) (claimLimit (config w))) claimJobs;
      match r with
      | inl error => throw error
      | inr jobs =>
          modify (fun w => set_stats (addClaimed (countOf jobs) (stats w)) w);;
          (if (0 <? countOf jobs)
           then pushLog INFO ("Claimati " ++ decimal (countOf jobs) ++ " job")
           else mret tt);;
          liveRoutes ←
            tryCatch (lr ← fetchLivePrinterRoutes restaurant; mret (Some lr))
              (fun routesError =>
                 pushLog WARN ("Risoluzione route live fallita: "
                               ++ normalizeError routesError);;
                 mret None);
          forEach jobs (kitchenJobStep liveRoutes);;
          physicalBlock restaurant;;
          nonFiscalBlock restaurant;;
          now ← clock isoNow;
          modify (fun w => set_stats (finishedRun now (stats w)) w)
      end
  end.

(** [runTick] up to its first [await]: the guard, the [processing] flag and
    the broadcast.  It answers whether the tick goes on. *)
Definition runTickEnter : M bool :=
  w ← getWorker;
  if negb (running w) || processing w then mret false
  else
    modify (set_processing true);;
    broadcastState;;
    mret true.

(** The rest of [runTick]: the [try], [catch] and [finally] blocks. *)
Definition runTickRest : M unit :=
  tryFinally
    (tryCatch tickBody
       (fun error =>
          let message := normalizeError error in
          modify (fun w => set_stats (failedRun message (stats w)) w);;
          pushLog ERROR ("Tick error: " ++ message)))
    (modify (set_processing false);;
     broadcastState;;
     w ← getWorker;
     if running w then
       call (EvSetTimeout (pollMs (config w))) (fun _ _ => tt);;
       modify (set_timer (Some (pollMs (config w))))
     else mret tt).

Definition runTick : M unit :=
  runTickEnter ≫= (fun entered : bool =>
  if entered then runTickRest else mret tt).

(** [startService].  The call [void this.runTick()] runs the tick up to its
    first [await] before [startService] returns; the rest of that tick runs
    afterwards, as [runTickRest]. *)
Definition startService : M WorkerPublicState :=
  w ← getWorker;
  if running w then getPublicState
  else
    ensureSignedIn;;
    w ← getWorker;
    match restaurantId w with
    | None => throw (ErrError "Nessun ristorante associato all'account.")
    | Some _ =>
        modify (set_running true);;
        modify (set_processing false);;
        modify (set_assignedPrinterId None);;
        modify (set_stats freshStats);;
        modify (set_physicalReceiptRpcAvailable true);;
        modify (set_nonFiscalReceiptRpcAvailable true);;
        w ← getWorker;
        pushLog INFO ("Servizio stampa avviato (" ++ consumerId (config w) ++ ")");;
        broadcastState;;
        runTickEnter;;
        getPublicState
    end.

Definition syncSession (rawSession : option RawSession) : M WorkerPublicState :=
  match toSessionSnapshot rawSession with
  | None => throw (ErrError "SESSION_INVALID")
  | Some snapshot =>
      w ← getWorker;
      if sameSession (savedSession w) (Some snapshot) then getPublicState
      else
        modify (set_savedSession (Some snapshot));;
        persistState;;
        pushLog INFO "Sessione desktop sincronizzata";;
        w ← getWorker;
        (if autoStart (config w) && negb (running w) then
           tryCatch (startService;; mret tt)
             (fun error => pushLog WARN ("Auto-start non riuscito: " ++ normalizeError error))
         else mret tt);;
        getPublicState
  end.

(** A run of [n] ticks, one after the other. *)
Fixpoint runTicks (n : nat) : M unit :=
  match n with
  | O => mret tt
  | S n' => runTick;; runTicks n'
  end.

End WorkerOps.
(* ===================================================================== *)
(** ** Vocabulary of the properties *)
(* ===================================================================== *)

(** What [sameSession] compares of a snapshot. *)
Definition sessionKey (s : SessionSnapshot) : string * string * number :=
  (access_token s, refresh_token s, canon (numberOrZero (expires_at s))).

Definition stateAfter {A} (x : Result A * St) : St := snd x.
Definition resultOf {A} (x : Result A * St) : Result A := fst x.

(** [m], started where [I] holds, adds to the trace only events that
    satisfy [p], and leaves [I] true. *)
Definition Extends (I : Worker -> Prop) (p : Event -> Prop) {A} (m : M A) : Prop :=
  forall w st, I (worker st) ->
    exists evs, trace (stateAfter (m w st)) = (trace st ++ evs)%list /\
                Forall p evs /\ I (worker (stateAfter (m w st))).

(** [m] returns: no error leaves it. *)
Definition Returns {A} (m : M A) : Prop :=
  forall w st, exists a, resultOf (m w st) = Ok a.

(** Events by family. *)
Definition familyOf (ev : Event) : option Family :=
  match ev with
  | EvClaim f _ _ => Some f
  | EvComplete f _ _ _ _ => Some f
  | _ => None
  end.

Definition notOfFamily (f : Family) (ev : Event) : Prop := familyOf ev <> Some f.


Definition emit (ev : Event) (st : St) : St :=
  {| worker := worker st; trace := (trace st ++ [ev])%list |}.

Definition withWorker (f : Worker -> Worker) (st : St) : St :=
  {| worker := f (worker st); trace := trace st |}.

(** The error of a run that threw. *)
Definition thrown {A} (x : Result A * St) : option JsError :=
  match x with
  | (Throw e, _) => Some e
  | (Ok _, _) => None
  end.

(** A network attempt: a TCP connection or an HTTP POST. *)
Definition isAttempt (ev : Event) : bool :=
  match ev with
  | EvSocket _ _ _ | EvPost _ _ => true
  | _ => false
  end.

Definition attempts (evs : list Event) : nat := length (List.filter isAttempt evs).

(** The events of a delivery that reached the network: one attempt, or two
    with the pause of 500 ms between them, and two only after a first
    error that [shouldRetryPrintLocally] accepts. *)
Definition oneOrTwoAttempts (evs : list Event) (firstError : option JsError) : Prop :=
  (exists a, isAttempt a = true /\ evs = [a] /\
             forall e, firstError = Some e -> shouldRetryPrintLocally e = false) \/
  (exists a1 a2 e, isAttempt a1 = true /\ isAttempt a2 = true /\
                   evs = [a1; EvSleep 500; a2] /\
                   firstError = Some e /\ shouldRetryPrintLocally e = true).

(** The retriable set of the local retry.  A message matches a keyword,
    whatever the case of its letters, when the message in lower case holds
    the keyword. *)
Definition retriableSet : list string :=
  ["timeout"; "econnreset"; "ehostunreach"; "econnrefused"; "epipe"].

Definition mentions (message keyword : string) : Prop :=
  exists before after, toLowerCase message = before ++ keyword ++ after.

Definition configValid (x : Worker) : bool :=
  nonEmpty (trim (VITE_SUPABASE_URL x)) && nonEmpty (trim (VITE_SUPABASE_ANON_KEY x)).

Definition isTransport (ev : Event) : bool :=
  match ev with
  | EvSocket _ _ _ | EvPost _ _ | EvSleep _ => true
  | _ => false
  end.

Definition isLog (ev : Event) : bool :=
  match ev with
  | EvLog _ _ => true
  | _ => false
  end.

(** The two completion calls of a kitchen job. *)
Definition ackOk (job : JobRow) : Event :=
  EvComplete Kitchen (job_id job) true None None.

Definition ackFailed (job : JobRow) (message : string) : Event :=
  EvComplete Kitchen (job_id job) false None
    (Some (slice0 500 (orElse message "PRINT_FAILED"))).

Section Targets.

Variable rd : Renderers.

(** The events of one step of the kitchen loop, which starts when the
    trace of the run is [t]: the transport events of the delivery, then the
    completion calls, then log rows.  The delivery is [sendToPrinter] for
    the route that [resolveRouteForJob] gives; its outcome and its events
    are the same whatever the fields of the worker.  When the delivery
    returned, the success call is issued: alone if the backend accepts it,
    followed by the failure call if the backend rejects it.  When the
    delivery threw (in rendering or in transport), the failure call alone
    is issued, with the message of the error.  A rejected failure call
    leaves the row "Ack failed job". *)
Definition jobSegment (w : World) (liveRoutes : option LiveRoutes) (t : list Event)
    (job : JobRow) (seg : list Event) : Prop :=
  exists outcome transport rows,
    (forall x,
       sendToPrinter rd job (resolveRouteForJob job liveRoutes) w
         {| worker := x; trace := t |} =
       (outcome, {| worker := x; trace := (t ++ transport)%list |})) /\
    forallb isTransport transport = true /\ forallb isLog rows = true /\
    let k := length (t ++ transport) in
    let ackFailedRow ackError :=
      EvLog ERROR ("Ack failed job " ++ slice0 8 (job_id job) ++ ": "
                   ++ normalizeError ackError) in
    match outcome with
    | Ok _ =>
        match completeRpc w k with
        | None => seg = (transport ++ [ackOk job] ++ rows)%list
        | Some error =>
            seg = (transport ++ [ackOk job; ackFailed job (normalizeError error)]
                   ++ rows)%list /\
            forall ackError, completeRpc w (S k) = Some ackError ->
                             In (ackFailedRow ackError) rows
        end
    | Throw jobError =>
        seg = (transport ++ [ackFailed job (normalizeError jobError)] ++ rows)%list /\
        forall ackError, completeRpc w k = Some ackError ->
                         In (ackFailedRow ackError) rows
    end.

(** The segments of the jobs of a batch, one after the other. *)
Fixpoint jobSegments (w : World) (liveRoutes : option LiveRoutes) (t : list Event)
    (jobs : list JobRow) (segs : list (list Event)) : Prop :=
  match jobs, segs with
  | [], [] => True
  | job :: jobs', seg :: segs' =>
      jobSegment w liveRoutes t job seg /\
      jobSegments w liveRoutes (t ++ seg) jobs' segs'
  | _, _ => False
  end.

(** The checks of [sendToPrinter] before the network: a host and a
    rendered ticket. *)
Definition kitchenTarget (job : JobRow) (routeOverride : option Route)
    : option (string * Z * string) :=
  let host := trim (match routeOverride with Some r => route_host r | None => "" end) in
  let port := sanitizePrinterPort
                (match routeOverride with Some r => of_Z (route_port r) | None => NaN end) in
  if nonEmpty host then
    match renderKitchen rd job with
    | inr payload => Some (host, port, payload)
    | inl _ => None
    end
  else None.

Definition nonFiscalTarget (job : NonFiscalReceiptJobRow) : option (string * Z * string) :=
  let host := trim (default "" (nj_host job)) in
  let port := sanitizePrinterPort (default (of_Z 9100) (nj_port job)) in
  if nonEmpty host then
    match renderNonFiscal rd job with
    | inr payload => Some (host, port, payload)
    | inl _ => None
    end
  else None.

Definition physicalTarget (job : PhysicalReceiptJobRow) : option string :=
  if nonEmpty (trim (default "" (pr_host (pj_route job)))) then
    match renderFiscal rd job with
    | inr body => Some body
    | inl _ => None
    end
  else None.

(** One try of the fiscal transport: the POST, then the receipt id. *)
Definition physicalAttempt (job : PhysicalReceiptJobRow) : M string :=
  receiptId ← postPhysicalReceipt rd job;
  now ← clock dateNow;
  mret (orElse (default "" receiptId) ("RT-" ++ slice0 8 (pj_id job) ++ "-" ++ now)).

End Targets.

(** *** Route resolution, as an ordered list of candidates *)

(** A live printer serves when it is enabled and has a host. *)
Definition usableRoute (live : LivePrinter) : option Route :=
  if lp_enabled live && nonEmpty (lp_host live) then Some (liveRoute live) else None.

Definition snapshotOf (job : JobRow) : SnapshotRoute :=
  default emptySnapshotRoute (job_route job).

(** The id of the snapshot route: its [id], else its [printer_id]. *)
Definition snapshotIdOf (job : JobRow) : option string :=
  nonEmptyOpt (trim (orElse (default "" (sr_id (snapshotOf job)))
                            (default "" (sr_printer_id (snapshotOf job))))).

Definition snapshotHostOf (job : JobRow) : string :=
  trim (default "" (sr_host (snapshotOf job))).

Definition departmentOf (job : JobRow) : string :=
  normalizeDepartment (default "" (job_department job)).

(** The four candidates, in the order of their priority. *)
Definition routeCandidates (job : JobRow) (liveRoutes : option LiveRoutes)
    : list (option Route) :=
  [ lr ← liveRoutes; sid ← snapshotIdOf job; live ← byId lr !! sid; usableRoute live;
    lr ← liveRoutes; live ← byDepartment lr !! departmentOf job; usableRoute live;
    lr ← liveRoutes; d ← defaultPrinterId lr; live ← byId lr !! d; usableRoute live;
    if nonEmpty (snapshotHostOf job) then
      Some {| route_id := snapshotIdOf job;
              route_name := orElse (default "" (sr_name (snapshotOf job)))
                                   (orElse (default "" (snapshotIdOf job))
                                           (snapshotHostOf job));
              route_host := snapshotHostOf job;
              route_port := sanitizePrinterPort (sr_port (snapshotOf job)) |}
    else None ].

Fixpoint firstCandidate (l : list (option Route)) : option Route :=
  match l with
  | [] => None
  | Some r :: _ => Some r
  | None :: rest => firstCandidate rest
  end.

(** *** The fiscal document, as its elements *)

(** The elements of the document of [buildEpsonFiscalReceiptXml], for a
    description as it is written in the document, a payment label and the
    text of the cents. *)
Definition fiscalElements (description paymentLabel centsText : string)
    : list Element :=
  [ ("?xml", [("version", "1.0"); ("encoding", "UTF-8")]);
    ("FPMessage", []);
    ("beginFiscalReceipt", [("operator", "1")]);
    ("printRecItem",
     [("description", description); ("price", centsText); ("quantity", "1");
      ("department", "1"); ("vatCode", "1")]);
    ("printRecTotal", [("description", paymentLabel); ("payment", centsText)]);
    ("endFiscalReceipt", []);
    ("/FPMessage", []) ].

(** The payload as the document reads it. *)
Definition tableOf (payload : FiscalPayload) : string :=
  orElse (trim (default "" (table_number payload))) "-".

Definition paymentLabelOf (payload : FiscalPayload) : string :=
  if String.eqb (toLowerCase (trim (default "" (payment_method payload)))) "card"
  then "ELETTRONICO" else "CONTANTI".

Definition centsOf (payload : FiscalPayload) : Integral :=
  atLeastOne (toCents (total_amount payload)).

(** [r] is the integer nearest to the finite number [n], a tie going up:
    [r - 1/2 <= n < r + 1/2], for [n] the number [±m·2^e]. *)
Definition nearestInteger (n : number) (r : Z) : Prop :=
  match n with
  | S754_zero _ => r = 0
  | S754_finite s m e =>
      let v := if s then - Zpos m else Zpos m in
      if 0 <=? e then r = v * 2 ^ e
      else (2 * r - 1) * 2 ^ (- e) <= 2 * v < (2 * r + 1) * 2 ^ (- e)
  | _ => False
  end.

(** The cents of a total as the document should carry them: 1 for a total
    that is not finite or not positive, else the nearest integer of the
    binary64 product of the total and 100, and at least 1; [Infinity] when
    that product overflows. *)
Definition centsSpec (amount : number) (cents : Integral) : Prop :=
  if negb (isFinite amount) || leZero amount then cents = IntVal 1
  else
    match SFmul prec emax amount (of_Z 100) with
    | S754_infinity _ => cents = PlusInfinity
    | S754_nan => True
    | product => exists r, nearestInteger product r /\ cents = IntVal (Z.max 1 r)
    end.

(** *** Words *)

Definition notWhiteSpace (c : ascii) : bool := negb (isWhiteSpace c).

(** A word: not empty, and without white space. *)
Definition wordlike (x : string) : bool :=
  nonEmpty x && forall_chars notWhiteSpace x.

Definition notQuote (c : ascii) : bool := negb (Ascii.eqb c "034").

Definition isDigit (c : ascii) : bool := in_range 48 57 c.

Fixpoint totalLength (l : list string) : nat :=
  match l with
  | [] => O
  | x :: rest => (String.length x + totalLength rest)%nat
  end.

(** A line of [wrapText] as the words it holds: the group is not empty, its
    members are words, and a word longer than the width is alone in its
    group. *)
Definition goodGroup (width : nat) (grp : list string) : Prop :=
  grp <> [] /\ Forall (fun x => wordlike x = true) grp /\
  forall word, In word grp -> (width < String.length word)%nat -> grp = [word].

Definition fits (width : nat) (grp : list string) : Prop :=
  (String.length (join " " grp) <= width)%nat.

(* ===================================================================== *)
(** ** Concrete runs *)
(* ===================================================================== *)

Module Fixture.

Definition renderers : Renderers :=
  {| renderKitchen := fun _ => inr "TICKET";
     renderNonFiscal := fun _ => inr "RECEIPT";
     renderFiscal := fun _ => inr "<FPMessage/>";
     hasFaultKeyword := fun _ => false;
     extractReceiptIdFromResponse := fun _ => None |}.

Definition workerConfig : WorkerConfig :=
  {| consumerId := "win-bridge-cassa"; deviceName := "Cassa"; pollMs := 2500;
     claimLimit := 5; autoStart := true |}.

Definition session : SessionSnapshot :=
  {| access_token := "access"; refresh_token := "refresh"; expires_at := None |}.

(** A worker whose service runs, between two ticks. *)
Definition startedWorker : Worker :=
  {| VITE_SUPABASE_URL := "https://backend.example"; VITE_SUPABASE_ANON_KEY := "anon";
     appVersion := "1.0.0"; config := workerConfig; savedSession := Some session;
     authUser := None; authRestaurant := None; supabase := false;
     physicalReceiptRpcAvailable := true; nonFiscalReceiptRpcAvailable := true;
     running := true; processing := false; timer := None;
     assignedPrinterId := None; stats := freshStats; logs := [] |}.

Definition started : St := {| worker := startedWorker; trace := [] |}.

(** The same worker with both receipt families switched off. *)
Definition degraded : St :=
  {| worker := set_nonFiscalReceiptRpcAvailable false
                 (set_physicalReceiptRpcAvailable false startedWorker);
     trace := [] |}.

Definition kitchenJob : JobRow :=
  {| job_id := "abcdefghij"; job_department := Some "bar"; job_payload := "{}";
     job_route := Some {| sr_id := None; sr_printer_id := None;
                          sr_host := Some "10.0.0.5"; sr_name := None;
                          sr_port := NaN |};
     job_created_at := "2024-01-15T12:30:00Z" |}.

(** A kitchen job without a route snapshot. *)
Definition receiptlessJob : JobRow :=
  {| job_id := "klmnopqrst"; job_department := None; job_payload := "{}";
     job_route := None; job_created_at := "2024-01-15T12:31:00Z" |}.

Definition fiscalRoute : PhysicalRoute :=
  {| pr_host := Some "10.0.0.10"; pr_brand := None; pr_port := NaN;
     pr_api_path := None |}.

Definition fiscalJob (id : string) : PhysicalReceiptJobRow :=
  {| pj_id := id; pj_payload := "{}"; pj_route := fiscalRoute;
     pj_created_at := "2024-01-15T12:30:00Z" |}.

Definition receiptJob : NonFiscalReceiptJobRow :=
  {| nj_id := "receipt-1"; nj_payload := "{}"; nj_host := Some "10.0.0.6";
     nj_port := None; nj_created_at := "2024-01-15T12:30:00Z" |}.

Definition functionNotFound : JsError :=
  ErrObject "Could not find the function public.physical_receipt_complete_job in the schema cache".

(** A world where the user is signed in, printers and the fiscal device
    answer, one kitchen job and two fiscal jobs are claimed, and every
    completion RPC is rejected by the backend. *)
Definition rejecting : World :=
  {| getUser := fun _ => Some {| user_id := "user-1"; user_email := None |};
     setSession := fun _ => inl (ErrError "unused");
     resolveRestaurant := fun _ =>
       inr (Some {| rs_id := "restaurant-1"; rs_name := "Aoyama"; rs_city := None;
                    rs_role := owner |});
     listAgents := fun _ => inr [];
     registerAgent := fun _ => inr None;
     claimJobs := fun _ => inr [kitchenJob];
     claimPhysical := fun _ => inr [fiscalJob "fiscal-1"; fiscalJob "fiscal-2"];
     claimNonFiscal := fun _ => inr [];
     fetchSettings := fun _ => inr ([], None);
     openRawSocket := fun _ => None;
     fetchPost := fun _ =>
       inr {| resp_ok := true; resp_status := "200"; resp_text := "<response/>" |};
     completeRpc := fun _ => Some functionNotFound;
     writeFile := fun _ => None;
     isoNow := fun _ => "2024-01-15T12:30:00.000Z";
     dateNow := fun _ => "1705321800000" |}.

(** The same world with a first connection reset by the printer. *)
Definition resetting : World :=
  {| getUser := getUser rejecting; setSession := setSession rejecting;
     resolveRestaurant := resolveRestaurant rejecting;
     listAgents := listAgents rejecting; registerAgent := registerAgent rejecting;
     claimJobs := claimJobs rejecting; claimPhysical := claimPhysical rejecting;
     claimNonFiscal := claimNonFiscal rejecting;
     fetchSettings := fetchSettings rejecting;
     openRawSocket := fun n => match n with O => Some (ErrError "read ECONNRESET") | _ => None end;
     fetchPost := fetchPost rejecting; completeRpc := fun _ => None;
     writeFile := writeFile rejecting; isoNow := isoNow rejecting;
     dateNow := dateNow rejecting |}.

(** A printer of the settings that is enabled and has no host yet, and a
    job whose route snapshot carries a host. *)
Definition hostlessPrinter : RawPrinter :=
  {| rp_id := Some "p9"; rp_name := Some "Bar"; rp_host := None;
     rp_port := of_Z 9100; rp_enabled := Some true; rp_departments := Some ["bar"] |}.

Definition hostlessDefault : LiveRoutes := buildLiveRoutes [hostlessPrinter] (Some "p9").

(** A fiscal payload of 12.34 paid by card at table 9, and one whose total
    is the number 1e307. *)
Definition cardPayload : FiscalPayload :=
  {| table_number := Some "9"; payment_method := Some "card";
     total_amount := of_ratio 1234 100 |}.

Definition hugePayload : FiscalPayload :=
  {| table_number := Some "9"; payment_method := Some "cash";
     total_amount := of_Z (10 ^ 307) |}.

(** One whose total is the number 1e20. *)
Definition largePayload : FiscalPayload :=
  {| table_number := Some "9"; payment_method := Some "cash";
     total_amount := of_Z (10 ^ 20) |}.

Definition familyEqb (a b : Family) : bool :=
  match a, b with
  | Kitchen, Kitchen | Physical, Physical | NonFiscal, NonFiscal => true
  | _, _ => false
  end.

(** The completion calls of a family in a list of events. *)
Definition completions (f : Family) (evs : list Event) : list Event :=
  List.filter (fun ev => match ev with
                         | EvComplete f' _ _ _ _ => familyEqb f f'
                         | _ => false
                         end) evs.

End Fixture.


(* ===================================================================== *)
(** ** Vocabulary of the properties of texts *)
(* ===================================================================== *)

(** The last character of the string satisfies [p]. *)
Fixpoint endsWithChar (p : ascii -> bool) (s : string) : bool :=
  match s with
  | "" => false
  | String c "" => p c
  | String _ t => endsWithChar p t
  end.

(** The runs of [p] are squeezed: a character that satisfies [p] is [r],
    and the next character does not satisfy [p]. *)
Fixpoint squeezed (p : ascii -> bool) (r : ascii) (s : string) : bool :=
  match s with
  | "" => true
  | String c t =>
      (if p c then Ascii.eqb c r && negb (startsWithChar p t) else true) &&
      squeezed p r t
  end.

(** A text in the form the consumer id sanitizer produces: characters of
    its class only, no two dashes in a row and no dash at the start. *)
Definition consumerIdForm (s : string) : bool :=
  forall_chars isConsumerIdChar s && squeezed isDash "-" s &&
  negb (startsWithChar isDash s).

(* ===================================================================== *)
(** ** Vocabulary of the properties of routes *)
(* ===================================================================== *)

(** The printers of the settings that have an id, as the loop of
    [fetchLivePrinterRoutes] maps them, in the order of the settings. *)
Definition mappedPrinters (printersRaw : list RawPrinter) : list LivePrinter :=
  omap (fun printer =>
          let id := trim (default "" (rp_id printer)) in
          if nonEmpty id then Some (mapPrinter id printer) else None)
       printersRaw.

Definition serves (dep : string) (live : LivePrinter) : bool :=
  usable live && existsb (String.eqb dep) (lp_departments live).

(** The live routes of a tick: none when the settings could not be read. *)
Definition liveRoutesOf (settings : option (list RawPrinter * option string))
    : option LiveRoutes :=
  option_map (fun s => buildLiveRoutes (fst s) (snd s)) settings.

(* ===================================================================== *)
(** ** Reading an escaped text *)
(* ===================================================================== *)

Fixpoint stripPrefix (p s : string) : option string :=
  match p, s with
  | "", _ => Some s
  | String a p', String b s' => if Ascii.eqb a b then stripPrefix p' s' else None
  | _, "" => None
  end.

(** The first character of an escaped text, read back, and the rest of the
    text: an entity of [escapeXml], or a character that is no ampersand. *)
Definition readEntity (s : string) : option (ascii * string) :=
  match s with
  | "" => None
  | String c r =>
      if Ascii.eqb c "&" then
        match stripPrefix "amp;" r, stripPrefix "lt;" r, stripPrefix "gt;" r,
              stripPrefix "quot;" r, stripPrefix "apos;" r with
        | Some t, _, _, _, _ => Some ("&"%char, t)
        | _, Some t, _, _, _ => Some ("<"%char, t)
        | _, _, Some t, _, _ => Some (">"%char, t)
        | _, _, _, Some t, _ => Some ("034"%char, t)
        | _, _, _, _, Some t => Some ("'"%char, t)
        | _, _, _, _, _ => None
        end
      else Some (c, r)
  end.

(* ===================================================================== *)
(** ** Sample inputs *)
(* ===================================================================== *)

Module Sample.

(** A Windows machine. *)
Definition cassa : Host := {| hostname := "CASSA-1"; platform := "win32" |}.

(** The worker of the concrete runs before its service is started. *)
Definition stopped : St :=
  {| worker := set_running false Fixture.startedWorker; trace := [] |}.

End Sample.

(* ===================================================================== *)
(** ** Rows and ESC/POS payloads *)
(* ===================================================================== *)

(** [padRow(label, value, width)] for an integral width. *)
Definition padRow (label value : string) (width : Z) : string :=
  let gap := width - Z.of_nat (String.length label) - Z.of_nat (String.length value) in
  label ++ repeatChar " " (Z.to_nat (Z.max 1 gap)) ++ value.

(** [/^tavolo:/i.test(s)]: without the flag [u] a character of the text
    matches a letter of the pattern when their upper-case forms are the
    same code unit, which among the characters of this type holds for the
    two cases of the letter itself. *)
Definition startsWithTavolo (s : string) : bool :=
  startsWith (toLowerCase s) "tavolo:".

(** [/^\d+x\s+/i.test(s)]: digits, an [x] of either case and a white space
    character. *)
Definition startsWithQuantity (s : string) : bool :=
  startsWithChar isDigit s &&
  match dropStart isDigit s with
  | String c (String d _) =>
      (Ascii.eqb c "x" || Ascii.eqb c "X") && isWhiteSpace d
  | _ => false
  end.

Definition isBoldLine (line : string) : bool :=
  let trimmed := trim line in
  if negb (nonEmpty trimmed) then false
  else if startsWithTavolo trimmed then true
  else if startsWithQuantity trimmed then true
  else false.

Definition getLinePrintSize (line : string) : Z :=
  let trimmed := trim line in
  if negb (nonEmpty trimmed) then 0
  else if startsWithTavolo trimmed then 17
  else if startsWithQuantity trimmed then 17
  else 0.

Definition isLF (c : ascii) : bool := Ascii.eqb c "010".
Definition isCR (c : ascii) : bool := Ascii.eqb c "013".

(** [text.split(/\r?\n/)]: a carriage return right before a line feed
    belongs to the separator. *)
Fixpoint splitLines (s : string) : list string :=
  match s with
  | "" => [""]
  | String c r =>
      if isLF c then "" :: splitLines r
      else if isCR c && startsWithChar isLF r then splitLines r
      else consHead c (splitLines r)
  end.

(** The UTF-8 bytes of a text of this type: one byte below U+0080, two
    bytes from there. *)
Definition utf8_char (c : ascii) : list Z :=
  let n := Z.of_N (code c) in
  if n <? 128 then [n] else [Z.lor 192 (Z.shiftr n 6); Z.lor 128 (Z.land n 63)].

Fixpoint utf8 (s : string) : list Z :=
  match s with
  | "" => []
  | String c r => (utf8_char c ++ utf8 r)%list
  end.

(** The buffers [buildEscPosPayload] collects: a command, or the bytes of
    a line and its line feed. *)
Inductive Chunk :=
| Command (bytes : list Z)
| Line (text : string).

Definition ESC : Z := 27.
Definition GS : Z := 29.
Definition EXTRA_FEED_LINES : Z := 7.

(** The loop of [buildEscPosPayload] over the lines, with its two
    variables; it returns the chunks it pushes and the variables at its
    end. *)
Fixpoint escPosLines (lines : list string) (bold : bool) (size : Z)
    : list Chunk * bool * Z :=
  match lines with
  | [] => ([], bold, size)
  | line :: rest =>
      let shouldBold := isBoldLine line in
      let c1 := if Bool.eqb shouldBold bold then []
                else [Command [ESC; 69; if shouldBold then 1 else 0]] in
      let nextSize := getLinePrintSize line in
      let c2 := if nextSize =? size then [] else [Command [GS; 33; nextSize]] in
      let '(chunks, bold', size') := escPosLines rest shouldBold nextSize in
      ((c1 ++ c2 ++ [Line line] ++ chunks)%list, bold', size')
  end.

Definition escPosChunks (ticketText : string) : list Chunk :=
  let lines := splitLines ticketText in
  let '(body, bold, size) := escPosLines lines false 0 in
  ([Command [ESC; 64]; Command [ESC; 77; 1]; Command [ESC; 32; 2]] ++
   body ++
   (if bold then [Command [ESC; 69; 0]] else []) ++
   (if size =? 0 then [] else [Command [GS; 33; 0]]) ++
   [Command [ESC; 100; EXTRA_FEED_LINES]; Command [GS; 86; 0]])%list.

Definition chunkBytes (c : Chunk) : list Z :=
  match c with
  | Command bytes => bytes
  | Line text => (utf8 text ++ [10])%list
  end.

(** [buildEscPosPayload(ticketText)]: the bytes of the chunks, in order. *)
Definition buildEscPosPayload (ticketText : string) : list Z :=
  concat (map chunkBytes (escPosChunks ticketText)).

(** *** What a printer makes of the chunks *)

(** The state of the printer that the payload drives: emphasis and
    character size. *)
Record PrinterMode := { emphasized : bool; charSize : Z }.

Definition applyCommand (bytes : list Z) (m : PrinterMode) : PrinterMode :=
  match bytes with
  | [27; 64] => {| emphasized := false; charSize := 0 |}
  | [27; 69; n] => {| emphasized := Z.odd n; charSize := charSize m |}
  | [29; 33; n] => {| emphasized := emphasized m; charSize := n |}
  | _ => m
  end.

(** The lines a printer prints for a list of chunks, each with the mode it
    is printed in, and the mode the printer is left in. *)
Fixpoint printedLines (chunks : list Chunk) (m : PrinterMode)
    : list (string * PrinterMode) * PrinterMode :=
  match chunks with
  | [] => ([], m)
  | Command bytes :: rest => printedLines rest (applyCommand bytes m)
  | Line text :: rest =>
      let '(lines, m') := printedLines rest m in
      ((text, m) :: lines, m')
  end.

(** The mode a line is to be printed in. *)
Definition modeOf (line : string) : PrinterMode :=
  {| emphasized := isBoldLine line; charSize := getLinePrintSize line |}.

(* ===================================================================== *)
(** ** The worker: stopping, signing out, configuration *)
(* ===================================================================== *)

(** [stopService].  [clearTimeout] concerns the worker's own timer only and
    leaves no event. *)
Definition stopService : M WorkerPublicState :=
  modify (set_running false);;
  modify (set_processing false);;
  w ← getWorker;
  (match timer w with
   | Some _ => modify (set_timer None)
   | None => mret tt
   end);;
  tryCatch (heartbeatAgent false) (fun _ => mret tt);;
  pushLog INFO "Servizio stampa fermato";;
  broadcastState;;
  getPublicState.

(** [clearSession] *)
Definition clearSession : M WorkerPublicState :=
  modify (set_savedSession None);;
  modify (set_authUser None);;
  modify (set_authRestaurant None);;
  modify (set_supabase false);;
  stopService;;
  persistState;;
  pushLog INFO "Sessione desktop rimossa";;
  getPublicState.

(** A [Partial<WorkerConfig>], and the [config] object of the persisted
    file: a field is [None] when it is [null] or [undefined]; the strings
    are [String(value)], the numbers [Number(value)], and [pc_autoStart] is
    [Boolean(value)]. *)
Record PartialConfig := {
  pc_consumerId : option string;
  pc_deviceName : option string;
  pc_pollMs : option number;
  pc_claimLimit : option number;
  pc_autoStart : option bool;
}.

(** The configuration that [saveConfig] and [loadPersistedState] both
    compute from the given fields and the current configuration. *)
Definition mergedConfig (h : Host) (partial : PartialConfig) (current : WorkerConfig)
    : WorkerConfig :=
  {| consumerId :=
       sanitizeConsumerId h (default (consumerId current) (pc_consumerId partial));
     deviceName :=
       sanitizeDeviceName h (default (deviceName current) (pc_deviceName partial));
     pollMs := sanitizePollMs (default (of_Z (pollMs current)) (pc_pollMs partial));
     claimLimit :=
       sanitizeClaimLimit (default (of_Z (claimLimit current)) (pc_claimLimit partial));
     autoStart := default (autoStart current) (pc_autoStart partial) |}.

(** [saveConfig(partial)] *)
Definition saveConfig (h : Host) (partial : PartialConfig) : M WorkerPublicState :=
  modify (fun w => set_config (mergedConfig h partial (config w)) w);;
  persistState;;
  pushLog INFO "Configurazione worker stampa aggiornata";;
  getPublicState.

(** The persisted file as parsed: its [config] object, empty when the file
    has none, and its [session] field. *)
Record PersistedFile := {
  pf_config : PartialConfig;
  pf_session : option RawSession;
}.

(** [loadPersistedState], on what reading and parsing the file gave:
    [None] when either threw (the first run). *)
Definition loadPersistedState (h : Host) (file : option PersistedFile) : M unit :=
  match file with
  | None => mret tt
  | Some parsed =>
      modify (fun w => set_config (mergedConfig h (pf_config parsed) (config w)) w);;
      modify (set_savedSession (toSessionSnapshot (pf_session parsed)))
  end.

(** [init] *)
Definition init (h : Host) (file : option PersistedFile) : M unit :=
  loadPersistedState h file;;
  w ← getWorker;
  if autoStart (config w) && bool_decide (is_Some (savedSession w)) then
    tryCatch (startService;; mret tt)
      (fun error =>
         pushLog WARN ("Avvio automatico non riuscito: " ++ normalizeError error))
  else mret tt.

(** The file [persistState] writes for a configuration and a session, as
    [loadPersistedState] parses it. *)
Definition rawOfSnapshot (s : SessionSnapshot) : RawSession :=
  {| raw_access_token := Some (access_token s);
     raw_refresh_token := Some (refresh_token s);
     raw_expires_at := match expires_at s with Some n => RawNum n | None => RawNull end |}.

Definition fileOf (c : WorkerConfig) (s : option SessionSnapshot) : PersistedFile :=
  {| pf_config :=
       {| pc_consumerId := Some (consumerId c); pc_deviceName := Some (deviceName c);
          pc_pollMs := Some (of_Z (pollMs c)); pc_claimLimit := Some (of_Z (claimLimit c));
          pc_autoStart := Some (autoStart c) |};
     pf_session := option_map rawOfSnapshot s |}.

(* ===================================================================== *)
(** ** Vocabulary of the properties of runs *)
(* ===================================================================== *)

(** Started with a worker that satisfies [P], the computation ends with a
    worker that satisfies [Q a] when it returns [a], and [E] when it
    throws. *)
Definition Hoare {A} (P : Worker -> Prop) (m : M A)
    (Q : A -> Worker -> Prop) (E : Worker -> Prop) : Prop :=
  forall w st, P (worker st) ->
    match m w st with
    | (Ok a, st') => Q a (worker st')
    | (Throw _, st') => E (worker st')
    end.

(** The jobs that were claimed and are not yet counted as printed or as
    failed. *)
Definition uncounted (x : Worker) : Z :=
  claimed (stats x) - printed (stats x) - failed (stats x).

(** What the [finally] block of a tick leaves: the [processing] flag down,
    and the timer of the next tick set while the service runs. *)
Definition released (x : Worker) : Prop :=
  processing x = false /\
  (running x = true -> timer x = Some (pollMs (config x))).
(* ===================================================================== *)
(** ** Vocabulary of the properties of a tick *)
(* ===================================================================== *)

(** An event that is no call of a job family. *)
Definition noFamily (ev : Event) : Prop := familyOf ev = None.

(** Two workers with the same backend settings. *)
Definition sameBackend (x y : Worker) : Prop :=
  VITE_SUPABASE_URL y = VITE_SUPABASE_URL x /\
  VITE_SUPABASE_ANON_KEY y = VITE_SUPABASE_ANON_KEY x.

(** What a tick never changes of the worker, outside the receipt blocks:
    the backend settings and the two availability flags. *)
Definition sameSettings (x y : Worker) : Prop :=
  sameBackend x y /\
  physicalReceiptRpcAvailable y = physicalReceiptRpcAvailable x /\
  nonFiscalReceiptRpcAvailable y = nonFiscalReceiptRpcAvailable x.

(** A computation that issues no call of a job family and leaves those
    fields as they are. *)
Definition Quiet {A} (m : M A) : Prop :=
  forall w st, exists evs,
    trace (stateAfter (m w st)) = (trace st ++ evs)%list /\
    Forall noFamily evs /\
    sameSettings (worker st) (worker (stateAfter (m w st))).

(** The batch that the claim of kitchen jobs answered when it was event
    [k] of the run: empty when it answered an error. *)
Definition claimedJobs (w : World) (k : nat) : list JobRow :=
  match claimJobs w k with
  | inr jobs => jobs
  | inl _ => []
  end.

Section TickShape.

Variable rd : Renderers.

(** The anatomy of a tick that ran from [st] to [st'].  Either it issued
    no call of a job family; or it stopped at its claim of kitchen jobs,
    which answered an error; or that claim answered a batch, and the tick
    went through the kitchen loop (from [st2] to [st3]), the fiscal block
    (to [st4]) and the non-fiscal block (to [st5]).  What the tick did
    before, between and after issued no call of a job family and left the
    backend settings and the availability flags as they were. *)
Definition tickShape (w : World) (st st' : St) : Prop :=
  (exists evs,
     trace st' = (trace st ++ evs)%list /\ Forall noFamily evs /\
     sameSettings (worker st) (worker st')) \/
  (exists pre c l e post,
     claimJobs w (length (trace st ++ pre)) = inl e /\
     trace st' = (trace st ++ pre ++ [EvClaim Kitchen c l] ++ post)%list /\
     Forall noFamily pre /\ Forall noFamily post /\
     sameSettings (worker st) (worker st')) \/
  (exists pre c l jobs mid lr r st2 st3 st4 st5 post,
     claimJobs w (length (trace st ++ pre)) = inr jobs /\
     trace st2 = (trace st ++ pre ++ [EvClaim Kitchen c l] ++ mid)%list /\
     Forall noFamily pre /\ Forall noFamily mid /\
     sameSettings (worker st) (worker st2) /\
     configValid (worker st2) = true /\
     forEach jobs (kitchenJobStep rd lr) w st2 = (Ok tt, st3) /\
     sameSettings (worker st2) (worker st3) /\
     physicalBlock rd r w st3 = (Ok tt, st4) /\
     sameBackend (worker st3) (worker st4) /\
     nonFiscalReceiptRpcAvailable (worker st4) =
       nonFiscalReceiptRpcAvailable (worker st3) /\
     nonFiscalBlock rd r w st4 = (Ok tt, st5) /\
     sameBackend (worker st4) (worker st5) /\
     physicalReceiptRpcAvailable (worker st5) =
       physicalReceiptRpcAvailable (worker st4) /\
     trace st' = (trace st5 ++ post)%list /\ Forall noFamily post /\
     sameSettings (worker st5) (worker st')).

End TickShape.

(** *** The receipt families *)

Definition sameFamily (a b : Family) : bool :=
  match a, b with
  | Kitchen, Kitchen | Physical, Physical | NonFiscal, NonFiscal => true
  | _, _ => false
  end.

(** The availability flag of a receipt family (the kitchen family has
    none). *)
Definition receiptFlag (f : Family) (x : Worker) : bool :=
  match f with
  | Physical => physicalReceiptRpcAvailable x
  | NonFiscal => nonFiscalReceiptRpcAvailable x
  | Kitchen => true
  end.

(** The names of the claim RPC and of the completion RPC of a family. *)
Definition claimRpc (f : Family) : string :=
  match f with
  | Kitchen => "print_claim_jobs"
  | Physical => "physical_receipt_claim_jobs"
  | NonFiscal => "non_fiscal_receipt_claim_jobs"
  end.

Definition completionRpc (f : Family) : string :=
  match f with
  | Kitchen => "print_complete_job"
  | Physical => "physical_receipt_complete_job"
  | NonFiscal => "non_fiscal_receipt_complete_job"
  end.

(** The error that the claim of family [f] answered when it was event [k]
    of the run, and the ids of the jobs it answered. *)
Definition claimError (f : Family) (w : World) (k : nat) : option JsError :=
  match f with
  | Kitchen => match claimJobs w k with inl e => Some e | inr _ => None end
  | Physical => match claimPhysical w k with inl e => Some e | inr _ => None end
  | NonFiscal => match claimNonFiscal w k with inl e => Some e | inr _ => None end
  end.

Definition claimedIds (f : Family) (w : World) (k : nat) : list string :=
  match f with
  | Kitchen => match claimJobs w k with inr jobs => map job_id jobs | inl _ => [] end
  | Physical => match claimPhysical w k with inr jobs => map pj_id jobs | inl _ => [] end
  | NonFiscal => match claimNonFiscal w k with inr jobs => map nj_id jobs | inl _ => [] end
  end.

(** The event [ev], event [k] of the run, is a call of family [f] that the
    backend answered with "function not found", where the code looks for
    that answer: a claim, or the failure completion call of a job. *)
Definition answersNotFound (f : Family) (w : World) (k : nat) (ev : Event) : bool :=
  match ev with
  | EvClaim f' _ _ =>
      sameFamily f f' &&
      match claimError f w k with
      | Some e => isMissingRpcError e (claimRpc f)
      | None => false
      end
  | EvComplete f' _ false _ _ =>
      sameFamily f f' &&
      match completeRpc w k with
      | Some e => isMissingRpcError e (completionRpc f)
      | None => false
      end
  | _ => false
  end.

Section ReceiptBlocks.

Variable rd : Renderers.

(** The block of a tick for a receipt family. *)
Definition receiptBlock (f : Family) (restaurant : string) : M unit :=
  match f with
  | Physical => physicalBlock rd restaurant
  | NonFiscal => nonFiscalBlock rd restaurant
  | Kitchen => mret tt
  end.

End ReceiptBlocks.

(** What the block of a receipt family did when it ran from [st] to
    [st']: nothing when the flag of the family was off; else a claim, as
    its first event and only there.  A claim that answered "function not
    found" is followed by no other call of the family; every call that
    answered "function not found" leaves the flag off; and every job that
    the claim answered has a completion call after the claim. *)
Definition blockRun (f : Family) (w : World) (st st' : St) : Prop :=
  exists evs,
    trace st' = (trace st ++ evs)%list /\
    Forall (fun ev => noFamily ev \/ familyOf ev = Some f) evs /\
    (receiptFlag f (worker st) = false ->
     evs = [] /\ receiptFlag f (worker st') = false) /\
    (forall k c l, evs !! k = Some (EvClaim f c l) -> k = 0%nat) /\
    (forall c l,
       evs !! 0%nat = Some (EvClaim f c l) ->
       answersNotFound f w (length (trace st)) (EvClaim f c l) = true ->
       forall k ev, evs !! k = Some ev -> k <> 0%nat -> familyOf ev <> Some f) /\
    (forall k ev,
       evs !! k = Some ev ->
       answersNotFound f w (length (trace st) + k) ev = true ->
       receiptFlag f (worker st') = false) /\
    (forall c l id,
       evs !! 0%nat = Some (EvClaim f c l) ->
       In id (claimedIds f w (length (trace st))) ->
       exists k success receiptId error,
         (0 < k)%nat /\ evs !! k = Some (EvComplete f id success receiptId error)).
(** *** What a printer makes of the bytes *)

(** Where a printer is in its reading of the bytes: in text, after the
    byte that opens a command (ESC or GS), or after the code of a command
    that takes one argument. *)
Inductive Reading :=
| InText
| Opened (lead : Z)
| Coded (lead code : Z).

(** A printer reading a payload byte by byte.  ESC and GS open a command;
    [ESC @] is complete with its code, and every other command takes one
    argument, as those of [buildEscPosPayload] do.  A line feed ends the
    line; any other byte is printed in the mode the printer is in.  The
    result is the lines printed, every byte with its mode, and the mode the
    printer is left in. *)
Fixpoint printBytes (bytes : list Z) (r : Reading) (m : PrinterMode)
    (line : list (Z * PrinterMode)) : list (list (Z * PrinterMode)) * PrinterMode :=
  match bytes with
  | [] => (match line with [] => [] | _ => [line] end, m)
  | b :: rest =>
      match r with
      | InText =>
          if (b =? ESC) || (b =? GS) then printBytes rest (Opened b) m line
          else if b =? 10 then
            let '(lines, m') := printBytes rest InText m [] in (line :: lines, m')
          else printBytes rest InText m (line ++ [(b, m)])%list
      | Opened lead =>
          if (lead =? ESC) && (b =? 64)
          then printBytes rest InText (applyCommand [lead; b] m) line
          else printBytes rest (Coded lead b) m line
      | Coded lead code =>
          printBytes rest InText (applyCommand [lead; code; b] m) line
      end
  end.

(** A character whose byte opens a command. *)
Definition opensCommand (c : ascii) : bool :=
  (Z.of_N (code c) =? ESC) || (Z.of_N (code c) =? GS).

(** The bytes of a line, each in the mode of the line. *)
Definition inMode (line : string) : list (Z * PrinterMode) :=
  map (fun b => (b, modeOf line)) (utf8 line).

(** A byte that a printer in text prints; a command as the printer reads
    it; a chunk of commands or of printed bytes. *)
Definition isPrinted (b : Z) : bool :=
  negb ((b =? ESC) || (b =? GS)) && negb (b =? 10).

Definition isCommand (bytes : list Z) : bool :=
  match bytes with
  | [lead; code] => (lead =? ESC) && (code =? 64)
  | [lead; code; _] => ((lead =? ESC) && negb (code =? 64)) || (lead =? GS)
  | _ => false
  end.

Definition isPrintedChar (c : ascii) : bool := negb (opensCommand c) && negb (isLF c).

Definition readableChunk (c : Chunk) : bool :=
  match c with
  | Command bytes => isCommand bytes
  | Line text => forall_chars isPrintedChar text
  end.
(* ===================================================================== *)
(** * Properties *)
(* ===================================================================== *)

(** ** Integers as numbers *)

Lemma digits2_iter_xO (p k : positive) :
  digits2_pos (Pos.iter xO p k) = (digits2_pos p + k)%positive.
Proof.
  induction k as [|k IH] using Pos.peano_ind.
  - simpl. lia.
  - rewrite Pos.iter_succ. simpl. rewrite IH. lia.
Qed.

Lemma Zpos_iter_xO (p k : positive) :
  Zpos (Pos.iter xO p k) = Z.shiftl (Zpos p) (Zpos k).
Proof.
  induction k as [|k IH] using Pos.peano_ind.
  - reflexivity.
  - rewrite Pos.iter_succ. change (Zpos (Pos.iter xO p k)~0) with (2 * Zpos (Pos.iter xO p k)).
    rewrite IH. rewrite !Z.shiftl_mul_pow2 by lia.
    rewrite Pos2Z.inj_succ, Z.pow_succ_r by lia. lia.
Qed.

Lemma of_Z_pos_small (p : positive) :
  Zpos (digits2_pos p) <= 53 ->
  exists m e, of_Z (Zpos p) = S754_finite false m e /\ e <= 0 /\
              Zpos m = Z.shiftl (Zpos p) (- e).
Proof.
  intros Hd. unfold of_Z, binary_normalize, binary_round.
  set (d := digits2_pos p) in *.
  assert (Hf : fexp prec emax (Zpos d + 0) = Zpos d - 53).
  { unfold fexp, emin, prec, emax. lia. }
  rewrite Hf. unfold shl_align.
  destruct (Zpos d - 53 - 0) as [|q|q] eqn:Hq; try lia.
  - exists p, 0. split; [|split; [lia|reflexivity]].
    unfold binary_round_aux, shr_fexp. simpl Zdigits2. fold d.
    rewrite Hf. replace (Zpos d - 53 - 0) with 0 by lia.
    simpl. fold d. rewrite Hf. replace (Zpos d - 53 - 0) with 0 by lia.
    simpl. reflexivity.
  - exists (Pos.iter xO p q), (Zpos d - 53). split; [|split; [lia|]].
    + unfold binary_round_aux, shr_fexp. simpl Zdigits2.
      rewrite digits2_iter_xO. fold d.
      assert (Hf2 : fexp prec emax (Zpos (d + q) + (Zpos d - 53)) = Zpos d - 53).
      { unfold fexp, emin, prec, emax. lia. }
      rewrite Hf2. rewrite Z.sub_diag. simpl.
      rewrite digits2_iter_xO. fold d. rewrite Hf2. rewrite Z.sub_diag. simpl.
      destruct (Zpos d - 53 <=? emax - prec) eqn:E; [reflexivity|].
      unfold emax, prec in E. lia.
    + rewrite Zpos_iter_xO. f_equal. lia.
Qed.

Lemma truncZ_of_Z (z : Z) : 0 < z < 2 ^ 53 -> truncZ (of_Z z) = z /\ isFinite (of_Z z) = true.
Proof.
  intros Hz. destruct z as [|p|p]; try lia.
  assert (Hd : Zpos (digits2_pos p) <= 53).
  { pose proof (Pos2Z.is_pos (digits2_pos p)).
    destruct (Z_le_gt_dec (Zpos (digits2_pos p)) 53) as [|Hgt]; [assumption|exfalso].
    assert (Hlow : 2 ^ (Zpos (digits2_pos p) - 1) <= Zpos p).
    { clear. induction p; simpl digits2_pos.
      - rewrite Pos2Z.inj_succ. replace (Z.succ (Zpos (digits2_pos p)) - 1) with (Z.succ (Zpos (digits2_pos p) - 1)) by lia.
        rewrite Z.pow_succ_r by lia. lia.
      - rewrite Pos2Z.inj_succ. replace (Z.succ (Zpos (digits2_pos p)) - 1) with (Z.succ (Zpos (digits2_pos p) - 1)) by lia.
        rewrite Z.pow_succ_r by lia. lia.
      - simpl. lia. }
    assert (2 ^ 53 <= 2 ^ (Zpos (digits2_pos p) - 1)) by (apply Z.pow_le_mono_r; lia).
    lia. }
  destruct (of_Z_pos_small p Hd) as (m & e & -> & He & Hm).
  split; [|reflexivity]. unfold truncZ.
  destruct (0 <=? e) eqn:E.
  - apply Z.leb_le in E. assert (e = 0) by lia. subst e. change (- 0) with 0 in Hm. rewrite Z.shiftl_0_r in *. cbv zeta. lia.
  - rewrite Hm. rewrite Z.shiftr_shiftl_l by lia. rewrite Z.sub_diag. apply Z.shiftl_0_r.
Qed.

(** ** Numeric sanitizers *)

Lemma sanitizePrinterPort_range (n : number) :
  1 <= sanitizePrinterPort n <= 65535.
Proof.
  unfold sanitizePrinterPort.
  destruct (isFinite n); simpl; [|lia].
  destruct (1 <=? truncZ n) eqn:E1; destruct (truncZ n <=? 65535) eqn:E2; simpl; lia.
Qed.

(** C4, as stated, fails: 80.5 is not an integer, and its port is 80, not
    9100. *)
Lemma sanitizePrinterPort_keeps_truncated_fraction :
  let x := of_ratio 161 2 in
  valid_binary prec emax x = true /\ isFinite x = true /\ isInteger x = false /\
  sanitizePrinterPort x = 80 /\ sanitizePrinterPort x <> 9100.
Proof. vm_compute. repeat split; congruence. Qed.

(** C4, amended: [sanitizePrinterPort] always returns an integer of
    [1..65535]; it returns 9100 when the number is not finite or when its
    truncation toward zero lies outside [1..65535], and that truncation
    otherwise (so a fractional port inside the range is truncated, not
    replaced). *)
Theorem sanitizePrinterPort_spec (n : number) :
  1 <= sanitizePrinterPort n <= 65535 /\
  (isFinite n = false -> sanitizePrinterPort n = 9100) /\
  (isFinite n = true ->
     (1 <= truncZ n <= 65535 -> sanitizePrinterPort n = truncZ n) /\
     (~ 1 <= truncZ n <= 65535 -> sanitizePrinterPort n = 9100)).
Proof.
  split; [apply sanitizePrinterPort_range|].
  unfold sanitizePrinterPort. split.
  - intros ->. reflexivity.
  - intros ->. simpl. split; intros H.
    + destruct (1 <=? truncZ n) eqn:E1; destruct (truncZ n <=? 65535) eqn:E2; simpl; lia.
    + destruct (1 <=? truncZ n) eqn:E1; destruct (truncZ n <=? 65535) eqn:E2; simpl; lia.
Qed.

Lemma sanitizePollMs_range (n : number) : 1000 <= sanitizePollMs n <= 10000.
Proof. unfold sanitizePollMs. destruct (isFinite n); simpl; lia. Qed.

Lemma sanitizeClaimLimit_range (n : number) : 1 <= sanitizeClaimLimit n <= 20.
Proof. unfold sanitizeClaimLimit. destruct (isFinite n); simpl; lia. Qed.

Lemma sanitizePollMs_idempotent (n : number) :
  sanitizePollMs (of_Z (sanitizePollMs n)) = sanitizePollMs n.
Proof.
  pose proof (sanitizePollMs_range n) as H.
  destruct (truncZ_of_Z (sanitizePollMs n)) as [Ht Hf]; [lia|].
  unfold sanitizePollMs at 1. rewrite Hf, Ht. simpl. lia.
Qed.

Lemma sanitizeClaimLimit_idempotent (n : number) :
  sanitizeClaimLimit (of_Z (sanitizeClaimLimit n)) = sanitizeClaimLimit n.
Proof.
  pose proof (sanitizeClaimLimit_range n) as H.
  destruct (truncZ_of_Z (sanitizeClaimLimit n)) as [Ht Hf]; [lia|].
  unfold sanitizeClaimLimit at 1. rewrite Hf, Ht. simpl. lia.
Qed.

Lemma sanitizePrinterPort_idempotent (n : number) :
  sanitizePrinterPort (of_Z (sanitizePrinterPort n)) = sanitizePrinterPort n.
Proof.
  pose proof (sanitizePrinterPort_range n) as H.
  destruct (truncZ_of_Z (sanitizePrinterPort n)) as [Ht Hf]; [lia|].
  unfold sanitizePrinterPort at 1. rewrite Hf, Ht. simpl.
  destruct (1 <=? sanitizePrinterPort n) eqn:E1;
    destruct (sanitizePrinterPort n <=? 65535) eqn:E2; simpl; lia.
Qed.

(** The port theorem at 80.5 and at 70000. *)
Lemma sanitizePrinterPort_spec_witness :
  sanitizePrinterPort (of_ratio 161 2) = truncZ (of_ratio 161 2) /\
  sanitizePrinterPort (of_Z 70000) = 9100.
Proof.
  split.
  - destruct (sanitizePrinterPort_spec (of_ratio 161 2)) as (_ & _ & H).
    apply H; [reflexivity | vm_compute; split; congruence].
  - destruct (sanitizePrinterPort_spec (of_Z 70000)) as (_ & _ & H).
    apply H; [reflexivity | vm_compute; intros [_ H']; apply H'; reflexivity].
Defined.


(** ** String sanitizers *)

(** C8: the string sanitizers are not idempotent.  Both cut the text to its
    maximal length after they stripped its ends, so the cut can leave a
    dash or a space at the end that a second pass strips.  On every machine,
    the consumer id of 63 letters [a] followed by [-b] is sanitized to the
    63 letters and a dash, and that to the 63 letters; the device name of 79
    letters followed by a space and [b] is sanitized to the 79 letters and a
    space, and that to the 79 letters. *)
Theorem string_sanitizers_not_idempotent (h : Host) :
  let id := repeatChar "a" 63 ++ "-b" in
  let name := repeatChar "a" 79 ++ " b" in
  sanitizeConsumerId h id = repeatChar "a" 63 ++ "-" /\
  sanitizeConsumerId h (sanitizeConsumerId h id) = repeatChar "a" 63 /\
  sanitizeConsumerId h (sanitizeConsumerId h id) <> sanitizeConsumerId h id /\
  sanitizeDeviceName h name = repeatChar "a" 79 ++ " " /\
  sanitizeDeviceName h (sanitizeDeviceName h name) = repeatChar "a" 79 /\
  sanitizeDeviceName h (sanitizeDeviceName h name) <> sanitizeDeviceName h name.
Proof. vm_compute. repeat split; congruence. Qed.

(** ** Session snapshots *)

Lemma number_eqb_eq (a b : number) : number_eqb a b = true <-> a = b.
Proof.
  destruct a as [x|x| |s1 m1 e1], b as [y|y| |s2 m2 e2]; simpl;
    try (split; [discriminate | congruence]); try tauto.
  - rewrite Bool.eqb_true_iff. split; congruence.
  - rewrite Bool.eqb_true_iff. split; congruence.
  - rewrite !andb_true_iff, Bool.eqb_true_iff, Pos.eqb_eq, Z.eqb_eq.
    split; [intros [[-> ->] ->]; reflexivity | intros [= -> -> ->]; auto].
Qed.

Lemma canon_not_nan (a : number) : a <> S754_nan -> canon a <> S754_nan.
Proof.
  destruct a as [x|x| |s m e]; simpl; try congruence.
  destruct (odd_part m e). congruence.
Qed.

Lemma strict_equals_canon (a b : number) :
  a <> S754_nan -> b <> S754_nan ->
  (strict_equals a b = true <-> canon a = canon b).
Proof.
  intros Ha Hb. unfold strict_equals.
  destruct a as [x|x| |s1 m1 e1]; try congruence;
    destruct b as [y|y| |s2 m2 e2]; try congruence; apply number_eqb_eq.
Qed.

Lemma numberOrZero_not_nan (x : option number) : numberOrZero x <> S754_nan.
Proof. destruct x as [[s|s| |s m e]|]; simpl; congruence. Qed.

Lemma sameSession_key (a b : option SessionSnapshot) :
  sameSession a b = true <-> option_map sessionKey a = option_map sessionKey b.
Proof.
  destruct a as [a|], b as [b|]; simpl; try (split; [discriminate|congruence]); [|tauto].
  rewrite !andb_true_iff, !String.eqb_eq.
  rewrite (strict_equals_canon _ _ (numberOrZero_not_nan _) (numberOrZero_not_nan _)).
  unfold sessionKey. split.
  - intros [[-> ->] ->]. reflexivity.
  - intros [= -> -> ->]. auto.
Qed.

Lemma sameSession_refl (a : option SessionSnapshot) : sameSession a a = true.
Proof. apply sameSession_key. reflexivity. Qed.

Lemma sameSession_sym (a b : option SessionSnapshot) :
  sameSession a b = true -> sameSession b a = true.
Proof. rewrite !sameSession_key. congruence. Qed.

Lemma sameSession_trans (a b c : option SessionSnapshot) :
  sameSession a b = true -> sameSession b c = true -> sameSession a c = true.
Proof. rewrite !sameSession_key. congruence. Qed.

(** C7, as stated, fails: a snapshot without expiry and one that expires at
    0 compare equal, though their [expires_at] fields differ.  Both come
    out of [toSessionSnapshot], from a missing and from a [null] field. *)
Lemma sameSession_null_equals_zero :
  let raw e := Some {| raw_access_token := Some "a"; raw_refresh_token := Some "r";
                       raw_expires_at := e |} in
  exists a b,
    toSessionSnapshot (raw RawUndefined) = Some a /\
    toSessionSnapshot (raw RawNull) = Some b /\
    sameSession (Some a) (Some b) = true /\
    expires_at a <> expires_at b.
Proof.
  eexists _, _. simpl. repeat split; try reflexivity. simpl. congruence.
Qed.


(** ** Route resolution *)

Lemma resolveRouteForJob_candidates job liveRoutes :
  resolveRouteForJob job liveRoutes = firstCandidate (routeCandidates job liveRoutes).
Proof.
  unfold resolveRouteForJob, routeCandidates, snapshotIdOf, snapshotHostOf,
    departmentOf, snapshotOf, usableRoute, usable, nonEmptyOpt. cbv zeta.
  destruct liveRoutes as [lr|]; simpl;
    repeat (try reflexivity;
            match goal with
            | |- context [if ?b then _ else _] => destruct b eqn:?; simpl
            | |- context [match ?x with _ => _ end] => destruct x eqn:?; simpl
            end); try congruence.
Qed.

Lemma addDepartments_usable (mapped : LivePrinter) (m : gmap string LivePrinter) :
  usable mapped = true ->
  (forall dep p, m !! dep = Some p -> usable p = true) ->
  forall dep p, addDepartments mapped m !! dep = Some p -> usable p = true.
Proof.
  unfold addDepartments. intros Hu.
  generalize (lp_departments mapped) as deps.
  intros deps. revert m. induction deps as [|d deps IH]; intros m Hm dep p; simpl.
  - apply Hm.
  - apply IH. intros dep' p'. destruct (m !! d) eqn:Ed.
    + apply Hm.
    + destruct (decide (d = dep')) as [->|Hne].
      * rewrite lookup_insert_eq. intros [= <-]. exact Hu.
      * rewrite lookup_insert_ne by exact Hne. apply Hm.
Qed.

Lemma buildLiveRoutes_byDepartment_usable printers default_printer_id dep p :
  byDepartment (buildLiveRoutes printers default_printer_id) !! dep = Some p ->
  usable p = true.
Proof.
  unfold buildLiveRoutes. simpl.
  assert (H : forall acc : gmap string LivePrinter * gmap string LivePrinter,
             (forall dep p, snd acc !! dep = Some p -> usable p = true) ->
             forall dep p, snd (fold_left addPrinter printers acc) !! dep = Some p ->
                           usable p = true).
  { induction printers as [|raw printers IH]; intros acc Hacc; simpl; [exact Hacc|].
    apply IH. unfold addPrinter.
    destruct (negb (nonEmpty (trim (default "" (rp_id raw))))); [exact Hacc|].
    cbv zeta. set (mapped := mapPrinter _ raw). cbn [snd].
    destruct (lp_enabled mapped && nonEmpty (lp_host mapped)) eqn:Eu; [|exact Hacc].
    apply addDepartments_usable; assumption. }
  apply H. intros dep' p'. cbn [snd]. rewrite lookup_empty. discriminate.
Qed.

Section RouteClaim.

Variable rd : Renderers.

Lemma sendToPrinter_no_route job w st :
  sendToPrinter rd job None w st = (Throw (ErrError "NO_PRINTER_HOST"), st).
Proof. reflexivity. Qed.

(** C3, amended.  [resolveRouteForJob] returns the first of four
    candidates that exists: (1) the live printer under the id of the
    snapshot route ([id], else [printer_id]), when it is enabled and has a
    host; (2) the entry of [byDepartment] for the department of the job
    (lower-cased, "cucina" by default), when it is enabled and has a host,
    which every entry of the index built from the settings is; (3) the live
    printer under [defaultPrinterId], when it is enabled and has a host;
    (4) the snapshot route itself, when it has a host.  Without any, the
    delivery throws NO_PRINTER_HOST before it touches the network. *)
Theorem route_resolution_priority :
  (forall job liveRoutes,
     resolveRouteForJob job liveRoutes =
     firstCandidate (routeCandidates job liveRoutes)) /\
  (forall printers default_printer_id dep p,
     byDepartment (buildLiveRoutes printers default_printer_id) !! dep = Some p ->
     usable p = true) /\
  (forall job liveRoutes w st,
     resolveRouteForJob job liveRoutes = None ->
     sendToPrinter rd job (resolveRouteForJob job liveRoutes) w st =
     (Throw (ErrError "NO_PRINTER_HOST"), st)).
Proof.
  split; [exact resolveRouteForJob_candidates|].
  split; [exact buildLiveRoutes_byDepartment_usable|].
  intros job liveRoutes w st ->. reflexivity.
Qed.

End RouteClaim.

(** C3, as stated, fails at its third step: the default printer is enabled
    but has no host, and the job is routed to the host of its snapshot, not
    to the default printer. *)
Lemma enabled_default_without_host_is_skipped :
  exists live,
    defaultPrinterId Fixture.hostlessDefault = Some "p9" /\
    byId Fixture.hostlessDefault !! "p9" = Some live /\
    lp_enabled live = true /\
    resolveRouteForJob Fixture.kitchenJob (Some Fixture.hostlessDefault) =
      Some {| route_id := None; route_name := "10.0.0.5";
              route_host := "10.0.0.5"; route_port := 9100 |} /\
    resolveRouteForJob Fixture.kitchenJob (Some Fixture.hostlessDefault) <>
      Some (liveRoute live).
Proof.
  eexists. split; [reflexivity|]. split; [vm_compute; reflexivity|].
  split; [reflexivity|]. split; [vm_compute; reflexivity|].
  vm_compute. discriminate.
Qed.

Lemma route_resolution_priority_witness :
  sendToPrinter Fixture.renderers Fixture.receiptlessJob
    (resolveRouteForJob Fixture.receiptlessJob None) Fixture.rejecting Fixture.started =
  (Throw (ErrError "NO_PRINTER_HOST"), Fixture.started).
Proof.
  destruct (route_resolution_priority Fixture.renderers) as (_ & _ & H).
  apply H. reflexivity.
Defined.


(** ** The worker: how computations extend the trace *)

Section Frame.

Variable I : Worker -> Prop.
Variable p : Event -> Prop.

Lemma Extends_ret {A} (a : A) : Extends I p (mret a).
Proof. intros w st HI. exists []. rewrite app_nil_r. simpl. auto. Qed.

Lemma Extends_throw {A} (e : JsError) : Extends I p (@throw A e).
Proof. intros w st HI. exists []. rewrite app_nil_r. simpl. auto. Qed.

Lemma Extends_getWorker : Extends I p getWorker.
Proof. intros w st HI. exists []. rewrite app_nil_r. simpl. auto. Qed.

Lemma Extends_clock read : Extends I p (clock read).
Proof. intros w st HI. exists []. rewrite app_nil_r. simpl. auto. Qed.

Lemma Extends_modify (f : Worker -> Worker) :
  (forall x, I x -> I (f x)) -> Extends I p (modify f).
Proof. intros Hf w st HI. exists []. rewrite app_nil_r. simpl. auto. Qed.

Lemma Extends_call {R} (ev : Event) (answer : World -> nat -> R) :
  p ev -> Extends I p (call ev answer).
Proof. intros Hp w st HI. exists [ev]. simpl. auto. Qed.

Lemma Extends_bind {A B} (m : M A) (f : A -> M B) :
  Extends I p m -> (forall a, Extends I p (f a)) -> Extends I p (m ≫= f).
Proof.
  intros Hm Hf w st HI. destruct (Hm w st HI) as (evs & Ht & Hp & HI').
  unfold mbind, M_bind. destruct (m w st) as [[a|e] st1]; simpl in *.
  - destruct (Hf a w st1 HI') as (evs2 & Ht2 & Hp2 & HI2).
    exists (evs ++ evs2)%list. rewrite Ht2, Ht, app_assoc.
    split; [reflexivity|]. split; [apply Forall_app; auto | assumption].
  - exists evs. auto.
Qed.

Lemma Extends_tryCatch {A} (m : M A) (h : JsError -> M A) :
  Extends I p m -> (forall e, Extends I p (h e)) -> Extends I p (tryCatch m h).
Proof.
  intros Hm Hh w st HI. destruct (Hm w st HI) as (evs & Ht & Hp & HI').
  unfold tryCatch. destruct (m w st) as [[a|e] st1]; simpl in *.
  - exists evs. auto.
  - destruct (Hh e w st1 HI') as (evs2 & Ht2 & Hp2 & HI2).
    exists (evs ++ evs2)%list. rewrite Ht2, Ht, app_assoc.
    split; [reflexivity|]. split; [apply Forall_app; auto | assumption].
Qed.

Lemma Extends_tryFinally {A} (m : M A) (f : M unit) :
  Extends I p m -> Extends I p f -> Extends I p (tryFinally m f).
Proof.
  intros Hm Hf w st HI. destruct (Hm w st HI) as (evs & Ht & Hp & HI').
  unfold tryFinally. destruct (m w st) as [r st1]; simpl in *.
  destruct (Hf w st1 HI') as (evs2 & Ht2 & Hp2 & HI2).
  exists (evs ++ evs2)%list.
  destruct (f w st1) as [[[]|e] st2]; simpl in *;
    rewrite Ht2, Ht, app_assoc; (split; [reflexivity|]);
    (split; [apply Forall_app; auto | assumption]).
Qed.

Lemma Extends_forEach {A} (l : list A) (body : A -> M unit) :
  (forall a, Extends I p (body a)) -> Extends I p (forEach l body).
Proof.
  intros Hb. induction l as [|x l IH]; simpl.
  - apply Extends_ret.
  - apply Extends_bind; [apply Hb | intros _; apply IH].
Qed.

End Frame.

Lemma Returns_ret {A} (a : A) : Returns (mret a).
Proof. intros w st. exists a. reflexivity. Qed.

Lemma Returns_getWorker : Returns getWorker.
Proof. intros w st. eexists. reflexivity. Qed.

Lemma Returns_clock read : Returns (clock read).
Proof. intros w st. eexists. reflexivity. Qed.

Lemma Returns_modify f : Returns (modify f).
Proof. intros w st. eexists. reflexivity. Qed.

Lemma Returns_call {R} ev (answer : World -> nat -> R) : Returns (call ev answer).
Proof. intros w st. eexists. reflexivity. Qed.

Lemma Returns_bind {A B} (m : M A) (f : A -> M B) :
  Returns m -> (forall a, Returns (f a)) -> Returns (m ≫= f).
Proof.
  intros Hm Hf w st. destruct (Hm w st) as [a Ha].
  unfold mbind, M_bind, resultOf in *. destruct (m w st) as [[a'|e] st1]; simpl in *.
  - apply Hf.
  - discriminate.
Qed.

Lemma Returns_tryCatch {A} (m : M A) (h : JsError -> M A) :
  (forall e, Returns (h e)) -> Returns (tryCatch m h).
Proof.
  intros Hh w st. unfold tryCatch, resultOf.
  destruct (m w st) as [[a|e] st1]; simpl.
  - eexists. reflexivity.
  - apply Hh.
Qed.

Lemma Returns_tryFinally {A} (m : M A) (f : M unit) :
  Returns m -> Returns f -> Returns (tryFinally m f).
Proof.
  intros Hm Hf w st. unfold tryFinally, resultOf in *.
  destruct (Hm w st) as [a Ha]. destruct (m w st) as [r st1]; simpl in *.
  destruct (Hf w st1) as [[] Hu]. destruct (f w st1) as [r2 st2]; simpl in *.
  subst. eexists. reflexivity.
Qed.

Lemma Returns_forEach {A} (l : list A) (body : A -> M unit) :
  (forall a, Returns (body a)) -> Returns (forEach l body).
Proof.
  intros Hb. induction l as [|x l IH]; simpl.
  - apply Returns_ret.
  - apply Returns_bind; [apply Hb | intros _; apply IH].
Qed.

Create HintDb framedb.

(** One step of a proof that a computation extends the trace within [I]
    and [p], or that it returns: the rule of the outermost construct. *)
Ltac frame_step :=
  lazymatch goal with
  | |- Extends _ _ (mbind _ _) => apply Extends_bind; [|intros ?]
  | |- Extends _ _ (mret _) => apply Extends_ret
  | |- Extends _ _ (throw _) => apply Extends_throw
  | |- Extends _ _ getWorker => apply Extends_getWorker
  | |- Extends _ _ (clock _) => apply Extends_clock
  | |- Extends _ _ (modify _) => apply Extends_modify; intros ? ?; simpl; auto with framedb
  | |- Extends _ _ (call _ _) => apply Extends_call; simpl; auto with framedb
  | |- Extends _ _ (tryCatch _ _) => apply Extends_tryCatch; [|intros ?]
  | |- Extends _ _ (tryFinally _ _) => apply Extends_tryFinally
  | |- Extends _ _ (forEach _ _) => apply Extends_forEach; intros ?
  | |- Extends _ _ (match ?x with _ => _ end) => destruct x
  | |- Extends _ _ (let _ := _ in _) => cbv zeta
  | |- Returns (mbind _ _) => apply Returns_bind; [|intros ?]
  | |- Returns (mret _) => apply Returns_ret
  | |- Returns getWorker => apply Returns_getWorker
  | |- Returns (clock _) => apply Returns_clock
  | |- Returns (modify _) => apply Returns_modify
  | |- Returns (call _ _) => apply Returns_call
  | |- Returns (tryCatch _ _) => apply Returns_tryCatch; intros ?
  | |- Returns (tryFinally _ _) => apply Returns_tryFinally
  | |- Returns (forEach _ _) => apply Returns_forEach; intros ?
  | |- Returns (match ?x with _ => _ end) => destruct x
  | |- Returns (let _ := _ in _) => cbv zeta
  end.

Ltac frame := repeat (frame_step || (progress auto with framedb)).

#[export] Hint Resolve Extends_ret Extends_throw Extends_getWorker Extends_clock : framedb.
#[export] Hint Resolve Returns_ret Returns_getWorker Returns_clock Returns_modify Returns_call : framedb.

Section WorkerProperties.

Variable rd : Renderers.

(** *** Operations that concern no receipt family *)

Section Common.

(** [I] reads the two availability flags only; [p] accepts every event
    outside the two receipt families. *)
Variable Q : bool -> bool -> Prop.
Variable p : Event -> Prop.

Local Abbreviation I :=
  (fun x : Worker => Q (physicalReceiptRpcAvailable x) (nonFiscalReceiptRpcAvailable x)).

Hypothesis p_other :
  forall ev, familyOf ev <> Some Physical -> familyOf ev <> Some NonFiscal -> p ev.

Local Hint Extern 4 (p _) => (apply p_other; simpl; congruence) : framedb.

Lemma Extends_pushLog level message : Extends I p (pushLog level message).
Proof. unfold pushLog. frame. Qed.
Local Hint Resolve Extends_pushLog : framedb.

Lemma Extends_broadcastState : Extends I p broadcastState.
Proof. unfold broadcastState. frame. Qed.
Local Hint Resolve Extends_broadcastState : framedb.

Lemma Extends_persistState : Extends I p persistState.
Proof. unfold persistState. frame. Qed.
Local Hint Resolve Extends_persistState : framedb.

Lemma Extends_sleep ms : Extends I p (sleep ms).
Proof. unfold sleep. frame. Qed.
Local Hint Resolve Extends_sleep : framedb.

Lemma Extends_ensureSupabaseClient : Extends I p ensureSupabaseClient.
Proof. unfold ensureSupabaseClient. frame. Qed.
Local Hint Resolve Extends_ensureSupabaseClient : framedb.

Lemma Extends_resolveRestaurant userId :
  Extends I p (resolveRestaurantForCurrentUser userId).
Proof. unfold resolveRestaurantForCurrentUser. frame. Qed.
Local Hint Resolve Extends_resolveRestaurant : framedb.

Lemma Extends_ensureSignedIn : Extends I p ensureSignedIn.
Proof. unfold ensureSignedIn. frame. Qed.
Local Hint Resolve Extends_ensureSignedIn : framedb.

Lemma Extends_fetchAssignedPrinterId : Extends I p fetchAssignedPrinterId.
Proof. unfold fetchAssignedPrinterId. frame. Qed.
Local Hint Resolve Extends_fetchAssignedPrinterId : framedb.

Lemma Extends_heartbeatAgent isActive : Extends I p (heartbeatAgent isActive).
Proof. unfold heartbeatAgent. frame. Qed.
Local Hint Resolve Extends_heartbeatAgent : framedb.

Lemma Extends_fetchLivePrinterRoutes r : Extends I p (fetchLivePrinterRoutes r).
Proof. unfold fetchLivePrinterRoutes. frame. Qed.
Local Hint Resolve Extends_fetchLivePrinterRoutes : framedb.

Lemma Extends_connectSocket host port payload :
  Extends I p (connectSocket host port payload).
Proof. unfold connectSocket. frame. Qed.
Local Hint Resolve Extends_connectSocket : framedb.

Lemma Extends_attemptLoop {A} rounds attempt lastError (transport : M A) :
  Extends I p transport -> Extends I p (attemptLoop rounds attempt lastError transport).
Proof.
  intros Ht. revert attempt lastError.
  induction rounds as [|n IH]; intros attempt lastError; simpl; frame.
Qed.
Local Hint Resolve Extends_attemptLoop : framedb.

Lemma Extends_sendToPrinter job route : Extends I p (sendToPrinter rd job route).
Proof. unfold sendToPrinter. frame. Qed.
Local Hint Resolve Extends_sendToPrinter : framedb.

Lemma Extends_completePrintJob job success e :
  Extends I p (completePrintJob job success e).
Proof. unfold completePrintJob. frame. Qed.
Local Hint Resolve Extends_completePrintJob : framedb.

Lemma Extends_kitchenJobStep lr job : Extends I p (kitchenJobStep rd lr job).
Proof. unfold kitchenJobStep, kitchenJobTry, kitchenJobCatch. frame. Qed.
Local Hint Resolve Extends_kitchenJobStep : framedb.

Lemma Extends_runTickEnter : Extends I p runTickEnter.
Proof. unfold runTickEnter. frame. Qed.
Local Hint Resolve Extends_runTickEnter : framedb.

(** The two receipt blocks, as the tick sees them. *)
Hypothesis Extends_physicalBlock : forall r, Extends I p (physicalBlock rd r).
Hypothesis Extends_nonFiscalBlock : forall r, Extends I p (nonFiscalBlock rd r).
Local Hint Resolve Extends_physicalBlock Extends_nonFiscalBlock : framedb.

Lemma Extends_tickBody : Extends I p (tickBody rd).
Proof. unfold tickBody. frame. Qed.
Local Hint Resolve Extends_tickBody : framedb.

Lemma Extends_runTickRest : Extends I p (runTickRest rd).
Proof. unfold runTickRest. frame. Qed.
Local Hint Resolve Extends_runTickRest : framedb.

Lemma Extends_runTick : Extends I p (runTick rd).
Proof. unfold runTick. frame. Qed.

Lemma Extends_runTicks n : Extends I p (runTicks rd n).
Proof.
  induction n as [|n IH]; simpl; frame. apply Extends_runTick.
Qed.

End Common.

(** *** The receipt blocks *)

Section OpenBlocks.

Variable Q : bool -> bool -> Prop.
Variable p : Event -> Prop.

Local Abbreviation I :=
  (fun x : Worker => Q (physicalReceiptRpcAvailable x) (nonFiscalReceiptRpcAvailable x)).

Hypothesis p_other :
  forall ev, familyOf ev <> Some Physical -> familyOf ev <> Some NonFiscal -> p ev.

Local Hint Extern 4 (p _) => (apply p_other; simpl; congruence) : framedb.
Local Hint Resolve Extends_pushLog Extends_ensureSupabaseClient Extends_connectSocket
  Extends_attemptLoop Extends_sleep : framedb.

Section PhysicalOpen.

Hypothesis p_physical : forall ev, familyOf ev = Some Physical -> p ev.
Hypothesis Q_physical_off : forall a b, Q a b -> Q false b.

Local Hint Extern 3 (p _) => (apply p_physical; reflexivity) : framedb.
Local Hint Extern 3 (Q false _) => (eapply Q_physical_off; eassumption) : framedb.

Lemma Extends_postPhysicalReceipt job : Extends I p (postPhysicalReceipt rd job).
Proof. unfold postPhysicalReceipt. frame. Qed.
Local Hint Resolve Extends_postPhysicalReceipt : framedb.

Lemma Extends_sendToPhysicalReceiptDevice job :
  Extends I p (sendToPhysicalReceiptDevice rd job).
Proof.
  unfold sendToPhysicalReceiptDevice. frame.
  apply Extends_attemptLoop; [exact p_other|]. frame.
Qed.
Local Hint Resolve Extends_sendToPhysicalReceiptDevice : framedb.

Lemma Extends_completePhysicalReceiptJob job success r e :
  Extends I p (completePhysicalReceiptJob job success r e).
Proof. unfold completePhysicalReceiptJob. frame. Qed.
Local Hint Resolve Extends_completePhysicalReceiptJob : framedb.

Lemma Extends_physicalJobStep job : Extends I p (physicalJobStep rd job).
Proof. unfold physicalJobStep, physicalJobTry, physicalJobCatch. frame. Qed.
Local Hint Resolve Extends_physicalJobStep : framedb.

Lemma Extends_physicalBlock_open r : Extends I p (physicalBlock rd r).
Proof. unfold physicalBlock. frame. Qed.

End PhysicalOpen.

Section NonFiscalOpen.

Hypothesis p_nonFiscal : forall ev, familyOf ev = Some NonFiscal -> p ev.
Hypothesis Q_nonFiscal_off : forall a b, Q a b -> Q a false.

Local Hint Extern 3 (p _) => (apply p_nonFiscal; reflexivity) : framedb.
Local Hint Extern 3 (Q _ false) => (eapply Q_nonFiscal_off; eassumption) : framedb.

Lemma Extends_sendToNonFiscalReceiptPrinter job :
  Extends I p (sendToNonFiscalReceiptPrinter rd job).
Proof. unfold sendToNonFiscalReceiptPrinter. frame. Qed.
Local Hint Resolve Extends_sendToNonFiscalReceiptPrinter : framedb.

Lemma Extends_completeNonFiscalReceiptJob job success e :
  Extends I p (completeNonFiscalReceiptJob job success e).
Proof. unfold completeNonFiscalReceiptJob. frame. Qed.
Local Hint Resolve Extends_completeNonFiscalReceiptJob : framedb.

Lemma Extends_nonFiscalJobStep job : Extends I p (nonFiscalJobStep rd job).
Proof. unfold nonFiscalJobStep, nonFiscalJobTry, nonFiscalJobCatch. frame. Qed.
Local Hint Resolve Extends_nonFiscalJobStep : framedb.

Lemma Extends_nonFiscalBlock_open r : Extends I p (nonFiscalBlock rd r).
Proof. unfold nonFiscalBlock. frame. Qed.

End NonFiscalOpen.

End OpenBlocks.

(** A block whose flag is off does nothing. *)
Lemma physicalBlock_off r w st :
  physicalReceiptRpcAvailable (worker st) = false ->
  physicalBlock rd r w st = (Ok tt, st).
Proof.
  intros H. unfold physicalBlock, mbind, M_bind, getWorker. rewrite H. reflexivity.
Qed.

Lemma nonFiscalBlock_off r w st :
  nonFiscalReceiptRpcAvailable (worker st) = false ->
  nonFiscalBlock rd r w st = (Ok tt, st).
Proof.
  intros H. unfold nonFiscalBlock, mbind, M_bind, getWorker. rewrite H. reflexivity.
Qed.

(** Once the flag of a family is off, a run of ticks issues no call of
    that family and leaves the flag off. *)
Lemma runTicks_physical_off n :
  Extends (fun x => physicalReceiptRpcAvailable x = false) (notOfFamily Physical)
          (runTicks rd n).
Proof.
  apply (Extends_runTicks (fun a _ => a = false)).
  - intros ev H _. exact H.
  - intros r w st H. rewrite (physicalBlock_off r w st H).
    exists []. rewrite app_nil_r. simpl. auto.
  - intros r. apply (Extends_nonFiscalBlock_open (fun a _ => a = false));
      unfold notOfFamily; intros; congruence.
Qed.

Lemma runTicks_nonFiscal_off n :
  Extends (fun x => nonFiscalReceiptRpcAvailable x = false) (notOfFamily NonFiscal)
          (runTicks rd n).
Proof.
  apply (Extends_runTicks (fun _ b => b = false)).
  - intros ev _ H. exact H.
  - intros r. apply (Extends_physicalBlock_open (fun _ b => b = false));
      unfold notOfFamily; intros; congruence.
  - intros r w st H. rewrite (nonFiscalBlock_off r w st H).
    exists []. rewrite app_nil_r. simpl. auto.
Qed.

End WorkerProperties.

(** ** Delivery: the local retry *)

Lemma oneOrTwoAttempts_cap evs firstError :
  oneOrTwoAttempts evs firstError ->
  (1 <= attempts evs <= 2)%nat /\
  (forall e, firstError = Some e -> shouldRetryPrintLocally e = false -> attempts evs = 1%nat).
Proof.
  intros [(a & Ha & -> & Hn) | (a1 & a2 & e & H1 & H2 & -> & He & Hr)];
    unfold attempts; simpl.
  - rewrite Ha. simpl. split; [lia | reflexivity].
  - rewrite H1, H2. simpl. split; [lia|]. intros e' He' Hr'. congruence.
Qed.

Lemma prefix_iff (p s : string) :
  String.prefix p s = true <-> exists rest, s = p ++ rest.
Proof.
  revert s. induction p as [|a p IH]; intros s.
  - split; [intros _; exists s; reflexivity | intros _; destruct s; reflexivity].
  - destruct s as [|b s].
    + split; [discriminate | intros [rest H]; discriminate H].
    + cbn [String.prefix]. destruct (ascii_dec a b) as [->|Hab].
      * rewrite IH. split; intros [rest H]; exists rest.
        -- rewrite H. reflexivity.
        -- injection H as H. exact H.
      * split; [discriminate | intros [rest H]; injection H as H1 H2; congruence].
Qed.

(** [s.includes(needle)]: the needle lies somewhere in the text. *)
Lemma includes_iff (s needle : string) :
  includes s needle = true <-> exists before after, s = before ++ needle ++ after.
Proof.
  induction s as [|c s IH].
  - cbn [includes]. rewrite orb_false_r, prefix_iff. split.
    + intros [rest H]. exists "", rest. exact H.
    + intros (before & after & H). destruct before; [|discriminate H].
      exists after. exact H.
  - cbn [includes]. rewrite orb_true_iff, prefix_iff, IH. split.
    + intros [[rest H] | (before & after & H)].
      * exists "", rest. exact H.
      * exists (String c before), after. rewrite H. reflexivity.
    + intros (before & after & H). destruct before as [|d before].
      * left. exists after. exact H.
      * right. injection H as _ H. exists before, after. exact H.
Qed.

(** The retry test of the senders accepts exactly the errors whose message
    matches a member of the retriable set. *)
Lemma shouldRetryPrintLocally_iff (e : JsError) :
  shouldRetryPrintLocally e = true <->
  exists keyword, In keyword retriableSet /\ mentions (normalizeError e) keyword.
Proof.
  unfold shouldRetryPrintLocally, mentions, retriableSet. cbv zeta.
  rewrite !orb_true_iff, !includes_iff. split.
  - intros [[[[H|H]|H]|H]|H]; eexists; (split; [|exact H]); simpl; auto 6.
  - intros (keyword & Hin & H). simpl in Hin.
    destruct Hin as [<-|[<-|[<-|[<-|[<-|[]]]]]]; auto 6.
Qed.

(** The loop of the three senders, run: the transport once, and once more
    after the pause when its error can be retried. *)
Lemma attemptLoop_two {A} (transport : M A) w st :
  attemptLoop 2 1 None transport w st =
  match transport w st with
  | (Ok a, st1) => (Ok (inl a), st1)
  | (Throw e, st1) =>
      if shouldRetryPrintLocally e then
        match transport w (emit (EvSleep 500) st1) with
        | (Ok a, st2) => (Ok (inl a), st2)
        | (Throw e2, st2) => (Ok (inr (Some e2)), st2)
        end
      else (Ok (inr (Some e)), st1)
  end.
Proof.
  unfold attemptLoop, tryCatch, mbind, M_bind, mret, M_ret, sleep, call, emit. simpl.
  destruct (transport w st) as [[a|e] st1]; [reflexivity|].
  destruct (shouldRetryPrintLocally e); simpl; [|reflexivity].
  destruct (transport w _) as [[a|e2] st2]; reflexivity.
Qed.

Arguments attemptLoop : simpl never.

Lemma connectSocket_run host port payload w st :
  connectSocket host port payload w st =
  (match openRawSocket w (length (trace st)) with
   | Some e => Throw e
   | None => Ok tt
   end, emit (EvSocket host port payload) st).
Proof.
  unfold connectSocket, mbind, M_bind, call, emit. simpl.
  destruct (openRawSocket w _); reflexivity.
Qed.

(** A delivery over a socket, after its checks. *)
Lemma socketDelivery host port payload w st :
  exists evs r,
    attemptLoop 2 1 None (connectSocket host port payload) w st =
      (Ok r, {| worker := worker st; trace := (trace st ++ evs)%list |}) /\
    oneOrTwoAttempts evs (openRawSocket w (length (trace st))) /\
    (openRawSocket w (length (trace st)) = None -> r = inl tt).
Proof.
  rewrite attemptLoop_two, connectSocket_run.
  destruct (openRawSocket w (length (trace st))) as [e|] eqn:E1.
  - destruct (shouldRetryPrintLocally e) eqn:Er.
    + rewrite connectSocket_run. simpl.
      exists [EvSocket host port payload; EvSleep 500; EvSocket host port payload].
      match goal with
      | |- context [match openRawSocket w ?n with _ => _ end] =>
          destruct (openRawSocket w n) as [e2|]
      end; eexists;
        (split; [unfold emit; simpl; rewrite <- !app_assoc; reflexivity|]);
        (split; [right; eexists _, _, e; repeat split; auto | discriminate]).
    + exists [EvSocket host port payload]. eexists.
      split; [reflexivity|]. split; [|discriminate].
      left. eexists. repeat split; auto. intros e' [= <-]. exact Er.
  - exists [EvSocket host port payload], (inl tt).
    split; [reflexivity|]. split; [|reflexivity].
    left. eexists. repeat split; auto. discriminate.
Qed.

Section Senders.

Variable rd : Renderers.

Lemma sendToPrinter_delivery job route w st :
  exists evs,
    stateAfter (sendToPrinter rd job route w st) =
      {| worker := worker st; trace := (trace st ++ evs)%list |} /\
    match kitchenTarget rd job route with
    | None => evs = [] /\ exists e, resultOf (sendToPrinter rd job route w st) = Throw e
    | Some _ =>
        oneOrTwoAttempts evs (openRawSocket w (length (trace st))) /\
        (openRawSocket w (length (trace st)) = None ->
         resultOf (sendToPrinter rd job route w st) = Ok tt)
    end.
Proof.
  unfold sendToPrinter, kitchenTarget.
  destruct (nonEmpty (trim _)) eqn:Eh; simpl.
  2:{ exists []. rewrite app_nil_r. destruct st. simpl. eauto. }
  destruct (renderKitchen rd job) as [e|payload].
  { exists []. rewrite app_nil_r. destruct st. simpl. eauto. }
  unfold mbind, M_bind.
  match goal with
  | |- context [attemptLoop 2 1 None (connectSocket ?h ?p ?b) w st] =>
      destruct (socketDelivery h p b w st) as (evs & r & Hrun & Hshape & Hok)
  end.
  rewrite Hrun. exists evs. destruct r as [[]|lastError]; simpl.
  - auto.
  - split; [reflexivity|]. split; [assumption|]. intros H. specialize (Hok H). discriminate.
Qed.

Lemma sendToNonFiscalReceiptPrinter_delivery job w st :
  exists evs,
    stateAfter (sendToNonFiscalReceiptPrinter rd job w st) =
      {| worker := worker st; trace := (trace st ++ evs)%list |} /\
    match nonFiscalTarget rd job with
    | None => evs = [] /\
              exists e, resultOf (sendToNonFiscalReceiptPrinter rd job w st) = Throw e
    | Some _ =>
        oneOrTwoAttempts evs (openRawSocket w (length (trace st))) /\
        (openRawSocket w (length (trace st)) = None ->
         resultOf (sendToNonFiscalReceiptPrinter rd job w st) = Ok tt)
    end.
Proof.
  unfold sendToNonFiscalReceiptPrinter, nonFiscalTarget.
  destruct (nonEmpty (trim _)) eqn:Eh; simpl.
  2:{ exists []. rewrite app_nil_r. destruct st. simpl. eauto. }
  destruct (renderNonFiscal rd job) as [e|payload].
  { exists []. rewrite app_nil_r. destruct st. simpl. eauto. }
  unfold mbind, M_bind.
  match goal with
  | |- context [attemptLoop 2 1 None (connectSocket ?h ?p ?b) w st] =>
      destruct (socketDelivery h p b w st) as (evs & r & Hrun & Hshape & Hok)
  end.
  rewrite Hrun. exists evs. destruct r as [[]|lastError]; simpl.
  - auto.
  - split; [reflexivity|]. split; [assumption|]. intros H. specialize (Hok H). discriminate.
Qed.

Lemma postPhysicalReceipt_unreached job :
  physicalTarget rd job = None ->
  exists e, forall w st, postPhysicalReceipt rd job w st = (Throw e, st).
Proof.
  unfold physicalTarget, postPhysicalReceipt. cbv zeta.
  destruct (nonEmpty (trim _)); simpl.
  - destruct (renderFiscal rd job) as [e|body]; [|discriminate].
    intros _. exists e. reflexivity.
  - intros _. eexists. reflexivity.
Qed.

Lemma postPhysicalReceipt_posts job body :
  physicalTarget rd job = Some body ->
  exists endpoint, forall w st, exists r,
    postPhysicalReceipt rd job w st = (r, emit (EvPost endpoint body) st).
Proof.
  unfold physicalTarget, postPhysicalReceipt. cbv zeta.
  destruct (nonEmpty (trim _)); simpl; [|discriminate].
  destruct (renderFiscal rd job) as [e|body']; [discriminate|].
  intros [= ->]. eexists. intros w st.
  unfold mbind, M_bind, call, emit. simpl.
  destruct (fetchPost w _) as [e|response]; [eexists; reflexivity|].
  destruct (resp_ok response); simpl; [|eexists; reflexivity].
  destruct (hasFaultKeyword rd _); eexists; reflexivity.
Qed.

Lemma physicalAttempt_run job w st :
  stateAfter (physicalAttempt rd job w st) = stateAfter (postPhysicalReceipt rd job w st) /\
  thrown (physicalAttempt rd job w st) = thrown (postPhysicalReceipt rd job w st).
Proof.
  unfold physicalAttempt, mbind, M_bind, clock.
  destruct (postPhysicalReceipt rd job w st) as [[rid|e] st1]; simpl; auto.
Qed.

Lemma sendToPhysicalReceiptDevice_delivery job w st :
  exists evs,
    stateAfter (sendToPhysicalReceiptDevice rd job w st) =
      {| worker := worker st; trace := (trace st ++ evs)%list |} /\
    match physicalTarget rd job with
    | None => attempts evs = 0%nat /\
              exists e, resultOf (sendToPhysicalReceiptDevice rd job w st) = Throw e
    | Some _ => oneOrTwoAttempts evs (thrown (postPhysicalReceipt rd job w st))
    end.
Proof.
  unfold sendToPhysicalReceiptDevice.
  change (attemptLoop 2 1 None _) with (attemptLoop 2 1 None (physicalAttempt rd job)).
  unfold mbind, M_bind. rewrite !attemptLoop_two.
  destruct (physicalTarget rd job) as [body|] eqn:Et.
  - destruct (postPhysicalReceipt_posts job body Et) as (endpoint & Hpost).
    destruct (physicalAttempt_run job w st) as [Hs Ht].
    destruct (Hpost w st) as (r1 & H1). rewrite H1 in Hs, Ht. rewrite H1.
    destruct (physicalAttempt rd job w st) as [[a|e] st1]; simpl in Hs, Ht; subst st1.
    + exists [EvPost endpoint body]. split; [reflexivity|].
      left. eexists. repeat split; auto. unfold thrown in *. rewrite <- Ht. discriminate.
    + destruct (shouldRetryPrintLocally e) eqn:Er.
      * destruct (physicalAttempt_run job w (emit (EvSleep 500) (emit (EvPost endpoint body) st)))
          as [Hs2 _].
        destruct (Hpost w (emit (EvSleep 500) (emit (EvPost endpoint body) st))) as (r2 & H2).
        rewrite H2 in Hs2.
        exists [EvPost endpoint body; EvSleep 500; EvPost endpoint body].
        split.
        -- destruct (physicalAttempt rd job w _) as [[a|e2] st2]; simpl in Hs2; subst st2;
             unfold emit; simpl; rewrite <- !app_assoc; reflexivity.
        -- right. eexists _, _, e. repeat split; auto.
      * exists [EvPost endpoint body]. split; [reflexivity|].
        left. eexists. repeat split; auto. unfold thrown in *. rewrite <- Ht.
        intros e' [= <-]. exact Er.
  - destruct (postPhysicalReceipt_unreached job Et) as (e & Hpost).
    assert (Hat : forall st0, physicalAttempt rd job w st0 = (Throw e, st0)).
    { intros st0. unfold physicalAttempt, mbind, M_bind. rewrite Hpost. reflexivity. }
    rewrite !Hat. destruct (shouldRetryPrintLocally e).
    + exists [EvSleep 500]. simpl. unfold attempts, emit. simpl. repeat split; eauto.
    + exists []. rewrite app_nil_r. destruct st. simpl. unfold attempts. simpl.
      repeat split; eauto.
Qed.

End Senders.

(** ** The kitchen loop: every claimed job is acknowledged *)

Lemma oneOrTwoAttempts_transport evs firstError :
  oneOrTwoAttempts evs firstError -> forallb isTransport evs = true.
Proof.
  intros [(a & Ha & -> & _) | (a1 & a2 & e & H1 & H2 & -> & _)]; simpl.
  - destruct a; try discriminate; reflexivity.
  - destruct a1; try discriminate; destruct a2; try discriminate; reflexivity.
Qed.

Lemma ensureSupabaseClient_run w st :
  configValid (worker st) = true ->
  ensureSupabaseClient w st = (Ok tt, withWorker (set_supabase true) st).
Proof.
  unfold configValid, ensureSupabaseClient, mbind, M_bind, getWorker.
  intros [H1 H2]%andb_true_iff. rewrite H1, H2. reflexivity.
Qed.

Lemma ensureSupabaseClient_ok w st :
  resultOf (ensureSupabaseClient w st) = Ok tt -> configValid (worker st) = true.
Proof.
  unfold configValid, ensureSupabaseClient, mbind, M_bind, getWorker. simpl.
  destruct (nonEmpty (trim (VITE_SUPABASE_URL (worker st))));
    destruct (nonEmpty (trim (VITE_SUPABASE_ANON_KEY (worker st)))); simpl;
    intros; congruence.
Qed.

Lemma pushLog_run level message w st :
  exists l, pushLog level message w st =
            (Ok tt, emit (EvLog level message) (withWorker (set_logs l) st)).
Proof. eexists. reflexivity. Qed.

Lemma completePrintJob_run job success errorMessage w st :
  configValid (worker st) = true ->
  completePrintJob job success errorMessage w st =
  (match completeRpc w (length (trace st)) with
   | Some error => Throw error
   | None => Ok tt
   end,
   emit (EvComplete Kitchen (job_id job) success None
           (if success then None
            else Some (slice0 500 (orElse (default "" errorMessage) "PRINT_FAILED"))))
        (withWorker (set_supabase true) st)).
Proof.
  intros Hc. unfold completePrintJob, mbind, M_bind.
  rewrite (ensureSupabaseClient_run w st Hc).
  unfold call, emit, withWorker. simpl.
  destruct (completeRpc w _); reflexivity.
Qed.

Section KitchenLoop.

Variable rd : Renderers.

Lemma sendToPrinter_transport job route w st :
  exists evs,
    stateAfter (sendToPrinter rd job route w st) =
      {| worker := worker st; trace := (trace st ++ evs)%list |} /\
    forallb isTransport evs = true.
Proof.
  destruct (sendToPrinter_delivery rd job route w st) as (evs & Hs & H).
  exists evs. split; [assumption|].
  destruct (kitchenTarget rd job route).
  - destruct H as [H _]. eapply oneOrTwoAttempts_transport; eassumption.
  - destruct H as [-> _]. reflexivity.
Qed.

Lemma bind_run {A B} (m : M A) (f : A -> M B) w st :
  (m ≫= f) w st =
  match m w st with
  | (Ok a, st') => f a w st'
  | (Throw e, st') => (Throw e, st')
  end.
Proof. reflexivity. Qed.

Lemma tryCatch_run {A} (m : M A) (h : JsError -> M A) w st :
  tryCatch m h w st =
  match m w st with
  | (Ok a, st') => (Ok a, st')
  | (Throw e, st') => h e w st'
  end.
Proof. reflexivity. Qed.

Lemma Returns_runTick : Returns (runTick rd).
Proof.
  unfold runTick, runTickEnter, runTickRest, broadcastState, pushLog. frame.
Qed.

End KitchenLoop.

(** Run equations of the small operations. *)
Lemma getWorker_run w st : getWorker w st = (Ok (worker st), st).
Proof. reflexivity. Qed.

Lemma broadcastState_run w st :
  broadcastState w st = (Ok tt, emit (EvBroadcast (publicState (worker st))) st).
Proof. reflexivity. Qed.

Lemma persistState_run w st :
  persistState w st =
  (match writeFile w (length (trace st)) with
   | Some e => Throw e
   | None => Ok tt
   end,
   emit (EvWriteFile (config (worker st)) (savedSession (worker st))) st).
Proof.
  unfold persistState. rewrite bind_run, getWorker_run. cbv beta iota.
  rewrite bind_run. unfold call at 1. cbv beta iota.
  destruct (writeFile w (length (trace st))); reflexivity.
Qed.


(** ** The claims about the tick *)

Section TickClaims.

Variable rd : Renderers.

Lemma completePhysicalReceiptJob_run job success receiptId error w st :
  configValid (worker st) = true ->
  exists ev,
    familyOf ev = Some Physical /\
    completePhysicalReceiptJob job success receiptId error w st =
    (match completeRpc w (length (trace st)) with
     | Some e => Throw e
     | None => Ok tt
     end, emit ev (withWorker (set_supabase true) st)).
Proof.
  intros Hc. unfold completePhysicalReceiptJob. rewrite bind_run.
  rewrite (ensureSupabaseClient_run w st Hc). eexists. split; [|
  unfold mbind, M_bind, call, emit, withWorker; simpl;
  destruct (completeRpc w _); reflexivity]. reflexivity.
Qed.

Lemma completeNonFiscalReceiptJob_run job success error w st :
  configValid (worker st) = true ->
  exists ev,
    familyOf ev = Some NonFiscal /\
    completeNonFiscalReceiptJob job success error w st =
    (match completeRpc w (length (trace st)) with
     | Some e => Throw e
     | None => Ok tt
     end, emit ev (withWorker (set_supabase true) st)).
Proof.
  intros Hc. unfold completeNonFiscalReceiptJob. rewrite bind_run.
  rewrite (ensureSupabaseClient_run w st Hc). eexists. split; [|
  unfold mbind, M_bind, call, emit, withWorker; simpl;
  destruct (completeRpc w _); reflexivity]. reflexivity.
Qed.

Lemma physicalJobCatch_switches_off job jobError w st e :
  configValid (worker st) = true ->
  completeRpc w (length (trace st)) = Some e ->
  isMissingRpcError e "physical_receipt_complete_job" = true ->
  physicalReceiptRpcAvailable (worker (stateAfter (physicalJobCatch job jobError w st))) = false.
Proof.
  intros Hc Ha Hm. unfold physicalJobCatch. cbv zeta.
  rewrite bind_run, tryCatch_run.
  destruct (completePhysicalReceiptJob_run job false None (Some (normalizeError jobError)) w st Hc)
    as (ev & _ & ->).
  rewrite Ha, Hm. reflexivity.
Qed.

Lemma nonFiscalJobCatch_switches_off job jobError w st e :
  configValid (worker st) = true ->
  completeRpc w (length (trace st)) = Some e ->
  isMissingRpcError e "non_fiscal_receipt_complete_job" = true ->
  nonFiscalReceiptRpcAvailable (worker (stateAfter (nonFiscalJobCatch job jobError w st))) = false.
Proof.
  intros Hc Ha Hm. unfold nonFiscalJobCatch. cbv zeta.
  rewrite bind_run, tryCatch_run.
  destruct (completeNonFiscalReceiptJob_run job false (Some (normalizeError jobError)) w st Hc)
    as (ev & _ & ->).
  rewrite Ha, Hm. reflexivity.
Qed.

Lemma physicalBlock_claim_missing r w st e :
  physicalReceiptRpcAvailable (worker st) = true ->
  claimPhysical w (length (trace st)) = inl e ->
  isMissingRpcError e "physical_receipt_claim_jobs" = true ->
  physicalReceiptRpcAvailable (worker (stateAfter (physicalBlock rd r w st))) = false /\
  exists consumer limit message,
    trace (stateAfter (physicalBlock rd r w st)) =
    (trace st ++ [EvClaim Physical consumer limit; EvLog WARN message])%list.
Proof.
  intros Hf Ha Hm. unfold physicalBlock.
  unfold mbind, M_bind, getWorker, tryCatch, call. simpl.
  rewrite Hf, Ha, Hm. simpl.
  split; [reflexivity|]. eexists _, _, _. rewrite <- app_assoc. reflexivity.
Qed.

Lemma nonFiscalBlock_claim_missing r w st e :
  nonFiscalReceiptRpcAvailable (worker st) = true ->
  claimNonFiscal w (length (trace st)) = inl e ->
  isMissingRpcError e "non_fiscal_receipt_claim_jobs" = true ->
  nonFiscalReceiptRpcAvailable (worker (stateAfter (nonFiscalBlock rd r w st))) = false /\
  exists consumer limit message,
    trace (stateAfter (nonFiscalBlock rd r w st)) =
    (trace st ++ [EvClaim NonFiscal consumer limit; EvLog WARN message])%list.
Proof.
  intros Hf Ha Hm. unfold nonFiscalBlock.
  unfold mbind, M_bind, getWorker, tryCatch, call. simpl.
  rewrite Hf, Ha, Hm. simpl.
  split; [reflexivity|]. eexists _, _, _. rewrite <- app_assoc. reflexivity.
Qed.

Lemma modify_run f w st : modify f w st = (Ok tt, withWorker f st).
Proof. reflexivity. Qed.

(** What [startService] does after it has switched the families on keeps
    them on. *)
Lemma startService_tail_keeps_on :
  Extends (fun x => physicalReceiptRpcAvailable x = true /\
                    nonFiscalReceiptRpcAvailable x = true)
          (fun _ => True)
          (w ← getWorker;
           pushLog INFO ("Servizio stampa avviato (" ++ consumerId (config w) ++ ")");;
           broadcastState;;
           runTickEnter;;
           getPublicState).
Proof.
  assert (Hp : forall ev : Event,
             familyOf ev <> Some Physical -> familyOf ev <> Some NonFiscal -> True)
    by auto.
  pose proof (Extends_pushLog (fun a b => a = true /\ b = true) (fun _ => True) Hp) as H1.
  pose proof (Extends_broadcastState (fun a b => a = true /\ b = true) (fun _ => True) Hp) as H2.
  pose proof (Extends_runTickEnter (fun a b => a = true /\ b = true) (fun _ => True) Hp) as H3.
  unfold getPublicState. frame; auto.
Qed.

Lemma startService_resets w st pub st' :
  startService w st = (Ok pub, st') ->
  running (worker st) = false ->
  physicalReceiptRpcAvailable (worker st') = true /\
  nonFiscalReceiptRpcAvailable (worker st') = true.
Proof.
  unfold startService. rewrite bind_run. unfold getWorker at 1.
  intros H Hr. rewrite Hr in H. rewrite bind_run in H.
  destruct (ensureSignedIn w st) as [[[]|e] st1]; [|discriminate].
  rewrite bind_run in H. unfold getWorker at 1 in H.
  destruct (restaurantId (worker st1)); [|discriminate].
  do 6 (rewrite bind_run, modify_run in H).
  match type of H with
  | ?m w ?st2 = _ =>
      destruct (startService_tail_keeps_on w st2) as (evs & _ & _ & HI);
        [split; reflexivity|]; rewrite H in HI; exact HI
  end.
Qed.

Lemma startService_running w st :
  running (worker st) = true ->
  startService w st = (Ok (publicState (worker st)), st).
Proof.
  intros Hr. unfold startService. rewrite bind_run. unfold getWorker at 1.
  rewrite Hr. reflexivity.
Qed.

Lemma syncSession_unchanged rawSession snapshot w st :
  toSessionSnapshot rawSession = Some snapshot ->
  sameSession (savedSession (worker st)) (Some snapshot) = true ->
  syncSession rawSession w st = (Ok (publicState (worker st)), st).
Proof.
  intros Hs He. unfold syncSession. rewrite Hs, bind_run.
  unfold getWorker at 1. rewrite He. reflexivity.
Qed.

(** C2.  A delivery makes at most two network attempts, for each of the
    three senders.  When the sender reaches the network, its events are one
    attempt, or two attempts with the pause of 500 ms between them; there
    are two only when the first attempt threw an error that
    [shouldRetryPrintLocally] accepts, and an error it refuses leaves
    exactly one attempt.  A sender that fails its checks before the network
    makes no attempt.  [shouldRetryPrintLocally] accepts exactly the errors
    whose message, in lower case, holds one of timeout, econnreset,
    ehostunreach, econnrefused and epipe. *)
Theorem local_retry_cap :
  (forall job route w st, exists evs,
     trace (stateAfter (sendToPrinter rd job route w st)) = (trace st ++ evs)%list /\
     (attempts evs <= 2)%nat /\
     match kitchenTarget rd job route with
     | None => attempts evs = 0%nat
     | Some _ =>
         oneOrTwoAttempts evs (openRawSocket w (length (trace st))) /\
         forall e, openRawSocket w (length (trace st)) = Some e ->
                   shouldRetryPrintLocally e = false -> attempts evs = 1%nat
     end) /\
  (forall job w st, exists evs,
     trace (stateAfter (sendToNonFiscalReceiptPrinter rd job w st)) = (trace st ++ evs)%list /\
     (attempts evs <= 2)%nat /\
     match nonFiscalTarget rd job with
     | None => attempts evs = 0%nat
     | Some _ =>
         oneOrTwoAttempts evs (openRawSocket w (length (trace st))) /\
         forall e, openRawSocket w (length (trace st)) = Some e ->
                   shouldRetryPrintLocally e = false -> attempts evs = 1%nat
     end) /\
  (forall job w st, exists evs,
     trace (stateAfter (sendToPhysicalReceiptDevice rd job w st)) = (trace st ++ evs)%list /\
     (attempts evs <= 2)%nat /\
     match physicalTarget rd job with
     | None => attempts evs = 0%nat
     | Some _ =>
         oneOrTwoAttempts evs (thrown (postPhysicalReceipt rd job w st)) /\
         forall e, thrown (postPhysicalReceipt rd job w st) = Some e ->
                   shouldRetryPrintLocally e = false -> attempts evs = 1%nat
     end) /\
  (forall e,
     shouldRetryPrintLocally e = true <->
     exists keyword, In keyword retriableSet /\ mentions (normalizeError e) keyword).
Proof.
  split; [|split; [|split]]; [| | |exact shouldRetryPrintLocally_iff].
  - intros job route w st.
    destruct (sendToPrinter_delivery rd job route w st) as (evs & Hs & H).
    exists evs. rewrite Hs. split; [reflexivity|].
    destruct (kitchenTarget rd job route).
    + destruct H as [H _]. destruct (oneOrTwoAttempts_cap _ _ H) as [Hn H1].
      split; [lia|]. auto.
    + destruct H as [-> _]. split; [unfold attempts; simpl; lia | reflexivity].
  - intros job w st.
    destruct (sendToNonFiscalReceiptPrinter_delivery rd job w st) as (evs & Hs & H).
    exists evs. rewrite Hs. split; [reflexivity|].
    destruct (nonFiscalTarget rd job).
    + destruct H as [H _]. destruct (oneOrTwoAttempts_cap _ _ H) as [Hn H1].
      split; [lia|]. auto.
    + destruct H as [-> _]. split; [unfold attempts; simpl; lia | reflexivity].
  - intros job w st.
    destruct (sendToPhysicalReceiptDevice_delivery rd job w st) as (evs & Hs & H).
    exists evs. rewrite Hs. split; [reflexivity|].
    destruct (physicalTarget rd job).
    + destruct (oneOrTwoAttempts_cap _ _ H) as [Hn H1].
      split; [lia|]. auto.
    + destruct H as [H _]. split; [lia | exact H].
Qed.

(** C7, amended.  [sameSession] is an equivalence relation on nullable
    snapshots.  Two snapshots compare equal exactly when their access
    tokens are equal, their refresh tokens are equal and their expiry times
    are equal as numbers once a missing expiry is read as 0 (so a snapshot
    without expiry equals one that expires at 0).  [syncSession] with a
    session whose snapshot compares equal to the saved one changes nothing
    and writes nothing: it returns the public state and leaves the worker
    and the trace as they were. *)
Theorem session_equality :
  (forall a, sameSession a a = true) /\
  (forall a b, sameSession a b = true -> sameSession b a = true) /\
  (forall a b c, sameSession a b = true -> sameSession b c = true ->
                 sameSession a c = true) /\
  (forall a b,
     sameSession (Some a) (Some b) = true <->
     access_token a = access_token b /\ refresh_token a = refresh_token b /\
     strict_equals (numberOrZero (expires_at a)) (numberOrZero (expires_at b)) = true) /\
  (forall rawSession snapshot w st,
     toSessionSnapshot rawSession = Some snapshot ->
     sameSession (savedSession (worker st)) (Some snapshot) = true ->
     syncSession rawSession w st = (Ok (publicState (worker st)), st)).
Proof.
  split; [exact sameSession_refl|].
  split; [exact sameSession_sym|].
  split; [exact sameSession_trans|].
  split.
  - intros a b. simpl. rewrite !andb_true_iff, !String.eqb_eq. tauto.
  - exact syncSession_unchanged.
Qed.

End TickClaims.

(** ** The claims about the tick, on concrete runs *)

Import Fixture.

(** C1, as stated, fails: in a tick whose kitchen job is printed and whose
    completion calls the backend rejects, two completion calls are issued
    for the one job, the success call and then the failure call. *)
Lemma kitchen_job_acknowledged_twice :
  completions Kitchen (trace (stateAfter (runTick renderers rejecting started))) =
  [ EvComplete Kitchen "abcdefghij" true None None;
    EvComplete Kitchen "abcdefghij" false None
      (Some "Could not find the function public.physical_receipt_complete_job in the schema cache") ] /\
  claimJobs rejecting 5 = inr [kitchenJob] /\
  resultOf (runTick renderers rejecting started) = Ok tt.
Proof. vm_compute. auto. Qed.

Lemma local_retry_cap_witness :
  exists evs,
    trace (stateAfter (sendToPrinter renderers kitchenJob
                         (resolveRouteForJob kitchenJob None) resetting started)) =
      (trace started ++ evs)%list /\
    (attempts evs <= 2)%nat /\
    oneOrTwoAttempts evs (openRawSocket resetting 0).
Proof.
  destruct (local_retry_cap renderers) as [H _].
  destruct (H kitchenJob (resolveRouteForJob kitchenJob None) resetting started)
    as (evs & H1 & H2 & H3).
  exists evs. split; [exact H1|]. split; [exact H2|].
  change (kitchenTarget renderers kitchenJob (resolveRouteForJob kitchenJob None))
    with (Some ("10.0.0.5", 9100, "TICKET")) in H3.
  exact (proj1 H3).
Defined.

(** C5, as stated, fails: the first completion call of the fiscal family
    is answered "function not found" (event 16 of the tick), and three more
    completion calls of the family follow in the same tick; two of them
    follow the failure completion call (event 17) whose answer switches
    the family off. *)
Lemma physical_completions_continue :
  let evs := trace (stateAfter (runTick renderers rejecting started)) in
  evs !! 16%nat = Some (EvComplete Physical "fiscal-1" true
                         (Some "RT-fiscal-1-1705321800000") None) /\
  completeRpc rejecting 16 = Some functionNotFound /\
  isMissingRpcError functionNotFound "physical_receipt_complete_job" = true /\
  length (completions Physical (drop 17 evs)) = 3%nat /\
  (exists ev, evs !! 17%nat = Some ev /\
              answersNotFound Physical rejecting 17 ev = true) /\
  length (completions Physical (drop 18 evs)) = 2%nat.
Proof.
  vm_compute. repeat split; try reflexivity. eexists. split; reflexivity.
Qed.

(** A saved session without expiry, synchronised again with an expiry of
    [null]: nothing changes. *)
Lemma session_equality_witness :
  let raw := Some {| raw_access_token := Some "access";
                     raw_refresh_token := Some " refresh ";
                     raw_expires_at := RawNull |} in
  syncSession raw rejecting started = (Ok (publicState (worker started)), started).
Proof.
  destruct session_equality as (_ & _ & _ & _ & H).
  eapply H; reflexivity.
Defined.


(** ** Strings: appending *)

#[local] Arguments String.append !_ _ / : simpl nomatch.

Lemma append_nil_r (s : string) : s ++ "" = s.
Proof. induction s as [|c s IH]; simpl; [reflexivity | rewrite IH; reflexivity]. Qed.

Lemma append_assoc (a b c : string) : (a ++ b) ++ c = a ++ (b ++ c).
Proof. induction a as [|x a IH]; simpl; [reflexivity | rewrite IH; reflexivity]. Qed.

Lemma flat_map_chars_app f (a b : string) :
  flat_map_chars f (a ++ b) = flat_map_chars f a ++ flat_map_chars f b.
Proof.
  induction a as [|x a IH]; simpl; [reflexivity|].
  rewrite IH, append_assoc. reflexivity.
Qed.

Lemma forall_chars_app p (a b : string) :
  forall_chars p (a ++ b) = forall_chars p a && forall_chars p b.
Proof.
  induction a as [|x a IH]; simpl; [reflexivity|].
  rewrite IH, andb_assoc. reflexivity.
Qed.

(** ** The fiscal document *)

Ltac each_char c := destruct c as [[] [] [] [] [] [] [] []].

Lemma escapeXml_char (c : ascii) : escapeXml (String c "") = xmlEntity c.
Proof. each_char c; reflexivity. Qed.

(** The chain of [replaceAll] of [escapeXml] escapes each character on its
    own: no replacement touches the entity a former one wrote. *)
Lemma escapeXml_entities (s : string) : escapeXml s = flat_map_chars xmlEntity s.
Proof.
  induction s as [|c s IH]; [reflexivity|].
  change (String c s) with (String c "" ++ s).
  unfold escapeXml, replaceAll in *.
  rewrite !flat_map_chars_app. rewrite IH.
  f_equal. change (flat_map_chars xmlEntity (String c "")) with (xmlEntity c ++ "").
  rewrite append_nil_r. exact (escapeXml_char c).
Qed.

Lemma xmlEntity_plain (c : ascii) :
  forall_chars (fun x => negb (isXmlSpecial x)) (xmlEntity c) = true.
Proof. each_char c; reflexivity. Qed.

(** No [<], [>], double quote or apostrophe is left in an escaped value. *)
Lemma escapeXml_plain (s : string) :
  forall_chars (fun x => negb (isXmlSpecial x)) (escapeXml s) = true.
Proof.
  rewrite escapeXml_entities. induction s as [|c s IH]; [reflexivity|].
  simpl. rewrite forall_chars_app, xmlEntity_plain, IH. reflexivity.
Qed.

Lemma forall_chars_impl (p q : ascii -> bool) (s : string) :
  (forall c, p c = true -> q c = true) ->
  forall_chars p s = true -> forall_chars q s = true.
Proof.
  intros Hpq. induction s as [|c s IH]; simpl; [reflexivity|].
  intros [H1 H2]%andb_true_iff. rewrite (Hpq c H1), (IH H2). reflexivity.
Qed.

Lemma escapeXml_notQuote (s : string) : forall_chars notQuote (escapeXml s) = true.
Proof.
  apply (forall_chars_impl (fun x => negb (isXmlSpecial x))); [|apply escapeXml_plain].
  intros c. each_char c; vm_compute; intros; congruence.
Qed.

Lemma digit_char (n : N) : isDigit (ascii_of_N (48 + n mod 10)) = true.
Proof.
  assert (H : (n mod 10 < 10)%N) by (apply N.mod_lt; discriminate).
  destruct (n mod 10)%N as [|p]; [reflexivity|].
  do 4 (destruct p as [p|p|]; try reflexivity; try (exfalso; lia)).
Qed.

Lemma digits_fuel_digits fuel n acc :
  forall_chars isDigit acc = true ->
  forall_chars isDigit (digits_fuel fuel n acc) = true.
Proof.
  revert n acc. induction fuel as [|fuel IH]; intros n acc Hacc; simpl; [exact Hacc|].
  assert (H : forall_chars isDigit (String (ascii_of_N (48 + n mod 10)) acc) = true).
  { simpl. rewrite digit_char, Hacc. reflexivity. }
  destruct (n <? 10)%N; [exact H | apply IH; exact H].
Qed.

Lemma decimal_notQuote (z : Z) : forall_chars notQuote (decimal z) = true.
Proof.
  assert (Hd : forall c, isDigit c = true -> notQuote c = true).
  { intros c. each_char c; vm_compute; intros; congruence. }
  destruct z as [|p|p]; simpl.
  - reflexivity.
  - apply (forall_chars_impl isDigit _ _ Hd). apply digits_fuel_digits. reflexivity.
  - apply (forall_chars_impl isDigit _ _ Hd). apply digits_fuel_digits. reflexivity.
Qed.

(** The reader crosses an attribute value that holds no double quote. *)
Lemma readFrom_value tag attrs name value s rest :
  forall_chars notQuote s = true ->
  readFrom (AttrValue tag attrs name value) (s ++ rest) =
  readFrom (AttrValue tag attrs name (value ++ s)) rest.
Proof.
  revert value. induction s as [|c s IH]; intros value; simpl.
  - rewrite append_nil_r. reflexivity.
  - intros [Hc Hs]%andb_true_iff. unfold notQuote in Hc.
    destruct (Ascii.eqb c "034"); [discriminate|].
    rewrite (IH _ Hs). unfold snoc. rewrite append_assoc. reflexivity.
Qed.

Lemma readElements_fiscal description paymentLabel centsText :
  forall_chars notQuote description = true ->
  forall_chars notQuote paymentLabel = true ->
  forall_chars notQuote centsText = true ->
  readElements
    ("<?xml" ++ attr "version" "1.0" (attr "encoding" "UTF-8" ("?>" ++ newline ++
     "<FPMessage>" ++ newline ++
     "  <beginFiscalReceipt" ++ attr "operator" "1" ("/>" ++ newline ++
     "  <printRecItem" ++ attr "description" description
        (attr "price" centsText (attr "quantity" "1" (attr "department" "1"
        (attr "vatCode" "1" ("/>" ++ newline ++
     "  <printRecTotal" ++ attr "description" paymentLabel
        (attr "payment" centsText ("/>" ++ newline ++
     "  <endFiscalReceipt/>" ++ newline ++
     "</FPMessage>"))))))))))) =
  fiscalElements description paymentLabel centsText.
Proof.
  intros Hd Hl Hc. unfold readElements, attr, quote, newline, fiscalElements.
  simpl. rewrite (readFrom_value _ _ _ _ _ _ Hd). simpl.
  rewrite (readFrom_value _ _ _ _ _ _ Hc). simpl.
  rewrite (readFrom_value _ _ _ _ _ _ Hl). simpl.
  rewrite (readFrom_value _ _ _ _ _ _ Hc). simpl.
  reflexivity.
Qed.

Lemma toCents_nonneg amount z : toCents amount = IntVal z -> 0 <= z.
Proof.
  unfold toCents. destruct (negb (isFinite amount) || leZero amount).
  - intros [= <-]. lia.
  - destruct (SFmul prec emax amount (of_Z 100)); intros [= <-]; lia.
Qed.

(** [roundZ] is the nearest integer, a tie going up: for a number
    [±m·2^e] with a negative exponent, [r - 1/2 <= ±m·2^e < r + 1/2]. *)
Lemma roundZ_nearest s m e :
  e < 0 ->
  let r := roundZ (S754_finite s m e) in
  let v := if s then - Zpos m else Zpos m in
  (2 * r - 1) * 2 ^ (- e) <= 2 * v < (2 * r + 1) * 2 ^ (- e).
Proof.
  intros He r v. subst r. unfold roundZ.
  destruct (0 <=? e) eqn:E; [apply Z.leb_le in E; lia|].
  assert (Hp : 0 < 2 ^ (- e)) by (apply Z.pow_pos_nonneg; lia).
  replace (if s then - Zpos m~0 else Zpos m~0) with (2 * v)
    by (subst v; destruct s; reflexivity).
  rewrite Z.shiftl_1_l, Z.shiftr_div_pow2 by lia.
  replace (- e + 1) with (Z.succ (- e)) by lia. rewrite Z.pow_succ_r by lia.
  set (d := 2 ^ (- e)) in *.
  pose proof (Z.div_mod (2 * v + d) (2 * d) ltac:(lia)) as Hdm.
  pose proof (Z.mod_pos_bound (2 * v + d) (2 * d) ltac:(lia)) as Hb.
  set (q := (2 * v + d) / (2 * d)) in *. nia.
Qed.

Lemma paymentLabel_agrees payload :
  match normalizePaymentMethod (default "" (payment_method payload)) with
  | card => "ELETTRONICO"
  | cash => "CONTANTI"
  end = paymentLabelOf payload.
Proof.
  unfold normalizePaymentMethod, paymentLabelOf.
  destruct (String.eqb _ "card"); reflexivity.
Qed.


(** ** Strings: white space and words *)

Lemma splitWs_cons (s : string) : exists t ts, splitWs s = t :: ts.
Proof.
  induction s as [|c s (t & ts & IH)]; simpl; [eauto|].
  destruct (isWhiteSpace c).
  - destruct (startsWithChar isWhiteSpace s); eauto.
  - rewrite IH. simpl. eauto.
Qed.

Lemma join_consHead sep c (l : list string) :
  l <> [] -> join sep (consHead c l) = String c (join sep l).
Proof.
  destruct l as [|t [|u ts]]; [congruence | reflexivity | reflexivity].
Qed.

Lemma join_cons sep x (l : list string) :
  l <> [] -> join sep (x :: l) = x ++ sep ++ join sep l.
Proof. destruct l; [congruence | reflexivity]. Qed.

Lemma splitWs_nonnil (s : string) : splitWs s <> [].
Proof. destruct (splitWs_cons s) as (t & ts & ->). discriminate. Qed.

(** Squeezing the runs of white space is joining the pieces with one
    space. *)
Lemma replaceRuns_join (s : string) :
  replaceRuns isWhiteSpace " " s = join " " (splitWs s).
Proof.
  induction s as [|c s IH]; [reflexivity|]. simpl.
  destruct (isWhiteSpace c).
  - destruct (startsWithChar isWhiteSpace s); [exact IH|].
    rewrite join_cons by apply splitWs_nonnil. rewrite IH. reflexivity.
  - rewrite join_consHead by apply splitWs_nonnil. rewrite IH. reflexivity.
Qed.

Lemma words_cons_ws c s :
  isWhiteSpace c = true -> words (String c s) = words s.
Proof.
  intros Hc. unfold words. simpl. rewrite Hc.
  destruct (startsWithChar isWhiteSpace s); reflexivity.
Qed.

Lemma words_dropStart (s : string) : words (dropStart isWhiteSpace s) = words s.
Proof.
  induction s as [|c s IH]; [reflexivity|]. simpl.
  destruct (isWhiteSpace c) eqn:Hc; [|reflexivity].
  rewrite (words_cons_ws c s Hc). exact IH.
Qed.

(** The first piece of a split is empty exactly when the string is empty or
    starts with white space. *)
Lemma splitWs_head (s : string) :
  exists t ts, splitWs s = t :: ts /\
               nonEmpty t = nonEmpty s && negb (startsWithChar isWhiteSpace s).
Proof.
  induction s as [|c s (t & ts & IH & Hh)]; simpl; [eauto|].
  destruct (isWhiteSpace c) eqn:Hc; simpl.
  - destruct (startsWithChar isWhiteSpace s) eqn:Hs.
    + exists t, ts. split; [exact IH|]. rewrite Hh. apply andb_false_r.
    + eauto.
  - rewrite IH. simpl. eauto.
Qed.

(** The words of [String c s] from the words of [s], for a [c] that is not
    white space. *)
Lemma words_cons_char c s :
  isWhiteSpace c = false ->
  words (String c s) =
  if nonEmpty s && negb (startsWithChar isWhiteSpace s)
  then match words s with
       | t :: ts => String c t :: ts
       | [] => [String c ""]
       end
  else String c "" :: words s.
Proof.
  intros Hc. unfold words. simpl. rewrite Hc.
  destruct (splitWs_head s) as (t & ts & -> & Hh). simpl.
  rewrite <- Hh. destruct t as [|x t]; simpl.
  - rewrite filter_cons_True by reflexivity.
    rewrite filter_cons_False by discriminate. reflexivity.
  - rewrite filter_cons_True by reflexivity. reflexivity.
Qed.

Lemma dropEnd_nonEmpty p (s : string) :
  nonEmpty (dropEnd p s) = true -> nonEmpty s = true.
Proof. destruct s; [discriminate | reflexivity]. Qed.

Lemma dropEnd_startsWith p q (s : string) :
  nonEmpty (dropEnd p s) = true ->
  startsWithChar q (dropEnd p s) = startsWithChar q s.
Proof.
  destruct s as [|c s]; [discriminate|]. simpl.
  destruct (dropEnd p s); [destruct (p c); [discriminate | reflexivity] | reflexivity].
Qed.

Lemma words_empty_dropEnd (s : string) :
  dropEnd isWhiteSpace s = "" -> words s = [].
Proof.
  induction s as [|c s IH]; [reflexivity|]. simpl.
  destruct (dropEnd isWhiteSpace s) eqn:Ed; [|discriminate].
  destruct (isWhiteSpace c) eqn:Hc; [|discriminate].
  intros _. rewrite (words_cons_ws c s Hc). apply IH. reflexivity.
Qed.

Lemma startsWith_empty_dropEnd (s : string) :
  dropEnd isWhiteSpace s = "" ->
  nonEmpty s && negb (startsWithChar isWhiteSpace s) = false.
Proof.
  destruct s as [|c s]; [reflexivity|]. simpl.
  destruct (dropEnd isWhiteSpace s); [|discriminate].
  destruct (isWhiteSpace c); [reflexivity | discriminate].
Qed.

Lemma words_dropEnd (s : string) : words (dropEnd isWhiteSpace s) = words s.
Proof.
  induction s as [|c s IH]; [reflexivity|].
  destruct (isWhiteSpace c) eqn:Hc.
  - rewrite (words_cons_ws c s Hc). simpl.
    destruct (dropEnd isWhiteSpace s) as [|d r] eqn:Ed.
    + rewrite Hc. rewrite <- IH. reflexivity.
    + rewrite (words_cons_ws c _ Hc). exact IH.
  - rewrite (words_cons_char c s Hc). simpl.
    destruct (dropEnd isWhiteSpace s) as [|d r] eqn:Ed.
    + rewrite Hc. rewrite (startsWith_empty_dropEnd s Ed).
      rewrite (words_empty_dropEnd s Ed). rewrite (words_cons_char c "" Hc). reflexivity.
    + rewrite (words_cons_char c _ Hc). rewrite IH.
      assert (Hn : nonEmpty (dropEnd isWhiteSpace s) = true) by (rewrite Ed; reflexivity).
      rewrite <- Ed, (dropEnd_startsWith _ isWhiteSpace s Hn), Hn.
      rewrite (dropEnd_nonEmpty _ s Hn). reflexivity.
Qed.

Lemma words_trim (s : string) : words (trim s) = words s.
Proof. unfold trim. rewrite words_dropEnd, words_dropStart. reflexivity. Qed.

Lemma dropStart_startsWith (s : string) :
  startsWithChar isWhiteSpace (dropStart isWhiteSpace s) = false.
Proof.
  induction s as [|c s IH]; [reflexivity|]. simpl.
  destruct (isWhiteSpace c) eqn:Hc; [exact IH | simpl; exact Hc].
Qed.

Lemma dropEnd_idempotent p (s : string) : dropEnd p (dropEnd p s) = dropEnd p s.
Proof.
  induction s as [|c s IH]; [reflexivity|]. simpl.
  destruct (dropEnd p s) as [|d r] eqn:Ed.
  - destruct (p c) eqn:Hc; [reflexivity|]. simpl. rewrite Hc. reflexivity.
  - simpl in *. rewrite IH. reflexivity.
Qed.

Lemma trim_startsWith (s : string) : startsWithChar isWhiteSpace (trim s) = false.
Proof.
  unfold trim. destruct (nonEmpty (dropEnd isWhiteSpace (dropStart isWhiteSpace s))) eqn:Hn.
  - rewrite dropEnd_startsWith by exact Hn. apply dropStart_startsWith.
  - destruct (dropEnd _ _); [reflexivity | discriminate].
Qed.

(** In a string that does not end with white space, every piece after the
    first is a word. *)
Lemma splitWs_tail (s : string) :
  dropEnd isWhiteSpace s = s -> nonEmpty s = true ->
  forall t ts, splitWs s = t :: ts -> Forall (fun x => nonEmpty x = true) ts.
Proof.
  induction s as [|c s IH]; [discriminate|]. intros Hd _ t ts.
  simpl in Hd.
  destruct (dropEnd isWhiteSpace s) as [|d r] eqn:Ed.
  - (* [s] is empty *)
    destruct (isWhiteSpace c) eqn:Hc; [discriminate|].
    injection Hd as <-. simpl. rewrite Hc. simpl. intros [= <- <-]. constructor.
  - injection Hd as Hs. simpl.
    assert (Hns : nonEmpty s = true) by (rewrite <- Hs; reflexivity).
    specialize (IH Hs Hns).
    destruct (splitWs_head s) as (h & hs & Hsplit & Hh).
    rewrite Hsplit. specialize (IH h hs Hsplit).
    destruct (isWhiteSpace c).
    + destruct (startsWithChar isWhiteSpace s) eqn:Hst.
      * intros [= <- <-]. exact IH.
      * intros [= <- <-]. constructor; [|exact IH].
        rewrite Hh, Hns. reflexivity.
    + simpl. intros [= <- <-]. exact IH.
Qed.

(** A trimmed string that is not empty splits into its words. *)
Lemma splitWs_trim (s : string) :
  nonEmpty (trim s) = true -> splitWs (trim s) = words s.
Proof.
  intros Hn. rewrite <- words_trim. unfold words.
  destruct (splitWs_head (trim s)) as (t & ts & Hsplit & Hh).
  rewrite Hsplit. rewrite Hn, trim_startsWith in Hh. simpl in Hh.
  assert (Ht : Forall (fun x => nonEmpty x = true) ts).
  { exact (splitWs_tail (trim s) (dropEnd_idempotent _ _) Hn t ts Hsplit). }
  rewrite filter_cons_True by exact Hh. f_equal.
  clear - Ht. induction Ht as [|x l Hx _ IH]; [reflexivity|].
  rewrite filter_cons_True by exact Hx. f_equal. exact IH.
Qed.

Lemma words_of_empty_trim (s : string) : nonEmpty (trim s) = false -> words s = [].
Proof.
  intros Hn. rewrite <- words_trim. destruct (trim s); [reflexivity | discriminate].
Qed.

(** Every piece of a split is free of white space. *)
Lemma splitWs_pieces (s : string) :
  Forall (fun x => forall_chars notWhiteSpace x = true) (splitWs s).
Proof.
  induction s as [|c s IH]; simpl; [repeat constructor|].
  destruct (isWhiteSpace c) eqn:Hc.
  - destruct (startsWithChar isWhiteSpace s); [exact IH | constructor; [reflexivity | exact IH]].
  - destruct (splitWs s) as [|t ts]; simpl.
    + repeat constructor. simpl. unfold notWhiteSpace. rewrite Hc. reflexivity.
    + inversion IH as [|? ? Ht Hts]; subst. constructor; [|exact Hts].
      simpl. unfold notWhiteSpace at 1. rewrite Hc, Ht. reflexivity.
Qed.

Lemma words_wordlike (s : string) : Forall (fun x => wordlike x = true) (words s).
Proof.
  unfold words. pose proof (splitWs_pieces s) as H.
  induction H as [|x l Hx _ IH]; [constructor|].
  destruct (decide (nonEmpty x = true)) as [Hn|Hn].
  - rewrite filter_cons_True by exact Hn.
    constructor; [|exact IH]. unfold wordlike. rewrite Hn, Hx. reflexivity.
  - rewrite filter_cons_False by exact Hn. exact IH.
Qed.

(** A run of characters without white space goes to the front of the first
    piece of what follows. *)
Lemma splitWs_app x y :
  forall_chars notWhiteSpace x = true ->
  splitWs (x ++ y) =
  match splitWs y with
  | t :: ts => (x ++ t) :: ts
  | [] => [x]
  end.
Proof.
  induction x as [|c x IH]; simpl.
  - intros _. destruct (splitWs_cons y) as (t & ts & ->). reflexivity.
  - intros [Hc Hx]%andb_true_iff. unfold notWhiteSpace in Hc.
    destruct (isWhiteSpace c); [discriminate|].
    rewrite (IH Hx). destruct (splitWs y); reflexivity.
Qed.

Lemma wordlike_startsWith x y :
  wordlike x = true -> startsWithChar isWhiteSpace (x ++ y) = false.
Proof.
  destruct x as [|c x]; [discriminate|]. unfold wordlike. simpl.
  unfold notWhiteSpace at 1. destruct (isWhiteSpace c); [discriminate | reflexivity].
Qed.

Lemma join_startsWith (g : list string) :
  Forall (fun x => wordlike x = true) g ->
  startsWithChar isWhiteSpace (join " " g) = false.
Proof.
  destruct 1 as [|x l Hx Hl]; [reflexivity|].
  destruct l as [|y l]; simpl.
  - rewrite <- (append_nil_r x). apply wordlike_startsWith. exact Hx.
  - apply wordlike_startsWith. exact Hx.
Qed.

(** Words joined by one space split into the same words. *)
Lemma splitWs_join (g : list string) :
  g <> [] -> Forall (fun x => wordlike x = true) g -> splitWs (join " " g) = g.
Proof.
  intros Hne Hg. induction Hg as [|x l Hx Hl IH]; [congruence|].
  unfold wordlike in Hx. apply andb_true_iff in Hx as [Hn Hf].
  destruct l as [|y l].
  - simpl. rewrite <- (append_nil_r x) at 1. rewrite (splitWs_app x "" Hf).
    simpl. rewrite append_nil_r. reflexivity.
  - rewrite join_cons by discriminate. rewrite (splitWs_app _ _ Hf).
    change (" " ++ join " " (y :: l)) with (String " " (join " " (y :: l))).
    cbn [splitWs]. change (isWhiteSpace " ") with true. cbv iota.
    rewrite (join_startsWith (y :: l) Hl). rewrite IH by discriminate.
    rewrite append_nil_r. reflexivity.
Qed.

Lemma filter_wordlike (g : list string) :
  Forall (fun x => wordlike x = true) g ->
  filter (fun t => nonEmpty t = true) g = g.
Proof.
  induction 1 as [|x l Hx _ IH]; [reflexivity|].
  unfold wordlike in Hx. apply andb_true_iff in Hx as [Hn _].
  rewrite filter_cons_True by exact Hn. rewrite IH. reflexivity.
Qed.

Lemma words_join (g : list string) :
  Forall (fun x => wordlike x = true) g -> words (join " " g) = g.
Proof.
  intros Hg. destruct g as [|x l]; [reflexivity|].
  unfold words. rewrite splitWs_join by (discriminate || exact Hg).
  apply filter_wordlike. exact Hg.
Qed.

Lemma join_nonEmpty (g : list string) :
  g <> [] -> Forall (fun x => wordlike x = true) g -> nonEmpty (join " " g) = true.
Proof.
  intros Hne Hg. destruct Hg as [|x l Hx Hl]; [congruence|].
  unfold wordlike in Hx. apply andb_true_iff in Hx as [Hn _].
  destruct x as [|c x]; [discriminate|]. destruct l; reflexivity.
Qed.

(** *** Lengths *)

Lemma length_append (a b : string) :
  String.length (a ++ b) = (String.length a + String.length b)%nat.
Proof. induction a as [|c a IH]; simpl; [reflexivity | rewrite IH; reflexivity]. Qed.

Lemma length_join_member (g : list string) word :
  In word g -> (String.length word <= String.length (join " " g))%nat.
Proof.
  induction g as [|x l IH]; [contradiction|]. intros [->|Hin].
  - destruct l; simpl; [lia | rewrite length_append; lia].
  - destruct l as [|y l]; [contradiction|].
    rewrite join_cons by discriminate. rewrite !length_append.
    specialize (IH Hin). lia.
Qed.

Lemma totalLength_splitWs (s : string) :
  (totalLength (splitWs s) <= String.length s)%nat.
Proof.
  induction s as [|c s IH]; simpl; [lia|].
  destruct (isWhiteSpace c).
  - destruct (startsWithChar isWhiteSpace s); simpl; lia.
  - destruct (splitWs s) as [|t ts]; simpl in *; lia.
Qed.

Lemma totalLength_member (l : list string) x :
  In x l -> (String.length x <= totalLength l)%nat.
Proof.
  induction l as [|y l IH]; [contradiction|]. simpl.
  intros [->|Hin]; [lia | specialize (IH Hin); lia].
Qed.

Lemma length_word (s : string) word :
  In word (words s) -> (String.length word <= String.length s)%nat.
Proof.
  unfold words. intros Hin%list_elem_of_In%list_elem_of_filter.
  destruct Hin as [_ Hin%list_elem_of_In].
  pose proof (totalLength_member _ _ Hin). pose proof (totalLength_splitWs s). lia.
Qed.


(** ** [wrapText] *)

Lemma join_snoc sep (g : list string) x :
  g <> [] -> join sep (g ++ [x]) = join sep g ++ sep ++ x.
Proof.
  induction g as [|y g IH]; [congruence|]. intros _.
  destruct g as [|z g].
  - reflexivity.
  - change ((y :: z :: g) ++ [x])%list with (y :: ((z :: g) ++ [x]))%list.
    rewrite join_cons by (destruct g; discriminate).
    rewrite IH by discriminate. rewrite (join_cons sep y (z :: g)) by discriminate.
    rewrite !append_assoc. reflexivity.
Qed.

Lemma goodGroup_single width word :
  wordlike word = true -> goodGroup width [word].
Proof.
  intros Hw. split; [discriminate|]. split; [constructor; [exact Hw | constructor]|].
  intros x [<-|[]] _. reflexivity.
Qed.

Lemma goodGroup_snoc width g word :
  goodGroup width g -> wordlike word = true -> fits width (g ++ [word]) ->
  goodGroup width (g ++ [word]).
Proof.
  intros (Hne & Hw & _) Hword Hfit.
  split; [destruct g; discriminate|].
  split; [apply Forall_app; split; [exact Hw | constructor; [exact Hword | constructor]]|].
  intros x Hin Hlong. exfalso. unfold fits in Hfit.
  pose proof (length_join_member _ _ Hin). lia.
Qed.

Lemma wrapLoop_groups width ws :
  Forall (fun x => wordlike x = true) ws ->
  forall groups g,
    Forall (goodGroup width) groups -> (g = [] \/ goodGroup width g) ->
    exists groups',
      wrapLoop width ws (map (join " ") groups) (join " " g) = map (join " ") groups' /\
      concat groups' = (concat groups ++ g ++ ws)%list /\
      Forall (goodGroup width) groups' /\
      ((forall word, In word ws -> (String.length word <= width)%nat) ->
       Forall (fits width) groups -> fits width g -> Forall (fits width) groups').
Proof.
  induction 1 as [|word rest Hword Hrest IH]; intros groups g Hgroups Hg.
  - destruct Hg as [->|Hg].
    + exists groups. simpl. rewrite app_nil_r. auto.
    + exists (groups ++ [g])%list. simpl.
      destruct Hg as (Hne & Hw & Hl).
      rewrite (join_nonEmpty g Hne Hw).
      rewrite map_app, concat_app. simpl. rewrite !app_nil_r.
      split; [reflexivity|]. split; [reflexivity|].
      split; [apply Forall_app; split; [exact Hgroups | constructor; [exact (conj Hne (conj Hw Hl)) | constructor]]|].
      intros _ Hf Hfg. apply Forall_app. split; [exact Hf | constructor; [exact Hfg | constructor]].
  - destruct Hg as [->|Hg].
    + destruct (IH groups [word] Hgroups (or_intror (goodGroup_single width word Hword)))
        as (groups' & Hrun & Hcat & Hgood & Hfit).
      exists groups'. simpl. split; [exact Hrun|]. split; [exact Hcat|].
      split; [exact Hgood|]. intros Hws Hf _.
      apply Hfit; [intros x Hx; apply Hws; right; exact Hx | exact Hf |].
      unfold fits. simpl. apply Hws. left. reflexivity.
    + pose proof Hg as (Hne & Hw & Hl). cbn [wrapLoop].
      rewrite (join_nonEmpty g Hne Hw). cbn [negb].
      rewrite <- (join_snoc " " g word Hne).
      destruct (String.length (join " " (g ++ [word])) <=? width)%nat eqn:Elen.
      * apply Nat.leb_le in Elen.
        destruct (IH groups (g ++ [word])%list Hgroups
                    (or_intror (goodGroup_snoc width g word Hg Hword Elen)))
          as (groups' & Hrun & Hcat & Hgood & Hfit).
        exists groups'. split; [exact Hrun|].
        split; [rewrite Hcat, <- !app_assoc; reflexivity|].
        split; [exact Hgood|]. intros Hws Hf _.
        apply Hfit; [intros x Hx; apply Hws; right; exact Hx | exact Hf | exact Elen].
      * assert (Hgroups' : Forall (goodGroup width) (groups ++ [g])).
        { apply Forall_app. split; [exact Hgroups | constructor; [exact Hg | constructor]]. }
        destruct (IH (groups ++ [g])%list [word] Hgroups'
                    (or_intror (goodGroup_single width word Hword)))
          as (groups' & Hrun & Hcat & Hgood & Hfit).
        exists groups'. rewrite map_app in Hrun. simpl in Hrun.
        split; [exact Hrun|].
        split; [rewrite Hcat, concat_app; simpl; rewrite app_nil_r, <- !app_assoc;
                reflexivity|].
        split; [exact Hgood|]. intros Hws Hf Hfg. apply Hfit.
        -- intros x Hx. apply Hws. right. exact Hx.
        -- apply Forall_app. split; [exact Hf | constructor; [exact Hfg | constructor]].
        -- unfold fits. simpl. apply Hws. left. reflexivity.
Qed.

Lemma map_words_join (groups : list (list string)) width :
  Forall (goodGroup width) groups ->
  map words (map (join " ") groups) = groups.
Proof.
  induction 1 as [|g l (Hne & Hw & _) _ IH]; [reflexivity|].
  simpl. rewrite (words_join g Hw), IH. reflexivity.
Qed.

(** C10.  For a width of at least 1, the lines of [wrapText] hold the words
    of the text, whole, in their order and each once: the words of the
    lines, one line after the other, are the words of the text.  When every
    word fits the width, every line fits the width.  A word longer than the
    width is a line of its own. *)
Theorem wrapText_keeps_words (s : string) (width : nat) :
  (1 <= width)%nat ->
  concat (map words (wrapText s width)) = words s /\
  ((forall word, In word (words s) -> (String.length word <= width)%nat) ->
   forall line, In line (wrapText s width) -> (String.length line <= width)%nat) /\
  (forall word, In word (words s) -> (width < String.length word)%nat ->
                In word (wrapText s width)).
Proof.
  intros _. unfold wrapText. cbv zeta.
  destruct (nonEmpty (trim s)) eqn:Hn; cbn [negb].
  2:{ rewrite (words_of_empty_trim s Hn). simpl.
      split; [reflexivity|]. split; [|contradiction].
      intros _ line [<-|[]]. simpl. lia. }
  destruct (String.length (trim s) <=? width)%nat eqn:Elen.
  { apply Nat.leb_le in Elen. simpl. rewrite app_nil_r, words_trim.
    split; [reflexivity|]. split.
    - intros _ line [<-|[]]. exact Elen.
    - intros word Hin Hlong. exfalso.
      rewrite <- words_trim in Hin. pose proof (length_word _ _ Hin). lia. }
  rewrite (splitWs_trim s Hn).
  destruct (wrapLoop_groups width (words s) (words_wordlike s) [] []
              (List.Forall_nil _) (or_introl eq_refl))
    as (groups & Hrun & Hcat & Hgood & Hfit).
  simpl in Hrun, Hcat. rewrite Hrun.
  split; [|split].
  - rewrite (map_words_join groups width Hgood). exact Hcat.
  - intros Hws line Hin. apply in_map_iff in Hin as (g & <- & Hg).
    assert (Hf : Forall (fits width) groups).
    { apply Hfit; [exact Hws | constructor | unfold fits; simpl; lia]. }
    rewrite Forall_forall in Hf. apply Hf. apply list_elem_of_In. exact Hg.
  - intros word Hin Hlong. rewrite <- Hcat in Hin.
    apply in_concat in Hin as (g & Hg & Hword).
    rewrite Forall_forall in Hgood.
    destruct (Hgood g (proj2 (list_elem_of_In _ _) Hg)) as (_ & _ & Hl).
    rewrite (Hl word Hword Hlong) in Hg.
    apply in_map_iff. exists [word]. split; [reflexivity | exact Hg].
Qed.

Lemma wrapText_keeps_words_witness :
  concat (map words (wrapText "2x Salmon Nigiri  with avocado" 12)) =
  ["2x"; "Salmon"; "Nigiri"; "with"; "avocado"] /\
  wrapText "2x Salmon Nigiri  with avocado" 12 = ["2x Salmon"; "Nigiri with"; "avocado"].
Proof.
  split.
  - destruct (wrapText_keeps_words "2x Salmon Nigiri  with avocado" 12) as [H _].
    + lia.
    + exact H.
  - reflexivity.
Defined.


(** ** [prettifyDishName] *)

Lemma exists_chars_dropStart p q (s : string) :
  (forall c, q c = true -> p c = false) ->
  exists_chars p (dropStart q s) = exists_chars p s.
Proof.
  intros Hq. induction s as [|c s IH]; [reflexivity|]. simpl.
  destruct (q c) eqn:Hc; [|reflexivity].
  rewrite (Hq c Hc). exact IH.
Qed.

Lemma exists_chars_dropEnd p q (s : string) :
  (forall c, q c = true -> p c = false) ->
  exists_chars p (dropEnd q s) = exists_chars p s.
Proof.
  intros Hq. induction s as [|c s IH]; [reflexivity|]. simpl.
  destruct (dropEnd q s) as [|d r] eqn:Ed.
  - rewrite <- IH. destruct (q c) eqn:Hc; simpl.
    + rewrite (Hq c Hc). reflexivity.
    + reflexivity.
  - rewrite <- IH. reflexivity.
Qed.

Lemma exists_chars_replaceRuns p q r (s : string) :
  (forall c, q c = true -> p c = false) -> p r = false ->
  exists_chars p (replaceRuns q r s) = exists_chars p s.
Proof.
  intros Hq Hr. induction s as [|c s IH]; [reflexivity|]. simpl.
  destruct (q c) eqn:Hc.
  - rewrite (Hq c Hc). destruct (startsWithChar q s); simpl; [|rewrite Hr]; exact IH.
  - simpl. rewrite IH. reflexivity.
Qed.

Lemma isDishLower_not_space (c : ascii) : isWhiteSpace c = true -> isDishLower c = false.
Proof. each_char c; vm_compute; congruence. Qed.

(** The test of [prettifyDishName] for a lower-case letter gives the same
    answer on the squeezed text and on the name. *)
Lemma isDishLower_squeezed (name : string) :
  exists_chars isDishLower (replaceRuns isWhiteSpace " " (trim name)) =
  exists_chars isDishLower name.
Proof.
  rewrite exists_chars_replaceRuns by (exact isDishLower_not_space || reflexivity).
  unfold trim. rewrite exists_chars_dropEnd by exact isDishLower_not_space.
  apply exists_chars_dropStart. exact isDishLower_not_space.
Qed.

Lemma toLowerCase_app (a b : string) :
  toLowerCase (a ++ b) = toLowerCase a ++ toLowerCase b.
Proof.
  unfold toLowerCase. induction a as [|c a IH]; simpl; [reflexivity|].
  rewrite IH. reflexivity.
Qed.

Lemma toLowerCase_join (g : list string) :
  toLowerCase (join " " g) = join " " (map toLowerCase g).
Proof.
  induction g as [|x [|y g] IH]; [reflexivity | reflexivity |].
  change (map toLowerCase (x :: y :: g)) with (toLowerCase x :: map toLowerCase (y :: g)).
  rewrite !join_cons by discriminate. rewrite !toLowerCase_app, IH. reflexivity.
Qed.

Lemma splitChar_cons p (s : string) : exists t ts, splitChar p s = t :: ts.
Proof.
  induction s as [|c s (t & ts & IH)]; simpl; [eauto|].
  destruct (p c); [eauto|]. rewrite IH. simpl. eauto.
Qed.

Lemma splitChar_app p x y :
  forall_chars (fun c => negb (p c)) x = true ->
  splitChar p (x ++ y) =
  match splitChar p y with
  | t :: ts => (x ++ t) :: ts
  | [] => [x]
  end.
Proof.
  induction x as [|c x IH]; simpl.
  - intros _. destruct (splitChar_cons p y) as (t & ts & ->). reflexivity.
  - intros [Hc Hx]%andb_true_iff. destruct (p c); [discriminate|].
    rewrite (IH Hx). destruct (splitChar p y); reflexivity.
Qed.

(** Pieces without a space, joined by one space, split into the same
    pieces. *)
Lemma splitChar_join (g : list string) :
  g <> [] -> Forall (fun x => forall_chars (fun c => negb (isSpace c)) x = true) g ->
  splitChar isSpace (join " " g) = g.
Proof.
  intros Hne Hg. induction Hg as [|x l Hx Hl IH]; [congruence|].
  destruct l as [|y l].
  - simpl. rewrite <- (append_nil_r x) at 1. rewrite (splitChar_app _ x "" Hx).
    simpl. rewrite append_nil_r. reflexivity.
  - rewrite join_cons by discriminate. rewrite (splitChar_app _ _ _ Hx).
    change (" " ++ join " " (y :: l)) with (String " " (join " " (y :: l))).
    cbn [splitChar]. change (isSpace " ") with true. cbv iota.
    rewrite IH by discriminate. rewrite append_nil_r. reflexivity.
Qed.

Lemma lower_char_not_space (c : ascii) :
  notWhiteSpace c = true -> negb (isSpace (lower_char c)) = true.
Proof. each_char c; vm_compute; congruence. Qed.

Lemma toLowerCase_no_space (w : string) :
  forall_chars notWhiteSpace w = true ->
  forall_chars (fun c => negb (isSpace c)) (toLowerCase w) = true.
Proof.
  unfold toLowerCase. induction w as [|c w IH]; [reflexivity|]. simpl.
  intros [Hc Hw]%andb_true_iff. rewrite (lower_char_not_space c Hc), (IH Hw). reflexivity.
Qed.

Lemma upper_lower_char (c : ascii) : upper_char (lower_char c) = upper_char c.
Proof. each_char c; reflexivity. Qed.

(** Putting a word in lower case and its first character in upper case is
    putting it in title case. *)
Lemma capitalize_toLowerCase (w : string) : capitalize (toLowerCase w) = titleCase w.
Proof. destruct w as [|c w]; [reflexivity|]. simpl. rewrite upper_lower_char. reflexivity. Qed.

(** C9, as stated, fails: a name with lower-case letters and a double space
    is not left as it is. *)
Lemma prettifyDishName_squeezes_lowercase_name :
  exists_chars isLowerLetter "tuna  roll " = true /\
  prettifyDishName "tuna  roll " = units "tuna roll" /\
  prettifyDishName "tuna  roll " <> units "tuna  roll ".
Proof. vm_compute. repeat split; congruence. Qed.

(** C9, amended.  For every name, [prettifyDishName] first trims the name
    and makes one space of every run of white space, that is, joins the
    words of the name with one space.  When the name holds one of the
    letters a-z, à, è, é, ì, ò, ù that is the result; otherwise every word
    is put in title case (its first character in upper case, the rest in
    lower case) and the words are joined with one space. *)
Theorem prettifyDishName_spec (name : string) :
  prettifyDishName name =
    if exists_chars isDishLower name
    then units (join " " (words name))
    else joinUnits (units " ") (map titleCase (words name)).
Proof.
  unfold prettifyDishName. cbv zeta.
  rewrite isDishLower_squeezed, replaceRuns_join.
  destruct (nonEmpty (trim name)) eqn:Hn.
  - rewrite (splitWs_trim name Hn).
    pose proof (words_wordlike name) as Hw.
    assert (Hne : words name <> []).
    { rewrite <- (splitWs_trim name Hn). apply splitWs_nonnil. }
    rewrite (join_nonEmpty _ Hne Hw). cbn [negb].
    destruct (exists_chars isDishLower name); [reflexivity|].
    rewrite toLowerCase_join, splitChar_join.
    + rewrite map_map. f_equal. apply map_ext. exact capitalize_toLowerCase.
    + destruct (words name); [congruence | discriminate].
    + apply Forall_map. eapply Forall_impl; [exact Hw|].
      intros w [_ Hf]%andb_true_iff. apply toLowerCase_no_space. exact Hf.
  - rewrite (words_of_empty_trim name Hn).
    destruct (trim name); [|discriminate]. simpl.
    destruct (exists_chars isDishLower name); reflexivity.
Qed.

(** Three names: one with a lower-case letter, one in capitals, and one
    whose first letter has its upper-case form outside the Latin-1 range
    (the micro sign becomes the Greek capital mu, U+039C). *)
Lemma prettifyDishName_spec_witness :
  prettifyDishName " SALMON  nigiri" = units "SALMON nigiri" /\
  prettifyDishName "URAMAKI  EBI TEN" = units "Uramaki Ebi Ten" /\
  prettifyDishName (String (ascii_of_N 181) " MISO") = (924 :: units " Miso")%N.
Proof.
  split; [|split].
  - rewrite (prettifyDishName_spec " SALMON  nigiri"); reflexivity.
  - rewrite (prettifyDishName_spec "URAMAKI  EBI TEN"); reflexivity.
  - rewrite (prettifyDishName_spec (String (ascii_of_N 181) " MISO")); reflexivity.
Defined.

(** ** More on the numeric sanitizers *)

Lemma of_Z_shape (z : Z) :
  0 < z < 2 ^ 53 ->
  exists m e, of_Z z = S754_finite false m e /\ e <= 0 /\ Zpos m = Z.shiftl z (- e).
Proof.
  intros Hz. destruct z as [|p|p]; try lia.
  apply of_Z_pos_small.
  pose proof (Pos2Z.is_pos (digits2_pos p)).
  destruct (Z_le_gt_dec (Zpos (digits2_pos p)) 53) as [|Hgt]; [assumption|exfalso].
  assert (Hlow : 2 ^ (Zpos (digits2_pos p) - 1) <= Zpos p).
  { clear. induction p as [p IH|p IH|]; simpl digits2_pos.
    - rewrite Pos2Z.inj_succ.
      replace (Z.succ (Zpos (digits2_pos p)) - 1) with (Z.succ (Zpos (digits2_pos p) - 1)) by lia.
      rewrite Z.pow_succ_r by lia. lia.
    - rewrite Pos2Z.inj_succ.
      replace (Z.succ (Zpos (digits2_pos p)) - 1) with (Z.succ (Zpos (digits2_pos p) - 1)) by lia.
      rewrite Z.pow_succ_r by lia. lia.
    - simpl. lia. }
  assert (2 ^ 53 <= 2 ^ (Zpos (digits2_pos p) - 1)) by (apply Z.pow_le_mono_r; lia).
  lia.
Qed.

Lemma isInteger_of_Z (z : Z) : 0 < z < 2 ^ 53 -> isInteger (of_Z z) = true.
Proof.
  intros Hz. destruct (of_Z_shape z Hz) as (m & e & -> & He & Hm).
  unfold isInteger. apply orb_true_iff. right. apply Z.eqb_eq.
  rewrite Hm. rewrite Z.shiftr_shiftl_l by lia. rewrite Z.sub_diag, Z.shiftl_0_r.
  reflexivity.
Qed.

(** [sanitizePollMs] returns an integer of [1000..10000], and sanitizing
    its result again returns the same integer. *)
Theorem sanitizePollMs_clamps (n : number) :
  1000 <= sanitizePollMs n <= 10000 /\
  sanitizePollMs (of_Z (sanitizePollMs n)) = sanitizePollMs n.
Proof. split; [apply sanitizePollMs_range | apply sanitizePollMs_idempotent]. Qed.

(** [sanitizeClaimLimit] returns an integer of [1..20], and sanitizing its
    result again returns the same integer. *)
Theorem sanitizeClaimLimit_clamps (n : number) :
  1 <= sanitizeClaimLimit n <= 20 /\
  sanitizeClaimLimit (of_Z (sanitizeClaimLimit n)) = sanitizeClaimLimit n.
Proof. split; [apply sanitizeClaimLimit_range | apply sanitizeClaimLimit_idempotent]. Qed.

(** [sanitizePhysicalPort] returns a port of [1..65535]; a number that is
    no integer gives the default of the brand (8008 for epson, 9100
    otherwise), never its truncation; and the function is idempotent. *)
Theorem sanitizePhysicalPort_spec (parsed : number) (brand : string) :
  1 <= sanitizePhysicalPort parsed brand <= 65535 /\
  (isInteger parsed = false ->
   sanitizePhysicalPort parsed brand = if String.eqb brand "epson" then 8008 else 9100) /\
  sanitizePhysicalPort (of_Z (sanitizePhysicalPort parsed brand)) brand =
  sanitizePhysicalPort parsed brand.
Proof.
  assert (Hr : 1 <= sanitizePhysicalPort parsed brand <= 65535).
  { unfold sanitizePhysicalPort.
    destruct (isInteger parsed); simpl; [|destruct (String.eqb brand "epson"); lia].
    destruct (1 <=? truncZ parsed) eqn:E1; simpl; [|destruct (String.eqb brand "epson"); lia].
    destruct (truncZ parsed <=? 65535) eqn:E2; simpl; [lia|].
    destruct (String.eqb brand "epson"); lia. }
  split; [exact Hr|]. split.
  - intros Hi. unfold sanitizePhysicalPort. rewrite Hi. reflexivity.
  - set (r := sanitizePhysicalPort parsed brand) in *.
    assert (Hz : 0 < r < 2 ^ 53) by lia.
    destruct (truncZ_of_Z r Hz) as [Ht _].
    unfold sanitizePhysicalPort at 1. rewrite (isInteger_of_Z r Hz), Ht.
    destruct (1 <=? r) eqn:E1; [|lia]. destruct (r <=? 65535) eqn:E2; [|lia].
    reflexivity.
Qed.

(** ** Squeezed texts *)

Lemma forall_chars_slice0 p n (s : string) :
  forall_chars p s = true -> forall_chars p (slice0 n s) = true.
Proof.
  revert s. induction n as [|n IH]; intros [|c s]; simpl; try reflexivity.
  intros [Hc Hs]%andb_true_iff. rewrite Hc, (IH s Hs). reflexivity.
Qed.

Lemma forall_chars_dropStart p q (s : string) :
  forall_chars p s = true -> forall_chars p (dropStart q s) = true.
Proof.
  induction s as [|c s IH]; [reflexivity|]. simpl.
  intros [Hc Hs]%andb_true_iff.
  destruct (q c); [exact (IH Hs)|]. simpl. rewrite Hc, Hs. reflexivity.
Qed.

Lemma forall_chars_dropEnd p q (s : string) :
  forall_chars p s = true -> forall_chars p (dropEnd q s) = true.
Proof.
  induction s as [|c s IH]; [reflexivity|]. simpl.
  intros [Hc Hs]%andb_true_iff. specialize (IH Hs).
  destruct (dropEnd q s) as [|d r].
  - destruct (q c); simpl; [reflexivity | rewrite Hc; reflexivity].
  - simpl in *. rewrite Hc, IH. reflexivity.
Qed.

Lemma forall_chars_replaceRuns p q r (s : string) :
  q r = true -> (forall c, p c = false -> q c = true) ->
  forall_chars q (replaceRuns p r s) = true.
Proof.
  intros Hr Hq. induction s as [|c s IH]; [reflexivity|]. simpl.
  destruct (p c) eqn:Hc.
  - destruct (startsWithChar p s); [exact IH|]. simpl. rewrite Hr, IH. reflexivity.
  - simpl. rewrite (Hq c Hc), IH. reflexivity.
Qed.

Lemma forall_chars_map_chars q f (s : string) :
  (forall c, q (f c) = true) -> forall_chars q (map_chars f s) = true.
Proof.
  intros Hf. induction s as [|c s IH]; [reflexivity|]. simpl. rewrite Hf, IH. reflexivity.
Qed.

Lemma length_slice0 n (s : string) : (String.length (slice0 n s) <= n)%nat.
Proof.
  revert s. induction n as [|n IH]; intros [|c s]; simpl; try lia.
  specialize (IH s). lia.
Qed.

Lemma slice0_all n (s : string) : (String.length s <= n)%nat -> slice0 n s = s.
Proof.
  revert s. induction n as [|n IH]; intros [|c s]; simpl; try reflexivity; try lia.
  intros H. rewrite IH by lia. reflexivity.
Qed.

Lemma startsWith_replaceRuns p r (s : string) :
  p r = true -> startsWithChar p (replaceRuns p r s) = startsWithChar p s.
Proof.
  intros Hr. induction s as [|c s IH]; [reflexivity|]. simpl.
  destruct (p c) eqn:Hc; [|simpl; exact Hc].
  destruct (startsWithChar p s) eqn:Hs; [exact IH | simpl; exact Hr].
Qed.

Lemma squeezed_replaceRuns p r (s : string) :
  p r = true -> squeezed p r (replaceRuns p r s) = true.
Proof.
  intros Hr. induction s as [|c s IH]; [reflexivity|]. simpl.
  destruct (p c) eqn:Hc.
  - destruct (startsWithChar p s) eqn:Hs; [exact IH|]. simpl.
    rewrite Hr, Ascii.eqb_refl, (startsWith_replaceRuns p r s Hr), Hs, IH. reflexivity.
  - simpl. rewrite Hc, IH. reflexivity.
Qed.

Lemma squeezed_dropStart p r q (s : string) :
  squeezed p r s = true -> squeezed p r (dropStart q s) = true.
Proof.
  induction s as [|c s IH]; [reflexivity|]. intros H. simpl.
  destruct (q c); [|exact H].
  apply IH. simpl in H. apply andb_true_iff in H as [_ H]. exact H.
Qed.

Lemma startsWith_dropEnd_false p q (s : string) :
  startsWithChar p s = false -> startsWithChar p (dropEnd q s) = false.
Proof.
  intros H. destruct (nonEmpty (dropEnd q s)) eqn:Hn.
  - rewrite dropEnd_startsWith by exact Hn. exact H.
  - destruct (dropEnd q s); [reflexivity | discriminate].
Qed.

Lemma startsWith_slice0_false p n (s : string) :
  startsWithChar p s = false -> startsWithChar p (slice0 n s) = false.
Proof. destruct n, s; simpl; auto. Qed.

Lemma squeezed_dropEnd p r q (s : string) :
  squeezed p r s = true -> squeezed p r (dropEnd q s) = true.
Proof.
  induction s as [|c s IH]; [reflexivity|]. simpl.
  intros [Hc Hs]%andb_true_iff. specialize (IH Hs).
  destruct (dropEnd q s) as [|d t] eqn:Ed.
  - destruct (q c); [reflexivity|]. simpl.
    destruct (p c); [|reflexivity].
    apply andb_true_iff in Hc as [-> _]. reflexivity.
  - change (squeezed p r (String c (String d t))) with
      ((if p c then Ascii.eqb c r && negb (startsWithChar p (String d t)) else true) &&
       squeezed p r (String d t)).
    rewrite IH, andb_true_r.
    destruct (p c); [|reflexivity].
    apply andb_true_iff in Hc as [-> Hc]. rewrite andb_true_l.
    assert (Hn : nonEmpty (dropEnd q s) = true) by (rewrite Ed; reflexivity).
    rewrite <- Ed, (dropEnd_startsWith q p s Hn). exact Hc.
Qed.

Lemma squeezed_slice0 p r n (s : string) :
  squeezed p r s = true -> squeezed p r (slice0 n s) = true.
Proof.
  revert s. induction n as [|n IH]; intros [|c s]; simpl; try reflexivity.
  intros [Hc Hs]%andb_true_iff. rewrite (IH s Hs), andb_true_r.
  destruct (p c); [|reflexivity].
  apply andb_true_iff in Hc as [-> Hc]. simpl.
  apply negb_true_iff. apply startsWith_slice0_false. apply negb_true_iff. exact Hc.
Qed.

(** Squeezing a squeezed text changes nothing. *)
Lemma squeezed_fix p r (s : string) :
  squeezed p r s = true -> replaceRuns p r s = s.
Proof.
  induction s as [|c s IH]; [reflexivity|]. simpl.
  intros [Hc Hs]%andb_true_iff. rewrite (IH Hs).
  destruct (p c); [|reflexivity].
  apply andb_true_iff in Hc as [Hc Hn]. apply Ascii.eqb_eq in Hc.
  apply negb_true_iff in Hn. rewrite Hn, Hc. reflexivity.
Qed.

Lemma replaceRuns_none p r (s : string) :
  forall_chars (fun c => negb (p c)) s = true -> replaceRuns p r s = s.
Proof.
  induction s as [|c s IH]; [reflexivity|]. simpl.
  intros [Hc Hs]%andb_true_iff. apply negb_true_iff in Hc. rewrite Hc, (IH Hs). reflexivity.
Qed.

Lemma dropStart_none p (s : string) : startsWithChar p s = false -> dropStart p s = s.
Proof. destruct s as [|c s]; [reflexivity|]. simpl. intros ->. reflexivity. Qed.

Lemma dropStart_starts p (s : string) : startsWithChar p (dropStart p s) = false.
Proof.
  induction s as [|c s IH]; [reflexivity|]. simpl.
  destruct (p c) eqn:Hc; [exact IH | simpl; exact Hc].
Qed.

Lemma dropEnd_none p (s : string) : endsWithChar p s = false -> dropEnd p s = s.
Proof.
  induction s as [|c s IH]; [reflexivity|]. simpl.
  destruct s as [|d t].
  - simpl. intros ->. reflexivity.
  - intros H. rewrite (IH H). reflexivity.
Qed.

Lemma forall_chars_ends p q (s : string) :
  (forall c, q c = true -> p c = false) -> forall_chars q s = true ->
  startsWithChar p s = false /\ endsWithChar p s = false.
Proof.
  intros Hq. induction s as [|c s IH]; [split; reflexivity|]. simpl.
  intros [Hc Hs]%andb_true_iff. split; [exact (Hq c Hc)|].
  destruct s; [exact (Hq c Hc) | exact (proj2 (IH Hs))].
Qed.

Lemma map_chars_fix q f (s : string) :
  (forall c, q c = true -> f c = c) -> forall_chars q s = true -> map_chars f s = s.
Proof.
  intros Hf. induction s as [|c s IH]; [reflexivity|]. simpl.
  intros [Hc Hs]%andb_true_iff. rewrite (Hf c Hc), (IH Hs). reflexivity.
Qed.

Lemma nonEmpty_slice0 n c (s : string) : nonEmpty (slice0 (S n) (String c s)) = true.
Proof. reflexivity. Qed.

(** ** [sanitizeConsumerId] and [sanitizeDeviceName] *)

#[local] Arguments slice0 !_ !_ / : simpl nomatch.

Lemma consumerIdChar_not_space (c : ascii) :
  isConsumerIdChar c = true -> isWhiteSpace c = false.
Proof. each_char c; vm_compute; congruence. Qed.

Lemma consumerIdChar_lower (c : ascii) : isConsumerIdChar c = true -> lower_char c = c.
Proof. each_char c; vm_compute; congruence. Qed.

Lemma hostChar_consumerIdChar (c : ascii) : isHostChar c = true -> isConsumerIdChar c = true.
Proof. each_char c; vm_compute; congruence. Qed.

Lemma consumerIdForm_intro (s : string) :
  forall_chars isConsumerIdChar s = true -> squeezed isDash "-" s = true ->
  startsWithChar isDash s = false -> consumerIdForm s = true.
Proof. unfold consumerIdForm. intros -> -> ->. reflexivity. Qed.

Lemma consumerIdForm_elim (s : string) :
  consumerIdForm s = true ->
  forall_chars isConsumerIdChar s = true /\ squeezed isDash "-" s = true /\
  startsWithChar isDash s = false.
Proof.
  unfold consumerIdForm. intros [[H1 H2]%andb_true_iff H3%negb_true_iff]%andb_true_iff.
  auto.
Qed.

Lemma consumerIdForm_slice0 n (s : string) :
  consumerIdForm s = true -> consumerIdForm (slice0 n s) = true.
Proof.
  intros (H1 & H2 & H3)%consumerIdForm_elim. apply consumerIdForm_intro.
  - apply forall_chars_slice0. exact H1.
  - apply squeezed_slice0. exact H2.
  - apply startsWith_slice0_false. exact H3.
Qed.

Lemma forall_chars_replaceRuns_keep p q r (s : string) :
  q r = true -> forall_chars q s = true -> forall_chars q (replaceRuns p r s) = true.
Proof.
  intros Hr. induction s as [|c s IH]; [reflexivity|]. simpl.
  intros [Hc Hs]%andb_true_iff.
  destruct (p c).
  - destruct (startsWithChar p s); [exact (IH Hs)|]. simpl. rewrite Hr, (IH Hs). reflexivity.
  - simpl. rewrite Hc, (IH Hs). reflexivity.
Qed.

(** Dashes squeezed and stripped: the form, for a text of the class. *)
Lemma squeezeDashes_form (s : string) :
  forall_chars isConsumerIdChar s = true -> consumerIdForm (squeezeDashes s) = true.
Proof.
  intros Hs. unfold squeezeDashes. apply consumerIdForm_intro.
  - apply forall_chars_dropEnd, forall_chars_dropStart.
    apply forall_chars_replaceRuns_keep; [reflexivity | exact Hs].
  - apply squeezed_dropEnd, squeezed_dropStart, squeezed_replaceRuns. reflexivity.
  - apply startsWith_dropEnd_false, dropStart_starts.
Qed.

(** The text [sanitizeConsumerId] builds from the value, before its
    fallback, has the form and at most 64 characters. *)
Lemma consumerId_raw_form (value : string) :
  let raw := slice0 64 (squeezeDashes
               (replaceRuns (fun c => negb (isConsumerIdChar c)) "-"
                  (toLowerCase (trim value)))) in
  consumerIdForm raw = true /\ (String.length raw <= 64)%nat.
Proof.
  cbv zeta. split; [|apply length_slice0].
  apply consumerIdForm_slice0, squeezeDashes_form.
  apply forall_chars_replaceRuns; [reflexivity|].
  intros c Hc. apply negb_false_iff. exact Hc.
Qed.

(** So has the fallback built from the host name, which is never empty. *)
Lemma consumerId_fallback_form (h : Host) :
  let host := slice0 40 (squeezeDashes
                (map_chars (fun c => if isHostChar c then c else "-"%char)
                   (toLowerCase (hostname h)))) in
  let prefix := if String.eqb (platform h) "win32" then "win"
                else if String.eqb (platform h) "darwin" then "mac" else "bridge" in
  let id := slice0 64 (prefix ++ "-bridge-" ++ orElse host "main") in
  consumerIdForm id = true /\ (String.length id <= 64)%nat /\ nonEmpty id = true.
Proof.
  cbv zeta. set (host := slice0 40 _).
  assert (Hh : consumerIdForm (orElse host "main") = true).
  { unfold orElse. destruct (nonEmpty host); [|reflexivity].
    apply consumerIdForm_slice0, squeezeDashes_form.
    apply forall_chars_map_chars. intros c.
    destruct (isHostChar c) eqn:Hc; [apply hostChar_consumerIdChar; exact Hc | reflexivity]. }
  split; [|split; [apply length_slice0|]].
  - apply consumerIdForm_elim in Hh as (H1 & H2 & H3).
    destruct (String.eqb (platform h) "win32"); [|destruct (String.eqb (platform h) "darwin")];
      simpl; apply consumerIdForm_intro; simpl;
      rewrite ?forall_chars_slice0, ?squeezed_slice0, ?startsWith_slice0_false by assumption;
      reflexivity.
  - destruct (String.eqb (platform h) "win32"); [|destruct (String.eqb (platform h) "darwin")];
      reflexivity.
Qed.

Lemma sanitizeConsumerId_form (h : Host) (value : string) :
  consumerIdForm (sanitizeConsumerId h value) = true /\
  (String.length (sanitizeConsumerId h value) <= 64)%nat /\
  nonEmpty (sanitizeConsumerId h value) = true.
Proof.
  unfold sanitizeConsumerId. cbv zeta.
  destruct (consumerId_raw_form value) as [Hf Hl]. cbv zeta in Hf, Hl.
  destruct (nonEmpty (slice0 64 _)) eqn:Hn.
  - auto.
  - apply consumerId_fallback_form.
Qed.

(** A text of the form, not empty, of at most 64 characters and without a
    dash at its end is its own consumer id. *)
Lemma sanitizeConsumerId_fixes_form (h : Host) (s : string) :
  consumerIdForm s = true -> (String.length s <= 64)%nat -> nonEmpty s = true ->
  endsWithChar isDash s = false -> sanitizeConsumerId h s = s.
Proof.
  intros (H1 & H2 & H3)%consumerIdForm_elim Hl Hn He.
  destruct (forall_chars_ends isWhiteSpace _ s consumerIdChar_not_space H1) as [Hs1 Hs2].
  unfold sanitizeConsumerId. cbv zeta.
  assert (Hraw : slice0 64 (squeezeDashes
             (replaceRuns (fun c => negb (isConsumerIdChar c)) "-"
                (toLowerCase (trim s)))) = s).
  { unfold trim. rewrite (dropStart_none _ _ Hs1), (dropEnd_none _ _ Hs2).
    unfold toLowerCase. rewrite (map_chars_fix _ _ _ consumerIdChar_lower H1).
    rewrite replaceRuns_none.
    2:{ eapply forall_chars_impl; [|exact H1]. intros c ->. reflexivity. }
    unfold squeezeDashes. rewrite (squeezed_fix _ _ _ H2).
    rewrite (dropStart_none _ _ H3), (dropEnd_none _ _ He).
    apply slice0_all. exact Hl. }
  rewrite Hraw, Hn. reflexivity.
Qed.

(** [sanitizeConsumerId] never returns the empty string: its result has
    between 1 and 64 characters, all of the class [[a-z0-9._:-]], on every
    machine and for every value. *)
Theorem sanitizeConsumerId_wellformed (h : Host) (value : string) :
  nonEmpty (sanitizeConsumerId h value) = true /\
  (1 <= String.length (sanitizeConsumerId h value) <= 64)%nat /\
  forall_chars isConsumerIdChar (sanitizeConsumerId h value) = true.
Proof.
  destruct (sanitizeConsumerId_form h value) as ((H1 & _ & _)%consumerIdForm_elim & Hl & Hn).
  split; [exact Hn|]. split; [|exact H1].
  split; [|exact Hl]. destruct (sanitizeConsumerId h value); [discriminate | simpl; lia].
Qed.

Lemma dropEnd_ends p (s : string) : endsWithChar p (dropEnd p s) = false.
Proof.
  induction s as [|c s IH]; [reflexivity|]. simpl.
  destruct (dropEnd p s) as [|d r].
  - destruct (p c) eqn:Hc; [reflexivity | simpl; exact Hc].
  - exact IH.
Qed.

Lemma length_dropEnd p (s : string) : (String.length (dropEnd p s) <= String.length s)%nat.
Proof.
  induction s as [|c s IH]; [reflexivity|]. simpl.
  destruct (dropEnd p s) as [|d r]; [destruct (p c); simpl; lia | simpl in *; lia].
Qed.

Lemma dropEnd_keeps_start p c (s : string) :
  p c = false -> nonEmpty (dropEnd p (String c s)) = true.
Proof. intros Hc. simpl. destruct (dropEnd p s); [rewrite Hc|]; reflexivity. Qed.

Lemma sanitizeConsumerId_twice_helper (h : Host) (value : string) :
  sanitizeConsumerId h (sanitizeConsumerId h value) =
    dropEnd isDash (sanitizeConsumerId h value).
Proof.
  destruct (sanitizeConsumerId_form h value) as (Hf & Hl & Hn).
  set (r := sanitizeConsumerId h value) in *.
  assert (Htwice : sanitizeConsumerId h r = dropEnd isDash r).
  { pose proof Hf as (H1 & H2 & H3)%consumerIdForm_elim.
    destruct (forall_chars_ends isWhiteSpace _ r consumerIdChar_not_space H1) as [Hs1 Hs2].
    unfold sanitizeConsumerId at 1. cbv zeta.
    assert (Hraw : slice0 64 (squeezeDashes
               (replaceRuns (fun c => negb (isConsumerIdChar c)) "-"
                  (toLowerCase (trim r)))) = dropEnd isDash r).
    { unfold trim. rewrite (dropStart_none _ _ Hs1), (dropEnd_none _ _ Hs2).
      unfold toLowerCase. rewrite (map_chars_fix _ _ _ consumerIdChar_lower H1).
      rewrite replaceRuns_none.
      2:{ eapply forall_chars_impl; [|exact H1]. intros c ->. reflexivity. }
      unfold squeezeDashes. rewrite (squeezed_fix _ _ _ H2), (dropStart_none _ _ H3).
      apply slice0_all. pose proof (length_dropEnd isDash r). lia. }
    rewrite Hraw.
    destruct r as [|c t]; [discriminate|]. simpl in H3.
    rewrite (dropEnd_keeps_start isDash c t H3). reflexivity. }
  exact Htwice.
Qed.

(** Sanitizing a consumer id a second time strips the dash at its end, if
    there is one, and does nothing else: [sanitizeConsumerId] is idempotent
    at a value exactly when its result there does not end with a dash. *)
Theorem sanitizeConsumerId_twice (h : Host) (value : string) :
  sanitizeConsumerId h (sanitizeConsumerId h value) =
    dropEnd isDash (sanitizeConsumerId h value) /\
  (sanitizeConsumerId h (sanitizeConsumerId h value) = sanitizeConsumerId h value <->
   endsWithChar isDash (sanitizeConsumerId h value) = false).
Proof.
  pose proof (sanitizeConsumerId_twice_helper h value) as Htwice.
  split; [exact Htwice|]. rewrite Htwice. split.
  - intros <-. apply dropEnd_ends.
  - apply dropEnd_none.
Qed.

Lemma replaceRuns_nonEmpty p r (s : string) :
  nonEmpty s = true -> startsWithChar p s = false -> nonEmpty (replaceRuns p r s) = true.
Proof. destruct s as [|c s]; [discriminate|]. simpl. intros _ ->. reflexivity. Qed.

(** For a value that is not blank, [sanitizeDeviceName] returns a name of 1
    to 80 characters; sanitizing that name again strips the white space at
    its end, which the cut to 80 characters may have left, and does nothing
    else. *)
Theorem sanitizeDeviceName_twice (h : Host) (value : string) :
  nonEmpty (trim value) = true ->
  (1 <= String.length (sanitizeDeviceName h value) <= 80)%nat /\
  sanitizeDeviceName h (sanitizeDeviceName h value) =
    dropEnd isWhiteSpace (sanitizeDeviceName h value).
Proof.
  intros Hv.
  set (r := slice0 80 (replaceRuns isWhiteSpace " " (trim value))).
  assert (Hsq : squeezed isWhiteSpace " " r = true).
  { apply squeezed_slice0, squeezed_replaceRuns. reflexivity. }
  assert (Hst : startsWithChar isWhiteSpace r = false).
  { apply startsWith_slice0_false. rewrite startsWith_replaceRuns by reflexivity.
    apply trim_startsWith. }
  assert (Hn : nonEmpty r = true).
  { pose proof (replaceRuns_nonEmpty isWhiteSpace " " (trim value) Hv (trim_startsWith value)) as H.
    subst r. destruct (replaceRuns isWhiteSpace " " (trim value)); [discriminate | reflexivity]. }
  assert (Hl : (String.length r <= 80)%nat) by apply length_slice0.
  assert (Heq : sanitizeDeviceName h value = r).
  { unfold sanitizeDeviceName. cbv zeta. fold r. unfold orElse. rewrite Hn. reflexivity. }
  rewrite Heq. split.
  - split; [|exact Hl]. destruct r; [discriminate | simpl; lia].
  - unfold sanitizeDeviceName. cbv zeta.
    unfold trim. rewrite (dropStart_none _ _ Hst).
    rewrite (squeezed_fix _ _ _ (squeezed_dropEnd _ _ _ _ Hsq)).
    rewrite slice0_all by (pose proof (length_dropEnd isWhiteSpace r); lia).
    unfold orElse. destruct r as [|c t]; [discriminate|]. simpl in Hst.
    rewrite (dropEnd_keeps_start isWhiteSpace c t Hst). reflexivity.
Qed.

Lemma sanitizeDeviceName_twice_witness :
  sanitizeDeviceName Sample.cassa "  Cassa   sala 1 " = "Cassa sala 1" /\
  sanitizeDeviceName Sample.cassa (sanitizeDeviceName Sample.cassa "  Cassa   sala 1 ") =
    dropEnd isWhiteSpace (sanitizeDeviceName Sample.cassa "  Cassa   sala 1 ").
Proof.
  split; [reflexivity|].
  apply (sanitizeDeviceName_twice Sample.cassa "  Cassa   sala 1 "). reflexivity.
Defined.

(** ** Paths, brands and departments *)

Lemma trim_idempotent (s : string) : trim (trim s) = trim s.
Proof.
  unfold trim at 1. rewrite (dropStart_none _ _ (trim_startsWith s)).
  unfold trim. apply dropEnd_idempotent.
Qed.

Lemma lower_char_space (c : ascii) : isWhiteSpace (lower_char c) = isWhiteSpace c.
Proof. each_char c; reflexivity. Qed.

Lemma lower_char_idempotent (c : ascii) : lower_char (lower_char c) = lower_char c.
Proof. each_char c; reflexivity. Qed.

Lemma dropStart_toLowerCase (s : string) :
  dropStart isWhiteSpace (toLowerCase s) = toLowerCase (dropStart isWhiteSpace s).
Proof.
  unfold toLowerCase. induction s as [|c s IH]; [reflexivity|]. simpl.
  rewrite lower_char_space. destruct (isWhiteSpace c); [exact IH | reflexivity].
Qed.

Lemma dropEnd_toLowerCase (s : string) :
  dropEnd isWhiteSpace (toLowerCase s) = toLowerCase (dropEnd isWhiteSpace s).
Proof.
  unfold toLowerCase. induction s as [|c s IH]; [reflexivity|]. simpl.
  rewrite IH, lower_char_space.
  destruct (dropEnd isWhiteSpace s); simpl; [destruct (isWhiteSpace c)|]; reflexivity.
Qed.

(** Trimming and lower-casing commute. *)
Lemma trim_toLowerCase (s : string) : trim (toLowerCase s) = toLowerCase (trim s).
Proof. unfold trim. rewrite dropStart_toLowerCase, dropEnd_toLowerCase. reflexivity. Qed.

Lemma toLowerCase_idempotent (s : string) : toLowerCase (toLowerCase s) = toLowerCase s.
Proof.
  unfold toLowerCase. induction s as [|c s IH]; [reflexivity|]. simpl.
  rewrite lower_char_idempotent, IH. reflexivity.
Qed.

Lemma lowered_trimmed_fix (s : string) :
  toLowerCase (trim (toLowerCase (trim s))) = toLowerCase (trim s).
Proof. rewrite trim_toLowerCase, trim_idempotent. apply toLowerCase_idempotent. Qed.

Lemma trim_cons c (t : string) :
  isWhiteSpace c = false -> nonEmpty t = true -> dropEnd isWhiteSpace t = t ->
  trim (String c t) = String c t.
Proof.
  intros Hc Hn Hd. unfold trim. simpl. rewrite Hc. simpl. rewrite Hd.
  destruct t; [discriminate | reflexivity].
Qed.

(** [normalizeDepartment] and [normalizePhysicalBrand] are idempotent and
    never return the empty string: a blank value is "cucina", or "epson",
    and every other value is itself, trimmed and in lower case. *)
Theorem normalizers_idempotent (value : string) :
  normalizeDepartment (normalizeDepartment value) = normalizeDepartment value /\
  nonEmpty (normalizeDepartment value) = true /\
  normalizePhysicalBrand (normalizePhysicalBrand value) = normalizePhysicalBrand value /\
  nonEmpty (normalizePhysicalBrand value) = true.
Proof.
  unfold normalizeDepartment, normalizePhysicalBrand, orElse.
  destruct (nonEmpty (toLowerCase (trim value))) eqn:Hn.
  - rewrite lowered_trimmed_fix, Hn. auto.
  - repeat split; reflexivity.
Qed.

(** [sanitizePhysicalPath] returns a path that starts with a slash, and is
    idempotent, for every brand. *)
Theorem sanitizePhysicalPath_slash (value brand : string) :
  startsWith (sanitizePhysicalPath value brand) "/" = true /\
  sanitizePhysicalPath (sanitizePhysicalPath value brand) brand =
  sanitizePhysicalPath value brand.
Proof.
  unfold sanitizePhysicalPath at 1 3 4. cbv zeta.
  destruct (nonEmpty (trim value)) eqn:Hn; cbn [negb].
  - destruct (startsWith (trim value) "/") eqn:Hs.
    + split; [exact Hs|]. unfold sanitizePhysicalPath. cbv zeta.
      rewrite trim_idempotent, Hn, Hs. reflexivity.
    + split; [unfold startsWith; destruct (trim value); reflexivity|].
      unfold sanitizePhysicalPath. cbv zeta.
      assert (Ht : trim ("/" ++ trim value) = "/" ++ trim value).
      { apply (trim_cons "/" (trim value)); [reflexivity | exact Hn |].
        apply dropEnd_idempotent. }
      rewrite Ht. unfold startsWith. destruct (trim value); reflexivity.
  - unfold defaultPhysicalPathByBrand.
    destruct (String.eqb brand "epson") eqn:Hb; split; try reflexivity;
      unfold sanitizePhysicalPath, defaultPhysicalPathByBrand; rewrite ?Hb; reflexivity.
Qed.

(** ** More on the live routes *)

Lemma addDepartments_lookup (mapped : LivePrinter) (m : gmap string LivePrinter) dep :
  addDepartments mapped m !! dep =
  match m !! dep with
  | Some x => Some x
  | None => if existsb (String.eqb dep) (lp_departments mapped) then Some mapped else None
  end.
Proof.
  unfold addDepartments. generalize (lp_departments mapped) as deps.
  intros deps. revert m. induction deps as [|d deps IH]; intros m; simpl.
  - destruct (m !! dep); reflexivity.
  - rewrite IH. destruct (m !! d) eqn:Hd.
    + destruct (m !! dep) eqn:Hdep; [reflexivity|].
      destruct (String.eqb dep d) eqn:E; [|reflexivity].
      apply String.eqb_eq in E. subst d. congruence.
    + destruct (String.eqb dep d) eqn:E.
      * apply String.eqb_eq in E. subst d. rewrite lookup_insert_eq, Hd. reflexivity.
      * assert (d <> dep) by (intros ->; rewrite String.eqb_refl in E; discriminate).
        rewrite lookup_insert_ne by assumption. reflexivity.
Qed.

Lemma mappedPrinters_cons raw printers :
  mappedPrinters (raw :: printers) =
  if nonEmpty (trim (default "" (rp_id raw)))
  then mapPrinter (trim (default "" (rp_id raw))) raw :: mappedPrinters printers
  else mappedPrinters printers.
Proof.
  unfold mappedPrinters. cbn [omap list_omap]. cbv zeta.
  destruct (nonEmpty (trim (default "" (rp_id raw)))); reflexivity.
Qed.

Lemma buildLiveRoutes_byDepartment_from acc printers dep :
  snd (fold_left addPrinter printers acc) !! dep =
  match snd acc !! dep with
  | Some x => Some x
  | None => List.find (serves dep) (mappedPrinters printers)
  end.
Proof.
  revert acc. induction printers as [|raw printers IH]; intros acc.
  - cbn [fold_left]. destruct (snd acc !! dep); reflexivity.
  - cbn [fold_left]. rewrite IH, mappedPrinters_cons. unfold addPrinter. cbv zeta.
    destruct (nonEmpty (trim (default "" (rp_id raw)))) eqn:Hid; cbn [negb]; [|reflexivity].
    set (mapped := mapPrinter _ raw). cbn [snd find]. unfold serves at 2. unfold usable.
    destruct (lp_enabled mapped && nonEmpty (lp_host mapped)); cbn [andb].
    + rewrite addDepartments_lookup. destruct (snd acc !! dep); [reflexivity|].
      destruct (existsb (String.eqb dep) (lp_departments mapped)); reflexivity.
    + reflexivity.
Qed.

Lemma find_app {A} (f : A -> bool) (l1 l2 : list A) :
  List.find f (l1 ++ l2) =
  match List.find f l1 with Some x => Some x | None => List.find f l2 end.
Proof.
  induction l1 as [|x l1 IH]; [reflexivity|]. simpl. destruct (f x); [reflexivity | exact IH].
Qed.

Lemma buildLiveRoutes_byId_from acc printers id :
  fst (fold_left addPrinter printers acc) !! id =
  match List.find (fun live => String.eqb (lp_id live) id) (rev (mappedPrinters printers)) with
  | Some x => Some x
  | None => fst acc !! id
  end.
Proof.
  revert acc. induction printers as [|raw printers IH]; intros acc; [reflexivity|].
  cbn [fold_left]. rewrite IH, mappedPrinters_cons. unfold addPrinter. cbv zeta.
  destruct (nonEmpty (trim (default "" (rp_id raw)))) eqn:Hid; cbn [negb]; [|reflexivity].
  set (mapped := mapPrinter _ raw). cbn [rev fst]. rewrite find_app. cbn [find].
  destruct (List.find _ (rev _)); [reflexivity|].
  change (lp_id mapped) with (trim (default "" (rp_id raw))).
  destruct (String.eqb (trim (default "" (rp_id raw))) id) eqn:E.
  - apply String.eqb_eq in E. subst id. apply lookup_insert_eq.
  - rewrite lookup_insert_ne; [reflexivity|].
    intros Heq. rewrite Heq, String.eqb_refl in E. discriminate.
Qed.

Lemma mappedPrinters_shape live printers :
  In live (mappedPrinters printers) ->
  trim (lp_host live) = lp_host live /\ 1 <= lp_port live <= 65535.
Proof.
  induction printers as [|raw printers IH]; [contradiction|].
  rewrite mappedPrinters_cons.
  destruct (nonEmpty (trim (default "" (rp_id raw)))); [|exact IH].
  intros [<-|Hin]; [|exact (IH Hin)].
  split; [apply trim_idempotent | apply sanitizePrinterPort_range].
Qed.

Lemma buildLiveRoutes_shape printers d :
  (forall id live, byId (buildLiveRoutes printers d) !! id = Some live ->
                   trim (lp_host live) = lp_host live /\ 1 <= lp_port live <= 65535) /\
  (forall dep live, byDepartment (buildLiveRoutes printers d) !! dep = Some live ->
                    trim (lp_host live) = lp_host live /\ 1 <= lp_port live <= 65535).
Proof.
  unfold buildLiveRoutes. cbn [byId byDepartment]. split.
  - intros id live. rewrite buildLiveRoutes_byId_from. cbn [fst]. rewrite lookup_empty.
    destruct (List.find _ _) as [x|] eqn:Hf; [|discriminate].
    intros [= <-]. apply find_some in Hf as [Hin _].
    apply (mappedPrinters_shape x printers). apply in_rev. exact Hin.
  - intros dep live. rewrite buildLiveRoutes_byDepartment_from. cbn [snd].
    rewrite lookup_empty. intros [Hin _]%find_some.
    apply (mappedPrinters_shape live printers). exact Hin.
Qed.

(** In the index built from the printing settings, a department leads to
    the first printer of the settings that is enabled, has a host and
    lists the department; an id leads to the last printer of the settings
    with that id. *)
Theorem buildLiveRoutes_lookup (printers : list RawPrinter) (d : option string) :
  (forall dep,
     byDepartment (buildLiveRoutes printers d) !! dep =
     List.find (serves dep) (mappedPrinters printers)) /\
  (forall id,
     byId (buildLiveRoutes printers d) !! id =
     List.find (fun live => String.eqb (lp_id live) id) (rev (mappedPrinters printers))).
Proof.
  split.
  - intros dep. unfold buildLiveRoutes. cbn [byDepartment].
    rewrite buildLiveRoutes_byDepartment_from. cbn [snd]. rewrite lookup_empty. reflexivity.
  - intros id. unfold buildLiveRoutes. cbn [byId].
    rewrite buildLiveRoutes_byId_from. cbn [fst]. rewrite lookup_empty.
    destruct (List.find _ _); reflexivity.
Qed.


Lemma sanitizePrinterPort_of_Z (z : Z) :
  1 <= z <= 65535 -> sanitizePrinterPort (of_Z z) = z.
Proof.
  intros Hz. destruct (truncZ_of_Z z) as [Ht Hf]; [lia|].
  unfold sanitizePrinterPort. rewrite Hf, Ht. simpl.
  destruct (1 <=? z) eqn:E1; destruct (z <=? 65535) eqn:E2; simpl; lia.
Qed.

Lemma usableRoute_shape live r :
  usableRoute live = Some r ->
  trim (lp_host live) = lp_host live /\ 1 <= lp_port live <= 65535 ->
  trim (route_host r) = route_host r /\ nonEmpty (route_host r) = true /\
  1 <= route_port r <= 65535.
Proof.
  unfold usableRoute. destruct (lp_enabled live && nonEmpty (lp_host live)) eqn:Hu; [|discriminate].
  intros [= <-] [Ht Hp]. apply andb_true_iff in Hu as [_ Hn]. simpl. auto.
Qed.

Lemma resolved_route_shape job settings r :
  resolveRouteForJob job (liveRoutesOf settings) = Some r ->
  trim (route_host r) = route_host r /\ nonEmpty (route_host r) = true /\
  1 <= route_port r <= 65535.
Proof.
  rewrite resolveRouteForJob_candidates. unfold routeCandidates.
  destruct settings as [[printers d]|]; cbn [liveRoutesOf option_map fst snd mbind option_bind].
  - destruct (buildLiveRoutes_shape printers d) as [Hid Hdep].
    revert Hid Hdep. generalize (buildLiveRoutes printers d). intros lr Hid Hdep.
    cbn [firstCandidate].
    destruct (snapshotIdOf job ≫= _) as [r1|] eqn:H1.
    { intros [= <-]. destruct (snapshotIdOf job) as [sid|]; [|simpl in H1; discriminate]. simpl in H1.
      destruct (byId lr !! sid) as [live|] eqn:Hl; [|simpl in H1; discriminate]. simpl in H1.
      exact (usableRoute_shape live r1 H1 (Hid sid live Hl)). }
    destruct (byDepartment lr !! departmentOf job ≫= usableRoute) as [r2|] eqn:H2.
    { intros [= <-]. destruct (byDepartment lr !! departmentOf job) as [live|] eqn:Hl;
        [|simpl in H2; discriminate]. simpl in H2.
      exact (usableRoute_shape live r2 H2 (Hdep _ live Hl)). }
    destruct (defaultPrinterId lr ≫= _) as [r3|] eqn:H3.
    { intros [= <-]. destruct (defaultPrinterId lr) as [dd|]; [|simpl in H3; discriminate]. simpl in H3.
      destruct (byId lr !! dd) as [live|] eqn:Hl; [|simpl in H3; discriminate]. simpl in H3.
      exact (usableRoute_shape live r3 H3 (Hid dd live Hl)). }
    destruct (nonEmpty (snapshotHostOf job)) eqn:Hn; [|discriminate].
    intros [= <-]. simpl. split; [apply trim_idempotent|]. split; [exact Hn|].
    apply sanitizePrinterPort_range.
  - cbn [firstCandidate].
    destruct (nonEmpty (snapshotHostOf job)) eqn:Hn; [|discriminate].
    intros [= <-]. simpl. split; [apply trim_idempotent|]. split; [exact Hn|].
    apply sanitizePrinterPort_range.
Qed.

(** A delivery over a socket connects to the given host and port with the
    given payload, once, or twice with the pause between. *)
Lemma socketDelivery_events host port payload w st :
  let socket := EvSocket host port payload in
  exists evs r,
    attemptLoop 2 1 None (connectSocket host port payload) w st =
      (Ok r, {| worker := worker st; trace := (trace st ++ evs)%list |}) /\
    (evs = [socket] \/ evs = [socket; EvSleep 500; socket]).
Proof.
  intros socket. rewrite attemptLoop_two, connectSocket_run.
  destruct (openRawSocket w (length (trace st))) as [e|].
  - destruct (shouldRetryPrintLocally e).
    + rewrite connectSocket_run.
      exists [socket; EvSleep 500; socket].
      match goal with
      | |- context [match openRawSocket w ?n with _ => _ end] =>
          destruct (openRawSocket w n) as [e2|]
      end; eexists;
        (split; [unfold emit; simpl; rewrite <- !app_assoc; reflexivity | right; reflexivity]).
    + exists [socket]. eexists. split; [reflexivity | left; reflexivity].
  - exists [socket]. eexists. split; [reflexivity | left; reflexivity].
Qed.

(** A route that [resolveRouteForJob] resolved from the printing settings,
    or from the snapshot alone, passes the checks of [sendToPrinter]
    unchanged: its host is not empty, its port is a port of [1..65535],
    and [sendToPrinter] connects to exactly that host and port with the
    rendered ticket, once, or twice with the pause of 500 ms between. *)
Theorem resolved_route_is_sent_unchanged (rd : Renderers) job settings r payload w st :
  resolveRouteForJob job (liveRoutesOf settings) = Some r ->
  renderKitchen rd job = inr payload ->
  nonEmpty (route_host r) = true /\ 1 <= route_port r <= 65535 /\
  let socket := EvSocket (route_host r) (route_port r) payload in
  let sent := trace (stateAfter (sendToPrinter rd job (Some r) w st)) in
  sent = (trace st ++ [socket])%list \/
  sent = (trace st ++ [socket; EvSleep 500; socket])%list.
Proof.
  intros Hr Hp. destruct (resolved_route_shape job settings r Hr) as (Ht & Hn & Hport).
  split; [exact Hn|]. split; [exact Hport|].
  intros socket sent. subst sent socket.
  unfold sendToPrinter. cbv zeta.
  rewrite Ht, Hn, Hp, (sanitizePrinterPort_of_Z _ Hport). cbn [negb].
  rewrite bind_run.
  destruct (socketDelivery_events (route_host r) (route_port r) payload w st)
    as (evs & res & Hrun & Hevs).
  rewrite Hrun. destruct res as [[]|lastError]; cbn [stateAfter snd trace];
    destruct Hevs as [-> | ->]; auto.
Qed.

Lemma resolved_route_is_sent_unchanged_witness :
  trace (stateAfter (sendToPrinter Fixture.renderers Fixture.kitchenJob
                       (resolveRouteForJob Fixture.kitchenJob (liveRoutesOf None))
                       Fixture.rejecting Fixture.started)) =
  [EvSocket "10.0.0.5" 9100 "TICKET"].
Proof.
  destruct (resolved_route_is_sent_unchanged Fixture.renderers Fixture.kitchenJob None
              {| route_id := None; route_name := "10.0.0.5";
                 route_host := "10.0.0.5"; route_port := 9100 |} "TICKET"
              Fixture.rejecting Fixture.started)
    as (_ & _ & [H | H]); [vm_compute; reflexivity | reflexivity | exact H |].
  vm_compute in H. discriminate H.
Defined.

(** ** More on [escapeXml] *)

Lemma readEntity_xmlEntity (c : ascii) (s : string) :
  readEntity (xmlEntity c ++ s) = Some (c, s).
Proof. each_char c; reflexivity. Qed.

Lemma flat_map_xmlEntity_injective (a b : string) :
  flat_map_chars xmlEntity a = flat_map_chars xmlEntity b -> a = b.
Proof.
  revert b. induction a as [|c a IH]; intros [|d b] H.
  - reflexivity.
  - apply (f_equal readEntity) in H. cbn [flat_map_chars] in H.
    rewrite readEntity_xmlEntity in H. discriminate.
  - apply (f_equal readEntity) in H. cbn [flat_map_chars] in H.
    rewrite readEntity_xmlEntity in H. discriminate.
  - apply (f_equal readEntity) in H. cbn [flat_map_chars] in H.
    rewrite !readEntity_xmlEntity in H. injection H as -> H. rewrite (IH b H). reflexivity.
Qed.

(** [escapeXml] loses nothing: two values with the same escaped text are
    the same value. *)
Theorem escapeXml_injective (a b : string) : escapeXml a = escapeXml b -> a = b.
Proof. rewrite !escapeXml_entities. apply flat_map_xmlEntity_injective. Qed.

Lemma escapeXml_injective_witness : "Tavolo <9> & 'bar'" = "Tavolo <9> & 'bar'".
Proof. apply escapeXml_injective. reflexivity. Defined.

Lemma xmlEntity_unchanged (c : ascii) :
  negb (isXmlSpecial c || Ascii.eqb c "&") = true -> xmlEntity c = String c "".
Proof. each_char c; vm_compute; congruence. Qed.

(** [escapeXml] works character by character: the escaped text of two
    values put together is their escaped texts put together, and a value
    without [&], [<], [>], double quote and apostrophe is its own escaped
    text. *)
Theorem escapeXml_app (a b : string) :
  escapeXml (a ++ b) = escapeXml a ++ escapeXml b /\
  (forall_chars (fun c => negb (isXmlSpecial c || Ascii.eqb c "&")) a = true ->
   escapeXml a = a).
Proof.
  rewrite !escapeXml_entities. split; [apply flat_map_chars_app|].
  induction a as [|c a IH]; [reflexivity|]. simpl.
  intros [Hc Ha]%andb_true_iff. rewrite (xmlEntity_unchanged c Hc), (IH Ha). reflexivity.
Qed.

(** ** Rows and ESC/POS payloads *)

Lemma length_repeatChar c n : String.length (repeatChar c n) = n.
Proof. induction n as [|n IH]; simpl; [reflexivity | rewrite IH; reflexivity]. Qed.

(** A row of [padRow] is the label, at least one space and the value; it
    is exactly as wide as asked when the label, one space and the value
    fit the width, and one space wider than the label and the value
    otherwise. *)
Theorem padRow_width (label value : string) (width : Z) :
  Z.of_nat (String.length (padRow label value width)) =
    Z.max width (Z.of_nat (String.length label) + Z.of_nat (String.length value) + 1) /\
  exists n, (1 <= n)%nat /\ padRow label value width = label ++ repeatChar " " n ++ value.
Proof.
  unfold padRow. cbv zeta. split.
  - rewrite !length_append, length_repeatChar. lia.
  - eexists. split; [|reflexivity]. lia.
Qed.

Lemma printedLines_app (a b : list Chunk) (m : PrinterMode) :
  printedLines (a ++ b) m =
  (fst (printedLines a m) ++ fst (printedLines b (snd (printedLines a m))),
   snd (printedLines b (snd (printedLines a m))))%list.
Proof.
  revert m. induction a as [|c a IH]; intros m.
  - simpl. destruct (printedLines b m); reflexivity.
  - destruct c as [bytes|text]; simpl.
    + apply IH.
    + rewrite IH. destruct (printedLines a m) as [la ma]. simpl.
      destruct (printedLines b ma); reflexivity.
Qed.

Lemma getLinePrintSize_bold (line : string) :
  getLinePrintSize line = if isBoldLine line then 17 else 0.
Proof.
  unfold getLinePrintSize, isBoldLine. cbv zeta.
  destruct (negb (nonEmpty (trim line))); [reflexivity|].
  destruct (startsWithTavolo (trim line)); [reflexivity|].
  destruct (startsWithQuantity (trim line)); reflexivity.
Qed.

(** The loop keeps the printer in the mode of its two variables: every
    line is printed in the mode of that line. *)
Lemma escPosLines_printed (lines : list string) (bold : bool) (size : Z) :
  printedLines (fst (fst (escPosLines lines bold size)))
    {| emphasized := bold; charSize := size |} =
  (map (fun line => (line, modeOf line)) lines,
   {| emphasized := snd (fst (escPosLines lines bold size));
      charSize := snd (escPosLines lines bold size) |}).
Proof.
  revert bold size. induction lines as [|line rest IH]; intros bold size; [reflexivity|].
  cbn [escPosLines]. cbv zeta.
  specialize (IH (isBoldLine line) (getLinePrintSize line)).
  destruct (escPosLines rest (isBoldLine line) (getLinePrintSize line)) as [[chunks b'] s'].
  cbn [fst snd] in *.
  assert (Hmode : forall tail,
    printedLines
      ((if Bool.eqb (isBoldLine line) bold then []
        else [Command [ESC; 69; if isBoldLine line then 1 else 0]]) ++
       (if getLinePrintSize line =? size then [] else [Command [GS; 33; getLinePrintSize line]]) ++
       tail) {| emphasized := bold; charSize := size |} =
    printedLines tail (modeOf line)).
  { intros tail. unfold modeOf.
    destruct (Bool.eqb (isBoldLine line) bold) eqn:Eb;
      destruct (getLinePrintSize line =? size) eqn:Es; cbn [app printedLines applyCommand ESC GS];
      try (apply Bool.eqb_prop in Eb; subst bold);
      try (apply Z.eqb_eq in Es; subst size); try reflexivity.
    - destruct (isBoldLine line); reflexivity.
    - destruct (isBoldLine line); reflexivity. }
  rewrite Hmode. cbn [app printedLines]. fold (modeOf line) in IH.
  assert (Hrest : printedLines chunks (modeOf line) =
                  (map (fun l => (l, modeOf l)) rest, {| emphasized := b'; charSize := s' |})).
  { exact IH. }
  rewrite Hrest. reflexivity.
Qed.

(** The chunks of a payload print every line in its own mode and leave
    the printer without emphasis and in the normal size. *)
Lemma escPosChunks_printed (ticketText : string) (m : PrinterMode) :
  printedLines (escPosChunks ticketText) m =
    (map (fun line => (line, modeOf line)) (splitLines ticketText),
     {| emphasized := false; charSize := 0 |}).
Proof.
  unfold escPosChunks. cbv zeta.
  pose proof (escPosLines_printed (splitLines ticketText) false 0) as H.
  destruct (escPosLines (splitLines ticketText) false 0) as [[body bold] size].
  cbn [fst snd] in H. cbn [app printedLines applyCommand ESC].
  rewrite printedLines_app, H. cbn [fst snd].
  destruct bold; destruct (size =? 0) eqn:Es;
    cbn [app printedLines applyCommand ESC GS EXTRA_FEED_LINES fst snd Z.odd];
    rewrite app_nil_r; try reflexivity.
  - apply Z.eqb_eq in Es. subst size. reflexivity.
  - apply Z.eqb_eq in Es. subst size. reflexivity.
Qed.

(** *** The bytes of a payload, as a printer reads them *)

Lemma printBytes_printed (bs rest : list Z) (m : PrinterMode) line :
  forallb isPrinted bs = true ->
  printBytes (bs ++ rest) InText m line =
  printBytes rest InText m (line ++ map (fun b => (b, m)) bs)%list.
Proof.
  revert line. induction bs as [|b bs IH]; intros line Hb.
  - rewrite app_nil_r. reflexivity.
  - cbn [forallb] in Hb. apply andb_true_iff in Hb as [Hb Hbs].
    unfold isPrinted in Hb. apply andb_true_iff in Hb as [H1 H2].
    apply negb_true_iff in H1, H2.
    cbn [app printBytes map]. rewrite H1, H2, (IH _ Hbs), <- app_assoc. reflexivity.
Qed.

Lemma printBytes_command (bytes rest : list Z) (m : PrinterMode) line :
  isCommand bytes = true ->
  printBytes (bytes ++ rest) InText m line =
  printBytes rest InText (applyCommand bytes m) line.
Proof.
  destruct bytes as [|lead [|code [|arg [|more bytes]]]]; try discriminate.
  - cbn [isCommand]. intros [Hl Hc]%andb_true_iff.
    apply Z.eqb_eq in Hl, Hc. subst lead code. reflexivity.
  - cbn [isCommand]. intros [[Hl Hc]%andb_true_iff | Hl]%orb_true_iff.
    + apply Z.eqb_eq in Hl. subst lead. apply negb_true_iff in Hc.
      cbn [app printBytes]. change (ESC =? ESC) with true. cbn [orb andb].
      rewrite Hc. reflexivity.
    + apply Z.eqb_eq in Hl. subst lead. reflexivity.
Qed.

Lemma utf8_char_printed (c : ascii) :
  isPrintedChar c = true -> forallb isPrinted (utf8_char c) = true.
Proof. each_char c; vm_compute; intros; congruence. Qed.

Lemma utf8_printed (text : string) :
  forall_chars isPrintedChar text = true -> forallb isPrinted (utf8 text) = true.
Proof.
  induction text as [|c text IH]; [reflexivity|].
  cbn [forall_chars utf8]. intros [Hc Ht]%andb_true_iff.
  rewrite forallb_app, (utf8_char_printed c Hc), (IH Ht). reflexivity.
Qed.

(** A printer reading the bytes of readable chunks prints what it prints
    reading the chunks. *)
Lemma printBytes_chunks (chunks : list Chunk) (m : PrinterMode) :
  forallb readableChunk chunks = true ->
  printBytes (concat (map chunkBytes chunks)) InText m [] =
  (map (fun '(text, mode) => map (fun b => (b, mode)) (utf8 text))
       (fst (printedLines chunks m)),
   snd (printedLines chunks m)).
Proof.
  revert m. induction chunks as [|c chunks IH]; intros m Hr; [reflexivity|].
  cbn [forallb] in Hr. apply andb_true_iff in Hr as [Hc Hr].
  destruct c as [bytes|text]; cbn [readableChunk] in Hc;
    cbn [map concat chunkBytes printedLines].
  - rewrite (printBytes_command _ _ _ _ Hc). apply IH. exact Hr.
  - rewrite <- app_assoc, (printBytes_printed _ _ _ _ (utf8_printed text Hc)).
    cbn [app printBytes]. change (10 =? ESC) with false. change (10 =? GS) with false.
    cbn [orb]. change (10 =? 10) with true. cbv iota.
    rewrite (IH m Hr). destruct (printedLines chunks m) as [lines m']. reflexivity.
Qed.

Lemma consHead_printed (c : ascii) (lines : list string) :
  isPrintedChar c = true ->
  forallb (forall_chars isPrintedChar) lines = true ->
  forallb (forall_chars isPrintedChar) (consHead c lines) = true.
Proof.
  intros Hc. destruct lines as [|t ts]; cbn [consHead forallb forall_chars].
  - intros _. rewrite Hc. reflexivity.
  - intros [Ht Hts]%andb_true_iff. rewrite Hc, Ht, Hts. reflexivity.
Qed.

(** The lines of a text without ESC and GS hold no ESC, no GS and no line
    feed. *)
Lemma splitLines_printed (text : string) :
  forall_chars (fun c => negb (opensCommand c)) text = true ->
  forallb (forall_chars isPrintedChar) (splitLines text) = true.
Proof.
  induction text as [|c r IH]; [reflexivity|].
  cbn [forall_chars splitLines]. intros [Hc Hr]%andb_true_iff.
  destruct (isLF c) eqn:El.
  - cbn [forallb forall_chars]. exact (IH Hr).
  - destruct (isCR c && startsWithChar isLF r); [exact (IH Hr)|].
    apply consHead_printed; [|exact (IH Hr)].
    unfold isPrintedChar. rewrite Hc, El. reflexivity.
Qed.

Lemma escPosLines_readable (lines : list string) (bold : bool) (size : Z) :
  forallb (forall_chars isPrintedChar) lines = true ->
  forallb readableChunk (fst (fst (escPosLines lines bold size))) = true.
Proof.
  revert bold size. induction lines as [|line rest IH]; intros bold size Hl; [reflexivity|].
  cbn [forallb] in Hl. apply andb_true_iff in Hl as [Hline Hrest].
  cbn [escPosLines]. cbv zeta.
  specialize (IH (isBoldLine line) (getLinePrintSize line) Hrest).
  destruct (escPosLines rest (isBoldLine line) (getLinePrintSize line)) as [[chunks b'] s'].
  cbn [fst snd] in *.
  rewrite !forallb_app. cbn [forallb readableChunk]. rewrite Hline, IH.
  destruct (Bool.eqb (isBoldLine line) bold);
    destruct (getLinePrintSize line =? size); reflexivity.
Qed.

Lemma escPosChunks_readable (ticketText : string) :
  forall_chars (fun c => negb (opensCommand c)) ticketText = true ->
  forallb readableChunk (escPosChunks ticketText) = true.
Proof.
  intros Ht. unfold escPosChunks. cbv zeta.
  pose proof (escPosLines_readable (splitLines ticketText) false 0
                (splitLines_printed ticketText Ht)) as H.
  destruct (escPosLines (splitLines ticketText) false 0) as [[body bold] size].
  cbn [fst snd] in H. rewrite !forallb_app, H.
  destruct bold; destruct (size =? 0); reflexivity.
Qed.

(** A printer that reads the bytes of the payload of a ticket without ESC
    and GS characters prints the lines of the ticket, every byte of a line
    in the mode of that line, whatever the lines before it were: in
    emphasis exactly when [isBoldLine] holds of the line, and in the size
    [getLinePrintSize] gives it, which is the double size exactly for the
    emphasized lines.  The payload leaves the printer without emphasis
    and in the normal size, in whatever mode it found it. *)
Theorem escPos_lines_in_their_mode (ticketText : string) (m : PrinterMode) :
  forall_chars (fun c => negb (opensCommand c)) ticketText = true ->
  printBytes (buildEscPosPayload ticketText) InText m [] =
    (map inMode (splitLines ticketText), {| emphasized := false; charSize := 0 |}) /\
  (forall line, charSize (modeOf line) = if emphasized (modeOf line) then 17 else 0).
Proof.
  intros Ht. split; [|intros line; apply getLinePrintSize_bold].
  unfold buildEscPosPayload.
  rewrite (printBytes_chunks _ m (escPosChunks_readable ticketText Ht)),
          escPosChunks_printed.
  cbn [fst snd]. rewrite map_map. reflexivity.
Qed.

(** A ticket of three lines, sent to a printer that was left in emphasis
    and double size: the first and the third line are emphasized, the
    second is not. *)
Lemma escPos_lines_in_their_mode_witness :
  let ticket := "Tavolo: 5" ++ String "010" ("nota" ++ String "010" "2x Maki") in
  printBytes (buildEscPosPayload ticket) InText {| emphasized := true; charSize := 17 |} [] =
    (map inMode ["Tavolo: 5"; "nota"; "2x Maki"], {| emphasized := false; charSize := 0 |}) /\
  map isBoldLine ["Tavolo: 5"; "nota"; "2x Maki"] = [true; false; true].
Proof.
  intros ticket. split; [|reflexivity].
  exact (proj1 (escPos_lines_in_their_mode ticket {| emphasized := true; charSize := 17 |}
                  eq_refl)).
Defined.

(** ** More on [wrapText] *)

Lemma endsWith_cons p c (t : string) :
  nonEmpty t = true -> endsWithChar p (String c t) = endsWithChar p t.
Proof. destruct t; [discriminate | reflexivity]. Qed.

Lemma endsWith_app p (a b : string) :
  nonEmpty b = true -> endsWithChar p (a ++ b) = endsWithChar p b.
Proof.
  intros Hb. induction a as [|c a IH]; [reflexivity|].
  change (String c a ++ b) with (String c (a ++ b)).
  rewrite endsWith_cons; [exact IH|].
  destruct a; [exact Hb | reflexivity].
Qed.

Lemma join_endsWith (g : list string) :
  Forall (fun x => wordlike x = true) g ->
  endsWithChar isWhiteSpace (join " " g) = false.
Proof.
  induction 1 as [|x l Hx Hl IH]; [reflexivity|].
  destruct l as [|y l].
  - simpl. unfold wordlike in Hx. apply andb_true_iff in Hx as [_ Hf].
    apply (forall_chars_ends isWhiteSpace notWhiteSpace x); [|exact Hf].
    intros c Hc. unfold notWhiteSpace in Hc. apply negb_true_iff. exact Hc.
  - rewrite join_cons by discriminate.
    assert (Hn : nonEmpty (join " " (y :: l)) = true)
      by (apply join_nonEmpty; [discriminate | exact Hl]).
    rewrite endsWith_app by reflexivity.
    change (" " ++ join " " (y :: l)) with (String " " (join " " (y :: l))).
    rewrite endsWith_cons by exact Hn. exact IH.
Qed.

Lemma trim_fix (s : string) :
  startsWithChar isWhiteSpace s = false -> endsWithChar isWhiteSpace s = false ->
  trim s = s.
Proof.
  intros Hs He. unfold trim. rewrite (dropStart_none _ _ Hs). apply dropEnd_none. exact He.
Qed.

(** [wrapText] returns at least one line; for a blank text it returns the
    one empty line, and for every other text none of its lines is empty
    and none starts or ends with white space. *)
Theorem wrapText_lines_trimmed (s : string) (width : nat) :
  wrapText s width <> [] /\
  (nonEmpty (trim s) = false -> wrapText s width = [""]) /\
  (nonEmpty (trim s) = true ->
   Forall (fun line => nonEmpty line = true /\ trim line = line) (wrapText s width)).
Proof.
  unfold wrapText. cbv zeta.
  destruct (nonEmpty (trim s)) eqn:Hn; cbn [negb].
  2:{ split; [discriminate|]. split; [reflexivity | discriminate]. }
  destruct (String.length (trim s) <=? width)%nat.
  { split; [discriminate|]. split; [discriminate|]. intros _.
    constructor; [|constructor]. split; [exact Hn | apply trim_idempotent]. }
  rewrite (splitWs_trim s Hn).
  destruct (wrapLoop_groups width (words s) (words_wordlike s) [] []
              (List.Forall_nil _) (or_introl eq_refl))
    as (groups & Hrun & Hcat & Hgood & _).
  simpl in Hrun, Hcat. rewrite Hrun.
  assert (Hne : words s <> []).
  { rewrite <- (splitWs_trim s Hn). apply splitWs_nonnil. }
  split; [|split; [discriminate|]].
  - destruct groups; [simpl in Hcat; congruence | discriminate].
  - intros _. apply Forall_map. eapply Forall_impl; [exact Hgood|].
    intros g (Hg & Hw & _). split; [apply join_nonEmpty; assumption|].
    apply trim_fix; [apply join_startsWith | apply join_endsWith]; exact Hw.
Qed.

(** ** Invariants of the worker across its operations *)

Create HintDb invdb.

(** One step of a proof that a computation keeps an invariant: the rule of
    the outermost construct, the updates being left to the hypotheses on
    the invariant. *)
Ltac inv_step :=
  lazymatch goal with
  | |- Extends _ _ (mbind _ _) => apply Extends_bind; [|intros ?]
  | |- Extends _ _ (mret _) => apply Extends_ret
  | |- Extends _ _ (throw _) => apply Extends_throw
  | |- Extends _ _ getWorker => apply Extends_getWorker
  | |- Extends _ _ (clock _) => apply Extends_clock
  | |- Extends _ _ (modify _) =>
      apply Extends_modify; intros ? ?; cbv beta zeta; auto with invdb
  | |- Extends _ _ (call _ _) => apply Extends_call; exact Logic.I
  | |- Extends _ _ (tryCatch _ _) => apply Extends_tryCatch; [|intros ?]
  | |- Extends _ _ (tryFinally _ _) => apply Extends_tryFinally
  | |- Extends _ _ (forEach _ _) => apply Extends_forEach; intros ?
  | |- Extends _ _ (match ?x with _ => _ end) => destruct x
  | |- Extends _ _ (let _ := _ in _) => cbv zeta
  end.

Ltac keeps := repeat (inv_step || (progress auto with invdb)).

Lemma attemptLoop_S {A} rounds attempt lastError (transport : M A) :
  attemptLoop (S rounds) attempt lastError transport =
  if attempt <=? 2 then
    tryCatch (a ← transport; mret (inl a))
      (fun error =>
         if (2 <=? attempt) || negb (shouldRetryPrintLocally error)
         then mret (inr (Some error))
         else sleep 500;; attemptLoop rounds (attempt + 1) (Some error) transport)
  else mret (inr lastError).
Proof. reflexivity. Qed.

Section Invariants.

Variable rd : Renderers.
Variable I : Worker -> Prop.

Local Abbreviation any := (fun _ : Event => True).

(** The invariant survives the updates of the fields that the operations
    outside the tick loops write. *)
Hypothesis I_supabase : forall b x, I x -> I (set_supabase b x).
Hypothesis I_authUser : forall u x, I x -> I (set_authUser u x).
Hypothesis I_authRestaurant : forall r x, I x -> I (set_authRestaurant r x).
Hypothesis I_savedSession : forall s x, I x -> I (set_savedSession s x).
Hypothesis I_assignedPrinterId : forall a x, I x -> I (set_assignedPrinterId a x).
Hypothesis I_pushLog : forall row x, I x ->
  I (set_logs (if (LOG_CAP <? length (logs x ++ [row]))%nat
               then tail (logs x ++ [row]) else (logs x ++ [row])%list) x).

Local Hint Resolve I_supabase I_authUser I_authRestaurant I_savedSession
  I_assignedPrinterId I_pushLog : invdb.

Lemma Keeps_pushLog level message : Extends I any (pushLog level message).
Proof. unfold pushLog. keeps. Qed.
Local Hint Resolve Keeps_pushLog : invdb.

Lemma Keeps_broadcastState : Extends I any broadcastState.
Proof. unfold broadcastState. keeps. Qed.
Local Hint Resolve Keeps_broadcastState : invdb.

Lemma Keeps_persistState : Extends I any persistState.
Proof. unfold persistState. keeps. Qed.
Local Hint Resolve Keeps_persistState : invdb.

Lemma Keeps_sleep ms : Extends I any (sleep ms).
Proof. unfold sleep. keeps. Qed.
Local Hint Resolve Keeps_sleep : invdb.

Lemma Keeps_ensureSupabaseClient : Extends I any ensureSupabaseClient.
Proof. unfold ensureSupabaseClient. keeps. Qed.
Local Hint Resolve Keeps_ensureSupabaseClient : invdb.

Lemma Keeps_resolveRestaurant userId :
  Extends I any (resolveRestaurantForCurrentUser userId).
Proof. unfold resolveRestaurantForCurrentUser. keeps. Qed.
Local Hint Resolve Keeps_resolveRestaurant : invdb.

Lemma Keeps_ensureSignedIn : Extends I any ensureSignedIn.
Proof. unfold ensureSignedIn. keeps. Qed.
Local Hint Resolve Keeps_ensureSignedIn : invdb.

Lemma Keeps_fetchAssignedPrinterId : Extends I any fetchAssignedPrinterId.
Proof. unfold fetchAssignedPrinterId. keeps. Qed.
Local Hint Resolve Keeps_fetchAssignedPrinterId : invdb.

Lemma Keeps_heartbeatAgent isActive : Extends I any (heartbeatAgent isActive).
Proof. unfold heartbeatAgent. keeps. Qed.
Local Hint Resolve Keeps_heartbeatAgent : invdb.

Lemma Keeps_fetchLivePrinterRoutes r : Extends I any (fetchLivePrinterRoutes r).
Proof. unfold fetchLivePrinterRoutes. keeps. Qed.
Local Hint Resolve Keeps_fetchLivePrinterRoutes : invdb.

Lemma Keeps_connectSocket host port payload :
  Extends I any (connectSocket host port payload).
Proof. unfold connectSocket. keeps. Qed.
Local Hint Resolve Keeps_connectSocket : invdb.

Lemma Keeps_attemptLoop {A} rounds attempt lastError (transport : M A) :
  Extends I any transport ->
  Extends I any (attemptLoop rounds attempt lastError transport).
Proof.
  intros Ht. revert attempt lastError.
  induction rounds as [|n IH]; intros attempt lastError.
  - change (Extends I any (mret (inr lastError) : M (A + option JsError))). keeps.
  - rewrite attemptLoop_S. keeps.
Qed.
Local Hint Resolve Keeps_attemptLoop : invdb.

Lemma Keeps_sendToPrinter job route : Extends I any (sendToPrinter rd job route).
Proof. unfold sendToPrinter. keeps. Qed.
Local Hint Resolve Keeps_sendToPrinter : invdb.

Lemma Keeps_completePrintJob job success e :
  Extends I any (completePrintJob job success e).
Proof. unfold completePrintJob. keeps. Qed.
Local Hint Resolve Keeps_completePrintJob : invdb.

Lemma Keeps_postPhysicalReceipt job : Extends I any (postPhysicalReceipt rd job).
Proof. unfold postPhysicalReceipt. keeps. Qed.
Local Hint Resolve Keeps_postPhysicalReceipt : invdb.

Lemma Keeps_sendToPhysicalReceiptDevice job :
  Extends I any (sendToPhysicalReceiptDevice rd job).
Proof. unfold sendToPhysicalReceiptDevice. keeps. apply Keeps_attemptLoop. keeps. Qed.
Local Hint Resolve Keeps_sendToPhysicalReceiptDevice : invdb.

Lemma Keeps_completePhysicalReceiptJob job success r e :
  Extends I any (completePhysicalReceiptJob job success r e).
Proof. unfold completePhysicalReceiptJob. keeps. Qed.
Local Hint Resolve Keeps_completePhysicalReceiptJob : invdb.

Lemma Keeps_sendToNonFiscalReceiptPrinter job :
  Extends I any (sendToNonFiscalReceiptPrinter rd job).
Proof. unfold sendToNonFiscalReceiptPrinter. keeps. Qed.
Local Hint Resolve Keeps_sendToNonFiscalReceiptPrinter : invdb.

Lemma Keeps_completeNonFiscalReceiptJob job success e :
  Extends I any (completeNonFiscalReceiptJob job success e).
Proof. unfold completeNonFiscalReceiptJob. keeps. Qed.
Local Hint Resolve Keeps_completeNonFiscalReceiptJob : invdb.

Section Tick.

(** The invariant survives the updates of the tick too. *)
Hypothesis I_processing : forall b x, I x -> I (set_processing b x).
Hypothesis I_timer : forall t x, I x -> I (set_timer t x).
Hypothesis I_physical : forall b x, I x -> I (set_physicalReceiptRpcAvailable b x).
Hypothesis I_nonFiscal : forall b x, I x -> I (set_nonFiscalReceiptRpcAvailable b x).
Hypothesis I_claimed : forall {A} (jobs : list A) x,
  I x -> I (set_stats (addClaimed (countOf jobs) (stats x)) x).
Hypothesis I_printed : forall x, I x -> I (set_stats (addPrinted (stats x)) x).
Hypothesis I_failed : forall x, I x -> I (set_stats (addFailed (stats x)) x).
Hypothesis I_finishedRun : forall now x, I x -> I (set_stats (finishedRun now (stats x)) x).
Hypothesis I_failedRun : forall message x,
  I x -> I (set_stats (failedRun message (stats x)) x).

Local Hint Resolve I_processing I_timer I_physical I_nonFiscal I_claimed I_printed
  I_failed I_finishedRun I_failedRun : invdb.

Lemma Keeps_kitchenJobStep lr job : Extends I any (kitchenJobStep rd lr job).
Proof. unfold kitchenJobStep, kitchenJobTry, kitchenJobCatch. keeps. Qed.
Local Hint Resolve Keeps_kitchenJobStep : invdb.

Lemma Keeps_physicalJobStep job : Extends I any (physicalJobStep rd job).
Proof. unfold physicalJobStep, physicalJobTry, physicalJobCatch. keeps. Qed.
Local Hint Resolve Keeps_physicalJobStep : invdb.

Lemma Keeps_nonFiscalJobStep job : Extends I any (nonFiscalJobStep rd job).
Proof. unfold nonFiscalJobStep, nonFiscalJobTry, nonFiscalJobCatch. keeps. Qed.
Local Hint Resolve Keeps_nonFiscalJobStep : invdb.

Lemma Keeps_physicalBlock r : Extends I any (physicalBlock rd r).
Proof. unfold physicalBlock. keeps. Qed.
Local Hint Resolve Keeps_physicalBlock : invdb.

Lemma Keeps_nonFiscalBlock r : Extends I any (nonFiscalBlock rd r).
Proof. unfold nonFiscalBlock. keeps. Qed.
Local Hint Resolve Keeps_nonFiscalBlock : invdb.

Lemma Keeps_runTickEnter : Extends I any runTickEnter.
Proof. unfold runTickEnter. keeps. Qed.
Local Hint Resolve Keeps_runTickEnter : invdb.

Lemma Keeps_tickBody : Extends I any (tickBody rd).
Proof. unfold tickBody. keeps. Qed.
Local Hint Resolve Keeps_tickBody : invdb.

Lemma Keeps_runTickRest : Extends I any (runTickRest rd).
Proof. unfold runTickRest. keeps. Qed.
Local Hint Resolve Keeps_runTickRest : invdb.

Lemma Keeps_runTick : Extends I any (runTick rd).
Proof. unfold runTick. keeps. Qed.
Local Hint Resolve Keeps_runTick : invdb.

Lemma Keeps_runTicks n : Extends I any (runTicks rd n).
Proof. induction n as [|n IH]; simpl; keeps. Qed.

End Tick.

End Invariants.

(** ** Runs of the worker: rules *)

Section HoareRules.

Context {A B : Type}.

Lemma Hoare_ret (P : Worker -> Prop) (a : A) (Q : A -> Worker -> Prop) E :
  (forall x, P x -> Q a x) -> Hoare P (mret a) Q E.
Proof. intros H w st HP. simpl. auto. Qed.

Lemma Hoare_throw (P : Worker -> Prop) (e : JsError) (Q : A -> Worker -> Prop)
    (E : Worker -> Prop) :
  (forall x, P x -> E x) -> Hoare P (throw e) Q E.
Proof. intros H w st HP. simpl. auto. Qed.

Lemma Hoare_bind (P : Worker -> Prop) (m : M A) (f : A -> M B)
    (R : A -> Worker -> Prop) (Q : B -> Worker -> Prop) E :
  Hoare P m R E -> (forall a, Hoare (R a) (f a) Q E) -> Hoare P (m ≫= f) Q E.
Proof.
  intros Hm Hf w st HP. specialize (Hm w st HP). rewrite bind_run.
  destruct (m w st) as [[a|e] st1]; [apply Hf; exact Hm | exact Hm].
Qed.

Lemma Hoare_tryCatch (P : Worker -> Prop) (m : M A) (h : JsError -> M A)
    (Q : A -> Worker -> Prop) (R E : Worker -> Prop) :
  Hoare P m Q R -> (forall e, Hoare R (h e) Q E) -> Hoare P (tryCatch m h) Q E.
Proof.
  intros Hm Hh w st HP. specialize (Hm w st HP). rewrite tryCatch_run.
  destruct (m w st) as [[a|e] st1]; [exact Hm | apply Hh; exact Hm].
Qed.

Lemma Hoare_tryFinally (P : Worker -> Prop) (m : M A) (f : M unit)
    (Ra : A -> Worker -> Prop) (Re : Worker -> Prop)
    (Q : A -> Worker -> Prop) (E : Worker -> Prop) :
  Hoare P m Ra Re ->
  (forall a, Hoare (Ra a) f (fun _ => Q a) E) ->
  Hoare Re f (fun _ => E) E ->
  Hoare P (tryFinally m f) Q E.
Proof.
  intros Hm Hfa Hfe w st HP. specialize (Hm w st HP). unfold tryFinally.
  destruct (m w st) as [[a|e] st1].
  - specialize (Hfa a w st1 Hm). destruct (f w st1) as [[u|e'] st2]; exact Hfa.
  - specialize (Hfe w st1 Hm). destruct (f w st1) as [[u|e'] st2]; exact Hfe.
Qed.

Lemma Hoare_conseq (P P' : Worker -> Prop) (m : M A)
    (Q Q' : A -> Worker -> Prop) (E E' : Worker -> Prop) :
  Hoare P' m Q' E' ->
  (forall x, P x -> P' x) -> (forall a x, Q' a x -> Q a x) -> (forall x, E' x -> E x) ->
  Hoare P m Q E.
Proof.
  intros Hm HP HQ HE w st H. specialize (Hm w st (HP _ H)).
  destruct (m w st) as [[a|e] st1]; auto.
Qed.

(** A computation that keeps an invariant, and one that moreover
    returns. *)
Lemma Hoare_keeps (I : Worker -> Prop) p (m : M A) :
  Extends I p m -> Hoare I m (fun _ => I) I.
Proof.
  intros Hm w st HI. destruct (Hm w st HI) as (evs & _ & _ & H).
  unfold stateAfter in H. destruct (m w st) as [[a|e] st1]; exact H.
Qed.

Lemma Hoare_total (I : Worker -> Prop) p (m : M A) (E : Worker -> Prop) :
  Returns m -> Extends I p m -> Hoare I m (fun _ => I) E.
Proof.
  intros Hr Hm w st HI. destruct (Hm w st HI) as (evs & _ & _ & H).
  destruct (Hr w st) as [a Ha]. unfold stateAfter, resultOf in *.
  destruct (m w st) as [[a'|e] st1]; [exact H | discriminate].
Qed.

End HoareRules.

Lemma Hoare_getWorker (P : Worker -> Prop) (Q : Worker -> Worker -> Prop) E :
  (forall x, P x -> Q x x) -> Hoare P getWorker Q E.
Proof. intros H w st HP. simpl. auto. Qed.

Lemma Hoare_modify (P : Worker -> Prop) f (Q : unit -> Worker -> Prop) E :
  (forall x, P x -> Q tt (f x)) -> Hoare P (modify f) Q E.
Proof. intros H w st HP. simpl. auto. Qed.

Lemma Hoare_call {R} (P : Worker -> Prop) ev (answer : World -> nat -> R)
    (Q : R -> Worker -> Prop) E :
  (forall r x, P x -> Q r x) -> Hoare P (call ev answer) Q E.
Proof. intros H w st HP. simpl. auto. Qed.

Lemma Hoare_clock (P : Worker -> Prop) read (Q : string -> Worker -> Prop) E :
  (forall r x, P x -> Q r x) -> Hoare P (clock read) Q E.
Proof. intros H w st HP. simpl. auto. Qed.

(** A loop whose body never throws, with what is true before each of its
    rounds. *)
Lemma Hoare_forEach {A} (Inv : list A -> Worker -> Prop) (body : A -> M unit)
    (l : list A) (E : Worker -> Prop) :
  (forall a rest, Hoare (Inv (a :: rest)) (body a) (fun _ => Inv rest) E) ->
  Hoare (Inv l) (forEach l body) (fun _ => Inv []) E.
Proof.
  intros Hb. induction l as [|a rest IH]; simpl.
  - apply Hoare_ret. auto.
  - eapply Hoare_bind; [apply Hb | intros u; exact IH].
Qed.

(** ** The counters of the service *)

Lemma Returns_pushLog level message : Returns (pushLog level message).
Proof. unfold pushLog. frame. Qed.

Lemma Returns_broadcastState : Returns broadcastState.
Proof. unfold broadcastState. frame. Qed.

Section Accounting.

Variable rd : Renderers.

(** [k] jobs are claimed and not yet counted. *)
Local Abbreviation J := (fun (k : Z) (x : Worker) => uncounted x = k).

(** An operation that writes no counter, as a step of a run. *)
Ltac keeps_with lem := eapply Hoare_keeps; eapply lem; intros; assumption.
Ltac then_keeps lem := eapply Hoare_bind; [keeps_with lem | intros ?].
Ltac total_with ret lem :=
  eapply Hoare_total; [apply ret | eapply lem; intros; assumption].
Ltac then_total ret lem := eapply Hoare_bind; [total_with ret lem | intros ?].
Ltac then_reads k :=
  eapply Hoare_bind with (R := fun _ => J k);
  [first [apply Hoare_getWorker; intros ? H; exact H
         | apply Hoare_call; intros ? ? H; exact H
         | apply Hoare_clock; intros ? ? H; exact H] |].
Ltac then_counts k' :=
  eapply Hoare_bind;
  [apply Hoare_modify with (Q := fun _ => J k');
   intros ? ?; unfold uncounted in *; simpl; lia | intros ?].

Lemma pushLog_counts k level message (E : Worker -> Prop) :
  Hoare (J k) (pushLog level message) (fun _ => J k) E.
Proof. total_with Returns_pushLog Keeps_pushLog. Qed.

Lemma kitchenJobStep_counts k lr job :
  Hoare (J (k + 1)) (kitchenJobStep rd lr job) (fun _ => J k) (fun _ => False).
Proof.
  unfold kitchenJobStep. eapply Hoare_tryCatch with (R := J (k + 1)).
  - unfold kitchenJobTry. cbv zeta.
    then_keeps Keeps_sendToPrinter. then_keeps Keeps_completePrintJob.
    then_counts k. apply pushLog_counts.
  - intros e. unfold kitchenJobCatch. cbv zeta.
    eapply Hoare_bind with (R := fun _ => J (k + 1)).
    { eapply Hoare_tryCatch with (R := J (k + 1)).
      - keeps_with Keeps_completePrintJob.
      - intros ackError. apply pushLog_counts. }
    intros ?. then_counts k. apply pushLog_counts.
Qed.

Lemma physicalJobStep_counts k job :
  Hoare (J (k + 1)) (physicalJobStep rd job) (fun _ => J k) (fun _ => False).
Proof.
  unfold physicalJobStep. eapply Hoare_tryCatch with (R := J (k + 1)).
  - unfold physicalJobTry.
    then_keeps Keeps_sendToPhysicalReceiptDevice.
    then_keeps Keeps_completePhysicalReceiptJob.
    then_counts k. apply pushLog_counts.
  - intros e. unfold physicalJobCatch. cbv zeta.
    eapply Hoare_bind with (R := fun _ => J (k + 1)).
    { eapply Hoare_tryCatch with (R := J (k + 1)).
      - keeps_with Keeps_completePhysicalReceiptJob.
      - intros ackError. destruct (isMissingRpcError ackError _).
        + then_counts (k + 1). apply pushLog_counts.
        + apply pushLog_counts. }
    intros ?. then_counts k. apply pushLog_counts.
Qed.

Lemma nonFiscalJobStep_counts k job :
  Hoare (J (k + 1)) (nonFiscalJobStep rd job) (fun _ => J k) (fun _ => False).
Proof.
  unfold nonFiscalJobStep. eapply Hoare_tryCatch with (R := J (k + 1)).
  - unfold nonFiscalJobTry.
    then_keeps Keeps_sendToNonFiscalReceiptPrinter.
    then_keeps Keeps_completeNonFiscalReceiptJob.
    then_counts k. apply pushLog_counts.
  - intros e. unfold nonFiscalJobCatch. cbv zeta.
    eapply Hoare_bind with (R := fun _ => J (k + 1)).
    { eapply Hoare_tryCatch with (R := J (k + 1)).
      - keeps_with Keeps_completeNonFiscalReceiptJob.
      - intros ackError. destruct (isMissingRpcError ackError _).
        + apply Hoare_modify. intros x Hx. exact Hx.
        + apply pushLog_counts. }
    intros ?. then_counts k. apply pushLog_counts.
Qed.

(** A loop over claimed jobs counts each of them. *)
Lemma loop_counts {A} k (jobs : list A) (step : A -> M unit) :
  (forall k' job, Hoare (J (k' + 1)) (step job) (fun _ => J k') (fun _ => False)) ->
  Hoare (J (k + countOf jobs)) (forEach jobs step) (fun _ => J k) (fun _ => False).
Proof.
  intros Hstep.
  apply (Hoare_conseq _ (J (k + countOf jobs)) _ _ (fun _ => J (k + countOf (@nil A))) _
           (fun _ => False)); auto.
  - apply (Hoare_forEach (fun rest => J (k + countOf rest))).
    intros job rest.
    replace (k + countOf (job :: rest)) with (k + countOf rest + 1)
      by (unfold countOf; simpl length; lia).
    apply Hstep.
  - intros _ x Hx. unfold countOf in Hx. simpl in Hx. lia.
Qed.

Lemma physicalBlock_counts k r (E : Worker -> Prop) :
  Hoare (J k) (physicalBlock rd r) (fun _ => J k) E.
Proof.
  unfold physicalBlock. then_reads k.
  intros x. cbv beta. destruct (physicalReceiptRpcAvailable x); [|apply Hoare_ret; auto].
  eapply Hoare_tryCatch with (R := J k); [|intros e; apply pushLog_counts].
  then_reads k.
  intros [physicalError|physicalJobs].
  - destruct (isMissingRpcError physicalError _).
    + then_counts k. apply pushLog_counts.
    + apply Hoare_throw. auto.
  - then_counts (k + countOf physicalJobs).
    eapply Hoare_bind with (R := fun _ => J (k + countOf physicalJobs)).
    { destruct (0 <? countOf physicalJobs); [apply pushLog_counts | apply Hoare_ret; auto]. }
    intros ?.
    apply (Hoare_conseq _ (J (k + countOf physicalJobs)) _ _ (fun _ => J k) _ (fun _ => False));
      [apply loop_counts, physicalJobStep_counts | auto | auto | intros ? []].
Qed.

Lemma nonFiscalBlock_counts k r (E : Worker -> Prop) :
  Hoare (J k) (nonFiscalBlock rd r) (fun _ => J k) E.
Proof.
  unfold nonFiscalBlock. then_reads k.
  intros x. cbv beta. destruct (nonFiscalReceiptRpcAvailable x); [|apply Hoare_ret; auto].
  eapply Hoare_tryCatch with (R := J k); [|intros e; apply pushLog_counts].
  then_reads k.
  intros [nfrError|nfrJobs].
  - destruct (isMissingRpcError nfrError _).
    + then_counts k. apply pushLog_counts.
    + apply Hoare_throw. auto.
  - then_counts (k + countOf nfrJobs).
    eapply Hoare_bind with (R := fun _ => J (k + countOf nfrJobs)).
    { destruct (0 <? countOf nfrJobs); [apply pushLog_counts | apply Hoare_ret; auto]. }
    intros ?.
    apply (Hoare_conseq _ (J (k + countOf nfrJobs)) _ _ (fun _ => J k) _ (fun _ => False));
      [apply loop_counts, nonFiscalJobStep_counts | auto | auto | intros ? []].
Qed.

Lemma tickBody_counts k : Hoare (J k) (tickBody rd) (fun _ => J k) (J k).
Proof.
  unfold tickBody. then_keeps Keeps_ensureSignedIn.
  then_reads k.
  intros x. cbv beta. destruct (restaurantId x) as [restaurant|]; [|apply Hoare_throw; auto].
  then_keeps Keeps_heartbeatAgent. then_keeps Keeps_ensureSupabaseClient.
  then_reads k.
  intros y. cbv beta.
  then_reads k.
  intros [error|jobs]; [apply Hoare_throw; auto|].
  apply (Hoare_conseq _ (J k) _ _ (fun _ => J k) _ (fun _ => False));
    [|auto | auto | intros ? []].
  then_counts (k + countOf jobs).
  eapply Hoare_bind with (R := fun _ => J (k + countOf jobs)).
  { destruct (0 <? countOf jobs); [apply pushLog_counts | apply Hoare_ret; auto]. }
  intros ?.
  eapply Hoare_bind with (R := fun _ => J (k + countOf jobs)).
  { eapply Hoare_tryCatch with (R := J (k + countOf jobs)).
    - then_keeps Keeps_fetchLivePrinterRoutes. apply Hoare_ret. auto.
    - intros routesError. eapply Hoare_bind; [apply pushLog_counts|].
      intros ?. apply Hoare_ret. auto. }
  intros liveRoutes.
  eapply Hoare_bind; [apply loop_counts; intros k' job; apply kitchenJobStep_counts|]. intros ?.
  eapply Hoare_bind; [apply physicalBlock_counts|]. intros ?.
  eapply Hoare_bind; [apply nonFiscalBlock_counts|]. intros ?.
  then_reads k. intros now.
  apply Hoare_modify. intros z Hz. exact Hz.
Qed.

Lemma runTick_counts k : Hoare (J k) (runTick rd) (fun _ => J k) (fun _ => False).
Proof.
  unfold runTick.
  eapply Hoare_bind with (R := fun _ => J k).
  { unfold runTickEnter.
    then_reads k.
    intros x. cbv beta. destruct (negb (running x) || processing x); [apply Hoare_ret; auto|].
    then_counts k.
    eapply Hoare_bind; [total_with Returns_broadcastState Keeps_broadcastState|].
    intros ?. apply Hoare_ret. auto. }
  intros [|]; [|apply Hoare_ret; auto].
  unfold runTickRest.
  assert (Hfinally : Hoare (J k)
            (modify (set_processing false);; broadcastState;;
             w ← getWorker;
             (if running w
              then call (EvSetTimeout (pollMs (config w))) (fun _ _ => tt);;
                   modify (set_timer (Some (pollMs (config w))))
              else mret tt))
            (fun _ => J k) (fun _ => False)).
  { then_counts k.
    eapply Hoare_bind; [total_with Returns_broadcastState Keeps_broadcastState|].
    intros ?. then_reads k.
    intros x. cbv beta. destruct (running x); [|apply Hoare_ret; auto].
    then_reads k. intros ?.
    apply Hoare_modify. intros z Hz. exact Hz. }
  eapply Hoare_tryFinally with (Ra := fun _ => J k) (Re := fun _ => False).
  - eapply Hoare_tryCatch; [apply tickBody_counts|].
    intros error. cbv zeta. then_counts k. apply pushLog_counts.
  - intros ?. exact Hfinally.
  - intros w st [].
Qed.

Lemma runTickRest_counts k :
  Hoare (J k) (runTickRest rd) (fun _ => J k) (fun _ => False).
Proof.
  unfold runTickRest.
  eapply Hoare_tryFinally with (Ra := fun _ => J k) (Re := fun _ => False).
  - eapply Hoare_tryCatch; [apply tickBody_counts|].
    intros error. cbv zeta. then_counts k. apply pushLog_counts.
  - intros ?. then_counts k.
    eapply Hoare_bind; [total_with Returns_broadcastState Keeps_broadcastState|].
    intros ?. then_reads k.
    intros x. cbv beta. destruct (running x); [|apply Hoare_ret; auto].
    then_reads k. intros ?.
    apply Hoare_modify. intros z Hz. exact Hz.
  - intros w st [].
Qed.

Lemma runTicks_counts n k : Hoare (J k) (runTicks rd n) (fun _ => J k) (fun _ => False).
Proof.
  induction n as [|n IH]; simpl.
  - apply Hoare_ret. auto.
  - eapply Hoare_bind; [apply runTick_counts | intros ?; exact IH].
Qed.

End Accounting.

(** ** What ticks keep *)

Section TickTheorems.

Variable rd : Renderers.

Lemma runTicks_uncounted (n : nat) (w : World) (st : St) :
  resultOf (runTicks rd n w st) = Ok tt /\
  uncounted (worker (stateAfter (runTicks rd n w st))) = uncounted (worker st).
Proof.
  pose proof (runTicks_counts rd n (uncounted (worker st)) w st eq_refl) as H.
  unfold resultOf, stateAfter. destruct (runTicks rd n w st) as [[[]|e] st']; [auto | contradiction].
Qed.

(** Over any number of ticks, every job a tick claims is counted once, as
    printed or as failed: the difference between the claimed counter and
    the two others is the same after the ticks as before, and no error
    leaves the ticks. *)
Theorem ticks_count_every_job (n : nat) (w : World) (st : St) :
  resultOf (runTicks rd n w st) = Ok tt /\
  claimed (stats (worker (stateAfter (runTicks rd n w st)))) -
  printed (stats (worker (stateAfter (runTicks rd n w st)))) -
  failed (stats (worker (stateAfter (runTicks rd n w st)))) =
  claimed (stats (worker st)) - printed (stats (worker st)) - failed (stats (worker st)).
Proof. exact (runTicks_uncounted n w st). Qed.

(** A service that was started counts every job.  [startService] resets
    the counters and begins the first tick (the [processing] flag is up
    when it returns); after the rest of that tick and any number of later
    ticks, with whatever answers of the outside, the claimed counter is
    the sum of the printed and the failed counters. *)
Theorem started_service_counts_every_job (w : World) (st st1 : St) pub (n : nat) :
  running (worker st) = false ->
  startService w st = (Ok pub, st1) ->
  let x := worker (stateAfter (runTicks rd n w (stateAfter (runTickRest rd w st1)))) in
  processing (worker st1) = true /\
  claimed (stats x) = printed (stats x) + failed (stats x).
Proof.
  intros Hr H. cbv zeta.
  assert (H0 : uncounted (worker st1) = 0 /\ processing (worker st1) = true).
  { revert H. unfold startService. rewrite bind_run. unfold getWorker at 1.
    rewrite Hr. rewrite bind_run.
    destruct (ensureSignedIn w st) as [[[]|e] st0]; [|discriminate].
    rewrite bind_run. unfold getWorker at 1.
    destruct (restaurantId (worker st0)); [|discriminate].
    do 6 (rewrite bind_run, modify_run).
    rewrite bind_run, getWorker_run. cbv beta iota.
    rewrite bind_run.
    match goal with
    | |- context [pushLog ?lv ?msg w ?s0] => destruct (pushLog_run lv msg w s0) as [l ->]
    end.
    cbv beta iota.
    unfold runTickEnter, getPublicState, broadcastState, mbind, M_bind, mret, M_ret,
      getWorker, modify, call, emit, withWorker.
    cbn [worker trace running processing set_logs set_running set_processing
         set_assignedPrinterId set_stats set_physicalReceiptRpcAvailable
         set_nonFiscalReceiptRpcAvailable negb orb].
    intros [= _ <-]. split; reflexivity. }
  destruct H0 as [H0 Hp]. split; [exact Hp|].
  pose proof (runTickRest_counts rd 0 w st1 H0) as Hrest.
  destruct (runTickRest rd w st1) as [[[]|e] st2]; [|contradiction].
  cbn [stateAfter snd].
  destruct (runTicks_uncounted n w st2) as [_ Hu].
  unfold uncounted in *. lia.
Qed.

(** Ticks never change the configuration of the worker, its runtime
    settings or its version, and never stop the service. *)
Theorem ticks_leave_configuration (n : nat) (w : World) (st : St) :
  let x' := worker (stateAfter (runTicks rd n w st)) in
  config x' = config (worker st) /\ running x' = running (worker st) /\
  VITE_SUPABASE_URL x' = VITE_SUPABASE_URL (worker st) /\
  VITE_SUPABASE_ANON_KEY x' = VITE_SUPABASE_ANON_KEY (worker st) /\
  appVersion x' = appVersion (worker st).
Proof.
  cbv zeta.
  assert (H : Extends (fun x => config x = config (worker st) /\
                                running x = running (worker st) /\
                                VITE_SUPABASE_URL x = VITE_SUPABASE_URL (worker st) /\
                                VITE_SUPABASE_ANON_KEY x = VITE_SUPABASE_ANON_KEY (worker st) /\
                                appVersion x = appVersion (worker st))
                     (fun _ => True) (runTicks rd n)).
  { eapply Keeps_runTicks; intros; assumption. }
  destruct (H w st) as (_ & _ & _ & Hx); [auto 10|]. exact Hx.
Qed.

Lemma pushed_log_cap (cap : nat) (l : list WorkerLogRow) (row : WorkerLogRow) :
  (length l <= cap)%nat -> (LOG_CAP <= cap)%nat ->
  (length (if (LOG_CAP <? length (l ++ [row]))%nat
           then tail (l ++ [row]) else (l ++ [row])%list) <= cap)%nat.
Proof.
  intros Hl Hc. destruct (LOG_CAP <? length (l ++ [row]))%nat eqn:E.
  - destruct l; simpl in *; [lia|]. rewrite length_app. simpl. rewrite length_app in *.
    simpl in *. lia.
  - apply Nat.ltb_ge in E. lia.
Qed.

(** The log of the worker is capped: after any number of ticks it holds at
    most 500 rows, or as many as it held before if that was more. *)
Theorem ticks_keep_log_cap (n : nat) (w : World) (st : St) :
  (length (logs (worker (stateAfter (runTicks rd n w st)))) <=
   Nat.max LOG_CAP (length (logs (worker st))))%nat.
Proof.
  set (cap := Nat.max LOG_CAP (length (logs (worker st)))).
  assert (H : Extends (fun x => (length (logs x) <= cap)%nat) (fun _ => True)
                      (runTicks rd n)).
  { eapply Keeps_runTicks; intros; try assumption.
    apply pushed_log_cap; [assumption | subst cap; lia]. }
  destruct (H w st) as (_ & _ & _ & Hx); [subst cap; lia|]. exact Hx.
Qed.

Lemma Hoare_any {A} (m : M A) :
  Hoare (fun _ => True) m (fun _ _ => True) (fun _ => True).
Proof. intros w st _. destruct (m w st) as [[a|e] st']; exact Logic.I. Qed.

Lemma runTick_finally_releases (E : Worker -> Prop) :
  Hoare (fun _ => True)
    (modify (set_processing false);; broadcastState;;
     w ← getWorker;
     (if running w
      then call (EvSetTimeout (pollMs (config w))) (fun _ _ => tt);;
           modify (set_timer (Some (pollMs (config w))))
      else mret tt))
    (fun _ => released) E.
Proof.
  eapply Hoare_bind with (R := fun _ x => processing x = false);
    [apply Hoare_modify; intros; reflexivity | intros ?].
  eapply Hoare_bind with (R := fun _ x => processing x = false).
  { eapply Hoare_total; [apply Returns_broadcastState|].
    eapply Keeps_broadcastState; intros; assumption. }
  intros ?.
  eapply Hoare_bind with (R := fun y x => processing x = false /\ y = x);
    [apply Hoare_getWorker; auto | intros y].
  destruct (running y) eqn:Hr.
  - eapply Hoare_bind with (R := fun _ x => processing x = false /\ y = x);
      [apply Hoare_call; auto | intros ?].
    apply Hoare_modify. intros x [Hp <-]. split; [exact Hp | reflexivity].
  - apply Hoare_ret. intros x [Hp <-]. split; [exact Hp | congruence].
Qed.

(** A tick never throws and never keeps the [processing] flag: whatever
    happens in it, a tick that found the flag down leaves it down, and a
    tick that ran (the service running, the flag down) leaves the timer
    of the next tick set to the poll interval of the configuration. *)
Theorem runTick_releases (w : World) (st : St) :
  processing (worker st) = false ->
  resultOf (runTick rd w st) = Ok tt /\
  processing (worker (stateAfter (runTick rd w st))) = false /\
  (running (worker st) = true ->
   timer (worker (stateAfter (runTick rd w st))) =
     Some (pollMs (config (worker (stateAfter (runTick rd w st)))))).
Proof.
  intros Hp.
  assert (H : Hoare (fun x => x = worker st) (runTick rd)
                (fun _ x => processing x = false /\
                   (running (worker st) = true -> released x /\ running x = true))
                (fun _ => False)).
  { unfold runTick.
    eapply Hoare_bind with
      (R := fun (entered : bool) x =>
              if entered then running x = true
              else x = worker st /\ running x = false).
    { unfold runTickEnter.
      eapply Hoare_bind with (R := fun y x => y = x /\ x = worker st);
        [apply Hoare_getWorker; auto | intros y].
      destruct (negb (running y) || processing y) eqn:Hg.
      - apply Hoare_ret. intros x [<- ->]. split; [reflexivity|].
        rewrite Hp, orb_false_r in Hg. apply negb_true_iff. exact Hg.
      - eapply Hoare_bind with (R := fun _ x => running x = true).
        { apply Hoare_modify. intros x [<- ->].
          apply orb_false_iff in Hg as [Hg _]. apply negb_false_iff in Hg. exact Hg. }
        intros ?. eapply Hoare_bind with (R := fun _ x => running x = true).
        { eapply Hoare_total; [apply Returns_broadcastState|].
          eapply Keeps_broadcastState; intros; assumption. }
        intros ?. apply Hoare_ret. auto. }
    intros [|].
    - unfold runTickRest.
      eapply Hoare_conseq with
        (Q' := fun _ x => released x /\ running x = true) (E' := fun _ => False);
        [|intros x Hx; exact Hx | | auto].
      2:{ intros _ x [Hrel Hrun]. split; [exact (proj1 Hrel) | auto]. }
      assert (Hbody : Hoare (fun x => running x = true)
                (tryCatch (tickBody rd)
                   (fun error =>
                      let message := normalizeError error in
                      modify (fun w0 => set_stats (failedRun message (stats w0)) w0);;
                      pushLog ERROR ("Tick error: " ++ message)))
                (fun _ x => running x = true) (fun _ => False)).
      { eapply Hoare_tryCatch with (R := fun x => running x = true).
        - eapply Hoare_keeps. eapply Keeps_tickBody; intros; assumption.
        - intros error. cbv zeta.
          eapply Hoare_bind with (R := fun _ x => running x = true);
            [apply Hoare_modify; intros x Hx; exact Hx | intros ?].
          eapply Hoare_total; [apply Returns_pushLog|].
          eapply Keeps_pushLog; intros; assumption. }
      intros w0 st0 Hrun. specialize (Hbody w0 st0 Hrun). unfold tryFinally.
      destruct (tryCatch _ _ w0 st0) as [[[]|e] st1]; [|contradiction].
      pose proof (runTick_finally_releases (fun _ => False) w0 st1 Logic.I) as Hfin.
      assert (Hkeep : Hoare (fun x => running x = true)
                (modify (set_processing false);; broadcastState;;
                 w ← getWorker;
                 (if running w
                  then call (EvSetTimeout (pollMs (config w))) (fun _ _ => tt);;
                       modify (set_timer (Some (pollMs (config w))))
                  else mret tt))
                (fun _ x => running x = true) (fun x => running x = true)).
      { eapply Hoare_bind with (R := fun _ x => running x = true);
          [apply Hoare_modify; intros x Hx; exact Hx | intros ?].
        eapply Hoare_bind with (R := fun _ x => running x = true).
        { eapply Hoare_keeps. eapply Keeps_broadcastState; intros; assumption. }
        intros ?. eapply Hoare_bind with (R := fun _ x => running x = true);
          [apply Hoare_getWorker; auto | intros y].
        destruct (running y).
        - eapply Hoare_bind with (R := fun _ x => running x = true);
            [apply Hoare_call; auto | intros ?].
          apply Hoare_modify. intros x Hx. exact Hx.
        - apply Hoare_ret. auto. }
      specialize (Hkeep w0 st1 Hbody).
      destruct ((modify (set_processing false);; _) w0 st1) as [[[]|e] st2];
        [split; assumption | contradiction].
    - apply Hoare_ret. intros x [-> Hr]. rewrite Hp. split; [reflexivity|].
      congruence. }
  specialize (H w st eq_refl). unfold resultOf, stateAfter.
  destruct (runTick rd w st) as [[[]|e] st']; [|contradiction].
  destruct H as [H1 H2]. split; [reflexivity|]. split; [exact H1|].
  intros Hr. destruct (H2 Hr) as [[_ Ht] Hrun]. exact (Ht Hrun).
Qed.

End TickTheorems.

(** A run in which jobs are claimed: three in the first tick, and one in
    each of the two ticks that follow. *)
Lemma started_service_counts_every_job_witness :
  let st1 := stateAfter (startService Fixture.rejecting Sample.stopped) in
  let x := worker (stateAfter (runTicks Fixture.renderers 2 Fixture.rejecting
                     (stateAfter (runTickRest Fixture.renderers Fixture.rejecting st1)))) in
  (processing (worker st1) = true /\
   claimed (stats x) = printed (stats x) + failed (stats x)) /\
  claimed (stats x) = 5.
Proof.
  split; [|vm_compute; reflexivity].
  eapply (started_service_counts_every_job Fixture.renderers Fixture.rejecting
            Sample.stopped); [reflexivity | vm_compute; reflexivity].
Defined.

Lemma runTick_releases_witness :
  processing (worker (stateAfter (runTick Fixture.renderers Fixture.rejecting Fixture.started)))
  = false.
Proof.
  destruct (runTick_releases Fixture.renderers Fixture.rejecting Fixture.started) as (_ & H & _);
    [reflexivity | exact H].
Defined.

(** ** Stopping, signing out and configuring *)

Lemma Hoare_getPublicState (P : Worker -> Prop) (E : Worker -> Prop) :
  Hoare P getPublicState (fun pub x => pub = publicState x /\ P x) E.
Proof.
  unfold getPublicState.
  eapply Hoare_bind with (R := fun y x => y = x /\ P x);
    [apply Hoare_getWorker; auto | intros y].
  apply Hoare_ret. intros x [-> HP]. auto.
Qed.

(** What [stopService] leaves of the service. *)
Lemma stopService_hoare (c : WorkerConfig) (s : option SessionSnapshot) :
  Hoare (fun x => config x = c /\ savedSession x = s) stopService
    (fun pub x => pub = publicState x /\
                  (running x = false /\ processing x = false /\ timer x = None /\
                   config x = c /\ savedSession x = s))
    (fun _ => False).
Proof.
  unfold stopService.
  set (I := fun x : Worker => running x = false /\ processing x = false /\
                              timer x = None /\ config x = c /\ savedSession x = s).
  eapply Hoare_bind with
    (R := fun _ x => running x = false /\ config x = c /\ savedSession x = s);
    [apply Hoare_modify; intros x [H1 H2]; auto | intros ?].
  eapply Hoare_bind with
    (R := fun _ x => running x = false /\ processing x = false /\
                     config x = c /\ savedSession x = s);
    [apply Hoare_modify; intros x (H1 & H2 & H3); auto | intros ?].
  eapply Hoare_bind with
    (R := fun y x => y = x /\ running x = false /\ processing x = false /\
                     config x = c /\ savedSession x = s);
    [apply Hoare_getWorker; auto | intros y].
  eapply Hoare_bind with (R := fun _ => I).
  { destruct (timer y) eqn:Ht.
    - apply Hoare_modify. intros x (_ & H1 & H2 & H3 & H4). unfold I. auto.
    - apply Hoare_ret. intros x (<- & H1 & H2 & H3 & H4). unfold I. auto. }
  intros ?.
  eapply Hoare_bind with (R := fun _ => I).
  { eapply Hoare_tryCatch with (R := I).
    - eapply Hoare_keeps. eapply Keeps_heartbeatAgent; intros; assumption.
    - intros e. apply Hoare_ret. auto. }
  intros ?.
  eapply Hoare_bind with (R := fun _ => I).
  { eapply Hoare_total; [apply Returns_pushLog|]. eapply Keeps_pushLog; intros; assumption. }
  intros ?.
  eapply Hoare_bind with (R := fun _ => I).
  { eapply Hoare_total; [apply Returns_broadcastState|].
    eapply Keeps_broadcastState; intros; assumption. }
  intros ?. apply Hoare_getPublicState.
Qed.

(** [stopService] never throws, whatever the backend answers to the last
    heartbeat: it returns the public state, with the service stopped, the
    [processing] flag down and no timer left; the configuration and the
    saved session are as before. *)
Theorem stopService_stops (w : World) (st : St) :
  exists st',
    stopService w st = (Ok (publicState (worker st')), st') /\
    running (worker st') = false /\ processing (worker st') = false /\
    timer (worker st') = None /\
    config (worker st') = config (worker st) /\
    savedSession (worker st') = savedSession (worker st).
Proof.
  pose proof (stopService_hoare (config (worker st)) (savedSession (worker st)) w st
                (conj eq_refl eq_refl)) as H.
  destruct (stopService w st) as [[pub|e] st']; [|contradiction].
  destruct H as [-> H]. exists st'. split; [reflexivity | exact H].
Qed.

Lemma heartbeatAgent_signed_out isActive w st :
  authRestaurant (worker st) = None -> heartbeatAgent isActive w st = (Ok tt, st).
Proof.
  intros H. unfold heartbeatAgent. rewrite bind_run, getWorker_run. cbv beta iota.
  unfold restaurantId. rewrite H. reflexivity.
Qed.

(** [stopService] for a worker that knows no restaurant: the heartbeat is
    skipped. *)
Lemma stopService_signed_out w st :
  authRestaurant (worker st) = None ->
  exists st',
    stopService w st = (Ok (publicState (worker st')), st') /\
    trace st' = (trace st ++ [EvLog INFO "Servizio stampa fermato";
                              EvBroadcast (publicState (worker st'))])%list /\
    running (worker st') = false /\ processing (worker st') = false /\
    timer (worker st') = None /\
    savedSession (worker st') = savedSession (worker st) /\
    authUser (worker st') = authUser (worker st) /\
    authRestaurant (worker st') = None /\
    supabase (worker st') = supabase (worker st) /\
    config (worker st') = config (worker st).
Proof.
  intros Hr. unfold stopService.
  rewrite bind_run, modify_run. cbv beta iota.
  rewrite bind_run, modify_run. cbv beta iota.
  rewrite bind_run, getWorker_run. cbv beta iota. rewrite bind_run.
  assert (Htimer : exists st1,
    (match timer (worker (withWorker (set_processing false)
                            (withWorker (set_running false) st))) with
     | Some _ => modify (set_timer None)
     | None => mret tt
     end) w (withWorker (set_processing false) (withWorker (set_running false) st)) =
    (Ok tt, st1) /\ trace st1 = trace st /\
    running (worker st1) = false /\ processing (worker st1) = false /\
    timer (worker st1) = None /\
    savedSession (worker st1) = savedSession (worker st) /\
    authUser (worker st1) = authUser (worker st) /\
    authRestaurant (worker st1) = None /\
    supabase (worker st1) = supabase (worker st) /\
    config (worker st1) = config (worker st)).
  { destruct (timer _) eqn:Ht.
    - eexists. split; [apply modify_run|]. repeat split; try reflexivity. exact Hr.
    - eexists. split; [reflexivity|]. repeat split; try reflexivity; assumption. }
  destruct Htimer as (st1 & -> & Ht & H1 & H2 & H3 & H4 & H5 & H6 & H7 & H8).
  cbv beta iota. rewrite bind_run, tryCatch_run.
  rewrite (heartbeatAgent_signed_out false w st1 H6). cbv beta iota.
  rewrite bind_run. destruct (pushLog_run INFO "Servizio stampa fermato" w st1) as [l ->].
  cbv beta iota. rewrite bind_run, broadcastState_run. cbv beta iota.
  eexists. split; [reflexivity|].
  cbn [emit withWorker worker trace]. rewrite Ht, <- app_assoc.
  repeat split; try reflexivity; assumption.
Qed.

(** Signing out forgets the session and the account and stops the
    service, and it calls the backend for nothing: the restaurant is
    forgotten before the service is stopped, so that the last heartbeat is
    skipped.  Apart from the two log rows and the broadcast, the one effect
    is the file written, which holds the configuration and no session; the
    second log row is missing when that write fails. *)
Theorem clearSession_forgets (w : World) (st : St) :
  let x' := worker (stateAfter (clearSession w st)) in
  savedSession x' = None /\ authUser x' = None /\ authRestaurant x' = None /\
  supabase x' = false /\ running x' = false /\ processing x' = false /\
  timer x' = None /\ config x' = config (worker st) /\
  exists pub,
    trace (stateAfter (clearSession w st)) =
    (trace st ++
     [EvLog INFO "Servizio stampa fermato"; EvBroadcast pub;
      EvWriteFile (config (worker st)) None] ++
     match writeFile w (length (trace st) + 2) with
     | None => [EvLog INFO "Sessione desktop rimossa"]
     | Some _ => []
     end)%list.
Proof.
  cbv zeta. unfold clearSession.
  rewrite bind_run, modify_run. cbv beta iota.
  rewrite bind_run, modify_run. cbv beta iota.
  rewrite bind_run, modify_run. cbv beta iota.
  rewrite bind_run, modify_run. cbv beta iota.
  rewrite bind_run.
  destruct (stopService_signed_out w
              (withWorker (set_supabase false)
                 (withWorker (set_authRestaurant None)
                    (withWorker (set_authUser None)
                       (withWorker (set_savedSession None) st)))) eq_refl)
    as (st1 & -> & Ht & H1 & H2 & H3 & H4 & H5 & H6 & H7 & H8).
  cbv beta iota. rewrite bind_run, persistState_run.
  rewrite Ht, length_app. cbn [length trace withWorker].
  replace (length (trace st) + 2)%nat with (length (trace st) + 2)%nat by reflexivity.
  destruct (writeFile w (length (trace st) + 2)) as [e|] eqn:Hw; cbv beta iota.
  - cbn [stateAfter snd emit worker trace].
    repeat split; try assumption. exists (publicState (worker st1)).
    rewrite Ht, H8, H4. cbn [withWorker worker trace savedSession set_supabase
      set_authRestaurant set_authUser set_savedSession config].
    rewrite <- app_assoc. reflexivity.
  - rewrite bind_run.
    destruct (pushLog_run INFO "Sessione desktop rimossa" w
                (emit (EvWriteFile (config (worker st1)) (savedSession (worker st1))) st1))
      as [l ->].
    cbv beta iota. unfold getPublicState. rewrite bind_run, getWorker_run. cbv beta iota.
    cbn [stateAfter snd emit withWorker worker trace mret M_ret].
    repeat split; try assumption. exists (publicState (worker st1)).
    rewrite Ht, H8, H4. cbn [withWorker worker trace savedSession set_supabase
      set_authRestaurant set_authUser set_savedSession config].
    rewrite <- !app_assoc. reflexivity.
Qed.

(** ** Saving and loading the configuration *)

Lemma sanitizeDeviceName_nonEmpty (h : Host) (value : string) :
  nonEmpty (sanitizeDeviceName h value) = true.
Proof.
  unfold sanitizeDeviceName, orElse. cbv zeta.
  destruct (nonEmpty (slice0 80 _)) eqn:Hn; [exact Hn | reflexivity].
Qed.

(** [saveConfig] puts the merged and sanitized configuration in place
    before it writes the file, and keeps it when the write fails: the
    poll interval is in [1000..10000], the claim limit in [1..20], the
    consumer id has 1 to 64 characters of its class and the device name is
    not empty.  The file is written first, with the new configuration and
    the saved session; the service and the session are left as they
    were. *)
Theorem saveConfig_sanitizes (h : Host) (partial : PartialConfig) (w : World) (st : St) :
  let c' := mergedConfig h partial (config (worker st)) in
  let x' := worker (stateAfter (saveConfig h partial w st)) in
  config x' = c' /\
  1000 <= pollMs c' <= 10000 /\ 1 <= claimLimit c' <= 20 /\
  (1 <= String.length (consumerId c') <= 64)%nat /\
  forall_chars isConsumerIdChar (consumerId c') = true /\
  nonEmpty (deviceName c') = true /\
  running x' = running (worker st) /\ savedSession x' = savedSession (worker st) /\
  exists evs,
    trace (stateAfter (saveConfig h partial w st)) =
    (trace st ++ EvWriteFile c' (savedSession (worker st)) :: evs)%list.
Proof.
  cbv zeta.
  assert (Hrun : exists st' evs,
    stateAfter (saveConfig h partial w st) = st' /\
    config (worker st') = mergedConfig h partial (config (worker st)) /\
    running (worker st') = running (worker st) /\
    savedSession (worker st') = savedSession (worker st) /\
    trace st' = (trace st ++
                 EvWriteFile (mergedConfig h partial (config (worker st)))
                   (savedSession (worker st)) :: evs)%list).
  { unfold saveConfig. rewrite bind_run, modify_run. cbv beta iota.
    rewrite bind_run, persistState_run.
    destruct (writeFile w _) as [e|]; cbv beta iota.
    - eexists. exists []. split; [reflexivity|]. repeat split; reflexivity.
    - rewrite bind_run.
      match goal with
      | |- context [pushLog ?lv ?msg w ?s0] => destruct (pushLog_run lv msg w s0) as [l ->]
      end.
      cbv beta iota. unfold getPublicState. rewrite bind_run, getWorker_run.
      cbv beta iota. eexists. eexists. split; [reflexivity|].
      split; [reflexivity|]. split; [reflexivity|]. split; [reflexivity|].
      cbn [stateAfter snd mret M_ret emit withWorker worker trace config savedSession
           set_config]. rewrite <- app_assoc. reflexivity. }
  destruct Hrun as (st' & evs & -> & Hc & Hr & Hs & Ht).
  split; [exact Hc|].
  split; [apply sanitizePollMs_range|]. split; [apply sanitizeClaimLimit_range|].
  destruct (sanitizeConsumerId_form h
              (default (consumerId (config (worker st))) (pc_consumerId partial)))
    as ((H1 & _ & _)%consumerIdForm_elim & Hl & Hn).
  split.
  { cbn [mergedConfig consumerId]. split; [|exact Hl].
    destruct (sanitizeConsumerId h _); [discriminate | simpl; lia]. }
  split; [exact H1|]. split; [apply sanitizeDeviceName_nonEmpty|].
  split; [exact Hr|]. split; [exact Hs|]. exists evs. exact Ht.
Qed.

(** [saveConfig], run: the file it writes holds the configuration it put
    in place. *)
Lemma saveConfig_file (h : Host) (partial : PartialConfig) (w : World) (st : St) :
  exists evs,
    config (worker (stateAfter (saveConfig h partial w st))) =
      mergedConfig h partial (config (worker st)) /\
    trace (stateAfter (saveConfig h partial w st)) =
      (trace st ++ EvWriteFile (mergedConfig h partial (config (worker st)))
                     (savedSession (worker st)) :: evs)%list.
Proof.
  unfold saveConfig. rewrite bind_run, modify_run. cbv beta iota.
  rewrite bind_run, persistState_run.
  destruct (writeFile w _) as [e|]; cbv beta iota.
  - exists []. split; reflexivity.
  - rewrite bind_run.
    match goal with
    | |- context [pushLog ?lv ?msg w ?s0] => destruct (pushLog_run lv msg w s0) as [l ->]
    end.
    cbv beta iota. unfold getPublicState. rewrite bind_run, getWorker_run.
    cbv beta iota. eexists. split; [reflexivity|].
    cbn [stateAfter snd mret M_ret emit withWorker worker trace config savedSession
         set_config]. rewrite <- app_assoc. reflexivity.
Qed.

Lemma loadPersistedState_run (h : Host) (parsed : PersistedFile) (w : World) (st : St) :
  loadPersistedState h (Some parsed) w st =
  (Ok tt,
   withWorker (set_savedSession (toSessionSnapshot (pf_session parsed)))
     (withWorker (fun x => set_config (mergedConfig h (pf_config parsed) (config x)) x)
        st)).
Proof. reflexivity. Qed.

(** A configuration that [saveConfig] saved and [loadPersistedState] loads
    again, into a worker in any state: the file that [saveConfig] wrote
    holds the configuration it put in place, and loading that file gives
    the same poll interval, claim limit and automatic start, and the
    consumer id without the dash that the cut to 64 characters may have
    left at its end. *)
Theorem saved_configuration_reloads (h : Host) (partial : PartialConfig)
    (w w2 : World) (st st2 : St) :
  exists c s evs,
    trace (stateAfter (saveConfig h partial w st)) =
      (trace st ++ EvWriteFile c s :: evs)%list /\
    config (worker (stateAfter (saveConfig h partial w st))) = c /\
    let loaded :=
      config (worker (stateAfter (loadPersistedState h (Some (fileOf c s)) w2 st2))) in
    pollMs loaded = pollMs c /\ claimLimit loaded = claimLimit c /\
    autoStart loaded = autoStart c /\
    consumerId loaded = dropEnd isDash (consumerId c).
Proof.
  destruct (saveConfig_file h partial w st) as (evs & Hc & Ht).
  exists (mergedConfig h partial (config (worker st))), (savedSession (worker st)), evs.
  split; [exact Ht|]. split; [exact Hc|].
  rewrite loadPersistedState_run.
  cbv zeta. cbn [stateAfter snd withWorker worker set_savedSession set_config config
                 mergedConfig fileOf pf_config pc_pollMs pc_claimLimit pc_autoStart
                 pc_consumerId pollMs claimLimit autoStart consumerId default].
  split; [apply sanitizePollMs_idempotent|].
  split; [apply sanitizeClaimLimit_idempotent|].
  split; [reflexivity|].
  exact (sanitizeConsumerId_twice_helper h
           (default (consumerId (config (worker st))) (pc_consumerId partial))).
Qed.

Lemma Returns_loadPersistedState h file : Returns (loadPersistedState h file).
Proof. unfold loadPersistedState. frame. Qed.

(** [init] never throws, also when the automatic start fails; and without
    a saved session, or with the automatic start off, it does nothing
    after it loaded the file: it leaves no event and starts nothing. *)
Theorem init_starts_only_with_session (h : Host) (file : option PersistedFile)
    (w : World) (st : St) :
  let loaded := stateAfter (loadPersistedState h file w st) in
  (exists st', init h file w st = (Ok tt, st')) /\
  trace loaded = trace st /\ running (worker loaded) = running (worker st) /\
  (autoStart (config (worker loaded)) = false \/ savedSession (worker loaded) = None ->
   init h file w st = (Ok tt, loaded)).
Proof.
  cbv zeta.
  assert (Hload : exists st1, loadPersistedState h file w st = (Ok tt, st1) /\
                              trace st1 = trace st /\
                              running (worker st1) = running (worker st)).
  { unfold loadPersistedState. destruct file as [parsed|].
    - rewrite bind_run, modify_run. cbv beta iota. rewrite modify_run.
      eexists. split; [reflexivity|]. split; reflexivity.
    - eexists. split; [reflexivity|]. split; reflexivity. }
  destruct Hload as (st1 & Hl & Ht & Hr). rewrite Hl. cbn [stateAfter snd].
  split; [|split; [exact Ht|split; [exact Hr|]]].
  - unfold init. rewrite bind_run, Hl. cbv beta iota.
    rewrite bind_run, getWorker_run. cbv beta iota.
    destruct (autoStart (config (worker st1)) && _).
    + rewrite tryCatch_run.
      destruct ((startService;; mret tt) w st1) as [[[]|e] st2].
      * eexists. reflexivity.
      * destruct (pushLog_run WARN ("Avvio automatico non riuscito: " ++ normalizeError e)
                    w st2) as [l ->].
        eexists. reflexivity.
    + eexists. reflexivity.
  - intros Hoff. unfold init. rewrite bind_run, Hl. cbv beta iota.
    rewrite bind_run, getWorker_run. cbv beta iota.
    destruct Hoff as [-> | ->]; [reflexivity|].
    rewrite andb_false_r. reflexivity.
Qed.

(** ** The session in the persisted file *)

Lemma digits2_pos_bound (p : positive) : Zpos p < 2 ^ Zpos (digits2_pos p).
Proof.
  induction p as [p IH|p IH|]; simpl digits2_pos.
  - rewrite Pos2Z.inj_succ, Z.pow_succ_r by lia. lia.
  - rewrite Pos2Z.inj_succ, Z.pow_succ_r by lia. lia.
  - reflexivity.
Qed.

Lemma digits2_pos_small (p : positive) : Zpos p < 2 ^ 53 -> Zpos (digits2_pos p) <= 53.
Proof.
  intros Hp. pose proof (Pos2Z.is_pos (digits2_pos p)).
  destruct (Z_le_gt_dec (Zpos (digits2_pos p)) 53) as [|Hgt]; [assumption|exfalso].
  assert (Hlow : 2 ^ (Zpos (digits2_pos p) - 1) <= Zpos p).
  { clear. induction p as [p IH|p IH|]; simpl digits2_pos.
    - rewrite Pos2Z.inj_succ.
      replace (Z.succ (Zpos (digits2_pos p)) - 1) with (Z.succ (Zpos (digits2_pos p) - 1)) by lia.
      rewrite Z.pow_succ_r by lia. lia.
    - rewrite Pos2Z.inj_succ.
      replace (Z.succ (Zpos (digits2_pos p)) - 1) with (Z.succ (Zpos (digits2_pos p) - 1)) by lia.
      rewrite Z.pow_succ_r by lia. lia.
    - simpl. lia. }
  assert (2 ^ 53 <= 2 ^ (Zpos (digits2_pos p) - 1)) by (apply Z.pow_le_mono_r; lia).
  lia.
Qed.

(** An integer below [2^53] in magnitude is a number exactly, of either
    sign. *)
Lemma binary_round_small (s : bool) (p : positive) :
  Zpos p < 2 ^ 53 ->
  exists m e, binary_round prec emax s p 0 = S754_finite s m e /\ e <= 0 /\
              Zpos m = Z.shiftl (Zpos p) (- e).
Proof.
  intros Hp. pose proof (digits2_pos_small p Hp) as Hd.
  unfold binary_round.
  set (d := digits2_pos p) in *.
  assert (Hf : fexp prec emax (Zpos d + 0) = Zpos d - 53).
  { unfold fexp, emin, prec, emax. lia. }
  rewrite Hf. unfold shl_align.
  destruct (Zpos d - 53 - 0) as [|q|q] eqn:Hq; try lia.
  - exists p, 0. split; [|split; [lia|reflexivity]].
    unfold binary_round_aux, shr_fexp. simpl Zdigits2. fold d.
    rewrite Hf. replace (Zpos d - 53 - 0) with 0 by lia.
    simpl. fold d. rewrite Hf. replace (Zpos d - 53 - 0) with 0 by lia.
    simpl. reflexivity.
  - exists (Pos.iter xO p q), (Zpos d - 53). split; [|split; [lia|]].
    + unfold binary_round_aux, shr_fexp. simpl Zdigits2.
      rewrite digits2_iter_xO. fold d.
      assert (Hf2 : fexp prec emax (Zpos (d + q) + (Zpos d - 53)) = Zpos d - 53).
      { unfold fexp, emin, prec, emax. lia. }
      rewrite Hf2. rewrite Z.sub_diag. simpl.
      rewrite digits2_iter_xO. fold d. rewrite Hf2. rewrite Z.sub_diag. simpl.
      destruct (Zpos d - 53 <=? emax - prec) eqn:E; [reflexivity|].
      unfold emax, prec in E. lia.
    + rewrite Zpos_iter_xO. f_equal. lia.
Qed.

Lemma valid_mantissa_small s m e :
  valid_binary prec emax (S754_finite s m e) = true -> e < 0 -> Zpos m < 2 ^ 53.
Proof.
  unfold valid_binary, bounded, canonical_mantissa, fexp, emin, prec, emax.
  intros [Hc _]%andb_true_iff He. apply Z.eqb_eq in Hc.
  pose proof (digits2_pos_bound m) as Hb.
  assert (Hd : Zpos (digits2_pos m) <= 53) by lia.
  assert (2 ^ Zpos (digits2_pos m) <= 2 ^ 53) by (apply Z.pow_le_mono_r; lia).
  lia.
Qed.

(** [Math.trunc] of a number gives a number that [Math.trunc] leaves as it
    is, finite like the number. *)
Lemma Math_trunc_fix (n : number) :
  valid_binary prec emax n = true ->
  Math_trunc (Math_trunc n) = Math_trunc n /\ isFinite (Math_trunc n) = isFinite n.
Proof.
  intros Hv. destruct n as [s| s| |s m e]; try (split; reflexivity).
  destruct (0 <=? e) eqn:He.
  - assert (Heq : Math_trunc (S754_finite s m e) = S754_finite s m e)
      by (unfold Math_trunc; rewrite He; reflexivity).
    rewrite !Heq. split; reflexivity.
  - assert (Heq : Math_trunc (S754_finite s m e) =
                  binary_normalize prec emax (truncZ (S754_finite s m e)) 0 s)
      by (unfold Math_trunc; rewrite He; reflexivity).
    rewrite !Heq. clear Heq.
    pose proof He as He'. apply Z.leb_gt in He.
    pose proof (valid_mantissa_small s m e Hv He) as Hm.
    unfold truncZ. rewrite He'.
    assert (Hz : 0 <= Z.shiftr (Zpos m) (- e) < 2 ^ 53).
    { rewrite Z.shiftr_div_pow2 by lia.
      assert (0 < 2 ^ (- e)) by (apply Z.pow_pos_nonneg; lia).
      split; [apply Z.div_pos; lia|].
      apply Z.le_lt_trans with (Zpos m); [|exact Hm].
      apply Z.div_le_upper_bound; [lia|]. nia. }
    destruct (Z.shiftr (Zpos m) (- e)) as [|p|p] eqn:Ez; try lia.
    + destruct s; split; reflexivity.
    + assert (Hr : exists m' e', binary_normalize prec emax (if s then - Zpos p else Zpos p) 0 s
                                 = S754_finite s m' e' /\ e' <= 0 /\
                                   Zpos m' = Z.shiftl (Zpos p) (- e')).
      { destruct s; simpl; apply binary_round_small; lia. }
      destruct Hr as (m' & e' & Hr & He'' & Hm').
      rewrite Hr. split; [|reflexivity].
      unfold Math_trunc. destruct (0 <=? e') eqn:E0; [reflexivity|].
      unfold truncZ. rewrite E0, Hm'.
      rewrite Z.shiftr_shiftl_l by lia. rewrite Z.sub_diag, Z.shiftl_0_r.
      exact Hr.
Qed.

Lemma strict_equals_refl (n : number) : n <> NaN -> strict_equals n n = true.
Proof.
  destruct n as [s|s| |s m e]; intros Hn; unfold strict_equals.
  - reflexivity.
  - simpl. destruct s; reflexivity.
  - exfalso. apply Hn. reflexivity.
  - apply number_eqb_eq. reflexivity.
Qed.

(** A snapshot that [toSessionSnapshot] made, written as JSON and read
    back by [toSessionSnapshot]. *)
Lemma snapshot_reads_back (raw : RawSession) (s : SessionSnapshot) :
  valid_binary prec emax (toNumber (raw_expires_at raw)) = true ->
  toSessionSnapshot (Some raw) = Some s ->
  exists s',
    toSessionSnapshot (Some (rawOfSnapshot s)) = Some s' /\
    sameSession (Some s') (Some s) = true /\
    (expires_at s = None -> expires_at s' = Some (of_Z 0)).
Proof.
  intros Hv. unfold toSessionSnapshot at 1. cbv zeta.
  destruct (nonEmpty (trim (default "" (raw_access_token raw)))) eqn:Ha; [|discriminate].
  destruct (nonEmpty (trim (default "" (raw_refresh_token raw)))) eqn:Hb; [|discriminate].
  cbn [negb orb]. intros [= <-].
  unfold toSessionSnapshot, rawOfSnapshot. cbv zeta.
  cbn [raw_access_token raw_refresh_token raw_expires_at access_token refresh_token
       expires_at default].
  repeat match goal with |- context [id ?x] => change (id x) with x end.
  rewrite !trim_idempotent, Ha, Hb. cbn [negb orb].
  eexists. split; [reflexivity|].
  destruct (Math_trunc_fix _ Hv) as [Hfix Hfin].
  destruct (isFinite (toNumber (raw_expires_at raw))) eqn:Hf.
  - cbn [toNumber]. rewrite Hfin, Hfix. split; [|discriminate].
    unfold sameSession. cbn [access_token refresh_token expires_at].
    rewrite !String.eqb_refl. cbn [andb]. apply strict_equals_refl.
    unfold numberOrZero. destruct (truthy (Math_trunc _)) eqn:Ht; [|discriminate].
    intros Hn. rewrite Hn in Ht. discriminate.
  - split; [|intros _; reflexivity].
    unfold sameSession. cbn [access_token refresh_token expires_at toNumber isFinite].
    rewrite !String.eqb_refl. reflexivity.
Qed.

(** The saved session, written to the file by [persistState] and read
    back by [loadPersistedState] into a worker in any state, is the same
    session for [sameSession]: [persistState] writes the configuration and
    the saved session, and loading that file leaves a saved session that
    compares equal to the one written; a missing expiry comes back as 0,
    which [sameSession] reads as missing.  The saved session is one that
    [toSessionSnapshot] made, as every saved session is; the expiry it was
    made from is a well-formed double, as every JavaScript number is. *)
Theorem saved_session_reloads (h : Host) (raw : RawSession) (s : SessionSnapshot)
    (w w2 : World) (st st2 : St) :
  valid_binary prec emax (toNumber (raw_expires_at raw)) = true ->
  toSessionSnapshot (Some raw) = Some s ->
  savedSession (worker st) = Some s ->
  trace (stateAfter (persistState w st)) =
    (trace st ++ [EvWriteFile (config (worker st)) (Some s)])%list /\
  exists s',
    savedSession
      (worker (stateAfter
         (loadPersistedState h (Some (fileOf (config (worker st)) (Some s))) w2 st2))) =
      Some s' /\
    sameSession (Some s') (Some s) = true /\
    (expires_at s = None -> expires_at s' = Some (of_Z 0)).
Proof.
  intros Hv Hs Hsaved. split.
  - rewrite persistState_run, Hsaved. destruct (writeFile w _); reflexivity.
  - rewrite loadPersistedState_run.
    cbn [stateAfter snd withWorker worker set_savedSession savedSession fileOf pf_session
         option_map].
    exact (snapshot_reads_back raw s Hv Hs).
Qed.

Lemma saved_session_reloads_witness :
  let s := {| access_token := "access"; refresh_token := "refresh";
              expires_at := Some (of_Z 1705321800) |} in
  let st := {| worker := set_savedSession (Some s) Fixture.startedWorker; trace := [] |} in
  trace (stateAfter (persistState Fixture.rejecting st)) =
    [EvWriteFile Fixture.workerConfig (Some s)] /\
  exists s',
    savedSession
      (worker (stateAfter
         (loadPersistedState Sample.cassa (Some (fileOf Fixture.workerConfig (Some s)))
            Fixture.rejecting Sample.stopped))) = Some s' /\
    sameSession (Some s') (Some s) = true /\
    (expires_at s = None -> expires_at s' = Some (of_Z 0)).
Proof.
  intros s st.
  apply (saved_session_reloads Sample.cassa
           {| raw_access_token := Some " access "; raw_refresh_token := Some "refresh";
              raw_expires_at := RawNum (of_ratio 17053218005 10) |}
           s Fixture.rejecting Fixture.rejecting st Sample.stopped);
    vm_compute; reflexivity.
Defined.
(** ** The fiscal document: the text of the cents *)

Lemma isDigit_notQuote (c : ascii) : isDigit c = true -> notQuote c = true.
Proof. each_char c; vm_compute; intros; congruence. Qed.

Lemma decimal_digits (z : Z) : 0 <= z -> forall_chars isDigit (decimal z) = true.
Proof.
  destruct z as [|p|p]; simpl; intros Hz.
  - reflexivity.
  - apply digits_fuel_digits. reflexivity.
  - lia.
Qed.

Lemma exponential_notQuote (c : Z) : forall_chars notQuote (exponential c) = true.
Proof.
  unfold exponential. cbv zeta.
  pose proof (forall_chars_dropEnd notQuote isZeroDigit _ (decimal_notQuote c)) as Hd.
  destruct (dropEnd isZeroDigit (decimal c)) as [|d [|d2 rest]].
  - apply decimal_notQuote.
  - rewrite !forall_chars_app, Hd, decimal_notQuote. reflexivity.
  - cbn [forall_chars] in Hd. apply andb_true_iff in Hd as [H1 H2].
    rewrite !forall_chars_app. cbn [forall_chars].
    rewrite forall_chars_app, H1, decimal_notQuote. cbn [forall_chars].
    cbn [forall_chars] in H2. rewrite H2. reflexivity.
Qed.

Lemma integerText_notQuote (z : Z) : forall_chars notQuote (integerText z) = true.
Proof.
  unfold integerText. destruct (z <? 2 ^ 53); [apply decimal_notQuote|].
  cbv zeta. destruct (shortest z <? 10 ^ 21);
    [apply decimal_notQuote | apply exponential_notQuote].
Qed.

Lemma numberText_notQuote (c : Integral) : forall_chars notQuote (numberText c) = true.
Proof.
  destruct c as [z|]; [|reflexivity]. unfold numberText.
  destruct (z <? 0); [|apply integerText_notQuote].
  rewrite forall_chars_app, integerText_notQuote. reflexivity.
Qed.

Lemma roundZ_is_nearest (n : number) :
  isFinite n = true -> nearestInteger n (roundZ n).
Proof.
  destruct n as [s|s| |s m e]; try discriminate; intros _.
  - reflexivity.
  - unfold nearestInteger. cbv zeta. destruct (0 <=? e) eqn:E.
    + unfold roundZ. rewrite E. apply Z.leb_le in E.
      rewrite Z.shiftl_mul_pow2 by lia. destruct s; lia.
    + apply Z.leb_gt in E. exact (roundZ_nearest s m e E).
Qed.

Lemma centsOf_spec (payload : FiscalPayload) :
  centsSpec (total_amount payload) (centsOf payload).
Proof.
  unfold centsSpec, centsOf, toCents.
  destruct (negb (isFinite (total_amount payload)) || leZero (total_amount payload));
    [reflexivity|].
  destruct (SFmul prec emax (total_amount payload) (of_Z 100)) as [s|s| |s m e] eqn:Ep;
    cbn [atLeastOne]; try reflexivity; try exact Logic.I.
  - exists 0. split; [reflexivity|]. reflexivity.
  - exists (roundZ (S754_finite s m e)).
    split; [apply roundZ_is_nearest; reflexivity|]. f_equal. lia.
Qed.

Lemma buildEpsonFiscalReceiptXml_elements (payload : FiscalPayload) :
  readElements (buildEpsonFiscalReceiptXml payload) =
  fiscalElements (escapeXml ("Sushiamo Tavolo " ++ tableOf payload))
                 (paymentLabelOf payload) (numberText (centsOf payload)).
Proof.
  unfold buildEpsonFiscalReceiptXml. cbv zeta.
  fold (centsOf payload). rewrite paymentLabel_agrees. fold (tableOf payload).
  apply readElements_fiscal.
  - apply escapeXml_notQuote.
  - unfold paymentLabelOf. destruct (String.eqb _ _); reflexivity.
  - apply numberText_notQuote.
Qed.

(** The document of [buildEpsonFiscalReceiptXml], for every payload.  It
    reads back as the one [FPMessage] with [beginFiscalReceipt
    operator="1"], a [printRecItem] whose description is "Sushiamo Tavolo "
    and the trimmed table number ("-" when it is empty), escaped, whose
    price is the text of the cents, with quantity, department and vatCode
    "1", a [printRecTotal] whose description is ELETTRONICO when the
    payment method, trimmed and in lower case, is "card" and CONTANTI
    otherwise, and whose payment is the same text, and [endFiscalReceipt].
    In the description each ampersand, angle bracket, double quote and
    apostrophe is written as its entity.  The cents are 1 for a total that
    is not finite or not positive; else the integer nearest to the product
    of the total and 100 (a tie going up), and at least 1; their text is
    their decimal digits below 2^53. *)
Theorem fiscal_receipt_document (payload : FiscalPayload) :
  readElements (buildEpsonFiscalReceiptXml payload) =
    fiscalElements (escapeXml ("Sushiamo Tavolo " ++ tableOf payload))
                   (paymentLabelOf payload) (numberText (centsOf payload)) /\
  escapeXml ("Sushiamo Tavolo " ++ tableOf payload) =
    flat_map_chars xmlEntity ("Sushiamo Tavolo " ++ tableOf payload) /\
  forall_chars (fun c => negb (isXmlSpecial c))
    (escapeXml ("Sushiamo Tavolo " ++ tableOf payload)) = true /\
  centsSpec (total_amount payload) (centsOf payload) /\
  (forall z, 0 <= z < 2 ^ 53 -> numberText (IntVal z) = decimal z) /\
  ((exists z, centsOf payload = IntVal z /\ 1 <= z) \/ centsOf payload = PlusInfinity).
Proof.
  split; [apply buildEpsonFiscalReceiptXml_elements|].
  split; [apply escapeXml_entities|].
  split; [apply escapeXml_plain|].
  split; [apply centsOf_spec|].
  split.
  - intros z [H0 Hz]. unfold numberText, integerText.
    destruct (z <? 0) eqn:E; [apply Z.ltb_lt in E; lia|].
    destruct (z <? 2 ^ 53) eqn:E2; [reflexivity | apply Z.ltb_ge in E2; lia].
  - unfold centsOf. destruct (toCents (total_amount payload)) as [z|].
    + left. exists (Z.max 1 z). split; [reflexivity | lia].
    + right. reflexivity.
Qed.

Lemma attribute_fiscal (description paymentLabel centsText : string) :
  let elements := fiscalElements description paymentLabel centsText in
  (forall doc, readElements doc = elements ->
     attribute doc "printRecItem" "price" = Some centsText /\
     attribute doc "printRecTotal" "payment" = Some centsText).
Proof.
  intros elements doc Hd. unfold attribute. rewrite Hd. split; reflexivity.
Qed.

(** C6, a slip of the code.  [toCents] tests that the total is a finite
    number and misses that its product with 100 may not be: for every
    finite positive total whose product with 100 overflows, the price of
    the item and the payment of the total read "Infinity", which is no
    integer. *)
Theorem fiscal_cents_overflow (payload : FiscalPayload) :
  isFinite (total_amount payload) = true ->
  leZero (total_amount payload) = false ->
  SFmul prec emax (total_amount payload) (of_Z 100) = Infinity ->
  attribute (buildEpsonFiscalReceiptXml payload) "printRecItem" "price" =
    Some "Infinity" /\
  attribute (buildEpsonFiscalReceiptXml payload) "printRecTotal" "payment" =
    Some "Infinity".
Proof.
  intros Hf Hp Hm.
  assert (Hc : numberText (centsOf payload) = "Infinity").
  { unfold centsOf, toCents. rewrite Hf, Hp, Hm. reflexivity. }
  rewrite <- Hc.
  exact (attribute_fiscal _ _ _ _ (buildEpsonFiscalReceiptXml_elements payload)).
Qed.

(** The total 1e307 is such a total. *)
Lemma fiscal_cents_overflow_witness :
  valid_binary prec emax (total_amount Fixture.hugePayload) = true /\
  attribute (buildEpsonFiscalReceiptXml Fixture.hugePayload) "printRecItem" "price" =
    Some "Infinity" /\
  attribute (buildEpsonFiscalReceiptXml Fixture.hugePayload) "printRecTotal" "payment" =
    Some "Infinity".
Proof.
  split; [vm_compute; reflexivity|].
  apply (fiscal_cents_overflow Fixture.hugePayload); vm_compute; reflexivity.
Defined.

(** Below the overflow, a total of 1e20 gives cents that are written in
    exponent notation. *)
Lemma fiscal_cents_exponent :
  valid_binary prec emax (total_amount Fixture.largePayload) = true /\
  centsOf Fixture.largePayload = IntVal (10 ^ 22) /\
  attribute (buildEpsonFiscalReceiptXml Fixture.largePayload) "printRecItem" "price" =
    Some "1e+22".
Proof. vm_compute. auto. Qed.

(** A total of 91000000000000 gives cents above 2^53, written with all
    their digits. *)
Lemma fiscal_cents_beyond_safe_integers :
  let payload := {| table_number := Some "9"; payment_method := Some "cash";
                    total_amount := of_Z 91000000000000 |} in
  centsOf payload = IntVal 9100000000000000 /\
  attribute (buildEpsonFiscalReceiptXml payload) "printRecItem" "price" =
    Some "9100000000000000".
Proof. vm_compute. auto. Qed.

(** A total of 12.34 paid by card at table 9. *)
Lemma fiscal_receipt_document_example :
  readElements (buildEpsonFiscalReceiptXml Fixture.cardPayload) =
  fiscalElements "Sushiamo Tavolo 9" "ELETTRONICO" "1234".
Proof. vm_compute. reflexivity. Qed.
(** ** The worker: the calls of each job family *)

Section FamilyFrame.

Variable rd : Renderers.

(** [I] reads the backend settings and the two availability flags; [p]
    accepts every event that is no call of a job family. *)
Variable Q : string -> string -> bool -> bool -> Prop.
Variable p : Event -> Prop.

Local Abbreviation I :=
  (fun x : Worker =>
     Q (VITE_SUPABASE_URL x) (VITE_SUPABASE_ANON_KEY x)
       (physicalReceiptRpcAvailable x) (nonFiscalReceiptRpcAvailable x)).

Hypothesis p_none : forall ev, familyOf ev = None -> p ev.

Local Hint Extern 4 (p _) => (apply p_none; reflexivity) : framedb.

Lemma pushLog_calls level message : Extends I p (pushLog level message).
Proof. unfold pushLog. frame. Qed.
Local Hint Resolve pushLog_calls : framedb.

Lemma broadcastState_calls : Extends I p broadcastState.
Proof. unfold broadcastState. frame. Qed.
Local Hint Resolve broadcastState_calls : framedb.

Lemma persistState_calls : Extends I p persistState.
Proof. unfold persistState. frame. Qed.
Local Hint Resolve persistState_calls : framedb.

Lemma sleep_calls ms : Extends I p (sleep ms).
Proof. unfold sleep. frame. Qed.
Local Hint Resolve sleep_calls : framedb.

Lemma ensureSupabaseClient_calls : Extends I p ensureSupabaseClient.
Proof. unfold ensureSupabaseClient. frame. Qed.
Local Hint Resolve ensureSupabaseClient_calls : framedb.

Lemma resolveRestaurant_calls userId :
  Extends I p (resolveRestaurantForCurrentUser userId).
Proof. unfold resolveRestaurantForCurrentUser. frame. Qed.
Local Hint Resolve resolveRestaurant_calls : framedb.

Lemma ensureSignedIn_calls : Extends I p ensureSignedIn.
Proof. unfold ensureSignedIn. frame. Qed.
Local Hint Resolve ensureSignedIn_calls : framedb.

Lemma fetchAssignedPrinterId_calls : Extends I p fetchAssignedPrinterId.
Proof. unfold fetchAssignedPrinterId. frame. Qed.
Local Hint Resolve fetchAssignedPrinterId_calls : framedb.

Lemma heartbeatAgent_calls isActive : Extends I p (heartbeatAgent isActive).
Proof. unfold heartbeatAgent. frame. Qed.
Local Hint Resolve heartbeatAgent_calls : framedb.

Lemma fetchLivePrinterRoutes_calls r : Extends I p (fetchLivePrinterRoutes r).
Proof. unfold fetchLivePrinterRoutes. frame. Qed.
Local Hint Resolve fetchLivePrinterRoutes_calls : framedb.

Lemma connectSocket_calls host port payload :
  Extends I p (connectSocket host port payload).
Proof. unfold connectSocket. frame. Qed.
Local Hint Resolve connectSocket_calls : framedb.

Lemma attemptLoop_calls {A} rounds attempt lastError (transport : M A) :
  Extends I p transport -> Extends I p (attemptLoop rounds attempt lastError transport).
Proof.
  intros Ht. revert attempt lastError.
  induction rounds as [|n IH]; intros attempt lastError.
  - change (attemptLoop 0 attempt lastError transport) with (@mret M _ _ (@inr A _ lastError)).
    frame.
  - rewrite attemptLoop_S. frame.
Qed.
Local Hint Resolve attemptLoop_calls : framedb.

Lemma sendToPrinter_calls job route : Extends I p (sendToPrinter rd job route).
Proof. unfold sendToPrinter. frame. Qed.
Local Hint Resolve sendToPrinter_calls : framedb.

Lemma postPhysicalReceipt_calls job : Extends I p (postPhysicalReceipt rd job).
Proof. unfold postPhysicalReceipt. frame. Qed.
Local Hint Resolve postPhysicalReceipt_calls : framedb.

Lemma sendToPhysicalReceiptDevice_calls job :
  Extends I p (sendToPhysicalReceiptDevice rd job).
Proof. unfold sendToPhysicalReceiptDevice. frame. apply attemptLoop_calls. frame. Qed.
Local Hint Resolve sendToPhysicalReceiptDevice_calls : framedb.

Lemma sendToNonFiscalReceiptPrinter_calls job :
  Extends I p (sendToNonFiscalReceiptPrinter rd job).
Proof. unfold sendToNonFiscalReceiptPrinter. frame. Qed.
Local Hint Resolve sendToNonFiscalReceiptPrinter_calls : framedb.

Lemma runTickEnter_calls : Extends I p runTickEnter.
Proof. unfold runTickEnter. frame. Qed.

(** The [catch] and [finally] blocks of a tick. *)
Lemma tickCatch_calls (error : JsError) :
  Extends I p
    (modify (fun w => set_stats (failedRun (normalizeError error) (stats w)) w);;
     pushLog ERROR ("Tick error: " ++ normalizeError error)).
Proof. frame. Qed.

Lemma tickFinally_calls :
  Extends I p
    (modify (set_processing false);;
     broadcastState;;
     w ← getWorker;
     if running w then
       call (EvSetTimeout (pollMs (config w))) (fun _ _ => tt);;
       modify (set_timer (Some (pollMs (config w))))
     else mret tt).
Proof. frame. Qed.

(** The kitchen loop issues calls of the kitchen family. *)
Section KitchenCalls.

Hypothesis p_kitchen : forall ev, familyOf ev = Some Kitchen -> p ev.
Local Hint Extern 3 (p _) => (apply p_kitchen; reflexivity) : framedb.

Lemma completePrintJob_calls job success e :
  Extends I p (completePrintJob job success e).
Proof. unfold completePrintJob. frame. Qed.
Local Hint Resolve completePrintJob_calls : framedb.

Lemma kitchenJobStep_calls lr job : Extends I p (kitchenJobStep rd lr job).
Proof. unfold kitchenJobStep, kitchenJobTry, kitchenJobCatch. frame. Qed.

End KitchenCalls.

(** The fiscal block issues calls of the fiscal family, and may switch
    its flag off. *)
Section PhysicalCalls.

Hypothesis p_physical : forall ev, familyOf ev = Some Physical -> p ev.
Hypothesis Q_physical_off : forall u k a b, Q u k a b -> Q u k false b.

Local Hint Extern 3 (p _) => (apply p_physical; reflexivity) : framedb.
Local Hint Extern 3 (Q _ _ false _) => (eapply Q_physical_off; eassumption) : framedb.

Lemma completePhysicalReceiptJob_calls job success r e :
  Extends I p (completePhysicalReceiptJob job success r e).
Proof. unfold completePhysicalReceiptJob. frame. Qed.
Local Hint Resolve completePhysicalReceiptJob_calls : framedb.

Lemma physicalJobStep_calls job : Extends I p (physicalJobStep rd job).
Proof. unfold physicalJobStep, physicalJobTry, physicalJobCatch. frame. Qed.
Local Hint Resolve physicalJobStep_calls : framedb.

Lemma physicalBlock_calls r : Extends I p (physicalBlock rd r).
Proof. unfold physicalBlock. frame. Qed.

End PhysicalCalls.

(** The non-fiscal block, likewise. *)
Section NonFiscalCalls.

Hypothesis p_nonFiscal : forall ev, familyOf ev = Some NonFiscal -> p ev.
Hypothesis Q_nonFiscal_off : forall u k a b, Q u k a b -> Q u k a false.

Local Hint Extern 3 (p _) => (apply p_nonFiscal; reflexivity) : framedb.
Local Hint Extern 3 (Q _ _ _ false) => (eapply Q_nonFiscal_off; eassumption) : framedb.

Lemma completeNonFiscalReceiptJob_calls job success e :
  Extends I p (completeNonFiscalReceiptJob job success e).
Proof. unfold completeNonFiscalReceiptJob. frame. Qed.
Local Hint Resolve completeNonFiscalReceiptJob_calls : framedb.

Lemma nonFiscalJobStep_calls job : Extends I p (nonFiscalJobStep rd job).
Proof. unfold nonFiscalJobStep, nonFiscalJobTry, nonFiscalJobCatch. frame. Qed.
Local Hint Resolve nonFiscalJobStep_calls : framedb.

Lemma nonFiscalBlock_calls r : Extends I p (nonFiscalBlock rd r).
Proof. unfold nonFiscalBlock. frame. Qed.

End NonFiscalCalls.

End FamilyFrame.
(** ** The anatomy of a tick *)

Lemma sameSettings_refl x : sameSettings x x.
Proof. repeat split. Qed.

Lemma sameSettings_trans x y z : sameSettings x y -> sameSettings y z -> sameSettings x z.
Proof.
  intros ((H1 & H2) & H3 & H4) ((G1 & G2) & G3 & G4). repeat split; congruence.
Qed.

Lemma sameBackend_refl x : sameBackend x x.
Proof. split; reflexivity. Qed.

Lemma sameBackend_trans x y z : sameBackend x y -> sameBackend y z -> sameBackend x z.
Proof. intros (H1 & H2) (G1 & G2). split; congruence. Qed.

Lemma sameBackend_configValid x y :
  sameBackend x y -> configValid y = configValid x.
Proof. intros (H1 & H2). unfold configValid. rewrite H1, H2. reflexivity. Qed.

(** A computation that returns, run from a state: where it ends, what it
    added to the trace, and what it kept. *)
Lemma run_total {A} (m : M A) (I : Worker -> Prop) (p : Event -> Prop) w st :
  Returns m -> Extends I p m -> I (worker st) ->
  exists a st' evs,
    m w st = (Ok a, st') /\ trace st' = (trace st ++ evs)%list /\
    Forall p evs /\ I (worker st').
Proof.
  intros Hr He HI. destruct (Hr w st) as [a Ha]. destruct (He w st HI) as (evs & Ht & Hp & HI').
  destruct (m w st) as [r st'] eqn:E. simpl in *. subst r.
  exists a, st', evs. auto.
Qed.

(** The same for a computation that may throw. *)
Lemma run_partial {A} (m : M A) (I : Worker -> Prop) (p : Event -> Prop) w st :
  Extends I p m -> I (worker st) ->
  exists r st' evs,
    m w st = (r, st') /\ trace st' = (trace st ++ evs)%list /\
    Forall p evs /\ I (worker st').
Proof.
  intros He HI. destruct (He w st HI) as (evs & Ht & Hp & HI').
  destruct (m w st) as [r st'] eqn:E. simpl in *.
  exists r, st', evs. auto.
Qed.

Section Anatomy.

Variable rd : Renderers.

Local Abbreviation settingsAs x0 :=
  (fun u k a b =>
     u = VITE_SUPABASE_URL x0 /\ k = VITE_SUPABASE_ANON_KEY x0 /\
     a = physicalReceiptRpcAvailable x0 /\ b = nonFiscalReceiptRpcAvailable x0).

Lemma settingsAs_same x0 x :
  settingsAs x0 (VITE_SUPABASE_URL x) (VITE_SUPABASE_ANON_KEY x)
    (physicalReceiptRpcAvailable x) (nonFiscalReceiptRpcAvailable x) <->
  sameSettings x0 x.
Proof. unfold sameSettings, sameBackend. tauto. Qed.

Lemma Returns_kitchenLoop lr jobs : Returns (forEach jobs (kitchenJobStep rd lr)).
Proof. unfold kitchenJobStep, kitchenJobCatch, pushLog. frame. Qed.

Lemma Returns_physicalBlock r : Returns (physicalBlock rd r).
Proof. unfold physicalBlock, pushLog. frame. Qed.

Lemma Returns_nonFiscalBlock r : Returns (nonFiscalBlock rd r).
Proof. unfold nonFiscalBlock, pushLog. frame. Qed.

Lemma ensureSupabaseClient_invalid w st :
  configValid (worker st) = false ->
  exists e, ensureSupabaseClient w st = (Throw e, st).
Proof.
  unfold configValid, ensureSupabaseClient. rewrite bind_run, getWorker_run. cbv beta iota.
  intros H. apply andb_false_iff in H.
  destruct (nonEmpty (trim (VITE_SUPABASE_URL (worker st))));
    destruct (nonEmpty (trim (VITE_SUPABASE_ANON_KEY (worker st))));
    cbn [negb orb]; try (eexists; reflexivity).
  destruct H; discriminate.
Qed.

Lemma noFamily_none (ev : Event) : familyOf ev = None -> noFamily ev.
Proof. intros H. exact H. Qed.

Lemma any_event (ev : Event) : familyOf ev = None -> (fun _ : Event => True) ev.
Proof. intros _. exact Logic.I. Qed.

Lemma any_event' (f : Family) (ev : Event) :
  familyOf ev = Some f -> (fun _ : Event => True) ev.
Proof. intros _. exact Logic.I. Qed.

Ltac run_next Hret Hext :=
  match goal with
  | |- context [match ?x with pair _ _ => _ end] =>
      lazymatch x with
      | ?m ?w ?s =>
          let a := fresh "a" in let st' := fresh "st" in let evs := fresh "evs" in
          let E := fresh "E" in let T := fresh "T" in let P := fresh "P" in
          let K := fresh "K" in
          destruct (run_total m _ _ w s Hret Hext) as (a & st' & evs & E & T & P & K);
            [ | rewrite E; cbv beta iota]
      end
  end.

Ltac run_maybe Hext :=
  match goal with
  | |- context [match ?x with pair _ _ => _ end] =>
      lazymatch x with
      | ?m ?w ?s =>
          let r := fresh "r" in let st' := fresh "st" in let evs := fresh "evs" in
          let E := fresh "E" in let T := fresh "T" in let P := fresh "P" in
          let K := fresh "K" in
          destruct (run_partial m _ _ w s Hext) as (r & st' & evs & E & T & P & K);
            [ | rewrite E; cbv beta iota]
      end
  end.

(** The part of the [try] block of a tick that follows the log row of the
    claim: the live routes, the kitchen loop, the two receipt blocks and
    the time of the run. *)
Lemma tickBlocks_anatomy (restaurant : string) (jobs : list JobRow) w st :
  exists mid lr st2 st3 st4 st5 st',
    (liveRoutes ←
       tryCatch (lr ← fetchLivePrinterRoutes restaurant; mret (Some lr))
         (fun routesError =>
            pushLog WARN ("Risoluzione route live fallita: "
                          ++ normalizeError routesError);;
            mret None);
     forEach jobs (kitchenJobStep rd liveRoutes);;
     physicalBlock rd restaurant;;
     nonFiscalBlock rd restaurant;;
     now ← clock isoNow;
     modify (fun w => set_stats (finishedRun now (stats w)) w)) w st = (Ok tt, st') /\
    trace st2 = (trace st ++ mid)%list /\ Forall noFamily mid /\
    sameSettings (worker st) (worker st2) /\
    forEach jobs (kitchenJobStep rd lr) w st2 = (Ok tt, st3) /\
    sameSettings (worker st2) (worker st3) /\
    physicalBlock rd restaurant w st3 = (Ok tt, st4) /\
    sameBackend (worker st3) (worker st4) /\
    nonFiscalReceiptRpcAvailable (worker st4) = nonFiscalReceiptRpcAvailable (worker st3) /\
    nonFiscalBlock rd restaurant w st4 = (Ok tt, st5) /\
    sameBackend (worker st4) (worker st5) /\
    physicalReceiptRpcAvailable (worker st5) = physicalReceiptRpcAvailable (worker st4) /\
    trace st' = trace st5 /\ sameSettings (worker st5) (worker st').
Proof.
  rewrite bind_run.
  assert (Hr : Returns
            (tryCatch (lr ← fetchLivePrinterRoutes restaurant; mret (Some lr))
               (fun routesError =>
                  pushLog WARN ("Risoluzione route live fallita: "
                                ++ normalizeError routesError);;
                  mret None))).
  { unfold pushLog. frame. }
  assert (He : Extends
            (fun x => settingsAs (worker st) (VITE_SUPABASE_URL x) (VITE_SUPABASE_ANON_KEY x)
                        (physicalReceiptRpcAvailable x) (nonFiscalReceiptRpcAvailable x))
            noFamily
            (tryCatch (lr ← fetchLivePrinterRoutes restaurant; mret (Some lr))
               (fun routesError =>
                  pushLog WARN ("Risoluzione route live fallita: "
                                ++ normalizeError routesError);;
                  mret None))).
  { pose proof (fetchLivePrinterRoutes_calls (settingsAs (worker st)) noFamily noFamily_none).
    pose proof (pushLog_calls (settingsAs (worker st)) noFamily noFamily_none).
    frame. }
  run_next Hr He. { repeat split. }
  apply settingsAs_same in K. rename a into lr, st0 into st2, evs into mid.
  rewrite bind_run.
  run_next (Returns_kitchenLoop lr jobs)
           (Extends_forEach _ _ jobs _
              (kitchenJobStep_calls rd (settingsAs (worker st2)) (fun _ => True)
                 any_event (any_event' Kitchen) lr)).
  { repeat split. }
  apply settingsAs_same in K0. destruct a. rename st0 into st3.
  rewrite bind_run.
  run_next (Returns_physicalBlock restaurant)
           (physicalBlock_calls rd
              (fun u k (a b : bool) =>
                 u = VITE_SUPABASE_URL (worker st3) /\
                 k = VITE_SUPABASE_ANON_KEY (worker st3) /\
                 b = nonFiscalReceiptRpcAvailable (worker st3))
              (fun _ => True) any_event (any_event' Physical)
              (fun u k a b H => H) restaurant).
  { repeat split. }
  destruct a. rename st0 into st4. destruct K1 as (K1a & K1b & K1c).
  rewrite bind_run.
  run_next (Returns_nonFiscalBlock restaurant)
           (nonFiscalBlock_calls rd
              (fun u k (a b : bool) =>
                 u = VITE_SUPABASE_URL (worker st4) /\
                 k = VITE_SUPABASE_ANON_KEY (worker st4) /\
                 a = physicalReceiptRpcAvailable (worker st4))
              (fun _ => True) any_event (any_event' NonFiscal)
              (fun u k a b H => H) restaurant).
  { repeat split. }
  destruct a. rename st0 into st5. destruct K1 as (K2a & K2b & K2c).
  rewrite bind_run. unfold clock at 1. cbv beta iota. rewrite modify_run.
  exists mid, lr, st2, st3, st4, st5. eexists.
  split; [reflexivity|].
  split; [exact T|]. split; [exact P|]. split; [exact K|].
  split; [exact E0|]. split; [exact K0|].
  split; [exact E1|]. split; [split; assumption|]. split; [exact K1c|].
  split; [exact E2|]. split; [split; assumption|]. split; [exact K2c|].
  split; [reflexivity|]. repeat split.
Qed.


(** The [try] block of a tick, run from any state.  Either it issues no
    call of a job family; or it stops at the claim of kitchen jobs, which
    answered an error; or the claim answered a batch, and the block goes
    through the kitchen loop and the two receipt blocks, from states that
    are given here. *)
Lemma tickBody_anatomy w st :
  exists res st', tickBody rd w st = (res, st') /\ tickShape rd w st st'.
Proof.
  unfold tickBody. rewrite bind_run.
  run_maybe (ensureSignedIn_calls (settingsAs (worker st)) noFamily noFamily_none).
  { repeat split. }
  apply settingsAs_same in K.
  destruct r as [[]|e].
  2:{ eexists _, _. split; [reflexivity|]. left. exists evs. auto. }
  unfold tickShape.
  rewrite bind_run, getWorker_run. cbv beta iota.
  destruct (restaurantId (worker st0)) as [restaurant|].
  2:{ eexists _, _. split; [reflexivity|]. left. exists evs. auto. }
  rewrite bind_run.
  run_maybe (heartbeatAgent_calls (settingsAs (worker st)) noFamily noFamily_none true).
  { apply settingsAs_same. exact K. }
  apply settingsAs_same in K0.
  destruct r as [[]|e].
  2:{ eexists _, _. split; [reflexivity|]. left. exists (evs ++ evs0)%list.
      rewrite T0, T, app_assoc. split; [reflexivity|]. split; [apply Forall_app; auto | exact K0]. }
  rewrite bind_run.
  destruct (configValid (worker st1)) eqn:Hc.
  2:{ destruct (ensureSupabaseClient_invalid w st1 Hc) as [e ->].
      eexists _, _. split; [reflexivity|]. left. exists (evs ++ evs0)%list.
      rewrite T0, T, app_assoc. split; [reflexivity|]. split; [apply Forall_app; auto | exact K0]. }
  rewrite (ensureSupabaseClient_run w st1 Hc). cbv beta iota.
  rewrite bind_run, getWorker_run. cbv beta iota. rewrite bind_run.
  unfold call at 1. cbv beta iota.
  cbn [withWorker worker trace config set_supabase].
  assert (Hpre : trace st1 = (trace st ++ (evs ++ evs0))%list).
  { rewrite T0, T, app_assoc. reflexivity. }
  assert (Hfa : Forall noFamily (evs ++ evs0)) by (apply Forall_app; auto).
  destruct (claimJobs w (length (trace st1))) as [error|jobs] eqn:Ec.
  - eexists _, _. split; [reflexivity|]. right. left.
    exists (evs ++ evs0)%list, (consumerId (config (worker st1))),
      (claimLimit (config (worker st1))), error, []. rewrite <- Hpre.
    split; [exact Ec|]. cbn [trace worker]. rewrite Hpre, <- app_assoc.
    split; [reflexivity|]. split; [exact Hfa|]. split; [constructor | exact K0].
  - rewrite bind_run, modify_run. cbv beta iota. rewrite bind_run.
    set (claim := EvClaim Kitchen (consumerId (config (worker st1)))
                    (claimLimit (config (worker st1)))).
    assert (Hlog : exists st_l rows,
              (if 0 <? countOf jobs
               then pushLog INFO ("Claimati " ++ decimal (countOf jobs) ++ " job")
               else mret tt) w
                (withWorker (fun w0 => set_stats (addClaimed (countOf jobs) (stats w0)) w0)
                   {| worker := set_supabase true (worker st1);
                      trace := (trace st1 ++ [claim])%list |}) = (Ok tt, st_l) /\
              trace st_l = (trace st1 ++ [claim] ++ rows)%list /\
              Forall noFamily rows /\ sameSettings (worker st1) (worker st_l)).
    { destruct (0 <? countOf jobs).
      - match goal with
        | |- context [pushLog ?lv ?msg w ?s0] =>
            destruct (pushLog_run lv msg w s0) as [l ->]
        end.
        eexists. exists [EvLog INFO ("Claimati " ++ decimal (countOf jobs) ++ " job")].
        split; [reflexivity|].
        cbn [emit withWorker worker trace]. rewrite <- app_assoc.
        split; [reflexivity|]. split; [repeat constructor | repeat split].
      - eexists. exists []. split; [reflexivity|].
        cbn [withWorker worker trace]. split; [reflexivity|].
        split; [constructor | repeat split]. }
    destruct Hlog as (st_l & rows & -> & Tl & Pl & Kl).
    destruct (tickBlocks_anatomy restaurant jobs w st_l)
      as (mid & lr & st2 & st3 & st4 & st5 & st' & Hrun & T2 & P2 & K2 & E3 & K3 &
          E4 & K4 & N4 & E5 & K5 & P5 & T' & K').
    rewrite Hrun. exists (Ok tt), st'. split; [reflexivity|]. right. right.
    exists (evs ++ evs0)%list, (consumerId (config (worker st1))),
      (claimLimit (config (worker st1))), jobs, (rows ++ mid)%list, lr, restaurant,
      st2, st3, st4, st5, [].
    rewrite <- Hpre, app_nil_r. split; [exact Ec|].
    split. { rewrite T2, Tl, Hpre, <- !app_assoc. reflexivity. }
    split; [exact Hfa|]. split; [apply Forall_app; auto|].
    assert (Ks : sameSettings (worker st) (worker st2)).
    { eapply sameSettings_trans; [exact K0|].
      eapply sameSettings_trans; [exact Kl | exact K2]. }
    split; [exact Ks|].
    split. { destruct Ks as (Kb & _). destruct K0 as (Kb0 & _).
             rewrite (sameBackend_configValid _ _ Kb), <- (sameBackend_configValid _ _ Kb0).
             exact Hc. }
    auto 20.
Qed.


Lemma tickShape_after w st st1 st' more :
  tickShape rd w st st1 ->
  trace st' = (trace st1 ++ more)%list -> Forall noFamily more ->
  sameSettings (worker st1) (worker st') ->
  tickShape rd w st st'.
Proof.
  intros [(evs & T & P & K) | [(pre & c & l & e & post & Ec & T & P & Pp & K) |
    (pre & c & l & jobs & mid & lr & r & st2 & st3 & st4 & st5 & post & H)]] T' P' K'.
  - left. exists (evs ++ more)%list. rewrite T', T, app_assoc.
    split; [reflexivity|]. split; [apply Forall_app; auto|].
    eapply sameSettings_trans; eassumption.
  - right. left. exists pre, c, l, e, (post ++ more)%list.
    split; [exact Ec|]. split; [rewrite T', T, <- !app_assoc; reflexivity|].
    split; [exact P|]. split; [apply Forall_app; auto|].
    eapply sameSettings_trans; eassumption.
  - right. right. exists pre, c, l, jobs, mid, lr, r, st2, st3, st4, st5, (post ++ more)%list.
    destruct H as (H1 & H2 & H3 & H4 & H5 & H6 & H7 & H8 & H9 & H10 & H11 & H12 & H13 &
                   H14 & T & Pp & K).
    repeat (split; [assumption|]).
    split; [rewrite T', T, app_assoc; reflexivity|].
    split; [apply Forall_app; auto|].
    eapply sameSettings_trans; eassumption.
Qed.

Lemma tickShape_before w st st0 st' pre0 :
  trace st0 = (trace st ++ pre0)%list -> Forall noFamily pre0 ->
  sameSettings (worker st) (worker st0) ->
  tickShape rd w st0 st' ->
  tickShape rd w st st'.
Proof.
  intros T0 P0 K0 [(evs & T & P & K) | [(pre & c & l & e & post & Ec & T & P & Pp & K) |
    (pre & c & l & jobs & mid & lr & r & st2 & st3 & st4 & st5 & post & H)]].
  - left. exists (pre0 ++ evs)%list. rewrite T, T0, app_assoc.
    split; [reflexivity|]. split; [apply Forall_app; auto|].
    eapply sameSettings_trans; eassumption.
  - right. left. exists (pre0 ++ pre)%list, c, l, e, post.
    rewrite T0, <- app_assoc in Ec.
    split; [exact Ec|]. split; [rewrite T, T0, <- !app_assoc; reflexivity|].
    split; [apply Forall_app; auto|]. split; [exact Pp|].
    eapply sameSettings_trans; eassumption.
  - right. right.
    exists (pre0 ++ pre)%list, c, l, jobs, mid, lr, r, st2, st3, st4, st5, post.
    destruct H as (H1 & H2 & H3 & H4 & H5 & H').
    rewrite T0, <- app_assoc in H1. rewrite T0, <- !app_assoc in H2.
    split; [exact H1|]. split; [rewrite <- !app_assoc; exact H2|].
    split; [apply Forall_app; auto|]. split; [exact H4|].
    split; [eapply sameSettings_trans; eassumption|]. exact H'.
Qed.

(** Every tick has this anatomy, and returns. *)
Lemma runTick_anatomy w st :
  exists st', runTick rd w st = (Ok tt, st') /\ tickShape rd w st st'.
Proof.
  unfold runTick. rewrite bind_run. unfold runTickEnter.
  rewrite bind_run, getWorker_run. cbv beta iota.
  destruct (negb (running (worker st)) || processing (worker st)).
  { exists st. split; [reflexivity|]. left. exists []. rewrite app_nil_r.
    split; [reflexivity|]. split; [constructor | apply sameSettings_refl]. }
  rewrite bind_run, modify_run. cbv beta iota.
  rewrite bind_run, broadcastState_run. cbv beta iota.
  set (st0 := emit _ _).
  assert (T0 : trace st0 = (trace st ++ [EvBroadcast (publicState (set_processing true (worker st)))])%list)
    by reflexivity.
  assert (K0 : sameSettings (worker st) (worker st0)) by (repeat split).
  change (@mret M M_ret bool true w st0) with (@Ok bool true, st0). cbv beta iota.
  unfold runTickRest, tryFinally. rewrite tryCatch_run.
  destruct (tickBody_anatomy w st0) as (res & st1 & -> & Hshape).
  assert (Hbody : exists st2,
            match res with
            | Ok a => (Ok a, st1)
            | Throw e =>
                (modify (fun w => set_stats (failedRun (normalizeError e) (stats w)) w);;
                 pushLog ERROR ("Tick error: " ++ normalizeError e)) w st1
            end = (Ok tt, st2) /\ tickShape rd w st0 st2).
  { destruct res as [[]|e].
    - exists st1. split; [reflexivity | exact Hshape].
    - destruct (run_total _ _ _ w st1
                  (Returns_bind _ _ (Returns_modify _) (fun _ => Returns_pushLog _ _))
                  (tickCatch_calls (settingsAs (worker st1)) noFamily noFamily_none e))
        as ([] & st2 & evs & E & T & P & K); [repeat split|].
      apply settingsAs_same in K.
      exists st2. split; [exact E|]. eapply tickShape_after; eassumption. }
  destruct Hbody as (st2 & -> & Hshape2).
  assert (Hr : Returns
            (modify (set_processing false);;
             broadcastState;;
             w ← getWorker;
             if running w then
               call (EvSetTimeout (pollMs (config w))) (fun _ _ => tt);;
               modify (set_timer (Some (pollMs (config w))))
             else mret tt)).
  { unfold broadcastState. frame. }
  destruct (run_total _ _ _ w st2 Hr
              (tickFinally_calls (settingsAs (worker st2)) noFamily noFamily_none))
    as ([] & st3 & evs & E & T & P & K); [repeat split|].
  apply settingsAs_same in K. rewrite E.
  exists st3. split; [reflexivity|].
  eapply tickShape_before; [exact T0 | repeat constructor | exact K0 |].
  eapply tickShape_after; eassumption.
Qed.

End Anatomy.
(** ** The kitchen loop: every claimed job is acknowledged *)

Section KitchenClaim.

Variable rd : Renderers.

(** A delivery reads the world and the position in the run, and no field
    of the worker. *)
Lemma sendToPrinter_run job route w t :
  exists outcome transport,
    forallb isTransport transport = true /\
    forall x,
      sendToPrinter rd job route w {| worker := x; trace := t |} =
      (outcome, {| worker := x; trace := (t ++ transport)%list |}).
Proof.
  unfold sendToPrinter. cbv zeta.
  destruct (nonEmpty (trim _)); cbn [negb].
  2:{ eexists _, []. split; [reflexivity|]. intros x. rewrite app_nil_r. reflexivity. }
  destruct (renderKitchen rd job) as [e|payload].
  { eexists _, []. split; [reflexivity|]. intros x. rewrite app_nil_r. reflexivity. }
  match goal with
  | |- context [attemptLoop 2 1 None (connectSocket ?h ?p ?b)] =>
      set (host := h); set (port := p)
  end.
  destruct (openRawSocket w (length t)) as [e|] eqn:E1.
  - destruct (shouldRetryPrintLocally e) eqn:Er.
    + destruct (openRawSocket w (length (t ++ [EvSocket host port payload; EvSleep 500])))
        as [e2|] eqn:E2.
      * eexists _, [EvSocket host port payload; EvSleep 500; EvSocket host port payload].
        split; [reflexivity|]. intros x. rewrite bind_run, attemptLoop_two, connectSocket_run.
        cbn [trace]. rewrite E1, Er, connectSocket_run.
        unfold emit. cbn [trace worker]. rewrite <- !app_assoc. cbn [app].
        rewrite E2. reflexivity.
      * eexists _, [EvSocket host port payload; EvSleep 500; EvSocket host port payload].
        split; [reflexivity|]. intros x. rewrite bind_run, attemptLoop_two, connectSocket_run.
        cbn [trace]. rewrite E1, Er, connectSocket_run.
        unfold emit. cbn [trace worker]. rewrite <- !app_assoc. cbn [app].
        rewrite E2. reflexivity.
    + eexists _, [EvSocket host port payload].
      split; [reflexivity|]. intros x. rewrite bind_run, attemptLoop_two, connectSocket_run.
      cbn [trace]. rewrite E1, Er. reflexivity.
  - eexists _, [EvSocket host port payload].
    split; [reflexivity|]. intros x. rewrite bind_run, attemptLoop_two, connectSocket_run.
    cbn [trace]. rewrite E1. reflexivity.
Qed.


Lemma kitchenJobStep_segment liveRoutes job w st :
  configValid (worker st) = true ->
  exists seg st',
    kitchenJobStep rd liveRoutes job w st = (Ok tt, st') /\
    trace st' = (trace st ++ seg)%list /\
    configValid (worker st') = true /\
    jobSegment rd w liveRoutes (trace st) job seg.
Proof.
  intros Hc. unfold kitchenJobStep, kitchenJobTry, kitchenJobCatch. cbv zeta.
  destruct (sendToPrinter_run job (resolveRouteForJob job liveRoutes) w (trace st))
    as (outcome & transport & Ht & Hrun).
  pose proof (Hrun (worker st)) as Hs. destruct st as [x t]. cbn [worker trace] in *.
  rewrite tryCatch_run, bind_run, Hs.
  destruct outcome as [[]|jobError].
  - (* delivered *)
    rewrite bind_run, completePrintJob_run by exact Hc. cbn [trace].
    destruct (completeRpc w (length (t ++ transport))) as [error|] eqn:Ea.
    + (* the success call is rejected: the handler calls again *)
      rewrite bind_run, tryCatch_run, completePrintJob_run by exact Hc.
      cbn [emit withWorker trace worker]. rewrite (length_app (t ++ transport)).
      cbn [length]. replace (length (t ++ transport) + 1)%nat
        with (S (length (t ++ transport))) by lia.
      destruct (completeRpc w (S (length (t ++ transport)))) as [ackError|] eqn:Eb.
      * eexists _, _. split; [reflexivity|]. cbn [trace worker emit withWorker stateAfter snd].
        split; [rewrite <- !app_assoc; reflexivity|]. split; [exact Hc|].
        eexists (Ok tt), transport, [EvLog ERROR _; EvLog ERROR _].
        split; [exact Hrun|]. split; [exact Ht|]. split; [reflexivity|].
        cbv zeta. rewrite Ea. split; [reflexivity|].
        intros a. rewrite Eb. intros [= <-]. left. reflexivity.
      * eexists _, _. split; [reflexivity|]. cbn [trace worker emit withWorker stateAfter snd].
        split; [rewrite <- !app_assoc; reflexivity|]. split; [exact Hc|].
        eexists (Ok tt), transport, [EvLog ERROR _].
        split; [exact Hrun|]. split; [exact Ht|]. split; [reflexivity|].
        cbv zeta. rewrite Ea. split; [reflexivity|].
        intros a. rewrite Eb. discriminate.
    + eexists _, _. split; [reflexivity|]. cbn [trace worker emit withWorker stateAfter snd].
      split; [rewrite <- !app_assoc; reflexivity|]. split; [exact Hc|].
      eexists (Ok tt), transport, [EvLog INFO _].
      split; [exact Hrun|]. split; [exact Ht|]. split; [reflexivity|].
      cbv zeta. rewrite Ea. reflexivity.
  - (* the delivery failed *)
    rewrite bind_run, tryCatch_run, completePrintJob_run by exact Hc. cbn [trace].
    destruct (completeRpc w (length (t ++ transport))) as [ackError|] eqn:Eb.
    + eexists _, _. split; [reflexivity|]. cbn [trace worker emit withWorker stateAfter snd].
      split; [rewrite <- !app_assoc; reflexivity|]. split; [exact Hc|].
      eexists (Throw jobError), transport, [EvLog ERROR _; EvLog ERROR _].
      split; [exact Hrun|]. split; [exact Ht|]. split; [reflexivity|].
      cbv zeta. split; [reflexivity|].
      intros a. rewrite Eb. intros [= <-]. left. reflexivity.
    + eexists _, _. split; [reflexivity|]. cbn [trace worker emit withWorker stateAfter snd].
      split; [rewrite <- !app_assoc; reflexivity|]. split; [exact Hc|].
      eexists (Throw jobError), transport, [EvLog ERROR _].
      split; [exact Hrun|]. split; [exact Ht|]. split; [reflexivity|].
      cbv zeta. split; [reflexivity|].
      intros a. rewrite Eb. discriminate.
Qed.

Lemma kitchenLoop_segments liveRoutes jobs w st :
  configValid (worker st) = true ->
  exists segs st',
    forEach jobs (kitchenJobStep rd liveRoutes) w st = (Ok tt, st') /\
    trace st' = (trace st ++ concat segs)%list /\
    jobSegments rd w liveRoutes (trace st) jobs segs.
Proof.
  revert st. induction jobs as [|job jobs IH]; intros st Hc.
  - exists [], st. simpl. rewrite app_nil_r. auto.
  - destruct (kitchenJobStep_segment liveRoutes job w st Hc)
      as (seg & st1 & Hrun & Htr & Hc1 & Hseg).
    destruct (IH st1 Hc1) as (segs & st2 & Hrun2 & Htr2 & Hsegs).
    exists (seg :: segs), st2. cbn [forEach concat jobSegments].
    rewrite bind_run, Hrun. split; [exact Hrun2|].
    split; [rewrite Htr2, Htr, app_assoc; reflexivity|].
    split; [exact Hseg|]. rewrite Htr in Hsegs. exact Hsegs.
Qed.


Lemma noFamily_notOfFamily (f : Family) (ev : Event) : noFamily ev -> notOfFamily f ev.
Proof. unfold noFamily, notOfFamily. intros ->. discriminate. Qed.

Lemma Forall_noFamily (f : Family) (evs : list Event) :
  Forall noFamily evs -> Forall (notOfFamily f) evs.
Proof. intros H. eapply Forall_impl; [exact H | apply noFamily_notOfFamily]. Qed.

(** C1, amended.  Every tick returns.  A tick that claims kitchen jobs
    issues, after the events that follow the claim (the log row and the
    reading of the live routes), one segment of events for each job of the
    batch that the claim answered, in the order of the batch, and no other
    call of the kitchen family.  The segment of a job holds the transport
    events of its delivery, then its completion calls, then log rows: the
    success call alone when [sendToPrinter] returned and the backend
    accepts the call; the success call followed by the failure call when
    the backend rejects the success call; the failure call alone, with the
    message of the error, when [sendToPrinter] threw.  A rejected failure
    call is logged, and the segment of the next job follows.  A tick that
    does not reach the claim issues no call of the kitchen family. *)
Theorem kitchen_jobs_acknowledged (w : World) (st : St) :
  resultOf (runTick rd w st) = Ok tt /\
  exists evs,
    trace (stateAfter (runTick rd w st)) = (trace st ++ evs)%list /\
    (Forall (notOfFamily Kitchen) evs \/
     exists pre consumer limit mid liveRoutes segs post,
       evs = (pre ++ [EvClaim Kitchen consumer limit] ++ mid ++ concat segs ++ post)%list /\
       Forall (notOfFamily Kitchen) pre /\ Forall (notOfFamily Kitchen) mid /\
       Forall (notOfFamily Kitchen) post /\
       jobSegments rd w liveRoutes
         (trace st ++ pre ++ [EvClaim Kitchen consumer limit] ++ mid)%list
         (claimedJobs w (length (trace st ++ pre))) segs).
Proof.
  destruct (runTick_anatomy rd w st) as (st' & -> & Hshape).
  split; [reflexivity|]. cbn [stateAfter snd].
  destruct Hshape as [(evs & T & P & K) | [(pre & c & l & e & post & Ec & T & P & Pp & K) |
    (pre & c & l & jobs & mid & lr & r & st2 & st3 & st4 & st5 & post & H)]].
  - exists evs. split; [exact T|]. left. apply Forall_noFamily. exact P.
  - eexists. split; [exact T|]. right.
    exists pre, c, l, [], None, [], post.
    split; [reflexivity|]. split; [apply Forall_noFamily; exact P|].
    split; [constructor|]. split; [apply Forall_noFamily; exact Pp|].
    unfold claimedJobs. rewrite Ec. exact Logic.I.
  - destruct H as (Ec & T2 & P & Pm & K2 & Hc & E3 & K3 & E4 & K4 & N4 & E5 & K5 & P5 &
                   T & Pp & K).
    destruct (kitchenLoop_segments lr jobs w st2 Hc) as (segs & st3' & Hrun & Htr & Hsegs).
    rewrite E3 in Hrun. injection Hrun as <-.
    destruct (physicalBlock_calls rd (fun _ _ _ _ => True) (notOfFamily Kitchen)
                (noFamily_notOfFamily Kitchen)
                ltac:(unfold notOfFamily; intros ev ->; discriminate)
                (fun _ _ _ _ H => H) r w st3 Logic.I) as (evsP & TP & PP & _).
    rewrite E4 in TP. cbn [stateAfter snd] in TP.
    destruct (nonFiscalBlock_calls rd (fun _ _ _ _ => True) (notOfFamily Kitchen)
                (noFamily_notOfFamily Kitchen)
                ltac:(unfold notOfFamily; intros ev ->; discriminate)
                (fun _ _ _ _ H => H) r w st4 Logic.I) as (evsN & TN & PN & _).
    rewrite E5 in TN. cbn [stateAfter snd] in TN.
    eexists. split.
    { rewrite T, TN, TP, Htr, T2, <- !app_assoc. reflexivity. }
    right. exists pre, c, l, mid, lr, segs, (evsP ++ evsN ++ post)%list.
    split; [cbn [app]; reflexivity|].
    split; [apply Forall_noFamily; exact P|].
    split; [apply Forall_noFamily; exact Pm|].
    split; [repeat (apply Forall_app; split); auto using Forall_noFamily|].
    unfold claimedJobs. rewrite Ec, <- T2. exact Hsegs.
Qed.

End KitchenClaim.

(** A tick that claims one kitchen job, prints it, and has its completion
    calls rejected. *)
Lemma kitchen_jobs_acknowledged_witness :
  resultOf (runTick Fixture.renderers Fixture.rejecting Fixture.started) = Ok tt /\
  claimedJobs Fixture.rejecting 5 = [Fixture.kitchenJob] /\
  exists evs,
    trace (stateAfter (runTick Fixture.renderers Fixture.rejecting Fixture.started)) =
      (trace Fixture.started ++ evs)%list /\
    nth_error evs 5 = Some (EvClaim Kitchen "win-bridge-cassa" 5).
Proof.
  destruct (kitchen_jobs_acknowledged Fixture.renderers Fixture.rejecting Fixture.started)
    as (H & evs & T & _).
  split; [exact H|]. split; [reflexivity|].
  exists evs. split; [exact T|].
  change (trace Fixture.started) with (@nil Event) in T. cbn [app] in T.
  rewrite <- T. vm_compute. reflexivity.
Defined.
(** ** The receipt blocks *)

Lemma sameFamily_eq (a b : Family) : sameFamily a b = true -> a = b.
Proof. destruct a, b; simpl; congruence. Qed.

Lemma answersNotFound_family f w k ev :
  answersNotFound f w k ev = true -> familyOf ev = Some f.
Proof.
  destruct ev; simpl; try discriminate.
  - intros [H _]%andb_true_iff. apply sameFamily_eq in H. congruence.
  - destruct success; [discriminate|].
    intros [H _]%andb_true_iff. apply sameFamily_eq in H. congruence.
Qed.

Lemma noFamily_answers f w k ev : noFamily ev -> answersNotFound f w k ev = false.
Proof.
  intros H. destruct (answersNotFound f w k ev) eqn:E; [|reflexivity].
  apply answersNotFound_family in E. unfold noFamily in H. congruence.
Qed.

(** An event of a family among events of no family. *)
Lemma lookup_quiet_app (f : Family) (quiet tail : list Event) k ev :
  Forall noFamily quiet ->
  (quiet ++ tail)%list !! k = Some ev -> familyOf ev = Some f ->
  exists j, k = (length quiet + j)%nat /\ tail !! j = Some ev.
Proof.
  intros Hq Hk Hf. apply lookup_app_Some in Hk as [Hk | [Hle Hk]].
  - pose proof (Forall_lookup_1 _ _ _ _ Hq Hk) as Hn. unfold noFamily in Hn. congruence.
  - exists (k - length quiet)%nat. split; [lia | exact Hk].
Qed.

(** An event of family [f] among events of other families. *)
Lemma lookup_family (f : Family) (before block after : list Event) k ev :
  Forall (notOfFamily f) before -> Forall (notOfFamily f) after ->
  (before ++ block ++ after)%list !! k = Some ev -> familyOf ev = Some f ->
  exists j, k = (length before + j)%nat /\ block !! j = Some ev.
Proof.
  intros Hb Ha Hk Hf. apply lookup_app_Some in Hk as [Hk | [Hle Hk]].
  - pose proof (Forall_lookup_1 _ _ _ _ Hb Hk) as Hn. contradiction.
  - apply lookup_app_Some in Hk as [Hk | [_ Hk]].
    + exists (k - length before)%nat. split; [lia | exact Hk].
    + pose proof (Forall_lookup_1 _ _ _ _ Ha Hk) as Hn. contradiction.
Qed.

Lemma sameFamily_refl (f : Family) : sameFamily f f = true.
Proof. destruct f; reflexivity. Qed.

Lemma blockRun_nil f w st : blockRun f w st st.
Proof.
  exists []. rewrite app_nil_r. split; [reflexivity|].
  split; [constructor|]. split; [auto|].
  split; [intros k c l Hk; discriminate Hk|].
  split; [intros c l Hk; discriminate Hk|].
  split; [intros k ev Hk; discriminate Hk|].
  intros c l id Hk. discriminate Hk.
Qed.

(** A block whose claim answered an error: the claim and a log row. *)
Lemma blockRun_of_error f w st st' c l e row :
  trace st' = (trace st ++ [EvClaim f c l; row])%list -> noFamily row ->
  receiptFlag f (worker st) = true ->
  claimError f w (length (trace st)) = Some e ->
  claimedIds f w (length (trace st)) = [] ->
  (isMissingRpcError e (claimRpc f) = true -> receiptFlag f (worker st') = false) ->
  blockRun f w st st'.
Proof.
  intros T Hrow Hon He Hids Hoff. exists [EvClaim f c l; row].
  split; [exact T|].
  split.
  { apply List.Forall_cons; [right; reflexivity|].
    apply List.Forall_cons; [left; exact Hrow | apply List.Forall_nil]. }
  split; [intros H; congruence|].
  split.
  { intros [|[|k]] c0 l0 Hk; [reflexivity | | discriminate Hk].
    cbn in Hk. injection Hk as ->. discriminate Hrow. }
  split.
  { intros c0 l0 _ _ [|[|k]] ev Hk Hne; [congruence | | discriminate Hk].
    cbn in Hk. injection Hk as <-. unfold noFamily in Hrow. congruence. }
  split.
  { intros [|[|k]] ev Hk Ha; [| | discriminate Hk].
    - cbn in Hk. injection Hk as <-. rewrite Nat.add_0_r in Ha.
      cbn [answersNotFound] in Ha. rewrite He, sameFamily_refl in Ha. exact (Hoff Ha).
    - cbn in Hk. injection Hk as <-. rewrite (noFamily_answers _ _ _ _ Hrow) in Ha.
      discriminate Ha. }
  intros c0 l0 id _ Hin. rewrite Hids in Hin. destruct Hin.
Qed.

(** A block whose claim answered a batch: the claim, log rows, and the
    events of the loop over the batch. *)
Lemma blockRun_of_batch f w st st' c l rows loopEvs :
  trace st' = (trace st ++ EvClaim f c l :: rows ++ loopEvs)%list ->
  Forall noFamily rows ->
  receiptFlag f (worker st) = true ->
  claimError f w (length (trace st)) = None ->
  Forall (fun ev => noFamily ev \/ exists id s r e, ev = EvComplete f id s r e) loopEvs ->
  (forall id, In id (claimedIds f w (length (trace st))) ->
     Exists (fun ev => exists s r e, ev = EvComplete f id s r e) loopEvs) ->
  (forall j ev,
     loopEvs !! j = Some ev ->
     answersNotFound f w (length (trace st) + S (length rows) + j) ev = true ->
     receiptFlag f (worker st') = false) ->
  blockRun f w st st'.
Proof.
  intros T Hrows Hon He Hloop Hdone Hoff. exists (EvClaim f c l :: rows ++ loopEvs).
  assert (Hclaim : forall c0 l0 k, answersNotFound f w k (EvClaim f c0 l0) = true ->
                                   k = length (trace st) -> False).
  { intros c0 l0 k Ha ->. cbn [answersNotFound] in Ha. rewrite He, andb_false_r in Ha.
    discriminate Ha. }
  assert (Hrest : forall k c0 l0, (rows ++ loopEvs)%list !! k = Some (EvClaim f c0 l0) -> False).
  { intros k c0 l0 Hk. apply lookup_app_Some in Hk as [Hk | [_ Hk]].
    - pose proof (Forall_lookup_1 _ _ _ _ Hrows Hk) as Hn. discriminate Hn.
    - pose proof (Forall_lookup_1 _ _ _ _ Hloop Hk) as [Hn | (id & s & r & e & Hn)];
        discriminate Hn. }
  split; [exact T|].
  split.
  { constructor; [right; reflexivity|]. apply Forall_app. split.
    - eapply Forall_impl; [exact Hrows | intros ev H; left; exact H].
    - eapply Forall_impl; [exact Hloop|].
      intros ev [H | (id & s & r & e & ->)]; [left; exact H | right; reflexivity]. }
  split; [intros H; congruence|].
  split.
  { intros [|k] c0 l0 Hk; [reflexivity|]. cbn in Hk. destruct (Hrest k c0 l0 Hk). }
  split.
  { intros c0 l0 Hk Ha. cbn in Hk. injection Hk as <- <-.
    destruct (Hclaim c l _ Ha eq_refl). }
  split.
  { intros [|k] ev Hk Ha.
    - cbn in Hk. injection Hk as <-. rewrite Nat.add_0_r in Ha.
      destruct (Hclaim c l _ Ha eq_refl).
    - cbn in Hk. apply lookup_app_Some in Hk as [Hk | [Hle Hk]].
      + pose proof (Forall_lookup_1 _ _ _ _ Hrows Hk) as Hn.
        rewrite (noFamily_answers _ _ _ _ Hn) in Ha. discriminate Ha.
      + apply (Hoff (k - length rows)%nat ev Hk).
        replace (length (trace st) + S (length rows) + (k - length rows))%nat
          with (length (trace st) + S k)%nat by lia.
        exact Ha. }
  intros c0 l0 id _ Hin. specialize (Hdone id Hin).
  apply Exists_exists in Hdone as (ev & Hev & s & r & e & ->).
  apply list_elem_of_lookup_1 in Hev as [j Hj].
  exists (S (length rows + j)), s, r, e. split; [lia|].
  change ((rows ++ loopEvs)%list !! (length rows + j)%nat = Some (EvComplete f id s r e)).
  rewrite lookup_app_r by lia.
  replace (length rows + j - length rows)%nat with j by lia. exact Hj.
Qed.

Section ReceiptClaim.

Variable rd : Renderers.

Lemma sendToPhysicalReceiptDevice_run job w st :
  exists outcome transport,
    sendToPhysicalReceiptDevice rd job w st =
      (outcome, {| worker := worker st; trace := (trace st ++ transport)%list |}) /\
    Forall noFamily transport.
Proof.
  destruct (sendToPhysicalReceiptDevice_delivery rd job w st) as (evs & Hs & _).
  destruct (sendToPhysicalReceiptDevice_calls rd (fun _ _ _ _ => True) noFamily
              noFamily_none job w st Logic.I) as (evs' & Ht & Hp & _).
  destruct (sendToPhysicalReceiptDevice rd job w st) as [outcome st1].
  cbn [stateAfter snd] in *. subst st1. cbn [trace] in Ht.
  apply app_inv_head in Ht. subst evs'. exists outcome, evs. auto.
Qed.

Lemma sendToNonFiscalReceiptPrinter_run job w st :
  exists outcome transport,
    sendToNonFiscalReceiptPrinter rd job w st =
      (outcome, {| worker := worker st; trace := (trace st ++ transport)%list |}) /\
    Forall noFamily transport.
Proof.
  destruct (sendToNonFiscalReceiptPrinter_delivery rd job w st) as (evs & Hs & _).
  destruct (sendToNonFiscalReceiptPrinter_calls rd (fun _ _ _ _ => True) noFamily
              noFamily_none job w st Logic.I) as (evs' & Ht & Hp & _).
  destruct (sendToNonFiscalReceiptPrinter rd job w st) as [outcome st1].
  cbn [stateAfter snd] in *. subst st1. cbn [trace] in Ht.
  apply app_inv_head in Ht. subst evs'. exists outcome, evs. auto.
Qed.

Lemma completePhysicalReceiptJob_event job success receiptId error w st :
  configValid (worker st) = true ->
  completePhysicalReceiptJob job success receiptId error w st =
  (match completeRpc w (length (trace st)) with
   | Some e => Throw e
   | None => Ok tt
   end,
   emit (EvComplete Physical (pj_id job) success
           (if success then nonEmptyOpt (trim (default "" receiptId)) else None)
           (if success then None
            else Some (slice0 500 (orElse (default "" error) "PHYSICAL_RECEIPT_FAILED"))))
        (withWorker (set_supabase true) st)).
Proof.
  intros Hc. unfold completePhysicalReceiptJob. rewrite bind_run.
  rewrite (ensureSupabaseClient_run w st Hc). cbv beta iota.
  rewrite bind_run. unfold call at 1. cbv beta iota.
  cbn [withWorker trace worker]. unfold emit, withWorker. cbn [trace worker].
  destruct (completeRpc w (length (trace st))); reflexivity.
Qed.

Lemma completeNonFiscalReceiptJob_event job success error w st :
  configValid (worker st) = true ->
  completeNonFiscalReceiptJob job success error w st =
  (match completeRpc w (length (trace st)) with
   | Some e => Throw e
   | None => Ok tt
   end,
   emit (EvComplete NonFiscal (nj_id job) success None
           (if success then None
            else Some (slice0 500 (orElse (default "" error) "PRINT_FAILED"))))
        (withWorker (set_supabase true) st)).
Proof.
  intros Hc. unfold completeNonFiscalReceiptJob. rewrite bind_run.
  rewrite (ensureSupabaseClient_run w st Hc). cbv beta iota.
  rewrite bind_run. unfold call at 1. cbv beta iota.
  cbn [withWorker trace worker]. unfold emit, withWorker. cbn [trace worker].
  destruct (completeRpc w (length (trace st))); reflexivity.
Qed.


(** The rest of a step after its calls: the log rows are run, the events
    of the step are read off the trace, and what is left is about them. *)
Ltac finish_step :=
  repeat match goal with
         | |- context [pushLog ?lv ?msg ?w ?s0] =>
             let l := fresh "l" in destruct (pushLog_run lv msg w s0) as [l ->];
             cbv beta iota
         | |- context [mbind _ _ _ _] => rewrite bind_run
         | |- context [modify _ _ _] => rewrite modify_run; cbv beta iota
         end;
  eexists _, _; split; [reflexivity|];
  cbn [emit withWorker trace worker];
  split; [rewrite <- !app_assoc; reflexivity|].

Ltac at_index H t transport :=
  repeat match type of H with
         | context [(length t + (length transport + ?j))%nat] =>
             replace (length t + (length transport + j))%nat
               with (j + length (t ++ transport))%nat in H
               by (rewrite length_app; lia)
         end;
  cbn [Nat.add] in H.

Ltac close_step f Hc Pt Pt' t transport :=
  cbn [app];
  split; [exact Hc|];
  split;
    [apply Forall_app; split;
       [exact Pt'
       |repeat (apply List.Forall_cons;
                [first [left; reflexivity | right; eexists _, _, _; reflexivity]|]);
        apply List.Forall_nil]|];
  split; [apply Exists_app; right; repeat first
            [apply List.Exists_cons_hd; eexists _, _, _; reflexivity
            |apply List.Exists_cons_tl]|];
  split; [intros Hoff; first [reflexivity | exact Hoff]|];
  let k := fresh "k" in let ev := fresh "ev" in
  let Hk := fresh "Hk" in let Ha := fresh "Ha" in let Hf := fresh "Hf" in
  let j := fresh "j" in let Hj := fresh "Hj" in
  intros k ev Hk Ha;
  pose proof (answersNotFound_family _ _ _ _ Ha) as Hf;
  destruct (lookup_quiet_app f transport _ k ev Pt Hk Hf) as (j & -> & Hj);
  do 5 (destruct j as [|j];
        [cbn in Hj; try discriminate Hj; injection Hj as <-;
         cbn [answersNotFound sameFamily andb] in Ha; try discriminate Ha;
         at_index Ha t transport;
         repeat match goal with
                | E : completeRpc _ _ = _ |- _ => rewrite E in Ha
                end;
         first [reflexivity | discriminate Ha | cbn [completionRpc] in Ha; congruence]
        |]);
  cbn in Hj; discriminate Hj.

Lemma physicalJobStep_run job w st :
  configValid (worker st) = true ->
  exists st' evs,
    physicalJobStep rd job w st = (Ok tt, st') /\
    trace st' = (trace st ++ evs)%list /\
    configValid (worker st') = true /\
    Forall (fun ev => noFamily ev \/
                      exists s r e, ev = EvComplete Physical (pj_id job) s r e) evs /\
    Exists (fun ev => exists s r e, ev = EvComplete Physical (pj_id job) s r e) evs /\
    (physicalReceiptRpcAvailable (worker st) = false ->
     physicalReceiptRpcAvailable (worker st') = false) /\
    (forall k ev,
       evs !! k = Some ev ->
       answersNotFound Physical w (length (trace st) + k) ev = true ->
       physicalReceiptRpcAvailable (worker st') = false).
Proof.
  intros Hc. unfold physicalJobStep, physicalJobTry, physicalJobCatch. cbv zeta.
  destruct (sendToPhysicalReceiptDevice_run job w st) as (outcome & transport & Hs & Pt).
  assert (Pt' : Forall (fun ev => noFamily ev \/
                   exists s r e, ev = EvComplete Physical (pj_id job) s r e) transport).
  { eapply Forall_impl; [exact Pt | intros ev H; left; exact H]. }
  destruct st as [x t]. cbn [worker trace] in *.
  rewrite tryCatch_run, bind_run, Hs.
  destruct outcome as [receiptId|jobError].
  - rewrite bind_run, completePhysicalReceiptJob_event by exact Hc. cbn [trace].
    destruct (completeRpc w (length (t ++ transport))) as [error|] eqn:Ea.
    + rewrite bind_run, tryCatch_run, completePhysicalReceiptJob_event by exact Hc.
      cbn [emit withWorker trace worker]. rewrite (length_app (t ++ transport)).
      cbn [length]. replace (length (t ++ transport) + 1)%nat
        with (S (length (t ++ transport))) by lia.
      destruct (completeRpc w (S (length (t ++ transport)))) as [ackError|] eqn:Eb.
      * destruct (isMissingRpcError ackError "physical_receipt_complete_job") eqn:Em;
          finish_step; close_step Physical Hc Pt Pt' t transport.
      * finish_step. close_step Physical Hc Pt Pt' t transport.
    + finish_step. close_step Physical Hc Pt Pt' t transport.
  - rewrite bind_run, tryCatch_run, completePhysicalReceiptJob_event by exact Hc.
    cbn [trace].
    destruct (completeRpc w (length (t ++ transport))) as [ackError|] eqn:Eb.
    + destruct (isMissingRpcError ackError "physical_receipt_complete_job") eqn:Em;
        finish_step; close_step Physical Hc Pt Pt' t transport.
    + finish_step. close_step Physical Hc Pt Pt' t transport.
Qed.


Lemma nonFiscalJobStep_run job w st :
  configValid (worker st) = true ->
  exists st' evs,
    nonFiscalJobStep rd job w st = (Ok tt, st') /\
    trace st' = (trace st ++ evs)%list /\
    configValid (worker st') = true /\
    Forall (fun ev => noFamily ev \/
                      exists s r e, ev = EvComplete NonFiscal (nj_id job) s r e) evs /\
    Exists (fun ev => exists s r e, ev = EvComplete NonFiscal (nj_id job) s r e) evs /\
    (nonFiscalReceiptRpcAvailable (worker st) = false ->
     nonFiscalReceiptRpcAvailable (worker st') = false) /\
    (forall k ev,
       evs !! k = Some ev ->
       answersNotFound NonFiscal w (length (trace st) + k) ev = true ->
       nonFiscalReceiptRpcAvailable (worker st') = false).
Proof.
  intros Hc. unfold nonFiscalJobStep, nonFiscalJobTry, nonFiscalJobCatch. cbv zeta.
  destruct (sendToNonFiscalReceiptPrinter_run job w st) as (outcome & transport & Hs & Pt).
  assert (Pt' : Forall (fun ev => noFamily ev \/
                   exists s r e, ev = EvComplete NonFiscal (nj_id job) s r e) transport).
  { eapply Forall_impl; [exact Pt | intros ev H; left; exact H]. }
  destruct st as [x t]. cbn [worker trace] in *.
  rewrite tryCatch_run, bind_run, Hs.
  destruct outcome as [[]|jobError].
  - rewrite bind_run, completeNonFiscalReceiptJob_event by exact Hc. cbn [trace].
    destruct (completeRpc w (length (t ++ transport))) as [error|] eqn:Ea.
    + rewrite bind_run, tryCatch_run, completeNonFiscalReceiptJob_event by exact Hc.
      cbn [emit withWorker trace worker]. rewrite (length_app (t ++ transport)).
      cbn [length]. replace (length (t ++ transport) + 1)%nat
        with (S (length (t ++ transport))) by lia.
      destruct (completeRpc w (S (length (t ++ transport)))) as [ackError|] eqn:Eb.
      * destruct (isMissingRpcError ackError "non_fiscal_receipt_complete_job") eqn:Em;
          finish_step; close_step NonFiscal Hc Pt Pt' t transport.
      * finish_step. close_step NonFiscal Hc Pt Pt' t transport.
    + finish_step. close_step NonFiscal Hc Pt Pt' t transport.
  - rewrite bind_run, tryCatch_run, completeNonFiscalReceiptJob_event by exact Hc.
    cbn [trace].
    destruct (completeRpc w (length (t ++ transport))) as [ackError|] eqn:Eb.
    + destruct (isMissingRpcError ackError "non_fiscal_receipt_complete_job") eqn:Em;
        finish_step; close_step NonFiscal Hc Pt Pt' t transport.
    + finish_step. close_step NonFiscal Hc Pt Pt' t transport.
Qed.

(** The loop of a receipt block, from what its steps do. *)
Lemma receiptLoop_run {J} (f : Family) (idOf : J -> string) (step : J -> M unit)
    (jobs : list J) w st :
  (forall job st,
     configValid (worker st) = true ->
     exists st' evs,
       step job w st = (Ok tt, st') /\
       trace st' = (trace st ++ evs)%list /\
       configValid (worker st') = true /\
       Forall (fun ev => noFamily ev \/
                         exists s r e, ev = EvComplete f (idOf job) s r e) evs /\
       Exists (fun ev => exists s r e, ev = EvComplete f (idOf job) s r e) evs /\
       (receiptFlag f (worker st) = false -> receiptFlag f (worker st') = false) /\
       (forall k ev,
          evs !! k = Some ev ->
          answersNotFound f w (length (trace st) + k) ev = true ->
          receiptFlag f (worker st') = false)) ->
  configValid (worker st) = true ->
  exists st' evs,
    forEach jobs step w st = (Ok tt, st') /\
    trace st' = (trace st ++ evs)%list /\
    Forall (fun ev => noFamily ev \/ exists id s r e, ev = EvComplete f id s r e) evs /\
    (forall id, In id (map idOf jobs) ->
       Exists (fun ev => exists s r e, ev = EvComplete f id s r e) evs) /\
    (receiptFlag f (worker st) = false -> receiptFlag f (worker st') = false) /\
    (forall k ev,
       evs !! k = Some ev ->
       answersNotFound f w (length (trace st) + k) ev = true ->
       receiptFlag f (worker st') = false).
Proof.
  intros Hstep. revert st. induction jobs as [|job jobs IH]; intros st Hc.
  - exists st, []. cbn [forEach]. split; [reflexivity|].
    split; [rewrite app_nil_r; reflexivity|]. split; [constructor|].
    split; [intros id []|]. split; [auto|]. intros k ev Hk. discriminate Hk.
  - destruct (Hstep job st Hc) as (st1 & evs1 & E1 & T1 & Hc1 & F1 & X1 & M1 & A1).
    destruct (IH st1 Hc1) as (st2 & evs2 & E2 & T2 & F2 & X2 & M2 & A2).
    exists st2, (evs1 ++ evs2)%list. cbn [forEach]. rewrite bind_run, E1.
    split; [exact E2|]. split; [rewrite T2, T1, app_assoc; reflexivity|].
    split.
    { apply Forall_app. split; [|exact F2].
      eapply Forall_impl; [exact F1|]. intros ev [H | (s & r & e & H)];
        [left; exact H | right; eauto]. }
    split.
    { intros id [<- | Hin]; apply Exists_app; [left; exact X1 | right; exact (X2 id Hin)]. }
    split; [auto|].
    intros k ev Hk Ha. apply lookup_app_Some in Hk as [Hk | [Hle Hk]].
    + apply M2. exact (A1 k ev Hk Ha).
    + apply (A2 (k - length evs1)%nat ev Hk).
      rewrite T1, length_app.
      replace (length (trace st) + length evs1 + (k - length evs1))%nat
        with (length (trace st) + k)%nat by lia.
      exact Ha.
Qed.


(** The end of a block whose claim answered a batch: the loop is run and
    its events are put after the claim and the log rows. *)
Ltac finish_block f idOf step stepRun jobs w st Hc Hon Ec rows :=
  match goal with
  | |- context [forEach jobs step w ?s] =>
      let st2 := fresh "st2" in let loopEvs := fresh "loopEvs" in
      let E := fresh "E" in let T := fresh "T" in let F := fresh "F" in
      let X := fresh "X" in let M := fresh "M" in let A := fresh "A" in
      destruct (receiptLoop_run f idOf step jobs w s
                  (fun job st0 => stepRun job w st0) Hc)
        as (st2 & loopEvs & E & T & F & X & M & A);
      rewrite E; intros [= <-];
      eapply (blockRun_of_batch f w st st2 _ _ rows loopEvs);
      [rewrite T; cbn [emit withWorker trace worker]; rewrite <- !app_assoc; reflexivity
      |repeat constructor
      |exact Hon
      |cbn [claimError]; rewrite Ec; reflexivity
      |exact F
      |cbn [claimedIds]; rewrite Ec; exact X
      |let j := fresh "j" in let ev := fresh "ev" in
       let Hj := fresh "Hj" in let Ha := fresh "Ha" in
       intros j ev Hj Ha; apply (A j ev Hj);
       cbn [emit withWorker trace worker]; rewrite !length_app; cbn [length];
       cbn [length] in Ha;
       match type of Ha with
       | answersNotFound _ _ ?n _ = true =>
           match goal with
           | |- answersNotFound _ _ ?m _ = true => replace m with n by lia
           end
       end; exact Ha]
  end.

Lemma physicalBlock_run r w st st' :
  configValid (worker st) = true ->
  physicalBlock rd r w st = (Ok tt, st') ->
  blockRun Physical w st st'.
Proof.
  intros Hc. destruct (physicalReceiptRpcAvailable (worker st)) eqn:Hon.
  2:{ rewrite (physicalBlock_off rd r w st Hon). intros [= <-].
      apply blockRun_nil. }
  unfold physicalBlock. rewrite bind_run, getWorker_run. cbv beta iota.
  rewrite Hon, tryCatch_run, bind_run. unfold call at 1. cbv beta iota.
  destruct (claimPhysical w (length (trace st))) as [physicalError|jobs] eqn:Ec.
  - destruct (isMissingRpcError physicalError "physical_receipt_claim_jobs") eqn:Em.
    + rewrite bind_run, modify_run. cbv beta iota.
      match goal with
      | |- context [pushLog ?lv ?msg w ?s0] => destruct (pushLog_run lv msg w s0) as [l ->]
      end.
      intros [= <-].
      eapply (blockRun_of_error Physical w st _ _ _ physicalError (EvLog WARN _)).
      * cbn [emit withWorker trace worker]. rewrite <- app_assoc. reflexivity.
      * reflexivity.
      * exact Hon.
      * cbn [claimError]. rewrite Ec. reflexivity.
      * cbn [claimedIds]. rewrite Ec. reflexivity.
      * intros _. reflexivity.
    + cbn [throw].
      match goal with
      | |- context [pushLog ?lv ?msg w ?s0] => destruct (pushLog_run lv msg w s0) as [l ->]
      end.
      intros [= <-].
      eapply (blockRun_of_error Physical w st _ _ _ physicalError (EvLog ERROR _)).
      * cbn [emit withWorker trace worker]. rewrite <- app_assoc. reflexivity.
      * reflexivity.
      * exact Hon.
      * cbn [claimError]. rewrite Ec. reflexivity.
      * cbn [claimedIds]. rewrite Ec. reflexivity.
      * cbn [claimRpc]. congruence.
  - rewrite bind_run, modify_run. cbv beta iota. rewrite bind_run.
    destruct (0 <? countOf jobs).
    + match goal with
      | |- context [pushLog ?lv ?msg w ?s0] => destruct (pushLog_run lv msg w s0) as [l ->]
      end.
      cbv beta iota.
      finish_block Physical pj_id (physicalJobStep rd) physicalJobStep_run jobs w st Hc Hon Ec
        [EvLog INFO ("Claimati " ++ decimal (countOf jobs) ++ " job RT fisico")].
    + cbv beta iota delta [mret M_ret].
      finish_block Physical pj_id (physicalJobStep rd) physicalJobStep_run jobs w st Hc Hon Ec
        (@nil Event).
Qed.

Lemma nonFiscalBlock_run r w st st' :
  configValid (worker st) = true ->
  nonFiscalBlock rd r w st = (Ok tt, st') ->
  blockRun NonFiscal w st st'.
Proof.
  intros Hc. destruct (nonFiscalReceiptRpcAvailable (worker st)) eqn:Hon.
  2:{ rewrite (nonFiscalBlock_off rd r w st Hon). intros [= <-].
      apply blockRun_nil. }
  unfold nonFiscalBlock. rewrite bind_run, getWorker_run. cbv beta iota.
  rewrite Hon, tryCatch_run, bind_run. unfold call at 1. cbv beta iota.
  destruct (claimNonFiscal w (length (trace st))) as [nfrError|jobs] eqn:Ec.
  - destruct (isMissingRpcError nfrError "non_fiscal_receipt_claim_jobs") eqn:Em.
    + rewrite bind_run, modify_run. cbv beta iota.
      match goal with
      | |- context [pushLog ?lv ?msg w ?s0] => destruct (pushLog_run lv msg w s0) as [l ->]
      end.
      intros [= <-].
      eapply (blockRun_of_error NonFiscal w st _ _ _ nfrError (EvLog WARN _)).
      * cbn [emit withWorker trace worker]. rewrite <- app_assoc. reflexivity.
      * reflexivity.
      * exact Hon.
      * cbn [claimError]. rewrite Ec. reflexivity.
      * cbn [claimedIds]. rewrite Ec. reflexivity.
      * intros _. reflexivity.
    + cbn [throw].
      match goal with
      | |- context [pushLog ?lv ?msg w ?s0] => destruct (pushLog_run lv msg w s0) as [l ->]
      end.
      intros [= <-].
      eapply (blockRun_of_error NonFiscal w st _ _ _ nfrError (EvLog ERROR _)).
      * cbn [emit withWorker trace worker]. rewrite <- app_assoc. reflexivity.
      * reflexivity.
      * exact Hon.
      * cbn [claimError]. rewrite Ec. reflexivity.
      * cbn [claimedIds]. rewrite Ec. reflexivity.
      * cbn [claimRpc]. congruence.
  - rewrite bind_run, modify_run. cbv beta iota. rewrite bind_run.
    destruct (0 <? countOf jobs).
    + match goal with
      | |- context [pushLog ?lv ?msg w ?s0] => destruct (pushLog_run lv msg w s0) as [l ->]
      end.
      cbv beta iota.
      finish_block NonFiscal nj_id (nonFiscalJobStep rd) nonFiscalJobStep_run jobs w st Hc Hon Ec
        [EvLog INFO ("Claimati " ++ decimal (countOf jobs) ++ " job scontrino non fiscale")].
    + cbv beta iota delta [mret M_ret].
      finish_block NonFiscal nj_id (nonFiscalJobStep rd) nonFiscalJobStep_run jobs w st Hc Hon Ec
        (@nil Event).
Qed.


Lemma kitchen_notOfFamily (f : Family) :
  f <> Kitchen -> forall ev, familyOf ev = Some Kitchen -> notOfFamily f ev.
Proof. unfold notOfFamily. intros Hf ev ->. congruence. Qed.

Lemma other_notOfFamily (f g : Family) :
  f <> g -> forall ev, familyOf ev = Some g -> notOfFamily f ev.
Proof. unfold notOfFamily. intros Hf ev ->. congruence. Qed.

(** A tick, seen from a receipt family: the events before the block of the
    family, the block, and the events after it. *)
Lemma tickShape_family f w st st' :
  f <> Kitchen -> tickShape rd w st st' ->
  exists before sb sa after,
    trace sb = (trace st ++ before)%list /\ Forall (notOfFamily f) before /\
    blockRun f w sb sa /\
    trace st' = (trace sa ++ after)%list /\ Forall (notOfFamily f) after /\
    receiptFlag f (worker st') = receiptFlag f (worker sa).
Proof.
  intros Hf [(evs & T & P & K) | [(pre & c & l & e & post & Ec & T & P & Pp & K) |
    (pre & c & l & jobs & mid & lr & r & st2 & st3 & st4 & st5 & post & H)]].
  - exists evs, st', st', []. split; [exact T|].
    split; [apply Forall_noFamily; exact P|]. split; [apply blockRun_nil|].
    rewrite app_nil_r. repeat split. constructor.
  - exists (pre ++ [EvClaim Kitchen c l] ++ post)%list, st', st', [].
    split; [exact T|].
    split.
    { apply Forall_app. split; [apply Forall_noFamily; exact P|].
      apply List.Forall_cons; [apply kitchen_notOfFamily; [exact Hf | reflexivity]|].
      apply Forall_noFamily. exact Pp. }
    split; [apply blockRun_nil|]. rewrite app_nil_r. repeat split. constructor.
  - destruct H as (Ec & T2 & P & Pm & K2 & Hc & E3 & K3 & E4 & K4 & N4 & E5 & K5 & P5 &
                   T & Pp & K).
    destruct (Extends_forEach _ _ jobs _
                (kitchenJobStep_calls rd (fun _ _ _ _ => True) (notOfFamily f)
                   (noFamily_notOfFamily f) (kitchen_notOfFamily f Hf) lr)
                w st2 Logic.I) as (kev & TK & PK & _).
    rewrite E3 in TK. cbn [stateAfter snd] in TK.
    assert (Hc3 : configValid (worker st3) = true).
    { rewrite (sameBackend_configValid _ _ (proj1 K3)). exact Hc. }
    assert (Hc4 : configValid (worker st4) = true).
    { rewrite (sameBackend_configValid _ _ K4). exact Hc3. }
    assert (Hhead : Forall (notOfFamily f) (pre ++ [EvClaim Kitchen c l] ++ mid ++ kev)%list).
    { apply Forall_app. split; [apply Forall_noFamily; exact P|].
      apply List.Forall_cons; [apply kitchen_notOfFamily; [exact Hf | reflexivity]|].
      apply Forall_app. split; [apply Forall_noFamily; exact Pm | exact PK]. }
    destruct K as (_ & Kp & Kn).
    destruct f; [congruence | |].
    + destruct (nonFiscalBlock_calls rd (fun _ _ _ _ => True) (notOfFamily Physical)
                  (noFamily_notOfFamily Physical)
                  (other_notOfFamily Physical NonFiscal ltac:(discriminate))
                  (fun _ _ _ _ H => H) r w st4 Logic.I) as (evsN & TN & PN & _).
      rewrite E5 in TN. cbn [stateAfter snd] in TN.
      exists (pre ++ [EvClaim Kitchen c l] ++ mid ++ kev)%list, st3, st4, (evsN ++ post)%list.
      split; [rewrite TK, T2, <- !app_assoc; reflexivity|].
      split; [exact Hhead|].
      split; [exact (physicalBlock_run r w st3 st4 Hc3 E4)|].
      split; [rewrite T, TN, <- !app_assoc; reflexivity|].
      split; [apply Forall_app; split; [exact PN | apply Forall_noFamily; exact Pp]|].
      cbn [receiptFlag]. congruence.
    + destruct (physicalBlock_calls rd (fun _ _ _ _ => True) (notOfFamily NonFiscal)
                  (noFamily_notOfFamily NonFiscal)
                  (other_notOfFamily NonFiscal Physical ltac:(discriminate))
                  (fun _ _ _ _ H => H) r w st3 Logic.I) as (evsP & TP & PP & _).
      rewrite E4 in TP. cbn [stateAfter snd] in TP.
      exists (pre ++ [EvClaim Kitchen c l] ++ mid ++ kev ++ evsP)%list, st4, st5, post.
      split; [rewrite TP, TK, T2, <- !app_assoc; reflexivity|].
      split.
      { replace (pre ++ [EvClaim Kitchen c l] ++ mid ++ kev ++ evsP)%list
          with ((pre ++ [EvClaim Kitchen c l] ++ mid ++ kev) ++ evsP)%list
          by (rewrite <- !app_assoc; reflexivity).
        apply Forall_app. split; [exact Hhead | exact PP]. }
      split; [exact (nonFiscalBlock_run r w st4 st5 Hc4 E5)|].
      split; [exact T|].
      split; [apply Forall_noFamily; exact Pp|].
      cbn [receiptFlag]. congruence.
Qed.

(** From a state where a receipt family is off, ticks issue no call of
    the family and leave it off. *)
Lemma runTicks_off f n w st :
  f <> Kitchen -> receiptFlag f (worker st) = false ->
  exists later,
    trace (stateAfter (runTicks rd n w st)) = (trace st ++ later)%list /\
    Forall (notOfFamily f) later /\
    receiptFlag f (worker (stateAfter (runTicks rd n w st))) = false.
Proof.
  intros Hf Hoff. destruct f; [congruence | |].
  - exact (runTicks_physical_off rd n w st Hoff).
  - exact (runTicks_nonFiscal_off rd n w st Hoff).
Qed.


(** C5, amended.  For a receipt family (fiscal or non-fiscal) and a tick
    run from any state: when a call of the family is answered "function not
    found" where the code looks for that answer (the claim, or the failure
    completion call of a job), the flag of the family is off when the tick
    ends, no claim of the family follows in that tick, and the ticks that
    follow issue no call of the family and leave the flag off; when it is
    the claim that was answered so, the tick holds no other call of the
    family.  Every job that a claim of the family answered has a completion
    call later in the same tick, whatever was answered in between: the
    batch already claimed is still processed.  From any state where the
    flag is off, ticks issue no call of the family and leave it off.
    [startService] switches the flag on again when it starts a service that
    was not running, and returns at once, state unchanged, on a running
    service. *)
Theorem rpc_degradation (f : Family) (w : World) (st : St) :
  f <> Kitchen ->
  let st' := stateAfter (runTick rd w st) in
  exists evs,
    trace st' = (trace st ++ evs)%list /\
    (forall k ev,
       evs !! k = Some ev ->
       answersNotFound f w (length (trace st) + k) ev = true ->
       receiptFlag f (worker st') = false /\
       (forall j c l, evs !! j = Some (EvClaim f c l) -> (j <= k)%nat) /\
       (forall c l, ev = EvClaim f c l ->
          forall j ev', evs !! j = Some ev' -> j <> k -> notOfFamily f ev') /\
       (forall n, exists later,
          trace (stateAfter (runTicks rd n w st')) = (trace st' ++ later)%list /\
          Forall (notOfFamily f) later /\
          receiptFlag f (worker (stateAfter (runTicks rd n w st'))) = false)) /\
    (forall k c l id,
       evs !! k = Some (EvClaim f c l) ->
       In id (claimedIds f w (length (trace st) + k)) ->
       exists j success receiptId error,
         (k < j)%nat /\
         evs !! j = Some (EvComplete f id success receiptId error)) /\
    (forall n st0,
       receiptFlag f (worker st0) = false ->
       exists later,
         trace (stateAfter (runTicks rd n w st0)) = (trace st0 ++ later)%list /\
         Forall (notOfFamily f) later /\
         receiptFlag f (worker (stateAfter (runTicks rd n w st0))) = false) /\
    (forall w0 st0 pub st1,
       running (worker st0) = false ->
       startService w0 st0 = (Ok pub, st1) ->
       receiptFlag f (worker st1) = true) /\
    (forall w0 st0,
       running (worker st0) = true ->
       startService w0 st0 = (Ok (publicState (worker st0)), st0)).
Proof.
  intros Hf st'. subst st'.
  destruct (runTick_anatomy rd w st) as (st1 & E & Hshape). rewrite E. cbn [stateAfter snd].
  destruct (tickShape_family f w st st1 Hf Hshape)
    as (before & sb & sa & after & Tb & Pb & Hblock & Ta & Pa & Hfl).
  destruct Hblock as (block & Tblk & Fblk & Hoff & Hclaim0 & Hmissing & Hflag & Hbatch).
  assert (Hlen : length (trace sb) = (length (trace st) + length before)%nat).
  { rewrite Tb, length_app. reflexivity. }
  exists (before ++ block ++ after)%list.
  split; [rewrite Ta, Tblk, Tb, <- !app_assoc; reflexivity|].
  split; [|split; [|split; [|split]]].
  - intros k ev Hk Ha.
    pose proof (answersNotFound_family _ _ _ _ Ha) as Hfam.
    destruct (lookup_family f before block after k ev Pb Pa Hk Hfam) as (j & -> & Hj).
    rewrite Nat.add_assoc, <- Hlen in Ha.
    assert (Hfalse : receiptFlag f (worker st1) = false).
    { rewrite Hfl. exact (Hflag j ev Hj Ha). }
    split; [exact Hfalse|].
    split.
    { intros j' c l Hj'.
      destruct (lookup_family f before block after j' _ Pb Pa Hj' eq_refl) as (i & -> & Hi).
      apply Hclaim0 in Hi. lia. }
    split; [|intros n; apply runTicks_off; assumption].
    intros c l ->. pose proof (Hclaim0 j c l Hj) as ->.
    rewrite Nat.add_0_r in Ha.
    intros j' ev' Hj' Hne Hfam'.
    destruct (lookup_family f before block after j' ev' Pb Pa Hj' Hfam') as (i & -> & Hi).
    apply (Hmissing c l Hj Ha i ev' Hi); [lia | exact Hfam'].
  - intros k c l id Hk Hin.
    destruct (lookup_family f before block after k _ Pb Pa Hk eq_refl) as (i & -> & Hi).
    pose proof (Hclaim0 i c l Hi) as ->.
    rewrite Nat.add_0_r, <- Hlen in Hin.
    destruct (Hbatch c l id Hi Hin) as (j & success & receiptId & error & Hpos & Hj).
    exists (length before + j)%nat, success, receiptId, error.
    split; [lia|].
    rewrite lookup_app_r by lia.
    replace (length before + j - length before)%nat with j by lia.
    apply lookup_app_l_Some. exact Hj.
  - intros n st0 H0. apply runTicks_off; assumption.
  - intros w0 st0 pub st2 Hr Hs.
    destruct (startService_resets w0 st0 pub st2 Hs Hr) as [Hp Hn].
    destruct f; [congruence | exact Hp | exact Hn].
  - intros w0 st0 Hr. apply startService_running. exact Hr.
Qed.

End ReceiptClaim.

(** A tick in which the failure completion call of the first fiscal job is
    answered "function not found" (event 17): the flag is off when the tick
    ends, the second job of the batch is still completed, and the two ticks
    that follow issue no call of the fiscal family. *)
Lemma rpc_degradation_witness :
  let st' := stateAfter (runTick Fixture.renderers Fixture.rejecting Fixture.started) in
  let notFound :=
    "Could not find the function public.physical_receipt_complete_job in the schema cache" in
  receiptFlag Physical (worker Fixture.started) = true /\
  trace st' !! 13%nat = Some (EvClaim Physical "win-bridge-cassa" 5) /\
  claimedIds Physical Fixture.rejecting 13 = ["fiscal-1"; "fiscal-2"] /\
  trace st' !! 17%nat = Some (EvComplete Physical "fiscal-1" false None (Some notFound)) /\
  answersNotFound Physical Fixture.rejecting 17
    (EvComplete Physical "fiscal-1" false None (Some notFound)) = true /\
  receiptFlag Physical (worker st') = false /\
  (exists j success receiptId error,
     (13 < j)%nat /\
     trace st' !! j = Some (EvComplete Physical "fiscal-2" success receiptId error)) /\
  exists later,
    trace (stateAfter (runTicks Fixture.renderers 2 Fixture.rejecting st')) =
      (trace st' ++ later)%list /\
    Forall (notOfFamily Physical) later.
Proof.
  intros st' notFound.
  destruct (rpc_degradation Fixture.renderers Physical Fixture.rejecting Fixture.started
              ltac:(discriminate)) as (evs & T & Hoff & Hbatch & _).
  change (trace Fixture.started) with (@nil Event) in T, Hoff, Hbatch.
  cbn [app length Nat.add] in T, Hoff, Hbatch. fold st' in T, Hoff.
  rewrite <- T in Hoff, Hbatch.
  assert (H13 : trace st' !! 13%nat = Some (EvClaim Physical "win-bridge-cassa" 5))
    by (vm_compute; reflexivity).
  assert (H17 : trace st' !! 17%nat =
                Some (EvComplete Physical "fiscal-1" false None (Some notFound)))
    by (vm_compute; reflexivity).
  assert (Ha : answersNotFound Physical Fixture.rejecting 17
                 (EvComplete Physical "fiscal-1" false None (Some notFound)) = true)
    by (vm_compute; reflexivity).
  destruct (Hoff 17%nat _ H17 Ha) as (Hflag & _ & _ & Hlater).
  destruct (Hlater 2%nat) as (later & Tl & Pl & _).
  split; [reflexivity|]. split; [exact H13|]. split; [reflexivity|].
  split; [exact H17|]. split; [exact Ha|]. split; [exact Hflag|].
  split.
  - apply (Hbatch 13%nat "win-bridge-cassa" 5 "fiscal-2" H13). vm_compute. auto.
  - exists later. split; [exact Tl | exact Pl].
Defined.
